(** * PicoOSC: a shallow embedding of the OSC codec and dispatcher

    The development follows [PicoOSC.hpp]: the wire primitives, the message
    builder [OSCMessage], the bundle builder [OSCBundle], the zero-copy
    parser [OSCMessageView] with its pattern matcher, and the bundle walk of
    [OSCServer].

    Conventions of the embedding.
    - The target is the RP2040 (the header says "Pico is little-endian" and
      builds on lwIP), an ILP32 machine: [std::size_t] is 32 bits wide and
      every [size_t] operation is written with its wrap-around [size_t].
    - A [char] or [uint8_t] is a [byte]; a fixed array is a list of that many
      elements together with the size field the class keeps next to it.
    - [memcpy] of an integer object is its little-endian object
      representation ([le_split] and [le_combine]).
    - [float] and [double] values are carried as their 32 and 64 bit
      patterns: the code only ever copies and byte-swaps them.
    - A pointer into a buffer is an offset into the list that models the
      memory starting at the buffer pointer; [buffer + pos] passed on as a
      new buffer is [skipn pos buffer].
    - An access outside an array or outside the bytes that exist behind a
      pointer is undefined behaviour in C++; the embedding stops there with
      [Fault].  Loops run on fuel and report [OutOfFuel] when it is used up;
      the theorems show that neither happens where the claims are about. *)

From Stdlib Require Import ZArith List Lia Bool Ascii String.
From coqutil Require Import Byte Word.LittleEndianList Z.bitblast Z.prove_Zeq_bitwise.
Import ListNotations.
Local Open Scope Z_scope.

(** ** Outcomes of running a piece of the program *)

Inductive outcome (A : Type) : Type :=
| Ret (a : A)
| Fault
| OutOfFuel.

Arguments Ret {A} a.
Arguments Fault {A}.
Arguments OutOfFuel {A}.

Definition bind {A B : Type} (c : outcome A) (k : A -> outcome B) : outcome B :=
  match c with
  | Ret a => k a
  | Fault => Fault
  | OutOfFuel => OutOfFuel
  end.

Notation "x <- c ;; k" := (bind c (fun x => k))
  (at level 61, c at next level, right associativity).
Notation "' p <- c ;; k" := (bind c (fun p => k))
  (at level 61, p pattern, c at next level, right associativity).

(** ** Characters, integer types and casts *)

Definition chr (a : ascii) : byte := byte_of_ascii a.
Definition NUL : byte := Byte.x00.

Definition is_nul (c : byte) : bool := Byte.eqb c NUL.

Definition bytes_of (s : string) : list byte := list_byte_of_string s.

Definition size_t (z : Z) : Z := z mod 2 ^ 32.
Definition uint32_t (z : Z) : Z := z mod 2 ^ 32.
Definition int32_t (z : Z) : Z := (z + 2 ^ 31) mod 2 ^ 32 - 2 ^ 31.
Definition uint64_t (z : Z) : Z := z mod 2 ^ 64.
Definition int64_t (z : Z) : Z := (z + 2 ^ 63) mod 2 ^ 64 - 2 ^ 63.
Definition uint16_t (z : Z) : Z := z mod 2 ^ 16.

Definition len {A : Type} (l : list A) : Z := Z.of_nat (List.length l).

(** ** Configuration constants *)

Definition MAX_MESSAGE_SIZE : Z := 1024.
Definition MAX_ADDRESS_SIZE : Z := 256.
Definition MAX_TYPE_TAG_SIZE : Z := 64.
Definition MAX_ARG_BUFFER_SIZE : Z := 768.

(** ** OSC timetag *)

Record OSCTimetag : Type := mkTimetag {
  seconds : Z;
  fractions : Z
}.

Definition immediate : OSCTimetag := mkTimetag 1 0.

(** ** Wire primitives: [swap_endian] *)

(** The 2-byte branch of [swap_endian], before the [static_cast<T>]. *)
Definition swap_endian16 (value : Z) : Z :=
  Z.lor (Z.shiftl (Z.land value 0x00FF) 8) (Z.shiftr (Z.land value 0xFF00) 8).

(** The 4-byte branch of [swap_endian], before the [static_cast<T>]. *)
Definition swap_endian32 (value : Z) : Z :=
  Z.lor (Z.lor (Z.lor (Z.shiftl (Z.land value 0x000000FF) 24)
                      (Z.shiftl (Z.land value 0x0000FF00) 8))
               (Z.shiftr (Z.land value 0x00FF0000) 8))
        (Z.shiftr (Z.land value 0xFF000000) 24).

(** The 8-byte branch of [swap_endian], before the [static_cast<T>]. *)
Definition swap_endian64 (value : Z) : Z :=
  Z.lor (Z.lor (Z.lor (Z.lor (Z.lor (Z.lor (Z.lor
    (Z.shiftl (Z.land value 0x00000000000000FF) 56)
    (Z.shiftl (Z.land value 0x000000000000FF00) 40))
    (Z.shiftl (Z.land value 0x0000000000FF0000) 24))
    (Z.shiftl (Z.land value 0x00000000FF000000) 8))
    (Z.shiftr (Z.land value 0x000000FF00000000) 8))
    (Z.shiftr (Z.land value 0x0000FF0000000000) 24))
    (Z.shiftr (Z.land value 0x00FF000000000000) 40))
    (Z.shiftr (Z.land value 0xFF00000000000000) 56).

Definition swap_endian_int32 (value : Z) : Z := int32_t (swap_endian32 value).
Definition swap_endian_uint32 (value : Z) : Z := uint32_t (swap_endian32 value).
Definition swap_endian_int64 (value : Z) : Z := int64_t (swap_endian64 value).
Definition swap_endian_uint64 (value : Z) : Z := uint64_t (swap_endian64 value).
Definition swap_endian_uint16 (value : Z) : Z := uint16_t (swap_endian16 value).
(** The 1-byte branch returns the value. *)
Definition swap_endian_uint8 (value : Z) : Z := value.

(** [swap_endian_float] and [swap_endian_double] on the bit pattern of the
    value: copy into an unsigned integer, swap, copy back. *)
Definition swap_endian_float (value : Z) : Z :=
  let temp := uint32_t (le_combine (le_split 4 value)) in
  let temp := swap_endian_uint32 temp in
  le_combine (le_split 4 temp).

Definition swap_endian_double (value : Z) : Z :=
  let temp := uint64_t (le_combine (le_split 8 value)) in
  let temp := swap_endian_uint64 temp in
  le_combine (le_split 8 temp).

(** [(x + 3) & ~3] on [size_t]. *)
Definition align4 (x : Z) : Z := Z.land (size_t (x + 3)) (Z.lnot 3).

(** ** Arrays and memory behind a pointer *)

(** [arr[i]] as an rvalue. *)
Definition load {A : Type} (arr : list A) (i : Z) : outcome A :=
  if i <? 0 then Fault
  else match nth_error arr (Z.to_nat i) with
       | Some a => Ret a
       | None => Fault
       end.

(** [arr[i] = a]. *)
Definition store {A : Type} (arr : list A) (i : Z) (a : A) : outcome (list A) :=
  if (0 <=? i) && (i <? len arr)
  then Ret (firstn (Z.to_nat i) arr ++ a :: skipn (S (Z.to_nat i)) arr)
  else Fault.

(** [memcpy(dst + off, src, n)]: [src] is the memory behind the source
    pointer. *)
Definition memcpy (dst : list byte) (off : Z) (src : list byte) (n : Z)
  : outcome (list byte) :=
  if (0 <=? off) && (0 <=? n) && (n <=? len src) && (off + n <=? len dst)
  then Ret (firstn (Z.to_nat off) dst ++ firstn (Z.to_nat n) src
            ++ skipn (Z.to_nat (off + n)) dst)
  else Fault.

(** [n] bytes read from [buffer + pos]. *)
Definition load_bytes (buffer : list byte) (pos : Z) (n : Z) : outcome (list byte) :=
  if (0 <=? pos) && (0 <=? n) && (pos + n <=? len buffer)
  then Ret (firstn (Z.to_nat n) (skipn (Z.to_nat pos) buffer))
  else Fault.

(** [std::strlen]: a C string argument is the list of bytes behind the
    pointer, whose end stands for the terminator. *)
Fixpoint strlen (s : list byte) : Z :=
  match s with
  | [] => 0
  | c :: s' => if is_nul c then 0 else 1 + strlen s'
  end.

(** The memory behind a C string pointer: its bytes and the terminator. *)
Definition c_str (s : list byte) : list byte := s ++ [NUL].

(** [while (n % 4 != 0) arr[n++] = '\0';] *)
Fixpoint pad_zero (fuel : nat) (arr : list byte) (n : Z) : outcome (list byte * Z) :=
  if n mod 4 =? 0 then Ret (arr, n)
  else match fuel with
       | O => OutOfFuel
       | S fuel' => arr' <- store arr n NUL ;; pad_zero fuel' arr' (size_t (n + 1))
       end.

(** ** The UDP client *)

Module OSCClient.

(** A datagram handed to [udp_sendto]: the payload of the pbuf, the
    destination address and the port. *)
Record datagram : Type := mkDatagram {
  dg_payload : list byte;
  dg_addr : Z;
  dg_port : Z
}.

(** lwIP as [send] sees it: whether [pbuf_alloc] returns a pbuf for a size,
    and the [err_t] that [udp_sendto] returns for a datagram. *)
Record lwip : Type := mkLwip {
  pbuf_alloc : Z -> bool;
  udp_sendto : datagram -> Z
}.

Definition ERR_OK : Z := 0.

(** [mPcb] is whether the pointer is not null. *)
Record t : Type := mk {
  mPcb : bool;
  mAddr : Z;
  mPort : Z
}.

(** [send]: the result, and the datagrams handed to [udp_sendto]. *)
Definition send (net : lwip) (buffer : list byte) (size : Z) (c : t)
  : outcome (bool * list datagram) :=
  if negb (mPcb c) then Ret (false, [])
  else if negb (pbuf_alloc net size) then Ret (false, [])
  else
    payload <- load_bytes buffer 0 size ;;
    let d := mkDatagram payload (mAddr c) (mPort c) in
    let error := udp_sendto net d in
    Ret (error =? ERR_OK, [d]).

Definition isValid (c : t) : bool := mPcb c.

End OSCClient.

(** ** The message builder *)

Module OSCMessage.

Record t : Type := mk {
  mAddress : list byte;        (* char mAddress[MAX_ADDRESS_SIZE] *)
  mAddressSize : Z;
  mTypeTags : list byte;       (* char mTypeTags[MAX_TYPE_TAG_SIZE] *)
  mTypeTagCount : Z;
  mArgBuffer : list byte;      (* char mArgBuffer[MAX_ARG_BUFFER_SIZE] *)
  mArgBufferSize : Z
}.

Definition clear : t :=
  mk (repeat NUL (Z.to_nat MAX_ADDRESS_SIZE)) 0
     (repeat NUL (Z.to_nat MAX_TYPE_TAG_SIZE)) 0
     (repeat NUL (Z.to_nat MAX_ARG_BUFFER_SIZE)) 0.

Definition setAddress (address : list byte) (m : t) : outcome (bool * t) :=
  let len := strlen address in
  if len >=? MAX_ADDRESS_SIZE then Ret (false, m)
  else
    a <- memcpy (mAddress m) 0 (c_str address) (size_t (len + 1)) ;;
    ' (a, n) <- pad_zero 3 a (size_t (len + 1)) ;;
    Ret (true, mk a n (mTypeTags m) (mTypeTagCount m) (mArgBuffer m) (mArgBufferSize m)).

Definition canAddArg (bytes : Z) (m : t) : bool :=
  (mTypeTagCount m <? MAX_TYPE_TAG_SIZE - 1)
  && (size_t (mArgBufferSize m + bytes) <=? MAX_ARG_BUFFER_SIZE).

(** [mTypeTags[mTypeTagCount++] = c;] *)
Definition push_tag (c : byte) (m : t) : outcome t :=
  tags <- store (mTypeTags m) (mTypeTagCount m) c ;;
  Ret (mk (mAddress m) (mAddressSize m) tags (size_t (mTypeTagCount m + 1))
          (mArgBuffer m) (mArgBufferSize m)).

(** [mArgBuffer[mArgBufferSize++] = c;] *)
Definition push_arg (c : byte) (m : t) : outcome t :=
  buf <- store (mArgBuffer m) (mArgBufferSize m) c ;;
  Ret (mk (mAddress m) (mAddressSize m) (mTypeTags m) (mTypeTagCount m)
          buf (size_t (mArgBufferSize m + 1))).

(** [std::memcpy(mArgBuffer + mArgBufferSize + off, src, n);] *)
Definition copy_arg (off : Z) (src : list byte) (n : Z) (m : t) : outcome t :=
  buf <- memcpy (mArgBuffer m) (size_t (mArgBufferSize m + off)) src n ;;
  Ret (mk (mAddress m) (mAddressSize m) (mTypeTags m) (mTypeTagCount m)
          buf (mArgBufferSize m)).

(** [mArgBufferSize += n;] *)
Definition advance_arg (n : Z) (m : t) : t :=
  mk (mAddress m) (mAddressSize m) (mTypeTags m) (mTypeTagCount m)
     (mArgBuffer m) (size_t (mArgBufferSize m + n)).

(** [while (mArgBufferSize % 4 != 0) mArgBuffer[mArgBufferSize++] = '\0';] *)
Definition pad_arg (m : t) : outcome t :=
  ' (buf, n) <- pad_zero 3 (mArgBuffer m) (mArgBufferSize m) ;;
  Ret (mk (mAddress m) (mAddressSize m) (mTypeTags m) (mTypeTagCount m) buf n).

Definition addInt (value : Z) (m : t) : outcome (bool * t) :=
  if negb (canAddArg 4 m) then Ret (false, m)
  else
    m <- push_tag (chr "i") m ;;
    let value := swap_endian_int32 value in
    m <- copy_arg 0 (le_split 4 value) 4 m ;;
    Ret (true, advance_arg 4 m).

Definition addFloat (value : Z) (m : t) : outcome (bool * t) :=
  if negb (canAddArg 4 m) then Ret (false, m)
  else
    m <- push_tag (chr "f") m ;;
    let value := swap_endian_float value in
    m <- copy_arg 0 (le_split 4 value) 4 m ;;
    Ret (true, advance_arg 4 m).

Definition addString (value : list byte) (m : t) : outcome (bool * t) :=
  let len := strlen value in
  let paddedLen := Z.land (size_t (size_t (len + 1) + 3)) (Z.lnot 3) in
  if negb (canAddArg paddedLen m) then Ret (false, m)
  else
    m <- push_tag (chr "s") m ;;
    m <- copy_arg 0 (c_str value) (size_t (len + 1)) m ;;
    m <- pad_arg (advance_arg (size_t (len + 1)) m) ;;
    Ret (true, m).

Definition addBlob (data : list byte) (size : Z) (m : t) : outcome (bool * t) :=
  let paddedDataLen := Z.land (size_t (size_t size + 3)) (Z.lnot 3) in
  if negb (canAddArg (size_t (4 + paddedDataLen)) m) then Ret (false, m)
  else
    m <- push_tag (chr "b") m ;;
    let beSize := swap_endian_int32 size in
    m <- copy_arg 0 (le_split 4 beSize) 4 m ;;
    let m := advance_arg 4 m in
    m <- copy_arg 0 data (size_t size) m ;;
    m <- pad_arg (advance_arg size m) ;;
    Ret (true, m).

Definition addInt64 (value : Z) (m : t) : outcome (bool * t) :=
  if negb (canAddArg 8 m) then Ret (false, m)
  else
    m <- push_tag (chr "h") m ;;
    let value := swap_endian_int64 value in
    m <- copy_arg 0 (le_split 8 value) 8 m ;;
    Ret (true, advance_arg 8 m).

Definition addDouble (value : Z) (m : t) : outcome (bool * t) :=
  if negb (canAddArg 8 m) then Ret (false, m)
  else
    m <- push_tag (chr "d") m ;;
    let value := swap_endian_double value in
    m <- copy_arg 0 (le_split 8 value) 8 m ;;
    Ret (true, advance_arg 8 m).

Definition addTimetag (tt : OSCTimetag) (m : t) : outcome (bool * t) :=
  if negb (canAddArg 8 m) then Ret (false, m)
  else
    m <- push_tag (chr "t") m ;;
    let tt := mkTimetag (swap_endian_uint32 (seconds tt)) (fractions tt) in
    let tt := mkTimetag (seconds tt) (swap_endian_uint32 (fractions tt)) in
    m <- copy_arg 0 (le_split 4 (seconds tt)) 4 m ;;
    m <- copy_arg 4 (le_split 4 (fractions tt)) 4 m ;;
    Ret (true, advance_arg 8 m).

(** The four tag-only kinds share their body. *)
Definition addTagOnly (c : byte) (m : t) : outcome (bool * t) :=
  if mTypeTagCount m >=? MAX_TYPE_TAG_SIZE - 1 then Ret (false, m)
  else
    m <- push_tag c m ;;
    Ret (true, m).

Definition addTrue : t -> outcome (bool * t) := addTagOnly (chr "T").
Definition addFalse : t -> outcome (bool * t) := addTagOnly (chr "F").
Definition addNil : t -> outcome (bool * t) := addTagOnly (chr "N").
Definition addInfinitum : t -> outcome (bool * t) := addTagOnly (chr "I").

Definition addMidi (port status data1 data2 : byte) (m : t) : outcome (bool * t) :=
  if negb (canAddArg 4 m) then Ret (false, m)
  else
    m <- push_tag (chr "m") m ;;
    m <- push_arg port m ;;
    m <- push_arg status m ;;
    m <- push_arg data1 m ;;
    m <- push_arg data2 m ;;
    Ret (true, m).

Definition addChar (c : byte) (m : t) : outcome (bool * t) :=
  if negb (canAddArg 4 m) then Ret (false, m)
  else
    m <- push_tag (chr "c") m ;;
    m <- push_arg NUL m ;;
    m <- push_arg NUL m ;;
    m <- push_arg NUL m ;;
    m <- push_arg c m ;;
    Ret (true, m).

Definition addColor (r g b a : byte) (m : t) : outcome (bool * t) :=
  if negb (canAddArg 4 m) then Ret (false, m)
  else
    m <- push_tag (chr "r") m ;;
    m <- push_arg r m ;;
    m <- push_arg g m ;;
    m <- push_arg b m ;;
    m <- push_arg a m ;;
    Ret (true, m).

(** [build]: the number of bytes written (0 on error) and the contents of
    [outBuffer] afterwards. *)
Definition build (m : t) (outBuffer : list byte) (maxSize : Z)
  : outcome (Z * list byte) :=
  let typeTagSize := size_t (size_t (1 + mTypeTagCount m) + 1) in
  let typeTagPadded := Z.land (size_t (typeTagSize + 3)) (Z.lnot 3) in
  let totalSize := size_t (size_t (mAddressSize m + typeTagPadded) + mArgBufferSize m) in
  if (totalSize >? maxSize) || (mAddressSize m =? 0) then Ret (0, outBuffer)
  else
    let pos := 0 in
    out <- memcpy outBuffer pos (mAddress m) (mAddressSize m) ;;
    let pos := size_t (pos + mAddressSize m) in
    out <- store out pos (chr ",") ;;
    let pos := size_t (pos + 1) in
    out <- memcpy out pos (mTypeTags m) (mTypeTagCount m) ;;
    let pos := size_t (pos + mTypeTagCount m) in
    out <- store out pos NUL ;;
    let pos := size_t (pos + 1) in
    ' (out, pos) <- pad_zero 3 out pos ;;
    out <- memcpy out pos (mArgBuffer m) (mArgBufferSize m) ;;
    let pos := size_t (pos + mArgBufferSize m) in
    Ret (pos, out).

(** [send]: [buffer] is a local array; what it holds before [build] writes
    it is indeterminate and taken as zeros here. *)
Definition send (net : OSCClient.lwip) (client : OSCClient.t) (m : t)
  : outcome (bool * list OSCClient.datagram) :=
  let buffer := repeat NUL (Z.to_nat MAX_MESSAGE_SIZE) in
  ' (size, buffer) <- build m buffer MAX_MESSAGE_SIZE ;;
  if size =? 0 then Ret (false, [])
  else OSCClient.send net buffer (uint16_t size) client.

Definition addressSize (m : t) : Z := mAddressSize m.
Definition typeTagCount (m : t) : Z := mTypeTagCount m.
Definition argBufferSize (m : t) : Z := mArgBufferSize m.

End OSCMessage.

(** ** The bundle builder *)

Module OSCBundle.

Definition MAX_BUNDLE_SIZE : Z := 4096.
Definition MAX_MESSAGE_SIZE : Z := 1024.

Record t : Type := mk {
  mBuffer : list byte;         (* char mBuffer[MAX_BUNDLE_SIZE] *)
  mBufferSize : Z
}.

(** The 8 bytes of the literal ["#bundle"], terminator included. *)
Definition header : list byte := c_str (bytes_of "#bundle").

Definition clear : outcome t :=
  let buf := repeat NUL (Z.to_nat MAX_BUNDLE_SIZE) in
  buf <- memcpy buf 0 header 8 ;;
  let n := 8 in
  Ret (mk buf (size_t (n + 8))).

Definition setTimetag (tt : OSCTimetag) (b : t) : outcome t :=
  let seconds := swap_endian_uint32 (seconds tt) in
  let fractions := swap_endian_uint32 (fractions tt) in
  buf <- memcpy (mBuffer b) 8 (le_split 4 seconds) 4 ;;
  buf <- memcpy buf 12 (le_split 4 fractions) 4 ;;
  Ret (mk buf (mBufferSize b)).

(** [msgBuffer] is a local array; what it holds before [build] writes it is
    indeterminate and taken as zeros here. *)
Definition addMessage (msg : OSCMessage.t) (b : t) : outcome (bool * t) :=
  let msgBuffer := repeat NUL (Z.to_nat MAX_MESSAGE_SIZE) in
  ' (msgSize, msgBuffer) <- OSCMessage.build msg msgBuffer (len msgBuffer) ;;
  if msgSize =? 0 then Ret (false, b)
  else if size_t (size_t (mBufferSize b + 4) + msgSize) >? MAX_BUNDLE_SIZE
  then Ret (false, b)
  else
    let beSize := swap_endian_int32 (int32_t msgSize) in
    buf <- memcpy (mBuffer b) (mBufferSize b) (le_split 4 beSize) 4 ;;
    let n := size_t (mBufferSize b + 4) in
    buf <- memcpy buf n msgBuffer msgSize ;;
    let n := size_t (n + msgSize) in
    Ret (true, mk buf n).

Definition data (b : t) : list byte := mBuffer b.
Definition size (b : t) : Z := mBufferSize b.

Definition send (net : OSCClient.lwip) (client : OSCClient.t) (b : t)
  : outcome (bool * list OSCClient.datagram) :=
  OSCClient.send net (mBuffer b) (uint16_t (mBufferSize b)) client.

End OSCBundle.

(** ** The parsed message view *)

Module OSCMessageView.

(** A [const char*] or [const uint8_t*] member: null, the empty string
    literal, or a pointer into the parsed buffer. *)
Inductive ptr : Type :=
| nullptr
| empty_literal
| at_offset (off : Z).

(** The anonymous union of [OSCArg], as the member written last. *)
Inductive payload : Type :=
| u_indeterminate
| u_i (i : Z)
| u_f (f : Z)
| u_h (h : Z)
| u_d (d : Z)
| u_t (t : OSCTimetag)
| u_midi (port status data1 data2 : byte)
| u_color (r g b a : byte)
| u_c (c : byte).

Record OSCArg : Type := mkArg {
  type : byte;
  u : payload;
  s : ptr;
  blobData : ptr;
  blobSize : Z
}.

Definition MAX_ARGS : Z := 64.

Record t : Type := mk {
  mAddress : ptr;
  mTypeTags : ptr;
  mArgs : list OSCArg;         (* OSCArg mArgs[MAX_ARGS] *)
  mArgCount : Z
}.

Definition clear (v : t) : t := mk nullptr nullptr (mArgs v) 0.

(** A default-constructed view; the elements of [mArgs] are indeterminate. *)
Definition indeterminate : OSCArg := mkArg NUL u_indeterminate nullptr nullptr 0.
Definition fresh : t :=
  clear (mk nullptr nullptr (repeat indeterminate (Z.to_nat MAX_ARGS)) 0).

(** [while (pos < size && buffer[pos] != '\0') pos++;] *)
Fixpoint scan (fuel : nat) (buffer : list byte) (size pos : Z) : outcome Z :=
  if pos <? size then
    c <- load buffer pos ;;
    if negb (is_nul c) then
      match fuel with
      | O => OutOfFuel
      | S fuel' => scan fuel' buffer size (size_t (pos + 1))
      end
    else Ret pos
  else Ret pos.

Definition set_u (arg : OSCArg) (x : payload) : OSCArg :=
  mkArg (type arg) x (s arg) (blobData arg) (blobSize arg).

(** The [switch] on the tag in the argument loop: [false] stands for
    [return false], together with the position and the argument slot as the
    case leaves them. *)
Definition decode (c : byte) (buffer : list byte) (size pos : Z) (arg : OSCArg)
  : outcome (bool * Z * OSCArg) :=
  if Byte.eqb c (chr "i") then
    if size_t (pos + 4) >? size then Ret (false, pos, arg)
    else
      bs <- load_bytes buffer pos 4 ;;
      let i := int32_t (le_combine bs) in
      let i := swap_endian_int32 i in
      Ret (true, size_t (pos + 4), set_u arg (u_i i))
  else if Byte.eqb c (chr "f") then
    if size_t (pos + 4) >? size then Ret (false, pos, arg)
    else
      bs <- load_bytes buffer pos 4 ;;
      let f := le_combine bs in
      let f := swap_endian_float f in
      Ret (true, size_t (pos + 4), set_u arg (u_f f))
  else if Byte.eqb c (chr "s") || Byte.eqb c (chr "S") then
    let arg := mkArg (type arg) (u arg) (at_offset pos) (blobData arg) (blobSize arg) in
    pos <- scan (Z.to_nat size) buffer size pos ;;
    if pos >=? size then Ret (false, pos, arg)
    else
      let pos := size_t (pos + 1) in
      let pos := align4 pos in
      Ret (true, pos, arg)
  else if Byte.eqb c (chr "b") then
    if size_t (pos + 4) >? size then Ret (false, pos, arg)
    else
      bs <- load_bytes buffer pos 4 ;;
      let n := int32_t (le_combine bs) in
      let n := swap_endian_int32 n in
      let arg := mkArg (type arg) (u arg) (s arg) (blobData arg) n in
      let pos := size_t (pos + 4) in
      if size_t (pos + size_t n) >? size then Ret (false, pos, arg)
      else
        let arg := mkArg (type arg) (u arg) (s arg) (at_offset pos) (blobSize arg) in
        let pos := size_t (pos + size_t n) in
        let pos := align4 pos in
        Ret (true, pos, arg)
  else if Byte.eqb c (chr "h") then
    if size_t (pos + 8) >? size then Ret (false, pos, arg)
    else
      bs <- load_bytes buffer pos 8 ;;
      let h := int64_t (le_combine bs) in
      let h := swap_endian_int64 h in
      Ret (true, size_t (pos + 8), set_u arg (u_h h))
  else if Byte.eqb c (chr "d") then
    if size_t (pos + 8) >? size then Ret (false, pos, arg)
    else
      bs <- load_bytes buffer pos 8 ;;
      let d := le_combine bs in
      let d := swap_endian_double d in
      Ret (true, size_t (pos + 8), set_u arg (u_d d))
  else if Byte.eqb c (chr "t") then
    if size_t (pos + 8) >? size then Ret (false, pos, arg)
    else
      bs <- load_bytes buffer pos 4 ;;
      let sec := uint32_t (le_combine bs) in
      bs <- load_bytes buffer (size_t (pos + 4)) 4 ;;
      let frac := uint32_t (le_combine bs) in
      let sec := swap_endian_uint32 sec in
      let frac := swap_endian_uint32 frac in
      Ret (true, size_t (pos + 8), set_u arg (u_t (mkTimetag sec frac)))
  else if Byte.eqb c (chr "m") then
    if size_t (pos + 4) >? size then Ret (false, pos, arg)
    else
      port <- load buffer pos ;;
      status <- load buffer (size_t (pos + 1)) ;;
      data1 <- load buffer (size_t (pos + 2)) ;;
      data2 <- load buffer (size_t (pos + 3)) ;;
      Ret (true, size_t (pos + 4), set_u arg (u_midi port status data1 data2))
  else if Byte.eqb c (chr "c") then
    if size_t (pos + 4) >? size then Ret (false, pos, arg)
    else
      c <- load buffer (size_t (pos + 3)) ;;
      Ret (true, size_t (pos + 4), set_u arg (u_c c))
  else if Byte.eqb c (chr "r") then
    if size_t (pos + 4) >? size then Ret (false, pos, arg)
    else
      r <- load buffer pos ;;
      g <- load buffer (size_t (pos + 1)) ;;
      b <- load buffer (size_t (pos + 2)) ;;
      a <- load buffer (size_t (pos + 3)) ;;
      Ret (true, size_t (pos + 4), set_u arg (u_color r g b a))
  else if Byte.eqb c (chr "T") || Byte.eqb c (chr "F")
          || Byte.eqb c (chr "N") || Byte.eqb c (chr "I") then
    Ret (true, pos, arg)
  else
    Ret (true, pos, arg).

(** The argument loop, which runs while [*types] is not the terminator and
    [mArgCount < MAX_ARGS], followed by [return true]; [types] is an offset
    into the buffer. *)
Fixpoint parse_args (fuel : nat) (buffer : list byte) (size types pos : Z) (v : t)
  : outcome (bool * t) :=
  c <- load buffer types ;;
  if negb (is_nul c) && (mArgCount v <? MAX_ARGS) then
    match fuel with
    | O => OutOfFuel
    | S fuel' =>
        arg <- load (mArgs v) (mArgCount v) ;;
        let arg := mkArg c (u arg) nullptr nullptr (blobSize arg) in
        ' (ok, pos, arg) <- decode c buffer size pos arg ;;
        args <- store (mArgs v) (mArgCount v) arg ;;
        let v := mk (mAddress v) (mTypeTags v) args (mArgCount v) in
        if negb ok then Ret (false, v)
        else
          let v := mk (mAddress v) (mTypeTags v) (mArgs v) (size_t (mArgCount v + 1)) in
          parse_args fuel' buffer size (types + 1) pos v
    end
  else Ret (true, v).

Definition parse (buffer : list byte) (size : Z) (v : t) : outcome (bool * t) :=
  let v := clear v in
  bad <- (if size <? 4 then Ret true
          else c <- load buffer 0 ;; Ret (negb (Byte.eqb c (chr "/")))) ;;
  if bad then Ret (false, v)
  else
    let pos := 0 in
    let v := mk (at_offset 0) (mTypeTags v) (mArgs v) (mArgCount v) in
    pos <- scan (Z.to_nat size) buffer size pos ;;
    if pos >=? size then Ret (false, v)
    else
      let pos := size_t (pos + 1) in
      let pos := align4 pos in
      noTags <- (if pos >=? size then Ret true
                 else c <- load buffer pos ;; Ret (negb (Byte.eqb c (chr ",")))) ;;
      if noTags then Ret (true, mk (mAddress v) empty_literal (mArgs v) (mArgCount v))
      else
        let types := pos + 1 in
        let v := mk (mAddress v) (at_offset types) (mArgs v) (mArgCount v) in
        pos <- scan (Z.to_nat size) buffer size pos ;;
        if pos >=? size then Ret (false, v)
        else
          let pos := size_t (pos + 1) in
          let pos := align4 pos in
          parse_args (Z.to_nat MAX_ARGS) buffer size types pos v.

Definition address (v : t) : ptr := mAddress v.
Definition typeTags (v : t) : ptr := mTypeTags v.
Definition argCount (v : t) : Z := mArgCount v.

(** [arg(index)]: [None] is the null pointer. *)
Definition arg (index : Z) (v : t) : option OSCArg :=
  if (0 <=? index) && (index <? mArgCount v)
  then nth_error (mArgs v) (Z.to_nat index)
  else None.

Definition getInt (index : Z) (defaultVal : Z) (v : t) : Z :=
  match arg index v with
  | Some a => if Byte.eqb (type a) (chr "i")
              then match u a with u_i i => i | _ => defaultVal end
              else defaultVal
  | None => defaultVal
  end.

Definition getBool (index : Z) (defaultVal : bool) (v : t) : bool :=
  match arg index v with
  | None => defaultVal
  | Some a => if Byte.eqb (type a) (chr "T") then true
              else if Byte.eqb (type a) (chr "F") then false
              else defaultVal
  end.

(** The loop that steps [pattern] over a run of stars. *)
Fixpoint skip_stars (pattern : list byte) : list byte :=
  match pattern with
  | p :: pattern' => if Byte.eqb p (chr "*") then skip_stars pattern' else pattern
  | [] => []
  end.

(** The two statements after the main loop of [matchPattern]. *)
Definition match_end (pattern str : list byte) : bool :=
  let pattern := skip_stars pattern in
  is_nul (hd NUL pattern) && is_nul (hd NUL str).

(** [matchPattern(pattern, str)]: both strings are the bytes behind the
    pointers, the end of a list standing for the terminator. *)
Fixpoint matchPattern (pattern str : list byte) {struct pattern} : bool :=
  match pattern, str with
  | p :: pattern', c :: str' =>
      if is_nul p || is_nul c then match_end pattern str
      else if Byte.eqb p (chr "*") then
        if is_nul (hd NUL pattern') then true
        else
          (fix each_suffix (str : list byte) : bool :=
             match str with
             | [] => false
             | c :: str' =>
                 if is_nul c then false
                 else if matchPattern pattern' (c :: str') then true
                 else each_suffix str'
             end) str
      else if Byte.eqb p (chr "?") || Byte.eqb p c then matchPattern pattern' str'
      else false
  | _, _ => match_end pattern str
  end.

Definition getFloat (index : Z) (defaultVal : Z) (v : t) : Z :=
  match arg index v with
  | Some a => if Byte.eqb (type a) (chr "f")
              then match u a with u_f f => f | _ => defaultVal end
              else defaultVal
  | None => defaultVal
  end.

Definition is_null (p : ptr) : bool :=
  match p with nullptr => true | _ => false end.

Definition getString (index : Z) (defaultVal : ptr) (v : t) : ptr :=
  match arg index v with
  | Some a => if (Byte.eqb (type a) (chr "s") || Byte.eqb (type a) (chr "S"))
                 && negb (is_null (s a))
              then s a else defaultVal
  | None => defaultVal
  end.

(** [matchAddress(pattern)]: [pattern] is [None] for a null pointer, and
    [buffer] is the memory the view points into. *)
Definition matchAddress (buffer : list byte) (pattern : option (list byte)) (v : t)
  : bool :=
  match mAddress v, pattern with
  | nullptr, _ => false
  | _, None => false
  | empty_literal, Some pattern => matchPattern pattern []
  | at_offset off, Some pattern => matchPattern pattern (skipn (Z.to_nat off) buffer)
  end.

End OSCMessageView.

(** ** The bundle walk of the server *)

Module OSCServer.

(** One invocation of the registered callback: the buffer the view points
    into and the view. *)
Record call : Type := mkCall {
  call_buffer : list byte;
  call_msg : OSCMessageView.t
}.

Definition bytes_eqb (a b : list byte) : bool :=
  (List.length a =? List.length b)%nat && forallb (fun p => Byte.eqb (fst p) (snd p)) (combine a b).

(** [std::memcmp(p, "#bundle", 7) == 0] *)
Definition memcmp_bundle (p : list byte) : outcome bool :=
  bs <- load_bytes p 0 7 ;;
  Ret (bytes_eqb bs (bytes_of "#bundle")).

(** The loop of [parseBundle] from position [pos]; the calls made, in
    order. *)
Fixpoint parseBundle_from (fuel : nat) (buffer : list byte) (size pos : Z)
  : outcome (list call) :=
  if size_t (pos + 4) <=? size then
    match fuel with
    | O => OutOfFuel
    | S fuel' =>
        bs <- load_bytes buffer pos 4 ;;
        let elemSize := int32_t (le_combine bs) in
        let elemSize := swap_endian_int32 elemSize in
        let pos := size_t (pos + 4) in
        if (elemSize <=? 0) || (size_t (pos + size_t elemSize) >? size) then Ret []
        else
          let elemData := skipn (Z.to_nat pos) buffer in
          nested <- (if size_t elemSize >=? 8 then memcmp_bundle elemData
                     else Ret false) ;;
          calls <- (if nested then parseBundle_from fuel' elemData (size_t elemSize) 16
                    else
                      ' (ok, msg) <- OSCMessageView.parse elemData (size_t elemSize)
                                       OSCMessageView.fresh ;;
                      Ret (if ok then [mkCall elemData msg] else [])) ;;
          rest <- parseBundle_from fuel' buffer size (size_t (pos + size_t elemSize)) ;;
          Ret (calls ++ rest)
    end
  else Ret [].

Definition parseBundle (buffer : list byte) (size : Z) : outcome (list call) :=
  let pos := 16 in
  parseBundle_from (Z.to_nat size) buffer size pos.

(** The part of [udpRecvCallback] after the datagram has been copied into
    [buffer]. *)
Definition receive (buffer : list byte) (totalLen : Z) : outcome (list call) :=
  isBundle <- (if totalLen >=? 8 then memcmp_bundle buffer else Ret false) ;;
  if isBundle then parseBundle buffer totalLen
  else
    ' (ok, msg) <- OSCMessageView.parse buffer totalLen OSCMessageView.fresh ;;
    Ret (if ok then [mkCall buffer msg] else []).

(** A pbuf of a chain: the memory behind [payload] and [len]; the chain
    itself is the list of its pbufs, the empty list for a null pointer. *)
Record pbuf : Type := mkPbuf {
  payload : list byte;
  pbuf_len : Z
}.

(** The loop of [udpRecvCallback] that copies the chain into [buffer]. *)
Fixpoint copy_chain (q : list pbuf) (buffer : list byte) (totalLen : Z)
  : outcome (list byte * Z) :=
  match q with
  | [] => Ret (buffer, totalLen)
  | q0 :: next =>
      if totalLen <? MAX_MESSAGE_SIZE then
        let copyLen := size_t (pbuf_len q0) in
        let copyLen := if size_t (totalLen + copyLen) >? MAX_MESSAGE_SIZE
                       then size_t (MAX_MESSAGE_SIZE - totalLen) else copyLen in
        buffer <- memcpy buffer totalLen (payload q0) copyLen ;;
        let totalLen := size_t (totalLen + copyLen) in
        copy_chain next buffer totalLen
      else Ret (buffer, totalLen)
  end.

(** The members of the server [udpRecvCallback] reads; [mCallback] is
    whether the function pointer is not null. *)
Record t : Type := mk {
  mCallback : bool
}.

(** [udpRecvCallback]: [arg] is [None] for a null server pointer, [p] the
    chain received, [buffer] the local array with what it holds at entry;
    the calls of the callback, in order. *)
Definition udpRecvCallback (arg : option t) (p : list pbuf) (buffer : list byte)
  : outcome (list call) :=
  match arg, p with
  | Some server, _ :: _ =>
      if negb (mCallback server) then Ret []
      else
        let totalLen := 0 in
        ' (buffer, totalLen) <- copy_chain p buffer totalLen ;;
        receive buffer totalLen
  | _, _ => Ret []
  end.

End OSCServer.

(** * Notions used to state the properties *)

(** The characters of a C string: the bytes before the first terminator. *)
Fixpoint chars (s : list byte) : list byte :=
  match s with
  | [] => []
  | c :: s' => if is_nul c then [] else c :: chars s'
  end.

(** Glob matching of a whole address against a whole pattern, as the design
    describes it: a star stands for any run of characters, a question mark
    for exactly one, any other character for itself, and both strings end
    together. *)
Inductive glob : list byte -> list byte -> Prop :=
| glob_end : glob [] []
| glob_star_none p s : glob p s -> glob (chr "*" :: p) s
| glob_star_some p c s : glob (chr "*" :: p) s -> glob (chr "*" :: p) (c :: s)
| glob_one p c s : glob p s -> glob (chr "?" :: p) (c :: s)
| glob_same p c s : c <> chr "*" -> glob p s -> glob (c :: p) (c :: s).

(** An argument handed to the message builder, one constructor for each
    append operation. *)
Inductive argument : Type :=
| Int (value : Z)
| Float (value : Z)
| Str (value : list byte)
| Blob (data : list byte) (size : Z)
| Int64 (value : Z)
| Double (value : Z)
| Timetag (t : OSCTimetag)
| True_
| False_
| Nil
| Infinitum
| Midi (port status data1 data2 : byte)
| Char (c : byte)
| Color (r g b a : byte).

(** The append operation of an argument. *)
Definition add (a : argument) : OSCMessage.t -> outcome (bool * OSCMessage.t) :=
  match a with
  | Int v => OSCMessage.addInt v
  | Float v => OSCMessage.addFloat v
  | Str v => OSCMessage.addString v
  | Blob data size => OSCMessage.addBlob data size
  | Int64 v => OSCMessage.addInt64 v
  | Double v => OSCMessage.addDouble v
  | Timetag t => OSCMessage.addTimetag t
  | True_ => OSCMessage.addTrue
  | False_ => OSCMessage.addFalse
  | Nil => OSCMessage.addNil
  | Infinitum => OSCMessage.addInfinitum
  | Midi port status data1 data2 => OSCMessage.addMidi port status data1 data2
  | Char c => OSCMessage.addChar c
  | Color r g b a => OSCMessage.addColor r g b a
  end.

(** The values the parameter types of the append operations admit: the
    ranges of [int32_t], [int64_t] and [uint32_t], the bit patterns of
    [float] and [double], and strings that fit in the address space. *)
Definition typed (a : argument) : Prop :=
  match a with
  | Int v => - 2 ^ 31 <= v < 2 ^ 31
  | Float v => 0 <= v < 2 ^ 32
  | Str v => strlen v < 2 ^ 31
  | Blob _ size => - 2 ^ 31 <= size < 2 ^ 31
  | Int64 v => - 2 ^ 63 <= v < 2 ^ 63
  | Double v => 0 <= v < 2 ^ 64
  | Timetag t => 0 <= seconds t < 2 ^ 32 /\ 0 <= fractions t < 2 ^ 32
  | _ => True
  end.

(** The type tag of an argument. *)
Definition tag (a : argument) : byte :=
  match a with
  | Int _ => chr "i"
  | Float _ => chr "f"
  | Str _ => chr "s"
  | Blob _ _ => chr "b"
  | Int64 _ => chr "h"
  | Double _ => chr "d"
  | Timetag _ => chr "t"
  | True_ => chr "T"
  | False_ => chr "F"
  | Nil => chr "N"
  | Infinitum => chr "I"
  | Midi _ _ _ _ => chr "m"
  | Char _ => chr "c"
  | Color _ _ _ _ => chr "r"
  end.

(** The number of payload bytes of an argument on the wire, by the table of
    the data model. *)
Definition payload_size (a : argument) : Z :=
  match a with
  | Int _ | Float _ | Midi _ _ _ _ | Char _ | Color _ _ _ _ => 4
  | Int64 _ | Double _ | Timetag _ => 8
  | Str v => 4 * ((strlen v + 1 + 3) / 4)
  | Blob _ size => 4 + 4 * ((size + 3) / 4)
  | True_ | False_ | Nil | Infinitum => 0
  end.

(** An integer of [n] bytes in network byte order. *)
Definition big_endian (n : nat) (v : Z) : list byte := rev (le_split n v).

(** The payload bytes of an argument on the wire, by the table of the data
    model. *)
Definition wire (a : argument) : list byte :=
  match a with
  | Int v => big_endian 4 v
  | Float v => big_endian 4 v
  | Str v => chars v ++ repeat NUL (Z.to_nat (payload_size a - strlen v))
  | Blob data size =>
      big_endian 4 size ++ firstn (Z.to_nat size) data
      ++ repeat NUL (Z.to_nat (payload_size a - 4 - size))
  | Int64 v => big_endian 8 v
  | Double v => big_endian 8 v
  | Timetag t => big_endian 4 (seconds t) ++ big_endian 4 (fractions t)
  | True_ | False_ | Nil | Infinitum => []
  | Midi port status data1 data2 => [port; status; data1; data2]
  | Char c => [NUL; NUL; NUL; c]
  | Color r g b a => [r; g; b; a]
  end.

(** What the builder has accumulated: the used parts of its three arrays. *)
Definition address_of (m : OSCMessage.t) : list byte :=
  firstn (Z.to_nat (OSCMessage.mAddressSize m)) (OSCMessage.mAddress m).
Definition tags_of (m : OSCMessage.t) : list byte :=
  firstn (Z.to_nat (OSCMessage.mTypeTagCount m)) (OSCMessage.mTypeTags m).
Definition payload_of (m : OSCMessage.t) : list byte :=
  firstn (Z.to_nat (OSCMessage.mArgBufferSize m)) (OSCMessage.mArgBuffer m).

(** The states of a builder object: arrays of the declared sizes and size
    fields within them, the argument bytes a whole number of words. *)
Definition wf (m : OSCMessage.t) : Prop :=
  len (OSCMessage.mAddress m) = MAX_ADDRESS_SIZE
  /\ len (OSCMessage.mTypeTags m) = MAX_TYPE_TAG_SIZE
  /\ len (OSCMessage.mArgBuffer m) = MAX_ARG_BUFFER_SIZE
  /\ 0 <= OSCMessage.mAddressSize m <= MAX_ADDRESS_SIZE
  /\ 0 <= OSCMessage.mTypeTagCount m <= MAX_TYPE_TAG_SIZE
  /\ 0 <= OSCMessage.mArgBufferSize m <= MAX_ARG_BUFFER_SIZE
  /\ OSCMessage.mArgBufferSize m mod 4 = 0.

(** The source of a blob holds the bytes the call says it does. *)
Definition source_ok (a : argument) : Prop :=
  match a with
  | Blob data size => 0 <= size <= len data
  | _ => True
  end.

(** A well-formed argument: its values are of the parameter types, a
    string holds no terminator of its own, and a blob is handed over with
    its own length. *)
Definition proper (a : argument) : Prop :=
  typed a
  /\ match a with
     | Str v => Forall (fun c => c <> NUL) v
     | Blob data size => size = len data
     | _ => True
     end.

(** A string on the wire: terminated, then padded with zero bytes to a
    multiple of 4. *)
Definition padded (s : list byte) : list byte :=
  s ++ repeat NUL (Z.to_nat (4 * ((len s + 1 + 3) / 4) - len s)).

(** A message on the wire, by the data model: the address, the type-tag
    string with its comma, and the payloads, in that order. *)
Definition message (address : list byte) (args : list argument) : list byte :=
  padded address ++ padded (chr "," :: map tag args) ++ List.concat (map wire args).

(** Appending the arguments one after the other, up to the first that is
    refused. *)
Fixpoint add_all (args : list argument) (m : OSCMessage.t)
  : outcome (bool * OSCMessage.t) :=
  match args with
  | [] => Ret (true, m)
  | a :: args' =>
      ' (ok, m) <- add a m ;;
      if ok then add_all args' m else Ret (false, m)
  end.

(** A message assembled with the builder: a cleared builder, the address,
    then the arguments. *)
Definition assemble (address : list byte) (args : list argument)
  : outcome (bool * OSCMessage.t) :=
  ' (ok, m) <- OSCMessage.setAddress address OSCMessage.clear ;;
  if ok then add_all args m else Ret (false, m).

(** The C string a pointer member of a view designates in the parsed
    buffer. *)
Definition string_at (buffer : list byte) (p : OSCMessageView.ptr)
  : option (list byte) :=
  match p with
  | OSCMessageView.nullptr => None
  | OSCMessageView.empty_literal => Some []
  | OSCMessageView.at_offset off =>
      if off <? 0 then None else Some (chars (skipn (Z.to_nat off) buffer))
  end.

(** The argument a callback reads from a slot of a view: the member of the
    union that goes with the type tag, the string behind [s], the
    [blobSize] bytes behind [blobData]. *)
Definition observe (buffer : list byte) (a : OSCMessageView.OSCArg)
  : option argument :=
  let c := OSCMessageView.type a in
  if Byte.eqb c (chr "i") then
    match OSCMessageView.u a with OSCMessageView.u_i v => Some (Int v) | _ => None end
  else if Byte.eqb c (chr "f") then
    match OSCMessageView.u a with OSCMessageView.u_f v => Some (Float v) | _ => None end
  else if Byte.eqb c (chr "s") then
    match string_at buffer (OSCMessageView.s a) with
    | Some v => Some (Str v)
    | None => None
    end
  else if Byte.eqb c (chr "b") then
    match OSCMessageView.blobData a with
    | OSCMessageView.at_offset off =>
        let n := OSCMessageView.blobSize a in
        if (0 <=? off) && (0 <=? n) && (off + n <=? len buffer)
        then Some (Blob (firstn (Z.to_nat n) (skipn (Z.to_nat off) buffer)) n)
        else None
    | _ => None
    end
  else if Byte.eqb c (chr "h") then
    match OSCMessageView.u a with OSCMessageView.u_h v => Some (Int64 v) | _ => None end
  else if Byte.eqb c (chr "d") then
    match OSCMessageView.u a with OSCMessageView.u_d v => Some (Double v) | _ => None end
  else if Byte.eqb c (chr "t") then
    match OSCMessageView.u a with OSCMessageView.u_t v => Some (Timetag v) | _ => None end
  else if Byte.eqb c (chr "T") then Some True_
  else if Byte.eqb c (chr "F") then Some False_
  else if Byte.eqb c (chr "N") then Some Nil
  else if Byte.eqb c (chr "I") then Some Infinitum
  else if Byte.eqb c (chr "m") then
    match OSCMessageView.u a with
    | OSCMessageView.u_midi p st d1 d2 => Some (Midi p st d1 d2)
    | _ => None
    end
  else if Byte.eqb c (chr "c") then
    match OSCMessageView.u a with OSCMessageView.u_c v => Some (Char v) | _ => None end
  else if Byte.eqb c (chr "r") then
    match OSCMessageView.u a with
    | OSCMessageView.u_color r g b al => Some (Color r g b al)
    | _ => None
    end
  else None.

(** The arguments a callback reads from a view, in order. *)
Definition observed (buffer : list byte) (v : OSCMessageView.t)
  : list (option argument) :=
  map (observe buffer)
      (firstn (Z.to_nat (OSCMessageView.mArgCount v)) (OSCMessageView.mArgs v)).

(** The largest size an object can have on the target. *)
Definition PTRDIFF_MAX : Z := 2 ^ 31 - 1.

(** A message that can go into a bundle: what the round trip asks of its
    address and arguments, and a serialized size within the message buffer
    of [addMessage]. *)
Definition sendable (spec : list byte * list argument) : Prop :=
  hd NUL (fst spec) = chr "/"
  /\ Forall (fun c => c <> NUL) (fst spec)
  /\ len (fst spec) < MAX_ADDRESS_SIZE
  /\ Forall proper (snd spec)
  /\ len (snd spec) <= MAX_TYPE_TAG_SIZE - 1
  /\ len (List.concat (map wire (snd spec))) <= MAX_ARG_BUFFER_SIZE
  /\ len (message (fst spec) (snd spec)) <= OSCBundle.MAX_MESSAGE_SIZE.

(** An element of a bundle on the wire: the size in network byte order,
    then that many bytes. *)
Definition element (spec : list byte * list argument) : list byte :=
  big_endian 4 (len (message (fst spec) (snd spec)))
  ++ message (fst spec) (snd spec).

(** Adding messages to a bundle one after the other, up to the first that
    is refused. *)
Fixpoint add_messages (msgs : list OSCMessage.t) (b : OSCBundle.t)
  : outcome (bool * OSCBundle.t) :=
  match msgs with
  | [] => Ret (true, b)
  | m :: msgs' =>
      ' (ok, b) <- OSCBundle.addMessage m b ;;
      if ok then add_messages msgs' b else Ret (false, b)
  end.

(** What a callback reads from the view it is called with: the address,
    the type tags and the arguments. *)
Definition seen (c : OSCServer.call)
  : option (list byte) * option (list byte) * list (option argument) :=
  (string_at (OSCServer.call_buffer c) (OSCMessageView.address (OSCServer.call_msg c)),
   string_at (OSCServer.call_buffer c) (OSCMessageView.typeTags (OSCServer.call_msg c)),
   observed (OSCServer.call_buffer c) (OSCServer.call_msg c)).

(** The same for a message as it was handed to the builder. *)
Definition sent (spec : list byte * list argument)
  : option (list byte) * option (list byte) * list (option argument) :=
  (Some (fst spec), Some (map tag (snd spec)), map Some (snd spec)).

(** Two buffers with the same first [size] bytes. *)
Definition same_upto (size : Z) (b1 b2 : list byte) : Prop :=
  size <= len b1 /\ size <= len b2
  /\ firstn (Z.to_nat size) b1 = firstn (Z.to_nat size) b2.

(** Two runs that both return, with the same result, which satisfies
    [P]. *)
Definition agree {A : Type} (x y : outcome A) (P : A -> Prop) : Prop :=
  exists r, x = Ret r /\ y = Ret r /\ P r.

(** The blob an argument slot refers to starts and ends within the first
    [size] bytes of the buffer. *)
Definition blob_within (size : Z) (a : OSCMessageView.OSCArg) : Prop :=
  forall off,
    OSCMessageView.blobData a = OSCMessageView.at_offset off ->
    0 <= off <= size /\ 0 <= off + OSCMessageView.blobSize a <= size.

(** The blobs of the argument slots of a view that are in use are within
    the first [size] bytes. *)
Definition slots_within (size : Z) (v : OSCMessageView.t) : Prop :=
  Forall (blob_within size)
         (firstn (Z.to_nat (OSCMessageView.mArgCount v)) (OSCMessageView.mArgs v))
  /\ len (OSCMessageView.mArgs v) = OSCMessageView.MAX_ARGS
  /\ 0 <= OSCMessageView.mArgCount v <= OSCMessageView.MAX_ARGS.

(** The number of bytes the bounds check of a tag asks for, for the tags
    that have one. *)
Definition width (c : byte) : option Z :=
  if Byte.eqb c (chr "i") then Some 4
  else if Byte.eqb c (chr "f") then Some 4
  else if Byte.eqb c (chr "s") || Byte.eqb c (chr "S") then None
  else if Byte.eqb c (chr "b") then Some 4
  else if Byte.eqb c (chr "h") then Some 8
  else if Byte.eqb c (chr "d") then Some 8
  else if Byte.eqb c (chr "t") then Some 8
  else if Byte.eqb c (chr "m") then Some 4
  else if Byte.eqb c (chr "c") then Some 4
  else if Byte.eqb c (chr "r") then Some 4
  else None.

(** The type tags the argument loop has a case for. *)
Definition known : list byte := bytes_of "ifsSbhdtmcrTFNI".

(** The size an element of a bundle declares, read at [pos]. *)
Definition element_size (buffer : list byte) (pos : Z) : Z :=
  swap_endian_int32 (int32_t (le_combine (firstn 4 (skipn (Z.to_nat pos) buffer)))).

(** The test the walk makes on an element to take it for a nested bundle:
    at least 8 bytes, the first 7 of them those of [#bundle]. *)
Definition taken_as_bundle (elemData : list byte) (elemSize : Z) : bool :=
  (8 <=? elemSize) && OSCServer.bytes_eqb (firstn 7 elemData) (bytes_of "#bundle").

(** The test of the design: the first 8 bytes are the bundle magic, the
    terminator included. *)
Definition starts_with_magic (elemData : list byte) : bool :=
  OSCServer.bytes_eqb (firstn 8 elemData) OSCBundle.header.

(** The calls the walk of a bundle makes from [pos] on: it ends where no
    size field is left or the declared size is not positive or goes past
    the end; an element taken as a bundle is walked from its offset 16; any
    other element is parsed as a message, and the callback is called if
    that succeeds. *)
Inductive dispatched : list byte -> Z -> Z -> list OSCServer.call -> Prop :=
| dispatched_end buffer size pos :
    size < pos + 4 -> dispatched buffer size pos []
| dispatched_stop buffer size pos :
    pos + 4 <= size ->
    element_size buffer pos <= 0 \/ size < pos + 4 + element_size buffer pos ->
    dispatched buffer size pos []
| dispatched_nested buffer size pos calls rest :
    pos + 4 <= size ->
    0 < element_size buffer pos -> pos + 4 + element_size buffer pos <= size ->
    taken_as_bundle (skipn (Z.to_nat (pos + 4)) buffer) (element_size buffer pos) = true ->
    dispatched (skipn (Z.to_nat (pos + 4)) buffer) (element_size buffer pos) 16 calls ->
    dispatched buffer size (pos + 4 + element_size buffer pos) rest ->
    dispatched buffer size pos (calls ++ rest)
| dispatched_message buffer size pos ok msg rest :
    pos + 4 <= size ->
    0 < element_size buffer pos -> pos + 4 + element_size buffer pos <= size ->
    taken_as_bundle (skipn (Z.to_nat (pos + 4)) buffer) (element_size buffer pos) = false ->
    OSCMessageView.parse (skipn (Z.to_nat (pos + 4)) buffer) (element_size buffer pos)
                         OSCMessageView.fresh = Ret (ok, msg) ->
    dispatched buffer size (pos + 4 + element_size buffer pos) rest ->
    dispatched buffer size pos
               ((if ok then [OSCServer.mkCall (skipn (Z.to_nat (pos + 4)) buffer) msg]
                 else []) ++ rest).

(** Builder states reached from a cleared builder by calls of [setAddress]
    and of the append operations, with arguments of their parameter types
    and blob sources that hold the bytes the call says they do. *)
Inductive built : OSCMessage.t -> Prop :=
| built_clear : built OSCMessage.clear
| built_setAddress address m ok m' :
    built m -> OSCMessage.setAddress address m = Ret (ok, m') -> built m'
| built_add a m ok m' :
    built m -> typed a -> source_ok a -> add a m = Ret (ok, m') -> built m'.

(** The number of bytes [build] computes for a builder state. *)
Definition total_size (m : OSCMessage.t) : Z :=
  OSCMessage.mAddressSize m + 4 * ((OSCMessage.mTypeTagCount m + 2 + 3) / 4)
  + OSCMessage.mArgBufferSize m.

(** The bytes a builder state serializes to. *)
Definition serialized (m : OSCMessage.t) : list byte :=
  address_of m ++ padded (chr "," :: tags_of m) ++ payload_of m.

(** Bundle states reached from a cleared bundle by calls of [setTimetag]
    and of [addMessage] with such builder states. *)
Inductive bundled : OSCBundle.t -> Prop :=
| bundled_clear b : OSCBundle.clear = Ret b -> bundled b
| bundled_setTimetag tt b b' :
    bundled b -> OSCBundle.setTimetag tt b = Ret b' -> bundled b'
| bundled_addMessage m b ok b' :
    bundled b -> built m -> OSCBundle.addMessage m b = Ret (ok, b') -> bundled b'.

(** The contents of a bundle on the wire: messages and nested bundles, a
    nested bundle with the 8 bytes of its timetag. *)
#[warnings="-register-all"]
Inductive item : Type :=
| Leaf (spec : list byte * list argument)
| Nested (stamp : list byte) (items : list item).

Fixpoint item_wire (i : item) : list byte :=
  match i with
  | Leaf spec => message (fst spec) (snd spec)
  | Nested stamp items =>
      OSCBundle.header ++ stamp
      ++ List.concat (map (fun j => big_endian 4 (len (item_wire j)) ++ item_wire j) items)
  end.

(** An item as an element of the bundle that holds it: its size, then its
    bytes. *)
Definition item_element (i : item) : list byte :=
  big_endian 4 (len (item_wire i)) ++ item_wire i.

(** The messages of an item, depth first, in wire order. *)
Fixpoint leaves (i : item) : list (list byte * list argument) :=
  match i with
  | Leaf spec => [spec]
  | Nested _ items => flat_map leaves items
  end.

Fixpoint item_ok (i : item) : Prop :=
  match i with
  | Leaf spec => sendable spec
  | Nested stamp items =>
      len stamp = 8 /\ fold_right (fun j P => item_ok j /\ P) True items
  end.

(** The bytes of a datagram as a chain of pbufs carries them. *)
Definition chain_data (p : list OSCServer.pbuf) : list byte :=
  List.concat (map (fun q => firstn (Z.to_nat (OSCServer.pbuf_len q)) (OSCServer.payload q)) p).

(** A chain as lwIP hands it over: each pbuf has [len] bytes behind its
    payload pointer, [len] being a [u16_t]. *)
Definition chain_ok (p : list OSCServer.pbuf) : Prop :=
  Forall (fun q => 0 <= OSCServer.pbuf_len q <= len (OSCServer.payload q)
                   /\ OSCServer.pbuf_len q < 2 ^ 16) p.

(** The tags whose case of the switch writes the union of the slot. *)
Definition writes_union (c : byte) : bool :=
  existsb (Byte.eqb c) (bytes_of "ifhdtmcr").

(** Two slots that agree on what the argument loop writes for their tag:
    the type, the string and blob pointers, the blob size for a blob, the
    union for a tag with a value. *)
Definition same_slot (a1 a2 : OSCMessageView.OSCArg) : Prop :=
  OSCMessageView.type a1 = OSCMessageView.type a2
  /\ OSCMessageView.s a1 = OSCMessageView.s a2
  /\ OSCMessageView.blobData a1 = OSCMessageView.blobData a2
  /\ (OSCMessageView.type a1 = chr "b" ->
      OSCMessageView.blobSize a1 = OSCMessageView.blobSize a2)
  /\ (writes_union (OSCMessageView.type a1) = true ->
      OSCMessageView.u a1 = OSCMessageView.u a2).

(** The slots of a view that are in use. *)
Definition used_slots (v : OSCMessageView.t) : list OSCMessageView.OSCArg :=
  firstn (Z.to_nat (OSCMessageView.mArgCount v)) (OSCMessageView.mArgs v).

(** The states of a bundle object: the array of its declared size, a size
    field between the 16 bytes of the header and the capacity that is a
    whole number of words, and the bundle magic at the start. *)
Definition bundle_ok (b : OSCBundle.t) : Prop :=
  len (OSCBundle.mBuffer b) = OSCBundle.MAX_BUNDLE_SIZE
  /\ 16 <= OSCBundle.mBufferSize b <= OSCBundle.MAX_BUNDLE_SIZE
  /\ OSCBundle.mBufferSize b mod 4 = 0
  /\ firstn 8 (OSCBundle.mBuffer b) = OSCBundle.header.

(** Whether [addMessage] refuses a builder state for a bundle: no address,
    a message that does not fit the 1024 bytes of its local buffer, or no
    room left in the bundle. *)
Definition refused (m : OSCMessage.t) (b : OSCBundle.t) : bool :=
  (OSCMessage.mAddressSize m =? 0)
  || (OSCBundle.MAX_MESSAGE_SIZE <? total_size m)
  || (OSCBundle.MAX_BUNDLE_SIZE <? OSCBundle.mBufferSize b + 4 + total_size m).

(** What is left of a bundle after its last whole element, [k] bytes of
    which lie within the size, does not make an element: fewer than 4 bytes,
    or a size field that is not positive or larger than what is left. *)
Definition cut_short (k : Z) (rest : list byte) : Prop :=
  k < 4
  \/ exists n rest',
      rest = big_endian 4 n ++ rest' /\ - 2 ^ 31 <= n < 2 ^ 31
      /\ (n <= 0 \/ k < 4 + n).


(** A builder state with another address array and address size. *)
Definition with_address (a : list byte) (n : Z) (m : OSCMessage.t) : OSCMessage.t :=
  OSCMessage.mk a n (OSCMessage.mTypeTags m) (OSCMessage.mTypeTagCount m)
                (OSCMessage.mArgBuffer m) (OSCMessage.mArgBufferSize m).

(** A C string at offset [off] of the buffer that has its terminator within
    the first [size] bytes. *)
Definition terminated (buffer : list byte) (size off : Z) : Prop :=
  exists k, 0 <= off <= k /\ k < size /\ load buffer k = Ret NUL.

(** A string pointer of a view that can be read as a C string without
    going past the first [size] bytes of the buffer: the empty string
    literal, or a string in the buffer that is terminated there. *)
Definition string_within (buffer : list byte) (size : Z) (p : OSCMessageView.ptr)
  : Prop :=
  match p with
  | OSCMessageView.nullptr => False
  | OSCMessageView.empty_literal => True
  | OSCMessageView.at_offset off => terminated buffer size off
  end.

(** An argument slot whose string pointer is null or can be read as a C
    string within [size]. *)
Definition slot_within (buffer : list byte) (size : Z) (a : OSCMessageView.OSCArg)
  : Prop :=
  OSCMessageView.s a = OSCMessageView.nullptr
  \/ string_within buffer size (OSCMessageView.s a).

(** The argument loop from the tag at offset [types] and the position
    [pos] on, as long as every case of the switch passes its bounds check:
    each tag read is not the terminator, its case returns the slot recorded
    and the position of the next argument.  The last index is the position
    after the slots. *)
Inductive decoded (buffer : list byte) (size : Z)
  : Z -> Z -> list OSCMessageView.OSCArg -> Z -> Prop :=
| decoded_none types pos : decoded buffer size types pos [] pos
| decoded_next types pos c old pos' slot slots last :
    load buffer types = Ret c -> c <> NUL ->
    OSCMessageView.decode c buffer size pos
      (OSCMessageView.mkArg c (OSCMessageView.u old) OSCMessageView.nullptr
                            OSCMessageView.nullptr (OSCMessageView.blobSize old))
    = Ret (true, pos', slot) ->
    decoded buffer size (types + 1) pos' slots last ->
    decoded buffer size types pos (slot :: slots) last.

(** * Properties *)

Create HintDb osc.
#[local] Hint Constructors glob : osc.

(** ** Bytes and characters *)

Lemma eqb_true_iff (a b : byte) : Byte.eqb a b = true <-> a = b.
Proof. split; [apply Byte.byte_dec_bl | apply Byte.byte_dec_lb]. Qed.

Lemma eqb_false_iff (a b : byte) : Byte.eqb a b = false <-> a <> b.
Proof.
  split.
  - apply Byte.eqb_false.
  - intros Hne. destruct (Byte.eqb a b) eqn:E; [|reflexivity].
    apply eqb_true_iff in E. contradiction.
Qed.

Lemma is_nul_true (c : byte) : is_nul c = true <-> c = NUL.
Proof. apply eqb_true_iff. Qed.

Lemma is_nul_false (c : byte) : is_nul c = false <-> c <> NUL.
Proof. apply eqb_false_iff. Qed.

Lemma chars_nul_free (s : list byte) : Forall (fun c => c <> NUL) (chars s).
Proof.
  induction s as [|c s IH]; simpl; [constructor|].
  destruct (is_nul c) eqn:E; constructor; [now apply is_nul_false | exact IH].
Qed.

Lemma chars_id (s : list byte) : Forall (fun c => c <> NUL) s -> chars s = s.
Proof.
  induction 1 as [|c s Hc _ IH]; simpl; [reflexivity|].
  apply is_nul_false in Hc. rewrite Hc, IH. reflexivity.
Qed.

Lemma strlen_chars (s : list byte) : strlen s = len (chars s).
Proof.
  unfold len. induction s as [|c s IH]; cbn [strlen chars]; [reflexivity|].
  destruct (is_nul c); cbn [List.length]; [reflexivity|].
  rewrite IH, Nat2Z.inj_succ. lia.
Qed.

Lemma strlen_nonneg (s : list byte) : 0 <= strlen s.
Proof. rewrite strlen_chars. unfold len. lia. Qed.

(** ** The pattern matcher *)

Section Matcher.

Lemma glob_nil_l (s : list byte) : glob [] s -> s = [].
Proof. inversion 1; reflexivity. Qed.

Lemma glob_stars_any (q : list byte) :
  glob q [] -> q <> [] -> forall s, glob q s.
Proof.
  intros Hq Hne.
  inversion Hq as [| p s0 Hp | | |]; subst; [congruence|].
  intros s. induction s as [|c s IH]; auto with osc.
Qed.

Lemma glob_star_iff (q s : list byte) :
  glob (chr "*" :: q) s <->
  glob q s \/ exists c s', s = c :: s' /\ glob (chr "*" :: q) s'.
Proof.
  split.
  - intros H. inversion H as [| p s0 Hp | p c s0 Hp | | p c s0 Hc Hp]; subst.
    + now left.
    + right. eauto.
    + exfalso. apply Hc. reflexivity.
  - intros [H | (c & s' & -> & H)]; auto with osc.
Qed.

Lemma glob_cons_iff (p c : byte) (q s : list byte) :
  p <> chr "*" ->
  glob (p :: q) (c :: s) <-> (p = chr "?" \/ p = c) /\ glob q s.
Proof.
  intros Hp. split.
  - inversion 1; subst; try (exfalso; apply Hp; reflexivity); auto.
  - intros [[-> | ->] H]; auto with osc.
Qed.

Lemma glob_cons_nil (p : byte) (q : list byte) :
  p <> chr "*" -> ~ glob (p :: q) [].
Proof. intros Hp H. inversion H; subst; apply Hp; reflexivity. Qed.

Lemma skip_stars_end (pattern : list byte) :
  is_nul (hd NUL (OSCMessageView.skip_stars pattern)) = true <-> glob (chars pattern) [].
Proof.
  induction pattern as [|p pattern IH]; cbn [OSCMessageView.skip_stars chars hd].
  - split; auto with osc.
  - destruct (Byte.eqb p (chr "*")) eqn:Estar.
    + apply eqb_true_iff in Estar. subst p.
      change (is_nul (chr "*")) with false. cbv iota.
      rewrite IH. split.
      * auto with osc.
      * intros H. apply glob_star_iff in H.
        destruct H as [H | (c & s' & Hs & _)]; [exact H | discriminate].
    + apply eqb_false_iff in Estar. cbn [hd].
      destruct (is_nul p) eqn:Enul.
      * split; auto with osc.
      * split; [discriminate|]. intros H. now apply glob_cons_nil in H.
Qed.

Lemma match_end_spec (pattern str : list byte) :
  OSCMessageView.match_end pattern str = true <-> glob (chars pattern) [] /\ chars str = [].
Proof.
  unfold OSCMessageView.match_end. rewrite andb_true_iff, skip_stars_end.
  assert (Hs : is_nul (hd NUL str) = true <-> chars str = []).
  { destruct str as [|c str]; simpl; [intuition|].
    destruct (is_nul c); intuition discriminate. }
  rewrite Hs. reflexivity.
Qed.

Lemma chars_head_nul (s : list byte) : is_nul (hd NUL s) = true <-> chars s = [].
Proof.
  destruct s as [|c s]; simpl; [intuition|].
  destruct (is_nul c); intuition discriminate.
Qed.

Lemma matchPattern_glob (pattern str : list byte) :
  OSCMessageView.matchPattern pattern str = true <-> glob (chars pattern) (chars str).
Proof.
  revert str. induction pattern as [|p pattern IH]; intros str.
  - assert (E : OSCMessageView.matchPattern [] str = OSCMessageView.match_end [] str) by (destruct str; reflexivity).
    rewrite E, match_end_spec. simpl. split.
    + intros [_ ->]. constructor.
    + intros H. apply glob_nil_l in H. auto with osc.
  - destruct str as [|c str].
    + change (OSCMessageView.matchPattern (p :: pattern) []) with (OSCMessageView.match_end (p :: pattern) []).
      rewrite match_end_spec. simpl (chars []). tauto.
    + cbn [OSCMessageView.matchPattern].
      destruct (is_nul p) eqn:Ep.
      { cbn [orb]. rewrite match_end_spec. cbn [chars]. rewrite Ep.
        split.
        - intros [_ ->]. constructor.
        - intros H. apply glob_nil_l in H. auto with osc. }
      destruct (is_nul c) eqn:Ec.
      { cbn [orb]. rewrite match_end_spec. cbn [chars]. rewrite Ep, Ec. tauto. }
      cbn [orb chars]. rewrite Ep, Ec.
      destruct (Byte.eqb p (chr "*")) eqn:Estar.
      * apply eqb_true_iff in Estar. subst p.
        destruct (is_nul (hd NUL pattern)) eqn:Ehd.
        { apply chars_head_nul in Ehd. rewrite Ehd. split; [intros _|reflexivity].
          apply glob_stars_any; [auto with osc | discriminate]. }
        assert (Hq : chars pattern <> []).
        { intros Hq. apply chars_head_nul in Hq. congruence. }
        set (each := fix each_suffix (str0 : list byte) : bool :=
                       match str0 with
                       | [] => false
                       | c0 :: str' =>
                           if is_nul c0 then false
                           else if OSCMessageView.matchPattern pattern (c0 :: str') then true
                           else each_suffix str'
                       end).
        assert (Heach : forall s, each s = true <->
                          glob (chr "*" :: chars pattern) (chars s) /\ chars s <> []).
        { induction s as [|d s IHs]; simpl.
          - split; [discriminate | intros [_ H]; congruence].
          - destruct (is_nul d) eqn:Ed.
            + split; [discriminate | intros [_ H]; congruence].
            + destruct (OSCMessageView.matchPattern pattern (d :: s)) eqn:Em.
              * apply IH in Em. simpl in Em. rewrite Ed in Em.
                split; [intros _|reflexivity].
                split; [auto with osc | discriminate].
              * split.
                -- intros H. apply IHs in H. destruct H as [H _].
                   split; [auto with osc | discriminate].
                -- intros [H _]. apply glob_star_iff in H.
                   destruct H as [H | (c0 & s' & Hs & H)].
                   ++ assert (Em' : OSCMessageView.matchPattern pattern (d :: s) = true).
                      { apply IH. simpl. rewrite Ed. exact H. }
                      congruence.
                   ++ injection Hs as <- <-. apply IHs. split; [exact H|].
                      intros Hnil. rewrite Hnil in H.
                      apply glob_star_iff in H.
                      destruct H as [H | (c1 & s1 & Hs1 & _)]; [|discriminate].
                      assert (Em' : OSCMessageView.matchPattern pattern (d :: s) = true).
                      { apply IH. apply glob_stars_any; assumption. }
                      congruence. }
        specialize (Heach (c :: str)).
        change (each (c :: str))
          with (if is_nul c then false
                else if OSCMessageView.matchPattern pattern (c :: str) then true
                else each str) in Heach.
        cbn [chars] in Heach. rewrite Ec in Heach.
        split; intros H.
        -- apply Heach in H. tauto.
        -- apply Heach. split; [exact H | discriminate].
      * apply eqb_false_iff in Estar.
        rewrite glob_cons_iff by exact Estar.
        destruct (Byte.eqb p (chr "?") || Byte.eqb p c) eqn:Eq.
        -- rewrite IH. apply orb_true_iff in Eq.
           rewrite !eqb_true_iff in Eq. tauto.
        -- apply orb_false_iff in Eq. rewrite !eqb_false_iff in Eq.
           split; [discriminate | intros [[H | H] _]; tauto].
Qed.

Lemma matchPattern_star_free (pattern str : list byte) :
  ~ In (chr "*") pattern ->
  OSCMessageView.matchPattern pattern str = true -> strlen str = strlen pattern.
Proof.
  intros Hfree Hm. apply matchPattern_glob in Hm.
  rewrite !strlen_chars.
  assert (Hfree' : ~ In (chr "*") (chars pattern)).
  { clear Hm. induction pattern as [|p pattern IH]; simpl; [tauto|].
    destruct (is_nul p); simpl; [tauto|].
    intros [H | H]; [apply Hfree; now left | apply IH; [|exact H]].
    intros H'. apply Hfree. now right. }
  clear Hfree. unfold len. f_equal.
  induction Hm; simpl in *; try tauto; try (rewrite IHHm; tauto).
Qed.

End Matcher.

(** ** Machine arithmetic *)

Lemma size_t_small (x : Z) : 0 <= x < 2 ^ 32 -> size_t x = x.
Proof. intros H. unfold size_t. apply Z.mod_small. exact H. Qed.

Lemma size_t_range (x : Z) : 0 <= size_t x < 2 ^ 32.
Proof. unfold size_t. apply Z.mod_pos_bound. reflexivity. Qed.

Lemma land_lnot3 (y : Z) : Z.land y (Z.lnot 3) = 4 * (y / 4).
Proof.
  rewrite <- Z.ldiff_land. change 3 with (Z.ones 2).
  rewrite Z.ldiff_ones_r by lia.
  rewrite Z.shiftr_div_pow2, Z.shiftl_mul_pow2 by lia.
  change (2 ^ 2) with 4. lia.
Qed.

Lemma align4_small (x : Z) :
  0 <= x -> x + 3 < 2 ^ 32 -> align4 x = 4 * ((x + 3) / 4).
Proof.
  intros H0 H1. unfold align4. rewrite size_t_small by lia. apply land_lnot3.
Qed.

Lemma align4_aligned (x : Z) :
  0 <= x -> x + 3 < 2 ^ 32 -> x mod 4 = 0 -> align4 x = x.
Proof.
  intros H0 H1 Hm. rewrite align4_small by assumption.
  pose proof (Z.div_mod x 4 ltac:(lia)) as Hx.
  replace (x + 3) with (x / 4 * 4 + 3) by lia.
  rewrite Z.div_add_l by lia. change (3 / 4) with 0. lia.
Qed.

Lemma align4_bounds (x : Z) :
  0 <= x -> x + 3 < 2 ^ 32 -> x <= align4 x <= x + 3 /\ align4 x mod 4 = 0.
Proof.
  intros H0 H1. rewrite align4_small by assumption.
  pose proof (Z.div_mod (x + 3) 4 ltac:(lia)) as Hx.
  pose proof (Z.mod_pos_bound (x + 3) 4 ltac:(lia)) as Hb.
  split; [lia|]. rewrite Z.mul_comm. apply Z.mod_mul. lia.
Qed.

(** ** Arrays *)

Lemma len_app {A : Type} (l1 l2 : list A) : len (l1 ++ l2) = len l1 + len l2.
Proof. unfold len. rewrite length_app. lia. Qed.

Lemma len_nonneg {A : Type} (l : list A) : 0 <= len l.
Proof. unfold len. lia. Qed.

Lemma len_cons {A : Type} (a : A) (l : list A) : len (a :: l) = 1 + len l.
Proof. unfold len. cbn [List.length]. lia. Qed.

Lemma len_repeat {A : Type} (a : A) (n : nat) : len (repeat a n) = Z.of_nat n.
Proof. unfold len. rewrite repeat_length. reflexivity. Qed.

Lemma to_nat_len {A : Type} (l : list A) : Z.to_nat (len l) = List.length l.
Proof. unfold len. apply Nat2Z.id. Qed.

Lemma store_app {A : Type} (pre post : list A) (x a : A) (i : Z) :
  i = len pre -> store (pre ++ x :: post) i a = Ret (pre ++ a :: post).
Proof.
  intros ->. unfold store.
  assert (H : (0 <=? len pre) && (len pre <? len (pre ++ x :: post)) = true).
  { rewrite len_app, len_cons. pose proof (len_nonneg pre). pose proof (len_nonneg post).
    apply andb_true_iff. split; [apply Z.leb_le | apply Z.ltb_lt]; lia. }
  rewrite H, to_nat_len. f_equal.
  rewrite firstn_app, firstn_all, Nat.sub_diag, firstn_0, app_nil_r.
  f_equal. replace (S (List.length pre)) with (List.length pre + 1)%nat by lia.
  rewrite skipn_app, skipn_all2 by lia.
  replace (List.length pre + 1 - List.length pre)%nat with 1%nat by lia.
  reflexivity.
Qed.

Lemma store_outside {A : Type} (arr : list A) (i : Z) (a : A) :
  len arr <= i -> store arr i a = Fault.
Proof.
  intros H. unfold store.
  replace (i <? len arr) with false by (symmetry; apply Z.ltb_ge; exact H).
  rewrite andb_false_r. reflexivity.
Qed.

Lemma memcpy_app (pre mid post src : list byte) (off n : Z) :
  off = len pre -> n = len mid -> n <= len src ->
  memcpy (pre ++ mid ++ post) off src n
  = Ret (pre ++ firstn (Z.to_nat n) src ++ post).
Proof.
  intros -> -> Hsrc. unfold memcpy.
  pose proof (len_nonneg pre). pose proof (len_nonneg mid). pose proof (len_nonneg post).
  assert (H2 : (0 <=? len pre) && (0 <=? len mid) && (len mid <=? len src)
               && (len pre + len mid <=? len (pre ++ mid ++ post)) = true).
  { rewrite !len_app. repeat (apply andb_true_iff; split); apply Z.leb_le; lia. }
  rewrite H2. f_equal. rewrite !to_nat_len.
  rewrite firstn_app, firstn_all, Nat.sub_diag, firstn_0, app_nil_r.
  do 2 f_equal.
  replace (Z.to_nat (len pre + len mid)) with (List.length pre + List.length mid)%nat
    by (unfold len; lia).
  rewrite skipn_app, skipn_all2 by lia.
  replace (List.length pre + List.length mid - List.length pre)%nat
    with (List.length mid) by lia.
  rewrite skipn_app, skipn_all, Nat.sub_diag. reflexivity.
Qed.

(** An array cut at two positions. *)
Lemma cut3 {A : Type} (arr : list A) (i n : Z) :
  0 <= i -> 0 <= n -> i + n <= len arr ->
  exists pre mid post,
    arr = pre ++ mid ++ post /\ len pre = i /\ len mid = n
    /\ pre = firstn (Z.to_nat i) arr.
Proof.
  intros Hi Hn Hle.
  exists (firstn (Z.to_nat i) arr),
         (firstn (Z.to_nat n) (skipn (Z.to_nat i) arr)),
         (skipn (Z.to_nat n) (skipn (Z.to_nat i) arr)).
  unfold len in *. rewrite !firstn_skipn.
  repeat split.
  - rewrite length_firstn. lia.
  - rewrite length_firstn, length_skipn. lia.
Qed.

Lemma firstn_c_str (s : list byte) :
  firstn (Z.to_nat (strlen s + 1)) (c_str s) = chars s ++ [NUL].
Proof.
  unfold c_str. induction s as [|c s IH]; cbn [strlen chars]; [reflexivity|].
  destruct (is_nul c) eqn:E.
  - apply is_nul_true in E. subst c. reflexivity.
  - pose proof (strlen_nonneg s).
    replace (Z.to_nat (1 + strlen s + 1)) with (S (Z.to_nat (strlen s + 1))) by lia.
    cbn [app firstn]. rewrite IH. reflexivity.
Qed.

Lemma strlen_le_len (s : list byte) : strlen s <= len s.
Proof.
  induction s as [|c s IH]; cbn [strlen]; [unfold len; simpl; lia|].
  rewrite len_cons. pose proof (len_nonneg s). destruct (is_nul c); lia.
Qed.

(** The padding loop, on an array cut where the padding goes. *)
Lemma pad_zero_app (fuel : nat) (pre mid post : list byte) (n : Z) :
  n = len pre -> len mid = (- n) mod 4 -> (List.length mid <= fuel)%nat ->
  n + len mid < 2 ^ 32 ->
  pad_zero fuel (pre ++ mid ++ post) n
  = Ret (pre ++ repeat NUL (List.length mid) ++ post, n + len mid).
Proof.
  revert pre mid n. induction fuel as [|fuel IH]; intros pre mid n Hn Hmid Hfuel Hbig.
  - destruct mid; [|simpl in Hfuel; lia].
    cbn [pad_zero]. change (len []) with 0 in *.
    assert (Hm : n mod 4 = 0).
    { pose proof (Z.mod_opp_l_nz n 4 ltac:(lia)) as Hopp.
      destruct (Z.eq_dec (n mod 4) 0) as [E|E]; [exact E|].
      specialize (Hopp E). pose proof (Z.mod_pos_bound n 4 ltac:(lia)). lia. }
    rewrite Hm. cbn. rewrite Z.add_0_r. reflexivity.
  - cbn [pad_zero]. pose proof (len_nonneg pre) as Hpre.
    destruct mid as [|x mid].
    + change (len []) with 0 in *.
      assert (Hm : n mod 4 = 0).
      { pose proof (Z.mod_opp_l_nz n 4 ltac:(lia)) as Hopp.
        destruct (Z.eq_dec (n mod 4) 0) as [E|E]; [exact E|].
        specialize (Hopp E). pose proof (Z.mod_pos_bound n 4 ltac:(lia)). lia. }
      rewrite Hm. cbn. rewrite Z.add_0_r. reflexivity.
    + rewrite len_cons in Hmid. pose proof (len_nonneg mid) as Hmid0.
      assert (Hm : n mod 4 <> 0).
      { intros E. rewrite Z.mod_opp_l_z in Hmid by lia. lia. }
      apply Z.eqb_neq in Hm. rewrite Hm.
      cbn [app]. rewrite (store_app pre (mid ++ post) x NUL n Hn). cbn [bind].
      rewrite size_t_small by (rewrite len_cons in Hbig; lia).
      replace (pre ++ NUL :: mid ++ post) with ((pre ++ [NUL]) ++ mid ++ post)
        by (rewrite <- app_assoc; reflexivity).
      rewrite IH.
      * f_equal. cbn [List.length repeat]. rewrite <- app_assoc. cbn [app].
        f_equal. rewrite len_cons. lia.
      * rewrite len_app, len_cons. change (len (@nil byte)) with 0. lia.
      * apply Z.eqb_neq in Hm.
        rewrite Z.mod_opp_l_nz in Hmid by lia.
        pose proof (Z.mod_pos_bound n 4 ltac:(lia)) as Hb.
        assert (Hn1 : (n + 1) mod 4 = (n mod 4 + 1) mod 4).
        { rewrite Z.add_mod by lia. change (1 mod 4) with 1. reflexivity. }
        destruct (Z.eq_dec (n mod 4) 3) as [E3|E3].
        -- rewrite Z.mod_opp_l_z; [lia| lia |].
           rewrite Hn1, E3. reflexivity.
        -- rewrite Z.mod_opp_l_nz; [| lia |].
           ++ rewrite Hn1. rewrite Z.mod_small by lia. lia.
           ++ rewrite Hn1. rewrite Z.mod_small by lia. lia.
      * simpl in Hfuel. lia.
      * rewrite len_cons in Hbig. lia.
Qed.

(** ** Wire primitives *)

Ltac masks32 :=
  unfold swap_endian32;
  change 0x000000FF with (Z.ones 8);
  change 0x0000FF00 with (Z.shiftl (Z.ones 8) 8);
  change 0x00FF0000 with (Z.shiftl (Z.ones 8) 16);
  change 0xFF000000 with (Z.shiftl (Z.ones 8) 24).

Ltac masks64 :=
  unfold swap_endian64;
  change 0x00000000000000FF with (Z.ones 8);
  change 0x000000000000FF00 with (Z.shiftl (Z.ones 8) 8);
  change 0x0000000000FF0000 with (Z.shiftl (Z.ones 8) 16);
  change 0x00000000FF000000 with (Z.shiftl (Z.ones 8) 24);
  change 0x000000FF00000000 with (Z.shiftl (Z.ones 8) 32);
  change 0x0000FF0000000000 with (Z.shiftl (Z.ones 8) 40);
  change 0x00FF000000000000 with (Z.shiftl (Z.ones 8) 48);
  change 0xFF00000000000000 with (Z.shiftl (Z.ones 8) 56).

Lemma swap_endian32_involutive (v : Z) :
  swap_endian32 (swap_endian32 v) = v mod 2 ^ 32.
Proof. masks32. rewrite <- Z.land_ones by lia. prove_Zeq_bitwise. Qed.

Lemma swap_endian32_mod (v : Z) : swap_endian32 (v mod 2 ^ 32) = swap_endian32 v.
Proof. masks32. rewrite <- Z.land_ones by lia. prove_Zeq_bitwise. Qed.

Lemma swap_endian32_wrap (v : Z) : swap_endian32 v mod 2 ^ 32 = swap_endian32 v.
Proof. masks32. rewrite <- Z.land_ones by lia. prove_Zeq_bitwise. Qed.

Lemma swap_endian64_involutive (v : Z) :
  swap_endian64 (swap_endian64 v) = v mod 2 ^ 64.
Proof. masks64. rewrite <- Z.land_ones by lia. prove_Zeq_bitwise. Qed.

Lemma swap_endian64_mod (v : Z) : swap_endian64 (v mod 2 ^ 64) = swap_endian64 v.
Proof. masks64. rewrite <- Z.land_ones by lia. prove_Zeq_bitwise. Qed.

Lemma swap_endian64_wrap (v : Z) : swap_endian64 v mod 2 ^ 64 = swap_endian64 v.
Proof. masks64. rewrite <- Z.land_ones by lia. prove_Zeq_bitwise. Qed.

Lemma of_Z_mod8 (a b : Z) : a mod 2 ^ 8 = b mod 2 ^ 8 -> byte.of_Z a = byte.of_Z b.
Proof.
  intros H. apply byte.unsigned_inj. rewrite !byte.unsigned_of_Z. exact H.
Qed.

(** The byte swap followed by the copy of the object is the value in
    network byte order. *)
Lemma le_split_swap32 (v : Z) : le_split 4 (swap_endian32 v) = big_endian 4 v.
Proof.
  cbv [big_endian le_split rev app].
  repeat (apply f_equal2; [apply of_Z_mod8 |]); try reflexivity;
    masks32; rewrite <- !Z.land_ones by lia; prove_Zeq_bitwise.
Qed.

Lemma le_split_swap64 (v : Z) : le_split 8 (swap_endian64 v) = big_endian 8 v.
Proof.
  cbv [big_endian le_split rev app].
  repeat (apply f_equal2; [apply of_Z_mod8 |]); try reflexivity;
    masks64; rewrite <- !Z.land_ones by lia; prove_Zeq_bitwise.
Qed.

Lemma int32_t_mod (x : Z) : int32_t x mod 2 ^ 32 = x mod 2 ^ 32.
Proof.
  unfold int32_t.
  rewrite Zminus_mod, Zmod_mod, <- Zminus_mod.
  f_equal. lia.
Qed.

Lemma int32_t_of_mod (x : Z) : int32_t (x mod 2 ^ 32) = int32_t x.
Proof.
  unfold int32_t. f_equal.
  rewrite Zplus_mod, Zmod_mod, <- Zplus_mod. reflexivity.
Qed.

Lemma int32_t_small (x : Z) : - 2 ^ 31 <= x < 2 ^ 31 -> int32_t x = x.
Proof. intros H. unfold int32_t. rewrite Z.mod_small by lia. lia. Qed.

Lemma int32_t_range (x : Z) : - 2 ^ 31 <= int32_t x < 2 ^ 31.
Proof.
  unfold int32_t. pose proof (Z.mod_pos_bound (x + 2 ^ 31) (2 ^ 32) ltac:(lia)). lia.
Qed.

Lemma int64_t_mod (x : Z) : int64_t x mod 2 ^ 64 = x mod 2 ^ 64.
Proof.
  unfold int64_t.
  rewrite Zminus_mod, Zmod_mod, <- Zminus_mod.
  f_equal. lia.
Qed.

Lemma int64_t_of_mod (x : Z) : int64_t (x mod 2 ^ 64) = int64_t x.
Proof.
  unfold int64_t. f_equal.
  rewrite Zplus_mod, Zmod_mod, <- Zplus_mod. reflexivity.
Qed.

Lemma int64_t_small (x : Z) : - 2 ^ 63 <= x < 2 ^ 63 -> int64_t x = x.
Proof. intros H. unfold int64_t. rewrite Z.mod_small by lia. lia. Qed.

Lemma le_split4_mod (x : Z) : le_split 4 (x mod 2 ^ 32) = le_split 4 x.
Proof. symmetry. apply (le_split_mod x 4). Qed.

Lemma le_split8_mod (x : Z) : le_split 8 (x mod 2 ^ 64) = le_split 8 x.
Proof. symmetry. apply (le_split_mod x 8). Qed.

Lemma le_combine_split4 (x : Z) : le_combine (le_split 4 x) = x mod 2 ^ 32.
Proof. apply (le_combine_split 4 x). Qed.

Lemma le_combine_split8 (x : Z) : le_combine (le_split 8 x) = x mod 2 ^ 64.
Proof. apply (le_combine_split 8 x). Qed.

Lemma swap_endian_float_eq (v : Z) : swap_endian_float v = swap_endian32 v.
Proof.
  unfold swap_endian_float, swap_endian_uint32, uint32_t.
  rewrite !le_combine_split4, !Zmod_mod, swap_endian32_mod, swap_endian32_wrap.
  reflexivity.
Qed.

Lemma swap_endian_double_eq (v : Z) : swap_endian_double v = swap_endian64 v.
Proof.
  unfold swap_endian_double, swap_endian_uint64, uint64_t.
  rewrite !le_combine_split8, !Zmod_mod, swap_endian64_mod, swap_endian64_wrap.
  reflexivity.
Qed.

(** What the builder copies into the argument buffer. *)
Lemma built_int32 (v : Z) : le_split 4 (swap_endian_int32 v) = big_endian 4 v.
Proof.
  unfold swap_endian_int32.
  rewrite <- le_split4_mod, int32_t_mod, le_split4_mod. apply le_split_swap32.
Qed.

Lemma built_uint32 (v : Z) : le_split 4 (swap_endian_uint32 v) = big_endian 4 v.
Proof.
  unfold swap_endian_uint32, uint32_t. rewrite le_split4_mod. apply le_split_swap32.
Qed.

Lemma built_float (v : Z) : le_split 4 (swap_endian_float v) = big_endian 4 v.
Proof. rewrite swap_endian_float_eq. apply le_split_swap32. Qed.

Lemma built_int64 (v : Z) : le_split 8 (swap_endian_int64 v) = big_endian 8 v.
Proof.
  unfold swap_endian_int64.
  rewrite <- le_split8_mod, int64_t_mod, le_split8_mod. apply le_split_swap64.
Qed.

Lemma built_double (v : Z) : le_split 8 (swap_endian_double v) = big_endian 8 v.
Proof. rewrite swap_endian_double_eq. apply le_split_swap64. Qed.

(** What the parser computes from the bytes it copies out. *)
Lemma le_combine_big_endian4 (v : Z) : le_combine (big_endian 4 v) = swap_endian32 v.
Proof. rewrite <- le_split_swap32, le_combine_split4. apply swap_endian32_wrap. Qed.

Lemma le_combine_big_endian8 (v : Z) : le_combine (big_endian 8 v) = swap_endian64 v.
Proof. rewrite <- le_split_swap64, le_combine_split8. apply swap_endian64_wrap. Qed.

Lemma parsed_int32 (v : Z) :
  - 2 ^ 31 <= v < 2 ^ 31 ->
  swap_endian_int32 (int32_t (le_combine (big_endian 4 v))) = v.
Proof.
  intros Hv. rewrite le_combine_big_endian4. unfold swap_endian_int32.
  rewrite <- swap_endian32_mod, int32_t_mod, swap_endian32_mod.
  rewrite swap_endian32_involutive, int32_t_of_mod. apply int32_t_small. exact Hv.
Qed.

Lemma parsed_uint32 (v : Z) :
  0 <= v < 2 ^ 32 ->
  swap_endian_uint32 (uint32_t (le_combine (big_endian 4 v))) = v.
Proof.
  intros Hv. rewrite le_combine_big_endian4. unfold swap_endian_uint32, uint32_t.
  rewrite swap_endian32_mod, swap_endian32_involutive, Zmod_mod.
  apply Z.mod_small. exact Hv.
Qed.

Lemma parsed_float (v : Z) :
  0 <= v < 2 ^ 32 -> swap_endian_float (le_combine (big_endian 4 v)) = v.
Proof.
  intros Hv. rewrite le_combine_big_endian4, swap_endian_float_eq.
  rewrite swap_endian32_involutive. apply Z.mod_small. exact Hv.
Qed.

Lemma parsed_int64 (v : Z) :
  - 2 ^ 63 <= v < 2 ^ 63 ->
  swap_endian_int64 (int64_t (le_combine (big_endian 8 v))) = v.
Proof.
  intros Hv. rewrite le_combine_big_endian8. unfold swap_endian_int64.
  rewrite <- swap_endian64_mod, int64_t_mod, swap_endian64_mod.
  rewrite swap_endian64_involutive, int64_t_of_mod. apply int64_t_small. exact Hv.
Qed.

Lemma parsed_double (v : Z) :
  0 <= v < 2 ^ 64 -> swap_endian_double (le_combine (big_endian 8 v)) = v.
Proof.
  intros Hv. rewrite le_combine_big_endian8, swap_endian_double_eq.
  rewrite swap_endian64_involutive. apply Z.mod_small. exact Hv.
Qed.

Lemma len_big_endian (n : nat) (v : Z) : len (big_endian n v) = Z.of_nat n.
Proof. unfold len, big_endian. rewrite length_rev, length_le_split. reflexivity. Qed.

(** ** The message builder: one append operation *)

Lemma firstn_len_app {A : Type} (pre rest : list A) (n : Z) :
  n = len pre -> firstn (Z.to_nat n) (pre ++ rest) = pre.
Proof.
  intros ->. rewrite to_nat_len, firstn_app, firstn_all, Nat.sub_diag, firstn_0.
  apply app_nil_r.
Qed.

Lemma firstn_len_exact {A : Type} (l : list A) (n : Z) :
  n = len l -> firstn (Z.to_nat n) l = l.
Proof. intros ->. rewrite to_nat_len. apply firstn_all. Qed.

Lemma pad_amount (L : Z) : 0 <= L -> 4 * ((L + 3) / 4) = L + (- L) mod 4.
Proof.
  intros HL.
  pose proof (Z.div_mod (L + 3) 4 ltac:(lia)) as Hd.
  pose proof (Z.mod_pos_bound (L + 3) 4 ltac:(lia)) as Hb.
  pose proof (Z.mod_pos_bound (- L) 4 ltac:(lia)) as Hb'.
  assert (Hc : (L + (- L) mod 4) mod 4 = 0).
  { rewrite Zplus_mod, Zmod_mod, <- Zplus_mod.
    replace (L + - L) with 0 by lia. reflexivity. }
  apply Z.mod_divide in Hc; [|lia]. destruct Hc as [k Hk].
  assert (Hq : (L + 3) / 4 = k).
  { symmetry. apply (Z.div_unique (L + 3) 4 k (3 - (- L) mod 4)); lia. }
  lia.
Qed.

Lemma aligned_opp (n L : Z) : n mod 4 = 0 -> (- (n + L)) mod 4 = (- L) mod 4.
Proof.
  intros Hn. apply Z.mod_divide in Hn; [|lia]. destruct Hn as [k ->].
  replace (- (k * 4 + L)) with (- L + (- k) * 4) by lia.
  apply Z.mod_add. lia.
Qed.

Section Builder.
Import OSCMessage.

Lemma canAddArg_true (bytes : Z) (m : t) :
  mTypeTagCount m < MAX_TYPE_TAG_SIZE - 1 ->
  0 <= mArgBufferSize m -> 0 <= bytes ->
  mArgBufferSize m + bytes <= MAX_ARG_BUFFER_SIZE ->
  canAddArg bytes m = true.
Proof.
  intros Hc H0 Hb Hle. unfold canAddArg.
  unfold MAX_ARG_BUFFER_SIZE in *.
  rewrite size_t_small by lia.
  apply andb_true_iff. split; [apply Z.ltb_lt | apply Z.leb_le]; lia.
Qed.

Lemma push_tag_app (c : byte) (a : list byte) (an : Z) (tpre : list byte)
      (tx : byte) (tpost buf : list byte) (n count : Z) :
  count = len tpre -> count < 2 ^ 31 ->
  push_tag c (mk a an (tpre ++ tx :: tpost) count buf n)
  = Ret (mk a an (tpre ++ c :: tpost) (count + 1) buf n).
Proof.
  intros Hc Hsmall. unfold push_tag. cbn [mTypeTags mTypeTagCount mAddress
    mAddressSize mArgBuffer mArgBufferSize].
  rewrite (store_app tpre tpost tx c count Hc). cbn [bind].
  pose proof (len_nonneg tpre). rewrite size_t_small by lia. reflexivity.
Qed.

Lemma push_arg_app (c : byte) (a : list byte) (an : Z) (tags : list byte)
      (count : Z) (pre : list byte) (x : byte) (post : list byte) (n : Z) :
  n = len pre -> n < 2 ^ 31 ->
  push_arg c (mk a an tags count (pre ++ x :: post) n)
  = Ret (mk a an tags count ((pre ++ [c]) ++ post) (n + 1)).
Proof.
  intros Hn Hsmall. unfold push_arg. cbn [mTypeTags mTypeTagCount mAddress
    mAddressSize mArgBuffer mArgBufferSize].
  rewrite (store_app pre post x c n Hn). cbn [bind].
  pose proof (len_nonneg pre). rewrite size_t_small by lia.
  rewrite <- app_assoc. reflexivity.
Qed.

Lemma copy_arg_app (off : Z) (src : list byte) (k : Z) (a : list byte) (an : Z)
      (tags : list byte) (count : Z) (pre mid post : list byte) (n : Z) :
  n + off = len pre -> k = len mid -> k <= len src -> len pre < 2 ^ 31 ->
  copy_arg off src k (mk a an tags count (pre ++ mid ++ post) n)
  = Ret (mk a an tags count ((pre ++ firstn (Z.to_nat k) src) ++ post) n).
Proof.
  intros Hn Hk Hsrc Hsmall. unfold copy_arg. cbn [mTypeTags mTypeTagCount mAddress
    mAddressSize mArgBuffer mArgBufferSize].
  pose proof (len_nonneg pre). rewrite size_t_small by lia.
  rewrite (memcpy_app pre mid post src (n + off) k Hn Hk Hsrc). cbn [bind].
  rewrite <- app_assoc. reflexivity.
Qed.

Lemma pad_arg_app (a : list byte) (an : Z) (tags : list byte) (count : Z)
      (pre mid post : list byte) (n : Z) :
  n = len pre -> len mid = (- n) mod 4 -> n < 2 ^ 31 ->
  pad_arg (mk a an tags count (pre ++ mid ++ post) n)
  = Ret (mk a an tags count ((pre ++ repeat NUL (List.length mid)) ++ post) (n + len mid)).
Proof.
  intros Hn Hmid Hsmall. unfold pad_arg. cbn [mTypeTags mTypeTagCount mAddress
    mAddressSize mArgBuffer mArgBufferSize].
  pose proof (Z.mod_pos_bound (- n) 4 ltac:(lia)) as Hb.
  rewrite (pad_zero_app 3 pre mid post n Hn Hmid).
  - cbn [bind]. rewrite <- app_assoc. reflexivity.
  - unfold len in Hmid. lia.
  - lia.
Qed.

End Builder.

Section BuilderRun.
Import OSCMessage.

Lemma firstn_le_split (n : nat) (v : Z) :
  firstn (Z.to_nat (Z.of_nat n)) (le_split n v) = le_split n v.
Proof. rewrite Nat2Z.id. apply firstn_all2. rewrite length_le_split. lia. Qed.

Lemma len_firstn {A : Type} (l : list A) (n : Z) :
  0 <= n <= len l -> len (firstn (Z.to_nat n) l) = n.
Proof. intros H. unfold len in *. rewrite length_firstn. lia. Qed.

Lemma len_le_split (n : nat) (v : Z) : len (le_split n v) = Z.of_nat n.
Proof. unfold len. rewrite length_le_split. reflexivity. Qed.

Lemma add_run (a : argument) (adr : list byte) (an : Z)
      (tpre : list byte) (tx : byte) (tpost pre mid post : list byte) :
  typed a -> source_ok a ->
  len tpre < MAX_TYPE_TAG_SIZE - 1 ->
  len mid = payload_size a ->
  len pre mod 4 = 0 ->
  len pre + len mid <= MAX_ARG_BUFFER_SIZE ->
  add a (mk adr an (tpre ++ tx :: tpost) (len tpre) (pre ++ mid ++ post) (len pre))
  = Ret (true, mk adr an (tpre ++ tag a :: tpost) (len tpre + 1)
                  ((pre ++ wire a) ++ post) (len pre + payload_size a)).
Proof.
  intros Ht Hs Hcount Hmid Hal Hfit.
  pose proof (len_nonneg pre) as Hpre0. pose proof (len_nonneg mid) as Hmid0.
  pose proof (len_nonneg tpre) as Htpre0.
  unfold MAX_TYPE_TAG_SIZE, MAX_ARG_BUFFER_SIZE in *.
  assert (Hguard : forall bytes, bytes = len mid ->
            canAddArg bytes (mk adr an (tpre ++ tx :: tpost) (len tpre)
                                (pre ++ mid ++ post) (len pre)) = true).
  { intros bytes ->. apply canAddArg_true; cbn [mTypeTagCount mArgBufferSize];
      unfold MAX_TYPE_TAG_SIZE, MAX_ARG_BUFFER_SIZE; lia. }
  destruct a as [v|v|v|data size|v|v|[sec frac]| | | | |p st d1 d2|c|r g b al];
    cbn [add typed source_ok payload_size wire tag seconds fractions] in *.
  - (* Int *)
    unfold addInt. rewrite Hguard by lia. cbn [negb].
    rewrite push_tag_app by lia. cbn [bind].
    rewrite (copy_arg_app 0 _ 4 adr an _ _ pre mid post) by
      (rewrite ?len_le_split; lia).
    cbn [bind]. rewrite (firstn_le_split 4), built_int32.
    unfold advance_arg. cbn. rewrite size_t_small by lia. reflexivity.
  - (* Float *)
    unfold addFloat. rewrite Hguard by lia. cbn [negb].
    rewrite push_tag_app by lia. cbn [bind].
    rewrite (copy_arg_app 0 _ 4 adr an _ _ pre mid post) by
      (rewrite ?len_le_split; lia).
    cbn [bind]. rewrite (firstn_le_split 4), built_float.
    unfold advance_arg. cbn. rewrite size_t_small by lia. reflexivity.
  - (* Str *)
    pose proof (strlen_nonneg v) as HL0.
    pose proof (pad_amount (strlen v + 1) ltac:(lia)) as Hpad.
    pose proof (Z.mod_pos_bound (- (strlen v + 1)) 4 ltac:(lia)) as Hpb.
    unfold addString.
    rewrite (size_t_small (strlen v + 1)) by lia.
    rewrite (size_t_small (strlen v + 1 + 3)) by lia.
    rewrite land_lnot3. rewrite Hguard by lia. cbn [negb].
    rewrite push_tag_app by lia. cbn [bind].
    destruct (cut3 mid 0 (strlen v + 1) ltac:(lia) ltac:(lia) ltac:(lia))
      as (m0 & m1 & m2 & -> & Hm0 & Hm1 & _).
    destruct m0; [|rewrite len_cons in Hm0; pose proof (len_nonneg m0); lia].
    cbn [app] in *. rewrite len_app in Hmid, Hfit.
    rewrite <- (app_assoc m1 m2 post).
    rewrite (copy_arg_app 0 _ (strlen v + 1) adr an _ _ pre m1 (m2 ++ post)).
    2: lia. 2: lia.
    2: { unfold c_str. rewrite len_app. pose proof (strlen_le_len v).
         change (len [NUL]) with 1. lia. }
    2: lia.
    cbn [bind]. rewrite firstn_c_str. unfold advance_arg. cbn [mTypeTags mTypeTagCount
      mAddress mAddressSize mArgBuffer mArgBufferSize].
    rewrite size_t_small by lia.
    rewrite pad_arg_app.
    + cbn [bind]. do 2 apply f_equal. f_equal; [|lia].
      f_equal. rewrite <- !app_assoc. do 2 f_equal.
      replace (Z.to_nat (4 * ((strlen v + 1 + 3) / 4) - strlen v))
        with (S (List.length m2)) by (unfold len in *; lia).
      reflexivity.
    + rewrite !len_app, strlen_chars. change (len [NUL]) with 1. lia.
    + rewrite aligned_opp by exact Hal. lia.
    + lia.
  - (* Blob *)
    destruct Hs as [Hs0 Hs1].
    pose proof (pad_amount size ltac:(lia)) as Hpad.
    pose proof (Z.mod_pos_bound (- size) 4 ltac:(lia)) as Hpb.
    unfold addBlob.
    rewrite (size_t_small size) by lia.
    rewrite (size_t_small (size + 3)) by lia.
    rewrite land_lnot3.
    rewrite (size_t_small (4 + _)) by lia.
    rewrite Hguard by lia. cbn [negb].
    rewrite push_tag_app by lia. cbn [bind].
    destruct (cut3 mid 4 size ltac:(lia) ltac:(lia) ltac:(lia))
      as (m0 & m1 & m2 & -> & Hm0 & Hm1 & _).
    rewrite !len_app in Hmid, Hfit.
    rewrite <- (app_assoc m0 (m1 ++ m2) post), <- (app_assoc m1 m2 post).
    rewrite (copy_arg_app 0 _ 4 adr an _ _ pre m0 (m1 ++ m2 ++ post)).
    2: lia. 2: lia.
    2: { rewrite len_le_split. lia. }
    2: lia.
    cbn [bind]. rewrite (firstn_le_split 4), built_int32.
    cbv zeta. unfold advance_arg. cbn [mTypeTags mTypeTagCount
      mAddress mAddressSize mArgBuffer mArgBufferSize].
    rewrite (size_t_small (len pre + 4)) by lia.
    rewrite (copy_arg_app 0 _ size adr an _ _ (pre ++ big_endian 4 size) m1 (m2 ++ post)).
    2: { rewrite len_app, len_big_endian. lia. }
    2: lia. 2: lia.
    2: { rewrite len_app, len_big_endian. lia. }
    cbn [bind]. unfold advance_arg. cbn [mTypeTags mTypeTagCount
      mAddress mAddressSize mArgBuffer mArgBufferSize].
    rewrite size_t_small by lia.
    rewrite pad_arg_app.
    + cbn [bind]. do 2 apply f_equal. f_equal; [|lia].
      f_equal. rewrite <- !app_assoc.
      do 3 (apply (f_equal2 (@app byte)); [reflexivity|]).
      f_equal. clear Hguard. unfold len in *. lia.
    + rewrite !len_app, len_big_endian, len_firstn by lia. lia.
    + replace (len pre + 4 + size) with ((len pre + 4) + size) by lia.
      rewrite aligned_opp; [lia|].
      rewrite Zplus_mod, Hal. reflexivity.
    + lia.
  - (* Int64 *)
    unfold addInt64. rewrite Hguard by lia. cbn [negb].
    rewrite push_tag_app by lia. cbn [bind].
    rewrite (copy_arg_app 0 _ 8 adr an _ _ pre mid post) by
      (rewrite ?len_le_split; lia).
    cbn [bind]. rewrite (firstn_le_split 8), built_int64.
    unfold advance_arg. cbn. rewrite size_t_small by lia. reflexivity.
  - (* Double *)
    unfold addDouble. rewrite Hguard by lia. cbn [negb].
    rewrite push_tag_app by lia. cbn [bind].
    rewrite (copy_arg_app 0 _ 8 adr an _ _ pre mid post) by
      (rewrite ?len_le_split; lia).
    cbn [bind]. rewrite (firstn_le_split 8), built_double.
    unfold advance_arg. cbn. rewrite size_t_small by lia. reflexivity.
  - (* Timetag *)
    unfold addTimetag. rewrite Hguard by lia. cbn [negb].
    rewrite push_tag_app by lia. cbn [bind seconds fractions]. cbv zeta.
    cbn [seconds fractions].
    destruct (cut3 mid 4 4 ltac:(lia) ltac:(lia) ltac:(lia))
      as (m0 & m1 & m2 & -> & Hm0 & Hm1 & _).
    rewrite !len_app in Hmid, Hfit.
    assert (m2 = []) as -> by (destruct m2; [reflexivity | rewrite len_cons in Hmid; pose proof (len_nonneg m2); lia]).
    rewrite app_nil_r.
    rewrite <- (app_assoc m0 m1 post).
    rewrite (copy_arg_app 0 _ 4 adr an _ _ pre m0 (m1 ++ post)).
    2: lia. 2: lia.
    2: { rewrite len_le_split. lia. }
    2: lia.
    cbn [bind]. rewrite (firstn_le_split 4), ?built_uint32.
    rewrite (copy_arg_app 4 _ 4 adr an _ _ (pre ++ big_endian 4 sec) m1 post).
    2: { rewrite len_app, len_big_endian. lia. }
    2: lia.
    2: { rewrite len_big_endian. lia. }
    2: { rewrite len_app, len_big_endian. lia. }
    cbn [bind]. rewrite (firstn_len_exact (big_endian 4 frac)) by
      (rewrite len_big_endian; reflexivity).
    unfold advance_arg. cbn [mTypeTags mTypeTagCount
      mAddress mAddressSize mArgBuffer mArgBufferSize]. rewrite size_t_small by lia.
    rewrite <- !app_assoc. reflexivity.
  - (* True *)
    unfold addTrue, addTagOnly, MAX_TYPE_TAG_SIZE. cbn [mTypeTagCount].
    replace (len tpre >=? 64 - 1) with false by (symmetry; rewrite Z.geb_leb; apply Z.leb_gt; lia).
    rewrite push_tag_app by lia. cbn [bind].
    destruct mid; [|rewrite len_cons in Hmid; pose proof (len_nonneg mid); lia].
    rewrite Z.add_0_r, app_nil_r. reflexivity.
  - unfold addFalse, addTagOnly, MAX_TYPE_TAG_SIZE. cbn [mTypeTagCount].
    replace (len tpre >=? 64 - 1) with false by (symmetry; rewrite Z.geb_leb; apply Z.leb_gt; lia).
    rewrite push_tag_app by lia. cbn [bind].
    destruct mid; [|rewrite len_cons in Hmid; pose proof (len_nonneg mid); lia].
    rewrite Z.add_0_r, app_nil_r. reflexivity.
  - unfold addNil, addTagOnly, MAX_TYPE_TAG_SIZE. cbn [mTypeTagCount].
    replace (len tpre >=? 64 - 1) with false by (symmetry; rewrite Z.geb_leb; apply Z.leb_gt; lia).
    rewrite push_tag_app by lia. cbn [bind].
    destruct mid; [|rewrite len_cons in Hmid; pose proof (len_nonneg mid); lia].
    rewrite Z.add_0_r, app_nil_r. reflexivity.
  - unfold addInfinitum, addTagOnly, MAX_TYPE_TAG_SIZE. cbn [mTypeTagCount].
    replace (len tpre >=? 64 - 1) with false by (symmetry; rewrite Z.geb_leb; apply Z.leb_gt; lia).
    rewrite push_tag_app by lia. cbn [bind].
    destruct mid; [|rewrite len_cons in Hmid; pose proof (len_nonneg mid); lia].
    rewrite Z.add_0_r, app_nil_r. reflexivity.
  - (* Midi *)
    unfold addMidi. rewrite Hguard by lia. cbn [negb].
    rewrite push_tag_app by lia. cbn [bind].
    destruct mid as [|x1 [|x2 [|x3 [|x4 [|x5 mid]]]]];
      try (exfalso; revert Hmid; unfold len; cbn [List.length]; lia).
    cbn [app].
    rewrite push_arg_app by lia. cbn [bind].
    rewrite push_arg_app by (rewrite ?len_app; change (len [p]) with 1; lia). cbn [bind].
    rewrite push_arg_app by (rewrite ?len_app, ?len_cons; change (len (@nil byte)) with 0; lia). cbn [bind].
    rewrite push_arg_app by (rewrite ?len_app, ?len_cons; change (len (@nil byte)) with 0; lia). cbn [bind].
    rewrite <- !app_assoc. cbn [app]. do 3 f_equal. lia.
  - (* Char *)
    unfold addChar. rewrite Hguard by lia. cbn [negb].
    rewrite push_tag_app by lia. cbn [bind].
    destruct mid as [|x1 [|x2 [|x3 [|x4 [|x5 mid]]]]];
      try (exfalso; revert Hmid; unfold len; cbn [List.length]; lia).
    cbn [app].
    rewrite push_arg_app by lia. cbn [bind].
    rewrite push_arg_app by (rewrite ?len_app; change (len [NUL]) with 1; lia). cbn [bind].
    rewrite push_arg_app by (rewrite ?len_app, ?len_cons; change (len (@nil byte)) with 0; lia). cbn [bind].
    rewrite push_arg_app by (rewrite ?len_app, ?len_cons; change (len (@nil byte)) with 0; lia). cbn [bind].
    rewrite <- !app_assoc. cbn [app]. do 3 f_equal. lia.
  - (* Color *)
    unfold addColor. rewrite Hguard by lia. cbn [negb].
    rewrite push_tag_app by lia. cbn [bind].
    destruct mid as [|x1 [|x2 [|x3 [|x4 [|x5 mid]]]]];
      try (exfalso; revert Hmid; unfold len; cbn [List.length]; lia).
    cbn [app].
    rewrite push_arg_app by lia. cbn [bind].
    rewrite push_arg_app by (rewrite ?len_app; change (len [r]) with 1; lia). cbn [bind].
    rewrite push_arg_app by (rewrite ?len_app, ?len_cons; change (len (@nil byte)) with 0; lia). cbn [bind].
    rewrite push_arg_app by (rewrite ?len_app, ?len_cons; change (len (@nil byte)) with 0; lia). cbn [bind].
    rewrite <- !app_assoc. cbn [app]. do 3 f_equal. lia.
Qed.

End BuilderRun.

Section BuilderState.
Import OSCMessage.

Lemma payload_size_wire (a : argument) :
  typed a -> source_ok a ->
  len (wire a) = payload_size a /\ 0 <= payload_size a /\ payload_size a mod 4 = 0.
Proof.
  destruct a as [v|v|v|data size|v|v|[sec frac]| | | | |p st d1 d2|c|r g b al];
    cbn [typed source_ok wire payload_size seconds fractions]; intros Ht Hs;
    rewrite ?len_app, ?len_big_endian, ?len_repeat;
    try (repeat split; (reflexivity || lia)).
  - pose proof (strlen_nonneg v) as HL.
    pose proof (pad_amount (strlen v + 1) ltac:(lia)) as Hpad.
    pose proof (Z.mod_pos_bound (- (strlen v + 1)) 4 ltac:(lia)) as Hpb.
    rewrite <- strlen_chars. repeat split; try lia.
    rewrite Z.mul_comm. apply Z.mod_mul. lia.
  - pose proof (pad_amount size ltac:(lia)) as Hpad.
    pose proof (Z.mod_pos_bound (- size) 4 ltac:(lia)) as Hpb.
    rewrite len_firstn by lia. repeat split; try lia.
    replace (4 + 4 * ((size + 3) / 4)) with ((1 + (size + 3) / 4) * 4) by lia.
    apply Z.mod_mul. lia.
Qed.

Lemma add_accepts (a : argument) (m : t) :
  wf m -> typed a -> source_ok a ->
  mTypeTagCount m < MAX_TYPE_TAG_SIZE - 1 ->
  mArgBufferSize m + payload_size a <= MAX_ARG_BUFFER_SIZE ->
  exists m',
    add a m = Ret (true, m') /\ wf m'
    /\ mAddress m' = mAddress m /\ mAddressSize m' = mAddressSize m
    /\ mTypeTagCount m' = mTypeTagCount m + 1
    /\ mArgBufferSize m' = mArgBufferSize m + payload_size a
    /\ tags_of m' = tags_of m ++ [tag a]
    /\ payload_of m' = payload_of m ++ wire a.
Proof.
  intros (Ha & Htg & Hbuf & Han & Hcn & Hsz & Hal) Ht Hs Hcount Hfit.
  destruct (payload_size_wire a Ht Hs) as (Hw & Hp0 & Hp4).
  destruct m as [adr an tags count buf n].
  cbn [mAddress mAddressSize mTypeTags mTypeTagCount mArgBuffer mArgBufferSize] in *.
  unfold MAX_ADDRESS_SIZE, MAX_TYPE_TAG_SIZE, MAX_ARG_BUFFER_SIZE in *.
  destruct (cut3 buf n (payload_size a) ltac:(lia) ltac:(lia) ltac:(lia))
    as (pre & mid & post & -> & Hpre & Hmid & _).
  destruct (cut3 tags count 1 ltac:(lia) ltac:(lia) ltac:(lia))
    as (tpre & tmid & tpost & -> & Htpre & Htmid & _).
  destruct tmid as [|tx [|ty tmid]];
    try (exfalso; revert Htmid; unfold len; cbn [List.length]; lia).
  cbn [app] in *. subst n count.
  rewrite add_run; try assumption; unfold MAX_TYPE_TAG_SIZE, MAX_ARG_BUFFER_SIZE; try lia.
  eexists. split; [reflexivity|].
  unfold wf, tags_of, payload_of.
  cbn [mAddress mAddressSize mTypeTags mTypeTagCount mArgBuffer mArgBufferSize].
  unfold MAX_ADDRESS_SIZE, MAX_TYPE_TAG_SIZE, MAX_ARG_BUFFER_SIZE.
  rewrite !len_app, !len_cons in *.
  repeat split; try lia.
  - rewrite Zplus_mod, Hal, Hp4. reflexivity.
  - rewrite (firstn_len_app tpre (tx :: tpost) (len tpre) eq_refl).
    replace (tpre ++ tag a :: tpost) with ((tpre ++ [tag a]) ++ tpost)
      by (rewrite <- app_assoc; reflexivity).
    apply firstn_len_app. rewrite len_app. reflexivity.
  - rewrite (firstn_len_app pre (mid ++ post) (len pre) eq_refl).
    apply firstn_len_app. rewrite len_app. lia.
Qed.

Lemma canAddArg_false (bytes : Z) (m : t) :
  MAX_TYPE_TAG_SIZE - 1 <= mTypeTagCount m
  \/ (0 <= mArgBufferSize m + bytes < 2 ^ 32
      /\ MAX_ARG_BUFFER_SIZE < mArgBufferSize m + bytes) ->
  canAddArg bytes m = false.
Proof.
  intros H. unfold canAddArg. apply andb_false_iff.
  destruct H as [H | [Hr H]].
  - left. apply Z.ltb_ge. exact H.
  - right. rewrite size_t_small by exact Hr. apply Z.leb_gt. exact H.
Qed.

(** The length the blob operation hands to [canAddArg]. *)
Lemma blob_bytes (size : Z) :
  - 3 <= size < 2 ^ 31 ->
  size_t (4 + Z.land (size_t (size_t size + 3)) (Z.lnot 3)) = 4 + 4 * ((size + 3) / 4).
Proof.
  intros Hs. rewrite land_lnot3.
  destruct (Z_lt_le_dec size 0) as [Hneg | Hpos].
  - assert (E : size_t (size_t size + 3) = size + 3).
    { unfold size_t. rewrite Zplus_mod_idemp_l.
      replace (size + 3) with (size + 3 + (-1) * 2 ^ 32 + 1 * 2 ^ 32) at 1 by lia.
      rewrite Z.mod_add by lia.
      replace (size + 3 + -1 * 2 ^ 32) with (size + 3 + (-1) * 2 ^ 32) by lia.
      rewrite Z.mod_add by lia. apply Z.mod_small. lia. }
    rewrite E. rewrite (Z.div_small (size + 3) 4) by lia. reflexivity.
  - rewrite (size_t_small size) by lia. rewrite (size_t_small (size + 3)) by lia.
    pose proof (pad_amount size Hpos) as Hpad.
    pose proof (Z.mod_pos_bound (- size) 4 ltac:(lia)) as Hpb.
    apply size_t_small. lia.
Qed.

Lemma add_rejects (a : argument) (m : t) :
  wf m -> typed a ->
  MAX_TYPE_TAG_SIZE - 1 <= mTypeTagCount m
  \/ MAX_ARG_BUFFER_SIZE < mArgBufferSize m + payload_size a ->
  add a m = Ret (false, m).
Proof.
  intros (Ha & Htg & Hbuf & Han & Hcn & Hsz & Hal) Ht Hfull.
  unfold MAX_ADDRESS_SIZE, MAX_TYPE_TAG_SIZE, MAX_ARG_BUFFER_SIZE in *.
  assert (Hguard : forall bytes, bytes = payload_size a -> 0 <= bytes < 2 ^ 31 + 8 ->
                     canAddArg bytes m = false).
  { intros bytes -> Hr. apply canAddArg_false.
    unfold MAX_TYPE_TAG_SIZE, MAX_ARG_BUFFER_SIZE. lia. }
  destruct a as [v|v|v|data size|v|v|[sec frac]| | | | |p st d1 d2|c|r g b al];
    cbn [add typed payload_size seconds fractions] in *.
  - unfold addInt. rewrite Hguard by lia. reflexivity.
  - unfold addFloat. rewrite Hguard by lia. reflexivity.
  - pose proof (strlen_nonneg v) as HL.
    pose proof (pad_amount (strlen v + 1) ltac:(lia)) as Hpad.
    pose proof (Z.mod_pos_bound (- (strlen v + 1)) 4 ltac:(lia)) as Hpb.
    unfold addString.
    rewrite (size_t_small (strlen v + 1)) by lia.
    rewrite (size_t_small (strlen v + 1 + 3)) by lia.
    rewrite land_lnot3, Hguard by lia. reflexivity.
  - unfold addBlob.
    destruct Hfull as [Hfull | Hfull].
    + rewrite canAddArg_false; [reflexivity|]. left. exact Hfull.
    + assert (Hs : - 3 <= size).
      { destruct (Z_lt_le_dec size (-3)) as [Hlt|]; [|assumption].
        assert ((size + 3) / 4 < 0) by (apply Z.div_lt_upper_bound; lia). lia. }
      rewrite blob_bytes by lia.
      pose proof (Z.div_pos (size + 3) 4 ltac:(lia) ltac:(lia)).
      pose proof (Z.mul_div_le (size + 3) 4 ltac:(lia)).
      rewrite canAddArg_false; [reflexivity|]. right.
      unfold MAX_ARG_BUFFER_SIZE. lia.
  - unfold addInt64. rewrite Hguard by lia. reflexivity.
  - unfold addDouble. rewrite Hguard by lia. reflexivity.
  - unfold addTimetag. rewrite Hguard by lia. reflexivity.
  - unfold addTrue, addTagOnly, MAX_TYPE_TAG_SIZE.
    replace (mTypeTagCount m >=? 64 - 1) with true
      by (symmetry; rewrite Z.geb_leb; apply Z.leb_le; lia). reflexivity.
  - unfold addFalse, addTagOnly, MAX_TYPE_TAG_SIZE.
    replace (mTypeTagCount m >=? 64 - 1) with true
      by (symmetry; rewrite Z.geb_leb; apply Z.leb_le; lia). reflexivity.
  - unfold addNil, addTagOnly, MAX_TYPE_TAG_SIZE.
    replace (mTypeTagCount m >=? 64 - 1) with true
      by (symmetry; rewrite Z.geb_leb; apply Z.leb_le; lia). reflexivity.
  - unfold addInfinitum, addTagOnly, MAX_TYPE_TAG_SIZE.
    replace (mTypeTagCount m >=? 64 - 1) with true
      by (symmetry; rewrite Z.geb_leb; apply Z.leb_le; lia). reflexivity.
  - unfold addMidi. rewrite Hguard by lia. reflexivity.
  - unfold addChar. rewrite Hguard by lia. reflexivity.
  - unfold addColor. rewrite Hguard by lia. reflexivity.
Qed.

Lemma wf_clear : wf clear.
Proof.
  unfold wf, clear, len. cbn [mAddress mAddressSize mTypeTags mTypeTagCount
    mArgBuffer mArgBufferSize]. rewrite !repeat_length.
  unfold MAX_ADDRESS_SIZE, MAX_TYPE_TAG_SIZE, MAX_ARG_BUFFER_SIZE.
  repeat split; try lia; reflexivity.
Qed.

Lemma setAddress_rejects (address : list byte) (m : t) :
  MAX_ADDRESS_SIZE <= strlen address -> setAddress address m = Ret (false, m).
Proof.
  intros H. unfold setAddress.
  replace (strlen address >=? MAX_ADDRESS_SIZE) with true
    by (symmetry; rewrite Z.geb_leb; apply Z.leb_le; exact H).
  reflexivity.
Qed.

Lemma setAddress_accepts (address : list byte) (m : t) :
  len (mAddress m) = MAX_ADDRESS_SIZE ->
  strlen address < MAX_ADDRESS_SIZE ->
  exists m',
    setAddress address m = Ret (true, m')
    /\ mAddressSize m' = 4 * ((strlen address + 1 + 3) / 4)
    /\ address_of m'
       = chars address ++ repeat NUL (Z.to_nat (mAddressSize m' - strlen address))
    /\ len (mAddress m') = MAX_ADDRESS_SIZE
    /\ mTypeTags m' = mTypeTags m /\ mTypeTagCount m' = mTypeTagCount m
    /\ mArgBuffer m' = mArgBuffer m /\ mArgBufferSize m' = mArgBufferSize m.
Proof.
  intros Ha HL. unfold MAX_ADDRESS_SIZE in *.
  pose proof (strlen_nonneg address) as HL0.
  pose proof (pad_amount (strlen address + 1) ltac:(lia)) as Hpad.
  pose proof (Z.mod_pos_bound (- (strlen address + 1)) 4 ltac:(lia)) as Hpb.
  assert (Hcap : 4 * ((strlen address + 1 + 3) / 4) <= 256).
  { assert ((strlen address + 1 + 3) / 4 <= 64)
      by (apply Z.lt_succ_r, Z.div_lt_upper_bound; lia). lia. }
  destruct (cut3 (mAddress m) (strlen address + 1) ((- (strlen address + 1)) mod 4)
              ltac:(lia) ltac:(lia) ltac:(lia))
    as (m1 & m2 & post & Hm & Hm1 & Hm2 & _).
  unfold setAddress, MAX_ADDRESS_SIZE.
  replace (strlen address >=? 256) with false
    by (symmetry; rewrite Z.geb_leb; apply Z.leb_gt; lia).
  rewrite size_t_small by lia.
  rewrite Hm.
  change (m1 ++ m2 ++ post) with ([] ++ m1 ++ m2 ++ post).
  rewrite (memcpy_app [] m1 (m2 ++ post) (c_str address) 0 (strlen address + 1)).
  2: reflexivity. 2: lia.
  2: { unfold c_str. rewrite len_app. pose proof (strlen_le_len address).
       change (len [NUL]) with 1. lia. }
  cbn [bind app]. rewrite firstn_c_str.
  rewrite (pad_zero_app 3 (chars address ++ [NUL]) m2 post (strlen address + 1)).
  2: { rewrite len_app, <- strlen_chars. reflexivity. }
  2: exact Hm2.
  2: { unfold len in Hm2. lia. }
  2: lia.
  cbn [bind]. eexists. split; [reflexivity|].
  unfold address_of.
  cbn [mAddress mAddressSize mTypeTags mTypeTagCount mArgBuffer mArgBufferSize].
  repeat split; try lia.
  - rewrite app_assoc. rewrite firstn_len_app.
    + rewrite <- app_assoc. f_equal.
      replace (Z.to_nat (strlen address + 1 + len m2 - strlen address))
        with (S (List.length m2)) by (unfold len; lia).
      reflexivity.
    + rewrite !len_app, len_repeat, <- strlen_chars. change (len [NUL]) with 1.
      unfold len. lia.
  - rewrite Hm in Ha. rewrite !len_app in Ha. rewrite !len_app, len_repeat, <- strlen_chars.
    change (len [NUL]) with 1. unfold len in *. lia.
Qed.

End BuilderState.

(** ** The parser on the bytes of a message *)

Lemma load_at {A : Type} (pre post : list A) (x : A) (i : Z) :
  i = len pre -> load (pre ++ x :: post) i = Ret x.
Proof.
  intros ->. unfold load. pose proof (len_nonneg pre) as H.
  replace (len pre <? 0) with false by (symmetry; apply Z.ltb_ge; exact H).
  rewrite to_nat_len, nth_error_app2, Nat.sub_diag by lia. reflexivity.
Qed.

Lemma load_bytes_at (pre mid post : list byte) (pos n : Z) :
  pos = len pre -> n = len mid -> load_bytes (pre ++ mid ++ post) pos n = Ret mid.
Proof.
  intros -> ->. unfold load_bytes.
  pose proof (len_nonneg pre). pose proof (len_nonneg mid). pose proof (len_nonneg post).
  assert (H2 : (0 <=? len pre) && (0 <=? len mid)
               && (len pre + len mid <=? len (pre ++ mid ++ post)) = true).
  { rewrite !len_app. repeat (apply andb_true_iff; split); apply Z.leb_le; lia. }
  rewrite H2, !to_nat_len.
  rewrite skipn_app, skipn_all, Nat.sub_diag. cbn [app skipn].
  rewrite firstn_app, firstn_all, Nat.sub_diag, firstn_0, app_nil_r. reflexivity.
Qed.

Lemma chars_app_nul (v rest : list byte) :
  Forall (fun c => c <> NUL) v -> chars (v ++ NUL :: rest) = v.
Proof.
  induction 1 as [|c v Hc _ IH]; cbn [app chars].
  - reflexivity.
  - apply is_nul_false in Hc. rewrite Hc, IH. reflexivity.
Qed.

Section ParserOnWire.
Import OSCMessageView.

Lemma scan_string (fuel : nat) (pre str post : list byte) (size : Z) :
  Forall (fun c => c <> NUL) str ->
  len pre + len str < size -> size < 2 ^ 32 ->
  (List.length str <= fuel)%nat ->
  scan fuel (pre ++ str ++ NUL :: post) size (len pre) = Ret (len pre + len str).
Proof.
  intros Hstr. revert fuel pre.
  induction Hstr as [|c str Hc _ IH]; intros fuel pre Hsize Hbig Hfuel.
  - change (len (@nil byte)) with 0 in *. rewrite Z.add_0_r. cbn [app].
    pose proof (len_nonneg pre).
    destruct fuel; cbn [scan];
      (replace (len pre <? size) with true by (symmetry; apply Z.ltb_lt; lia));
      rewrite load_at by reflexivity; reflexivity.
  - rewrite len_cons in Hsize. pose proof (len_nonneg pre). pose proof (len_nonneg str).
    destruct fuel as [|fuel]; [cbn [List.length] in Hfuel; lia|].
    cbn [scan app].
    replace (len pre <? size) with true by (symmetry; apply Z.ltb_lt; lia).
    rewrite load_at by reflexivity. cbn [bind].
    apply is_nul_false in Hc. rewrite Hc. cbn [negb].
    rewrite size_t_small by lia.
    replace (pre ++ c :: str ++ NUL :: post) with ((pre ++ [c]) ++ str ++ NUL :: post)
      by (rewrite <- app_assoc; reflexivity).
    replace (len pre + 1) with (len (pre ++ [c]))
      by (rewrite len_app; reflexivity).
    rewrite IH.
    + f_equal. rewrite !len_app, !len_cons. change (len (@nil byte)) with 0. lia.
    + rewrite len_app. change (len [c]) with 1. lia.
    + exact Hbig.
    + cbn [List.length] in Hfuel. lia.
Qed.

Lemma decode_i buffer size pos arg :
  decode (chr "i") buffer size pos arg
  = if size_t (pos + 4) >? size then Ret (false, pos, arg)
    else
      bs <- load_bytes buffer pos 4 ;;
      Ret (true, size_t (pos + 4),
           set_u arg (u_i (swap_endian_int32 (int32_t (le_combine bs))))).
Proof. reflexivity. Qed.

Lemma decode_f buffer size pos arg :
  decode (chr "f") buffer size pos arg
  = if size_t (pos + 4) >? size then Ret (false, pos, arg)
    else
      bs <- load_bytes buffer pos 4 ;;
      Ret (true, size_t (pos + 4), set_u arg (u_f (swap_endian_float (le_combine bs)))).
Proof. reflexivity. Qed.

Lemma decode_s buffer size pos arg :
  decode (chr "s") buffer size pos arg
  = let arg := mkArg (type arg) (u arg) (at_offset pos) (blobData arg) (blobSize arg) in
    pos <- scan (Z.to_nat size) buffer size pos ;;
    if pos >=? size then Ret (false, pos, arg)
    else Ret (true, align4 (size_t (pos + 1)), arg).
Proof. reflexivity. Qed.

Lemma decode_b buffer size pos arg :
  decode (chr "b") buffer size pos arg
  = if size_t (pos + 4) >? size then Ret (false, pos, arg)
    else
      bs <- load_bytes buffer pos 4 ;;
      let n := swap_endian_int32 (int32_t (le_combine bs)) in
      let arg := mkArg (type arg) (u arg) (s arg) (blobData arg) n in
      let pos := size_t (pos + 4) in
      if size_t (pos + size_t n) >? size then Ret (false, pos, arg)
      else
        Ret (true, align4 (size_t (pos + size_t n)),
             mkArg (type arg) (u arg) (s arg) (at_offset pos) (blobSize arg)).
Proof. reflexivity. Qed.

Lemma decode_h buffer size pos arg :
  decode (chr "h") buffer size pos arg
  = if size_t (pos + 8) >? size then Ret (false, pos, arg)
    else
      bs <- load_bytes buffer pos 8 ;;
      Ret (true, size_t (pos + 8),
           set_u arg (u_h (swap_endian_int64 (int64_t (le_combine bs))))).
Proof. reflexivity. Qed.

Lemma decode_d buffer size pos arg :
  decode (chr "d") buffer size pos arg
  = if size_t (pos + 8) >? size then Ret (false, pos, arg)
    else
      bs <- load_bytes buffer pos 8 ;;
      Ret (true, size_t (pos + 8), set_u arg (u_d (swap_endian_double (le_combine bs)))).
Proof. reflexivity. Qed.

Lemma decode_t buffer size pos arg :
  decode (chr "t") buffer size pos arg
  = if size_t (pos + 8) >? size then Ret (false, pos, arg)
    else
      bs <- load_bytes buffer pos 4 ;;
      bs' <- load_bytes buffer (size_t (pos + 4)) 4 ;;
      Ret (true, size_t (pos + 8),
           set_u arg (u_t (mkTimetag (swap_endian_uint32 (uint32_t (le_combine bs)))
                                     (swap_endian_uint32 (uint32_t (le_combine bs')))))).
Proof. reflexivity. Qed.

Lemma decode_m buffer size pos arg :
  decode (chr "m") buffer size pos arg
  = if size_t (pos + 4) >? size then Ret (false, pos, arg)
    else
      port <- load buffer pos ;;
      status <- load buffer (size_t (pos + 1)) ;;
      data1 <- load buffer (size_t (pos + 2)) ;;
      data2 <- load buffer (size_t (pos + 3)) ;;
      Ret (true, size_t (pos + 4), set_u arg (u_midi port status data1 data2)).
Proof. reflexivity. Qed.

Lemma decode_c buffer size pos arg :
  decode (chr "c") buffer size pos arg
  = if size_t (pos + 4) >? size then Ret (false, pos, arg)
    else
      c <- load buffer (size_t (pos + 3)) ;;
      Ret (true, size_t (pos + 4), set_u arg (u_c c)).
Proof. reflexivity. Qed.

Lemma decode_r buffer size pos arg :
  decode (chr "r") buffer size pos arg
  = if size_t (pos + 4) >? size then Ret (false, pos, arg)
    else
      r <- load buffer pos ;;
      g <- load buffer (size_t (pos + 1)) ;;
      b <- load buffer (size_t (pos + 2)) ;;
      a <- load buffer (size_t (pos + 3)) ;;
      Ret (true, size_t (pos + 4), set_u arg (u_color r g b a)).
Proof. reflexivity. Qed.

End ParserOnWire.

Lemma gtb_false (x y : Z) : x <= y -> (x >? y) = false.
Proof. intros H. rewrite Z.gtb_ltb. apply Z.ltb_ge. exact H. Qed.

Lemma gtb_true (x y : Z) : y < x -> (x >? y) = true.
Proof. intros H. rewrite Z.gtb_ltb. apply Z.ltb_lt. exact H. Qed.

Lemma geb_false (x y : Z) : x < y -> (x >=? y) = false.
Proof. intros H. rewrite Z.geb_leb. apply Z.leb_gt. exact H. Qed.

Lemma geb_true (x y : Z) : y <= x -> (x >=? y) = true.
Proof. intros H. rewrite Z.geb_leb. apply Z.leb_le. exact H. Qed.

Lemma tag_not_nul (a : argument) : is_nul (tag a) = false.
Proof. destruct a; reflexivity. Qed.

Lemma align4_step (P L : Z) :
  0 <= P -> 0 <= L -> P mod 4 = 0 -> P + L + 3 < 2 ^ 32 ->
  align4 (P + L) = P + 4 * ((L + 3) / 4).
Proof.
  intros HP HL Hal Hbig. rewrite align4_small by lia.
  apply Z.mod_divide in Hal; [|lia]. destruct Hal as [k ->].
  replace (k * 4 + L + 3) with (L + 3 + k * 4) by lia.
  rewrite Z.div_add by lia. lia.
Qed.

Section DecodeOnWire.
Import OSCMessageView.

Lemma decode_wire (a : argument) (pre post : list byte) (size : Z) (arg0 : OSCArg) :
  proper a -> type arg0 = tag a ->
  len pre mod 4 = 0 -> len pre + payload_size a <= size -> size <= PTRDIFF_MAX ->
  exists slot,
    decode (tag a) (pre ++ wire a ++ post) size (len pre) arg0
    = Ret (true, len pre + payload_size a, slot)
    /\ observe (pre ++ wire a ++ post) slot = Some a.
Proof.
  intros [Ht Hc] Htype Hal Hfit Hsize. unfold PTRDIFF_MAX in Hsize.
  pose proof (len_nonneg pre) as Hpre.
  destruct a as [v|v|v|data n|v|v|[sec frac]| | | | |p st d1 d2|c|r g b al];
    cbn [typed tag wire payload_size seconds fractions] in *.
  - rewrite decode_i, size_t_small, gtb_false by lia.
    rewrite load_bytes_at by (rewrite ?len_big_endian; reflexivity). cbn [bind].
    rewrite parsed_int32 by exact Ht. eexists. split; [reflexivity|].
    unfold observe, set_u. cbn [type u]. rewrite Htype. reflexivity.
  - rewrite decode_f, size_t_small, gtb_false by lia.
    rewrite load_bytes_at by (rewrite ?len_big_endian; reflexivity). cbn [bind].
    rewrite parsed_float by exact Ht. eexists. split; [reflexivity|].
    unfold observe, set_u. cbn [type u]. rewrite Htype. reflexivity.
  - pose proof (strlen_nonneg v) as HL.
    pose proof (pad_amount (strlen v + 1) ltac:(lia)) as Hpad.
    pose proof (Z.mod_pos_bound (- (strlen v + 1)) 4 ltac:(lia)) as Hpb.
    rewrite (chars_id v Hc).
    assert (Hlen : strlen v = len v) by (rewrite strlen_chars, (chars_id v Hc); reflexivity).
    replace (Z.to_nat (4 * ((strlen v + 1 + 3) / 4) - strlen v))
      with (S (Z.to_nat ((- (strlen v + 1)) mod 4))) by lia.
    cbn [repeat]. rewrite <- (app_assoc v), <- app_comm_cons.
    rewrite decode_s. cbv zeta.
    rewrite scan_string; try assumption; try lia.
    2: { unfold len in *. lia. }
    cbn [bind]. rewrite geb_false by lia.
    rewrite (size_t_small (len pre + len v + 1)) by lia.
    replace (len pre + len v + 1) with (len pre + (len v + 1)) by lia.
    rewrite align4_step by lia.
    eexists. split.
    + rewrite <- Hlen. reflexivity.
    + unfold observe. cbn [type s]. rewrite Htype.
      change (Byte.eqb (chr "s") (chr "i")) with false.
      change (Byte.eqb (chr "s") (chr "f")) with false.
      change (Byte.eqb (chr "s") (chr "s")) with true. cbv iota.
      unfold string_at. rewrite (proj2 (Z.ltb_ge (len pre) 0)) by lia.
      rewrite to_nat_len, skipn_app, skipn_all, Nat.sub_diag. cbn [app skipn].
      rewrite chars_app_nul by exact Hc. reflexivity.
  - subst n. pose proof (len_nonneg data) as Hd.
    pose proof (pad_amount (len data) ltac:(lia)) as Hpad.
    pose proof (Z.mod_pos_bound (- len data) 4 ltac:(lia)) as Hpb.
    rewrite (firstn_len_exact data) by reflexivity.
    rewrite <- !app_assoc.
    rewrite decode_b, size_t_small, gtb_false by lia.
    rewrite load_bytes_at by (rewrite ?len_big_endian; reflexivity). cbn [bind].
    rewrite parsed_int32 by exact Ht. cbv zeta.
    rewrite (size_t_small (len data)) by lia.
    rewrite (size_t_small (len pre + 4 + len data)) by lia.
    rewrite gtb_false by lia.
    replace (len pre + 4 + len data) with (len pre + (4 + len data)) by lia.
    rewrite align4_step by lia.
    replace (4 * ((4 + len data + 3) / 4)) with (4 + 4 * ((len data + 3) / 4)).
    2: { replace (4 + len data + 3) with (len data + 3 + 1 * 4) by lia.
         rewrite Z.div_add by lia. lia. }
    eexists. split; [reflexivity|].
    unfold observe. cbn [type blobData blobSize]. rewrite Htype.
    change (Byte.eqb (chr "b") (chr "i")) with false.
    change (Byte.eqb (chr "b") (chr "f")) with false.
    change (Byte.eqb (chr "b") (chr "s")) with false.
    change (Byte.eqb (chr "b") (chr "b")) with true. cbv iota zeta.
    assert (Hb : (0 <=? len pre + 4) && (0 <=? len data)
                 && (len pre + 4 + len data
                     <=? len (pre ++ big_endian 4 (len data) ++ data
                                  ++ repeat NUL (Z.to_nat (4 + 4 * ((len data + 3) / 4)
                                                           - 4 - len data)) ++ post))
                 = true).
    { rewrite !len_app, len_big_endian. pose proof (len_nonneg post).
      pose proof (len_nonneg (repeat NUL (Z.to_nat (4 + 4 * ((len data + 3) / 4)
                                                     - 4 - len data)))).
      repeat (apply andb_true_iff; split); apply Z.leb_le; lia. }
    rewrite Hb. do 2 f_equal.
    rewrite app_assoc.
    replace (Z.to_nat (len pre + 4)) with (List.length (pre ++ big_endian 4 (len data))).
    2: { rewrite length_app. unfold big_endian. rewrite length_rev, length_le_split.
         unfold len. lia. }
    rewrite skipn_app, skipn_all, Nat.sub_diag. cbn [app skipn].
    rewrite to_nat_len, firstn_app, firstn_all, Nat.sub_diag, firstn_0.
    apply app_nil_r.
  - rewrite decode_h, size_t_small, gtb_false by lia.
    rewrite load_bytes_at by (rewrite ?len_big_endian; reflexivity). cbn [bind].
    rewrite parsed_int64 by exact Ht. eexists. split; [reflexivity|].
    unfold observe, set_u. cbn [type u]. rewrite Htype. reflexivity.
  - rewrite decode_d, size_t_small, gtb_false by lia.
    rewrite load_bytes_at by (rewrite ?len_big_endian; reflexivity). cbn [bind].
    rewrite parsed_double by exact Ht. eexists. split; [reflexivity|].
    unfold observe, set_u. cbn [type u]. rewrite Htype. reflexivity.
  - destruct Ht as [Hsec Hfrac].
    rewrite decode_t, size_t_small, gtb_false by lia.
    rewrite <- (app_assoc (big_endian 4 sec)).
    rewrite load_bytes_at by (rewrite ?len_big_endian; reflexivity). cbn [bind].
    rewrite size_t_small by lia.
    rewrite (app_assoc pre).
    rewrite load_bytes_at by (rewrite ?len_app, ?len_big_endian; reflexivity). cbn [bind].
    rewrite !parsed_uint32 by assumption.
    eexists. split; [reflexivity|].
    unfold observe, set_u. cbn [type u]. rewrite Htype. reflexivity.
  - eexists. split; [rewrite Z.add_0_r; reflexivity|].
    unfold observe. rewrite Htype. reflexivity.
  - eexists. split; [rewrite Z.add_0_r; reflexivity|].
    unfold observe. rewrite Htype. reflexivity.
  - eexists. split; [rewrite Z.add_0_r; reflexivity|].
    unfold observe. rewrite Htype. reflexivity.
  - eexists. split; [rewrite Z.add_0_r; reflexivity|].
    unfold observe. rewrite Htype. reflexivity.
  - rewrite decode_m, !size_t_small, gtb_false by lia. cbn [app].
    rewrite load_at by reflexivity. cbn [bind].
    replace (pre ++ p :: st :: d1 :: d2 :: post) with ((pre ++ [p]) ++ st :: d1 :: d2 :: post)
      by (rewrite <- app_assoc; reflexivity).
    rewrite load_at by (rewrite len_app; reflexivity). cbn [bind].
    replace ((pre ++ [p]) ++ st :: d1 :: d2 :: post) with ((pre ++ [p; st]) ++ d1 :: d2 :: post)
      by (rewrite <- !app_assoc; reflexivity).
    rewrite load_at by (rewrite len_app; reflexivity). cbn [bind].
    replace ((pre ++ [p; st]) ++ d1 :: d2 :: post) with ((pre ++ [p; st; d1]) ++ d2 :: post)
      by (rewrite <- !app_assoc; reflexivity).
    rewrite load_at by (rewrite len_app; reflexivity). cbn [bind].
    eexists. split; [reflexivity|].
    unfold observe, set_u. cbn [type u]. rewrite Htype. reflexivity.
  - rewrite decode_c, !size_t_small, gtb_false by lia. cbn [app].
    replace (pre ++ NUL :: NUL :: NUL :: c :: post) with ((pre ++ [NUL; NUL; NUL]) ++ c :: post)
      by (rewrite <- !app_assoc; reflexivity).
    rewrite load_at by (rewrite len_app; reflexivity). cbn [bind].
    eexists. split; [reflexivity|].
    unfold observe, set_u. cbn [type u]. rewrite Htype. reflexivity.
  - rewrite decode_r, !size_t_small, gtb_false by lia. cbn [app].
    rewrite load_at by reflexivity. cbn [bind].
    replace (pre ++ r :: g :: b :: al :: post) with ((pre ++ [r]) ++ g :: b :: al :: post)
      by (rewrite <- app_assoc; reflexivity).
    rewrite load_at by (rewrite len_app; reflexivity). cbn [bind].
    replace ((pre ++ [r]) ++ g :: b :: al :: post) with ((pre ++ [r; g]) ++ b :: al :: post)
      by (rewrite <- !app_assoc; reflexivity).
    rewrite load_at by (rewrite len_app; reflexivity). cbn [bind].
    replace ((pre ++ [r; g]) ++ b :: al :: post) with ((pre ++ [r; g; b]) ++ al :: post)
      by (rewrite <- !app_assoc; reflexivity).
    rewrite load_at by (rewrite len_app; reflexivity). cbn [bind].
    eexists. split; [reflexivity|].
    unfold observe, set_u. cbn [type u]. rewrite Htype. reflexivity.
Qed.

End DecodeOnWire.

Lemma padded_unfold (s : list byte) :
  padded s = s ++ NUL :: repeat NUL (Z.to_nat ((- (len s + 1)) mod 4)).
Proof.
  unfold padded. pose proof (len_nonneg s) as H.
  pose proof (pad_amount (len s + 1) ltac:(lia)) as Hpad.
  pose proof (Z.mod_pos_bound (- (len s + 1)) 4 ltac:(lia)) as Hpb.
  replace (Z.to_nat (4 * ((len s + 1 + 3) / 4) - len s))
    with (S (Z.to_nat ((- (len s + 1)) mod 4))) by lia.
  reflexivity.
Qed.

Lemma len_padded (s : list byte) : len (padded s) = 4 * ((len s + 1 + 3) / 4).
Proof.
  unfold padded. pose proof (len_nonneg s) as H.
  pose proof (pad_amount (len s + 1) ltac:(lia)) as Hpad.
  pose proof (Z.mod_pos_bound (- (len s + 1)) 4 ltac:(lia)) as Hpb.
  rewrite len_app, len_repeat. lia.
Qed.

Lemma len_padded_bounds (s : list byte) :
  (len s + 1 <= len (padded s) <= len s + 4 /\ 4 <= len (padded s))
  /\ len (padded s) mod 4 = 0.
Proof.
  rewrite len_padded. pose proof (len_nonneg s) as H.
  pose proof (pad_amount (len s + 1) ltac:(lia)) as Hpad.
  pose proof (Z.mod_pos_bound (- (len s + 1)) 4 ltac:(lia)) as Hpb.
  assert (1 <= (len s + 1 + 3) / 4) by (apply Z.div_le_lower_bound; lia).
  split; [lia|]. rewrite Z.mul_comm. apply Z.mod_mul. lia.
Qed.

Lemma len_concat_wire (args : list argument) :
  Forall proper args ->
  0 <= len (List.concat (map wire args))
  /\ len (List.concat (map wire args)) mod 4 = 0.
Proof.
  induction 1 as [|a args [Ht Hc] _ IH]; cbn [map List.concat].
  - split; reflexivity.
  - assert (Hs : source_ok a).
    { destruct a; cbn [source_ok]; try exact I. subst size. pose proof (len_nonneg data). lia. }
    destruct (payload_size_wire a Ht Hs) as (Hw & Hp0 & Hp4).
    rewrite len_app, Hw. destruct IH as [IH0 IH4]. split; [lia|].
    rewrite Zplus_mod, Hp4, IH4. reflexivity.
Qed.

Lemma proper_source_ok (a : argument) : proper a -> source_ok a.
Proof.
  intros [_ Hc]. destruct a; cbn [source_ok]; try exact I.
  subst size. pose proof (len_nonneg data). lia.
Qed.

Section ParseOnWire.
Import OSCMessageView.

Lemma parse_args_wire (args : list argument) :
  forall (fuel : nat) (B tpre tpost pre post : list byte) (dn td : list OSCArg)
         (v : t) (size : Z),
    B = tpre ++ map tag args ++ NUL :: tpost ->
    B = pre ++ List.concat (map wire args) ++ post ->
    Forall proper args ->
    len pre mod 4 = 0 ->
    len pre + len (List.concat (map wire args)) <= size -> size <= PTRDIFF_MAX ->
    mArgs v = dn ++ td -> mArgCount v = len dn ->
    len args <= len td -> len dn + len td = MAX_ARGS ->
    (List.length args <= fuel)%nat ->
    exists slots,
      parse_args fuel B size (len tpre) (len pre) v
      = Ret (true, mk (mAddress v) (mTypeTags v)
                      (dn ++ slots ++ skipn (List.length args) td)
                      (len dn + len args))
      /\ map (observe B) slots = map Some args.
Proof.
  induction args as [|a args IH];
    intros fuel B tpre tpost pre post dn td v size Htags Hpay Hprop Hal Hfit Hsize
           Hargs Hcount Hroom Hcap Hfuel.
  - exists []. split; [|reflexivity].
    assert (Hl : load B (len tpre) = Ret NUL)
      by (rewrite Htags; apply load_at; reflexivity).
    destruct fuel; cbn [parse_args]; rewrite Hl; cbn [bind];
      change (is_nul NUL) with true; cbn [negb andb];
      destruct v as [va vt vargs vc]; cbn [mAddress mTypeTags mArgs mArgCount] in *;
      subst vargs vc; cbn [app skipn List.length]; change (len (@nil argument)) with 0;
      rewrite Z.add_0_r; reflexivity.
  - inversion Hprop as [|a' args' Ha Hrest]; subst a' args'.
    cbn [map List.concat] in *.
    rewrite len_cons in Hroom. rewrite len_app in Hfit.
    destruct (payload_size_wire a (proj1 Ha) (proper_source_ok a Ha)) as (Hw & Hp0 & Hp4).
    destruct (len_concat_wire args Hrest) as [Hc0 Hc4].
    pose proof (len_nonneg args) as Hargs0. pose proof (len_nonneg dn) as Hdn0.
    pose proof (len_nonneg pre) as Hpre0.
    destruct td as [|x td]; [change (len (@nil OSCArg)) with 0 in Hroom; lia|].
    rewrite len_cons in Hroom, Hcap. pose proof (len_nonneg td) as Htd0.
    unfold MAX_ARGS, PTRDIFF_MAX in *.
    destruct fuel as [|fuel]; [cbn [List.length] in Hfuel; lia|].
    assert (Hl : load B (len tpre) = Ret (tag a))
      by (rewrite Htags; apply load_at; reflexivity).
    cbn [parse_args]. rewrite Hl. cbn [bind].
    rewrite tag_not_nul. cbn [negb andb].
    rewrite Hcount. unfold MAX_ARGS.
    replace (len dn <? 64) with true by (symmetry; apply Z.ltb_lt; lia).
    rewrite Hargs, load_at by reflexivity. cbn [bind].
    destruct (decode_wire a pre (List.concat (map wire args) ++ post) size
                (mkArg (tag a) (u x) nullptr nullptr (blobSize x)) Ha eq_refl Hal
                ltac:(lia) ltac:(unfold PTRDIFF_MAX; lia)) as (slot & Hdec & Hobs).
    rewrite <- app_assoc in Hpay. rewrite <- Hpay in Hdec, Hobs.
    rewrite Hdec. cbn [bind].
    rewrite store_app by reflexivity. cbn [bind negb mAddress mTypeTags mArgs mArgCount].
    rewrite size_t_small by lia.
    replace (len tpre + 1) with (len (tpre ++ [tag a]))
      by (rewrite len_app; reflexivity).
    replace (len pre + payload_size a) with (len (pre ++ wire a))
      by (rewrite len_app, Hw; reflexivity).
    destruct (IH fuel B (tpre ++ [tag a]) tpost (pre ++ wire a) post
                (dn ++ [slot]) td
                (mk (mAddress v) (mTypeTags v) (dn ++ slot :: td) (len dn + 1)) size)
      as (slots & Hrun & Hslots).
    + rewrite Htags, <- app_assoc. reflexivity.
    + rewrite Hpay, <- app_assoc. reflexivity.
    + exact Hrest.
    + rewrite len_app, Hw, Zplus_mod, Hal, Hp4. reflexivity.
    + rewrite len_app, Hw. lia.
    + unfold PTRDIFF_MAX. lia.
    + cbn [mArgs]. rewrite <- app_assoc. reflexivity.
    + cbn [mArgCount]. rewrite len_app. reflexivity.
    + lia.
    + rewrite len_app. change (len [slot]) with 1. unfold MAX_ARGS. lia.
    + cbn [List.length] in Hfuel. lia.
    + exists (slot :: slots). split.
      * rewrite Hrun. cbn [mAddress mTypeTags]. do 3 f_equal.
        -- rewrite <- app_assoc. reflexivity.
        -- rewrite !len_app, !len_cons. change (len (@nil OSCArg)) with 0. lia.
      * cbn [map]. rewrite Hobs, Hslots. reflexivity.
Qed.

Lemma scan_string0 (fuel : nat) (str post : list byte) (size : Z) :
  Forall (fun c => c <> NUL) str ->
  len str < size -> size < 2 ^ 32 ->
  (List.length str <= fuel)%nat ->
  scan fuel (str ++ NUL :: post) size 0 = Ret (len str).
Proof.
  intros Hstr Hsize Hbig Hfuel.
  apply (scan_string fuel [] str post size Hstr); assumption.
Qed.

Lemma parse_message (address : list byte) (args : list argument) (rest : list byte)
      (v0 : t) :
  hd NUL address = chr "/" ->
  Forall (fun c => c <> NUL) address ->
  Forall proper args ->
  len args < MAX_ARGS ->
  len (mArgs v0) = MAX_ARGS ->
  len (message address args) <= PTRDIFF_MAX ->
  exists v,
    parse (message address args ++ rest) (len (message address args)) v0 = Ret (true, v)
    /\ string_at (message address args ++ rest) (mAddress v) = Some address
    /\ string_at (message address args ++ rest) (mTypeTags v) = Some (map tag args)
    /\ mArgCount v = len args
    /\ observed (message address args ++ rest) v = map Some args.
Proof.
  intros Hslash Hadr Hprop Hn Hv0 Hsize.
  set (B := message address args ++ rest).
  set (size := len (message address args)) in *.
  set (tags := chr "," :: map tag args).
  assert (Htags : Forall (fun c => c <> NUL) tags).
  { constructor; [discriminate|]. apply Forall_forall. intros c Hc.
    apply in_map_iff in Hc. destruct Hc as (a & <- & _).
    apply is_nul_false. apply tag_not_nul. }
  destruct (len_padded_bounds address) as [[HA HAge] HA4].
  destruct (len_padded_bounds tags) as [[HT HTge] HT4].
  destruct (len_concat_wire args Hprop) as [HP0 HP4].
  pose proof (len_nonneg address) as Ha0. pose proof (len_nonneg args) as Hargs0.
  assert (Hlt : len tags = 1 + len args).
  { unfold tags. rewrite len_cons. unfold len. rewrite length_map. reflexivity. }
  assert (Hsz : size = len (padded address) + len (padded tags)
                       + len (List.concat (map wire args))).
  { unfold size, message. rewrite !len_app. fold tags. lia. }
  assert (HB : B = padded address ++ padded tags ++ List.concat (map wire args) ++ rest).
  { unfold B, message. fold tags. rewrite <- !app_assoc. reflexivity. }
  unfold PTRDIFF_MAX, MAX_ARGS in *.
  destruct address as [|c0 adr]; [discriminate Hslash|].
  cbn [hd] in Hslash. subst c0.
  unfold parse.
  replace (size <? 4) with false by (symmetry; apply Z.ltb_ge; lia).
  assert (Hl0 : load B 0 = Ret (chr "/")).
  { rewrite HB, padded_unfold. cbn [app]. reflexivity. }
  rewrite Hl0. cbn [bind]. change (Byte.eqb (chr "/") (chr "/")) with true.
  cbn [negb clear mAddress mTypeTags mArgs mArgCount].
  assert (Hs1 : scan (Z.to_nat size) B size 0 = Ret (len (chr "/" :: adr))).
  { rewrite HB, padded_unfold, <- app_assoc, <- (app_comm_cons _ _ NUL).
    rewrite (scan_string0 (Z.to_nat size) (chr "/" :: adr)); try assumption.
    - reflexivity.
    - lia.
    - lia.
    - unfold len in *. lia. }
  rewrite Hs1. cbn [bind]. rewrite geb_false by lia.
  rewrite (size_t_small (len (chr "/" :: adr) + 1)) by lia.
  assert (Hal1 : align4 (len (chr "/" :: adr) + 1) = len (padded (chr "/" :: adr))).
  { rewrite align4_small by lia. rewrite len_padded. reflexivity. }
  rewrite Hal1. rewrite geb_false by lia.
  assert (Hl1 : load B (len (padded (chr "/" :: adr))) = Ret (chr ",")).
  { rewrite HB. rewrite (padded_unfold tags). unfold tags at 1.
    rewrite <- app_assoc. cbn [app]. apply load_at. reflexivity. }
  rewrite Hl1. cbn [bind]. change (Byte.eqb (chr ",") (chr ",")) with true.
  cbn [negb].
  assert (Hs2 : scan (Z.to_nat size) B size (len (padded (chr "/" :: adr)))
                = Ret (len (padded (chr "/" :: adr)) + len tags)).
  { rewrite HB at 1. rewrite (padded_unfold tags), <- (app_assoc tags), <- (app_comm_cons _ _ NUL).
    rewrite scan_string; try assumption.
    - reflexivity.
    - lia.
    - lia.
    - unfold len in *. lia. }
  rewrite Hs2. cbn [bind]. rewrite geb_false by lia.
  rewrite (size_t_small (len (padded (chr "/" :: adr)) + len tags + 1)) by lia.
  assert (Hal2 : align4 (len (padded (chr "/" :: adr)) + len tags + 1)
                 = len (padded (chr "/" :: adr) ++ padded tags)).
  { replace (len (padded (chr "/" :: adr)) + len tags + 1)
      with (len (padded (chr "/" :: adr)) + (len tags + 1)) by lia.
    rewrite align4_step by lia. rewrite len_app, (len_padded tags). reflexivity. }
  rewrite Hal2.
  replace (len (padded (chr "/" :: adr)) + 1)
    with (len (padded (chr "/" :: adr) ++ [chr ","]))
    by (rewrite len_app; reflexivity).
  destruct (parse_args_wire args (Z.to_nat 64) B
              (padded (chr "/" :: adr) ++ [chr ","])
              (repeat NUL (Z.to_nat ((- (len tags + 1)) mod 4))
               ++ List.concat (map wire args) ++ rest)
              (padded (chr "/" :: adr) ++ padded tags) rest
              [] (mArgs v0)
              (mk (at_offset 0) (at_offset (len (padded (chr "/" :: adr) ++ [chr ","])))
                  (mArgs v0) 0) size)
    as (slots & Hrun & Hslots).
  - rewrite HB, (padded_unfold tags). unfold tags. rewrite <- !app_assoc. reflexivity.
  - rewrite HB, <- !app_assoc. reflexivity.
  - exact Hprop.
  - rewrite len_app, Zplus_mod, HA4, HT4. reflexivity.
  - rewrite len_app. lia.
  - unfold PTRDIFF_MAX. lia.
  - reflexivity.
  - reflexivity.
  - lia.
  - change (len (@nil OSCArg)) with 0. unfold MAX_ARGS. lia.
  - unfold len in *. lia.
  - cbn [mAddress mTypeTags] in Hrun. fold B. eexists. split; [exact Hrun|].
    cbn [mAddress mTypeTags mArgCount mArgs app].
    change (len (@nil OSCArg)) with 0. rewrite Z.add_0_l.
    split; [|split; [|split]].
    + unfold string_at. cbn [Z.ltb Z.compare Z.to_nat skipn].
      rewrite HB, padded_unfold, <- app_assoc, <- (app_comm_cons _ _ NUL).
      rewrite chars_app_nul by assumption. reflexivity.
    + unfold string_at.
      rewrite (proj2 (Z.ltb_ge _ 0)) by (pose proof (len_nonneg (padded (chr "/" :: adr) ++ [chr ","])); lia).
      rewrite to_nat_len.
      assert (HB' : B = (padded (chr "/" :: adr) ++ [chr ","])
                        ++ map tag args
                        ++ NUL :: repeat NUL (Z.to_nat ((- (len tags + 1)) mod 4))
                        ++ List.concat (map wire args) ++ rest).
      { rewrite HB, (padded_unfold tags). unfold tags. rewrite <- !app_assoc. reflexivity. }
      rewrite HB', skipn_app, skipn_all, Nat.sub_diag. cbn [app skipn].
      rewrite chars_app_nul; [reflexivity|].
      inversion Htags; assumption.
    + reflexivity.
    + unfold observed. cbn [mArgCount mArgs].
      rewrite firstn_len_app; [exact Hslots|].
      unfold len. rewrite <- (length_map (observe B) slots), Hslots, length_map.
      reflexivity.
Qed.

End ParseOnWire.

(** ** Assembling and serializing a message *)

Lemma cut_front {A : Type} (arr : list A) (n : Z) :
  0 <= n <= len arr ->
  exists a b, arr = a ++ b /\ len a = n /\ a = firstn (Z.to_nat n) arr
              /\ b = skipn (Z.to_nat n) arr.
Proof.
  intros H. exists (firstn (Z.to_nat n) arr), (skipn (Z.to_nat n) arr).
  rewrite firstn_skipn. repeat split. unfold len in *. rewrite length_firstn. lia.
Qed.

Lemma skipn_skipn_Z {A : Type} (arr : list A) (a b : Z) :
  0 <= a -> 0 <= b ->
  skipn (Z.to_nat b) (skipn (Z.to_nat a) arr) = skipn (Z.to_nat (a + b)) arr.
Proof.
  intros Ha Hb. rewrite skipn_skipn. f_equal. lia.
Qed.

Lemma skipn_len_app {A : Type} (pre rest : list A) (n : Z) :
  n = len pre -> skipn (Z.to_nat n) (pre ++ rest) = rest.
Proof.
  intros ->. rewrite to_nat_len, skipn_app, skipn_all, Nat.sub_diag. reflexivity.
Qed.

Section Serialize.
Import OSCMessage.

Lemma build_refuses (m : t) (outBuffer : list byte) (maxSize : Z) :
  wf m ->
  maxSize < mAddressSize m + 4 * ((mTypeTagCount m + 2 + 3) / 4) + mArgBufferSize m
  \/ mAddressSize m = 0 ->
  build m outBuffer maxSize = Ret (0, outBuffer).
Proof.
  intros (Ha & Htg & Hbuf & Han & Hcn & Hsz & Hal) H.
  unfold MAX_ADDRESS_SIZE, MAX_TYPE_TAG_SIZE, MAX_ARG_BUFFER_SIZE in *.
  unfold build.
  rewrite (size_t_small (1 + mTypeTagCount m)) by lia.
  rewrite (size_t_small (1 + mTypeTagCount m + 1)) by lia.
  rewrite (size_t_small (1 + mTypeTagCount m + 1 + 3)) by lia.
  rewrite land_lnot3.
  pose proof (Z.mul_div_le (1 + mTypeTagCount m + 1 + 3) 4 ltac:(lia)).
  pose proof (Z.div_pos (1 + mTypeTagCount m + 1 + 3) 4 ltac:(lia) ltac:(lia)).
  replace (1 + mTypeTagCount m + 1 + 3) with (mTypeTagCount m + 2 + 3) in * by lia.
  rewrite (size_t_small (mAddressSize m + _)) by lia.
  rewrite (size_t_small (mAddressSize m + _ + _)) by lia.
  destruct H as [H | H].
  - rewrite gtb_true by lia. reflexivity.
  - rewrite H. rewrite orb_true_r. reflexivity.
Qed.

Lemma build_writes (m : t) (outBuffer : list byte) (maxSize : Z) :
  wf m -> mAddressSize m <> 0 -> mAddressSize m mod 4 = 0 ->
  let total :=
    mAddressSize m + 4 * ((mTypeTagCount m + 2 + 3) / 4) + mArgBufferSize m in
  total <= maxSize -> maxSize <= len outBuffer ->
  build m outBuffer maxSize
  = Ret (total,
         (address_of m ++ padded (chr "," :: tags_of m) ++ payload_of m)
         ++ skipn (Z.to_nat total) outBuffer)
  /\ total = len (address_of m ++ padded (chr "," :: tags_of m) ++ payload_of m).
Proof.
  intros (Ha & Htg & Hbuf & Han & Hcn & Hsz & Hal) Hn0 Hal4 total Htot Hmax.
  unfold MAX_ADDRESS_SIZE, MAX_TYPE_TAG_SIZE, MAX_ARG_BUFFER_SIZE in *.
  pose proof (Z.mul_div_le (mTypeTagCount m + 2 + 3) 4 ltac:(lia)) as Hq1.
  pose proof (Z.div_pos (mTypeTagCount m + 2 + 3) 4 ltac:(lia) ltac:(lia)) as Hq0.
  pose proof (pad_amount (mTypeTagCount m + 2) ltac:(lia)) as Hpad.
  pose proof (Z.mod_pos_bound (- (mTypeTagCount m + 2)) 4 ltac:(lia)) as Hpb.
  assert (HlA : len (address_of m) = mAddressSize m)
    by (unfold address_of; apply len_firstn; lia).
  assert (HlT : len (tags_of m) = mTypeTagCount m)
    by (unfold tags_of; apply len_firstn; lia).
  assert (HlP : len (payload_of m) = mArgBufferSize m)
    by (unfold payload_of; apply len_firstn; lia).
  subst total.
  destruct (cut_front outBuffer (mAddressSize m) ltac:(lia))
    as (o1 & r1 & Ho & Ho1 & _ & Hr1).
  assert (Hlr1 : len r1 = len outBuffer - mAddressSize m)
    by (rewrite Ho, len_app; lia).
  destruct r1 as [|oc r2]; [change (len (@nil byte)) with 0 in Hlr1; lia|].
  rewrite len_cons in Hlr1.
  destruct (cut_front r2 (mTypeTagCount m) ltac:(lia))
    as (o2 & r3 & Hr2 & Ho2 & _ & Hr3).
  assert (Hlr3 : len r3 = len r2 - mTypeTagCount m)
    by (rewrite Hr2, len_app; lia).
  destruct r3 as [|on r4]; [change (len (@nil byte)) with 0 in Hlr3; lia|].
  rewrite len_cons in Hlr3.
  destruct (cut_front r4 ((- (mTypeTagCount m + 2)) mod 4) ltac:(lia))
    as (o3 & r5 & Hr4 & Ho3 & _ & Hr5).
  assert (Hlr5 : len r5 = len r4 - (- (mTypeTagCount m + 2)) mod 4)
    by (rewrite Hr4, len_app; lia).
  destruct (cut_front r5 (mArgBufferSize m) ltac:(lia))
    as (o4 & r6 & Hr5' & Ho4 & _ & Hr6).
  assert (Hskip : skipn (Z.to_nat (mAddressSize m + 4 * ((mTypeTagCount m + 2 + 3) / 4)
                                   + mArgBufferSize m)) outBuffer = r6).
  { rewrite Ho, Hr2, Hr4, Hr5'.
    replace (o1 ++ oc :: (o2 ++ on :: o3 ++ o4 ++ r6))
      with ((o1 ++ oc :: o2 ++ on :: o3 ++ o4) ++ r6).
    2: { rewrite <- !app_assoc. cbn [app]. rewrite <- !app_assoc. cbn [app].
         rewrite <- !app_assoc. reflexivity. }
    apply skipn_len_app.
    rewrite !len_app, !len_cons, !len_app, !len_cons, !len_app. lia. }
  split.
  2: { rewrite !len_app, len_padded, len_cons, HlA, HlT, HlP.
       replace (1 + mTypeTagCount m + 1 + 3) with (mTypeTagCount m + 2 + 3) by lia.
       lia. }
  rewrite Hskip. unfold build.
  rewrite (size_t_small (1 + mTypeTagCount m)) by lia.
  rewrite (size_t_small (1 + mTypeTagCount m + 1)) by lia.
  rewrite (size_t_small (1 + mTypeTagCount m + 1 + 3)) by lia.
  rewrite land_lnot3.
  replace (1 + mTypeTagCount m + 1 + 3) with (mTypeTagCount m + 2 + 3) by lia.
  rewrite (size_t_small (mAddressSize m + _)) by lia.
  rewrite (size_t_small (mAddressSize m + _ + _)) by lia.
  rewrite gtb_false by lia.
  replace (mAddressSize m =? 0) with false by (symmetry; apply Z.eqb_neq; exact Hn0).
  cbn [orb]. rewrite Z.add_0_l.
  rewrite (size_t_small (mAddressSize m)) by lia.
  rewrite (size_t_small (mAddressSize m + 1)) by lia.
  rewrite (size_t_small (mAddressSize m + 1 + mTypeTagCount m)) by lia.
  rewrite (size_t_small (mAddressSize m + 1 + mTypeTagCount m + 1)) by lia.
  rewrite Ho at 1.
  change (o1 ++ oc :: r2) with ([] ++ o1 ++ oc :: r2).
  rewrite (memcpy_app [] o1 (oc :: r2) (mAddress m) 0 (mAddressSize m)) by
    (try reflexivity; lia).
  cbn [bind app]. fold (address_of m).
  rewrite store_app by (symmetry; exact HlA). cbn [bind].
  rewrite Hr2.
  replace (address_of m ++ chr "," :: o2 ++ on :: r4)
    with ((address_of m ++ [chr ","]) ++ o2 ++ on :: r4)
    by (rewrite <- app_assoc; reflexivity).
  rewrite (memcpy_app (address_of m ++ [chr ","]) o2 (on :: r4) (mTypeTags m)
             (mAddressSize m + 1) (mTypeTagCount m)).
  2: { rewrite len_app, HlA. reflexivity. }
  2: { symmetry. exact Ho2. }
  2: lia.
  cbn [bind]. fold (tags_of m).
  rewrite (app_assoc (address_of m ++ [chr ","]) (tags_of m)).
  rewrite store_app.
  2: { rewrite !len_app, HlA, HlT. change (len [chr ","]) with 1. lia. }
  cbn [bind]. rewrite Hr4.
  replace (((address_of m ++ [chr ","]) ++ tags_of m) ++ NUL :: o3 ++ r5)
    with ((((address_of m ++ [chr ","]) ++ tags_of m) ++ [NUL]) ++ o3 ++ r5)
    by (rewrite <- (app_assoc _ [NUL]); reflexivity).
  rewrite (pad_zero_app 3 _ o3 r5 (mAddressSize m + 1 + mTypeTagCount m + 1)).
  2: { rewrite !len_app, HlA, HlT. change (len [chr ","]) with 1.
       change (len [NUL]) with 1. lia. }
  2: { rewrite Ho3.
       replace (mAddressSize m + 1 + mTypeTagCount m + 1)
         with (mAddressSize m + (mTypeTagCount m + 2)) by lia.
       rewrite (aligned_opp (mAddressSize m)) by exact Hal4. reflexivity. }
  2: { unfold len in Ho3. lia. }
  2: lia.
  cbn [bind]. rewrite Hr5'.
  rewrite (app_assoc _ (repeat NUL (List.length o3)) (o4 ++ r6)).
  rewrite (memcpy_app _ o4 r6 (mArgBuffer m)
             (mAddressSize m + 1 + mTypeTagCount m + 1 + len o3) (mArgBufferSize m)).
  2: { rewrite !len_app, len_repeat, HlA, HlT. change (len [chr ","]) with 1.
       change (len [NUL]) with 1. unfold len. lia. }
  2: { symmetry. exact Ho4. }
  2: lia.
  cbn [bind]. fold (payload_of m).
  rewrite size_t_small by (unfold len in *; lia).
  f_equal. f_equal; [unfold len in *; lia|].
  rewrite (padded_unfold (chr "," :: tags_of m)).
  rewrite <- ?app_assoc. cbn [app]. rewrite <- ?app_assoc. cbn [app].
  replace (Z.to_nat ((- (len (chr "," :: tags_of m) + 1)) mod 4))
    with (List.length o3); [reflexivity|].
  rewrite len_cons, HlT.
  replace (1 + mTypeTagCount m + 1) with (mTypeTagCount m + 2) by lia.
  rewrite <- Ho3. unfold len. rewrite Nat2Z.id. reflexivity.
Qed.

Lemma add_all_accepts (args : list argument) :
  forall m,
    wf m -> Forall proper args ->
    mTypeTagCount m + len args <= MAX_TYPE_TAG_SIZE - 1 ->
    mArgBufferSize m + len (List.concat (map wire args)) <= MAX_ARG_BUFFER_SIZE ->
    exists m',
      add_all args m = Ret (true, m') /\ wf m'
      /\ mAddress m' = mAddress m /\ mAddressSize m' = mAddressSize m
      /\ mTypeTagCount m' = mTypeTagCount m + len args
      /\ tags_of m' = tags_of m ++ map tag args
      /\ payload_of m' = payload_of m ++ List.concat (map wire args).
Proof.
  induction args as [|a args IH]; intros m Hwf Hprop Hcount Hfit.
  - exists m. cbn [add_all map List.concat]. change (len (@nil argument)) with 0.
    rewrite Z.add_0_r, !app_nil_r.
    split; [reflexivity|]. split; [exact Hwf|]. repeat split; reflexivity.
  - inversion Hprop as [|a' args' Ha Hrest]; subst a' args'.
    cbn [map List.concat] in *. rewrite len_cons in Hcount. rewrite len_app in Hfit.
    destruct (payload_size_wire a (proj1 Ha) (proper_source_ok a Ha)) as (Hw & Hp0 & Hp4).
    destruct (len_concat_wire args Hrest) as [Hc0 _].
    pose proof (len_nonneg args) as Hargs0.
    destruct (add_accepts a m Hwf (proj1 Ha) (proper_source_ok a Ha) ltac:(lia) ltac:(lia))
      as (m1 & Hrun & Hwf1 & HA1 & HAn1 & Hc1 & Hs1 & Ht1 & Hp1).
    destruct (IH m1 Hwf1 Hrest ltac:(lia) ltac:(lia))
      as (m2 & Hrun2 & Hwf2 & HA2 & HAn2 & Hc2 & Ht2 & Hp2).
    exists m2. cbn [add_all]. rewrite Hrun. cbn [bind]. rewrite Hrun2.
    split; [reflexivity|]. split; [exact Hwf2|].
    repeat split; try congruence.
    + rewrite len_cons. lia.
    + rewrite Ht2, Ht1, <- app_assoc. reflexivity.
    + rewrite Hp2, Hp1, <- app_assoc. reflexivity.
Qed.

Lemma assemble_accepts (address : list byte) (args : list argument) :
  Forall (fun c => c <> NUL) address ->
  len address < MAX_ADDRESS_SIZE ->
  Forall proper args ->
  len args <= MAX_TYPE_TAG_SIZE - 1 ->
  len (List.concat (map wire args)) <= MAX_ARG_BUFFER_SIZE ->
  exists m,
    assemble address args = Ret (true, m) /\ wf m
    /\ mAddressSize m <> 0 /\ mAddressSize m mod 4 = 0
    /\ mTypeTagCount m = len args
    /\ address_of m ++ padded (chr "," :: tags_of m) ++ payload_of m
       = message address args.
Proof.
  intros Hadr Hlen Hprop Hcount Hfit.
  assert (Hstr : strlen address = len address)
    by (rewrite strlen_chars, (chars_id address Hadr); reflexivity).
  destruct (setAddress_accepts address clear) as
    (m0 & Hrun0 & Hn0 & Hadr0 & Hlen0 & Ht0 & Hc0 & Hb0 & Hs0).
  { destruct wf_clear as [H _]. exact H. }
  { rewrite Hstr. exact Hlen. }
  assert (Hwf0 : wf m0).
  { destruct wf_clear as (_ & H1 & H2 & _ & H4 & H5 & H6).
    pose proof (len_nonneg address).
    pose proof (pad_amount (strlen address + 1) ltac:(lia)) as Hpad.
    pose proof (Z.mod_pos_bound (- (strlen address + 1)) 4 ltac:(lia)) as Hpb.
    unfold MAX_ADDRESS_SIZE in *.
    assert ((strlen address + 1 + 3) / 4 <= 64)
      by (apply Z.lt_succ_r, Z.div_lt_upper_bound; lia).
    unfold wf. rewrite Ht0, Hc0, Hb0, Hs0. unfold MAX_ADDRESS_SIZE.
    repeat split; try assumption; lia. }
  destruct (add_all_accepts args m0 Hwf0 Hprop) as
    (m & Hrun & Hwf & HA & HAn & Hc & Ht & Hp).
  { rewrite Hc0. cbn [clear mTypeTagCount]. lia. }
  { rewrite Hs0. cbn [clear mArgBufferSize]. lia. }
  exists m. unfold assemble. rewrite Hrun0. cbn [bind]. rewrite Hrun.
  pose proof (len_nonneg address).
  pose proof (pad_amount (strlen address + 1) ltac:(lia)) as Hpad.
  pose proof (Z.mod_pos_bound (- (strlen address + 1)) 4 ltac:(lia)) as Hpb.
  split; [reflexivity|]. split; [exact Hwf|].
  split; [|split; [|split]].
  - rewrite HAn, Hn0. lia.
  - rewrite HAn, Hn0, Z.mul_comm. apply Z.mod_mul. lia.
  - rewrite Hc, Hc0. reflexivity.
  - unfold message. f_equal.
    + unfold address_of. rewrite HAn, HA. fold (address_of m0). rewrite Hadr0.
      unfold padded. rewrite (chars_id address Hadr), Hn0, Hstr. reflexivity.
    + rewrite Ht, Hp. unfold tags_of, payload_of. rewrite Hc0, Hs0.
      cbn [clear mTypeTagCount mArgBufferSize Z.to_nat firstn app]. reflexivity.
Qed.

End Serialize.

(** ** Claims about the builder and the matcher *)




(** C7. The address pattern matcher: the pattern /synth/* matches
    /synth/freq and /synth/ but not /other/freq; the pattern /synth/?
    matches /synth/1 but not /synth/12; the empty pattern matches the empty
    input and no other; and in general the whole input has to be consumed
    when the whole pattern is: matching is glob matching of the whole
    address, and a pattern without a star only matches inputs of its own
    length. *)
Theorem matchPattern_whole_address :
  OSCMessageView.matchPattern (bytes_of "/synth/*") (bytes_of "/synth/freq") = true
  /\ OSCMessageView.matchPattern (bytes_of "/synth/*") (bytes_of "/synth/") = true
  /\ OSCMessageView.matchPattern (bytes_of "/synth/*") (bytes_of "/other/freq") = false
  /\ OSCMessageView.matchPattern (bytes_of "/synth/?") (bytes_of "/synth/1") = true
  /\ OSCMessageView.matchPattern (bytes_of "/synth/?") (bytes_of "/synth/12") = false
  /\ (forall pattern str,
        chars pattern = [] ->
        (OSCMessageView.matchPattern pattern str = true <-> chars str = []))
  /\ (forall pattern str,
        OSCMessageView.matchPattern pattern str = true
        <-> glob (chars pattern) (chars str))
  /\ (forall pattern str,
        ~ In (chr "*") pattern ->
        OSCMessageView.matchPattern pattern str = true ->
        strlen str = strlen pattern).
Proof.
  repeat (split; [reflexivity|]).
  split; [|split].
  - intros pattern str Hp. rewrite matchPattern_glob, Hp. split.
    + apply glob_nil_l.
    + intros ->. constructor.
  - exact matchPattern_glob.
  - exact matchPattern_star_free.
Qed.

(** C8, as the code has it. For every input string, [setAddress] returns
    false exactly when the length of the string without its terminator is
    at least the address capacity, that is when the string with its
    terminator does not fit; otherwise it returns true, copies the
    terminated string into the address buffer and pads the stored length
    with zero bytes to a multiple of 4, leaving the rest of the builder
    alone. *)
Theorem setAddress_capacity (address : list byte) (m : OSCMessage.t) :
  len (OSCMessage.mAddress m) = MAX_ADDRESS_SIZE ->
  (MAX_ADDRESS_SIZE <= strlen address ->
   OSCMessage.setAddress address m = Ret (false, m))
  /\ (strlen address < MAX_ADDRESS_SIZE ->
      exists m',
        OSCMessage.setAddress address m = Ret (true, m')
        /\ OSCMessage.mAddressSize m' mod 4 = 0
        /\ strlen address + 1 <= OSCMessage.mAddressSize m' <= strlen address + 4
        /\ OSCMessage.mAddressSize m' <= MAX_ADDRESS_SIZE
        /\ address_of m'
           = chars address
             ++ repeat NUL (Z.to_nat (OSCMessage.mAddressSize m' - strlen address))
        /\ OSCMessage.mTypeTags m' = OSCMessage.mTypeTags m
        /\ OSCMessage.mTypeTagCount m' = OSCMessage.mTypeTagCount m
        /\ OSCMessage.mArgBuffer m' = OSCMessage.mArgBuffer m
        /\ OSCMessage.mArgBufferSize m' = OSCMessage.mArgBufferSize m).
Proof.
  intros Ha. split.
  - apply setAddress_rejects.
  - intros HL.
    destruct (setAddress_accepts address m Ha HL)
      as (m' & Hrun & Hn & Hadr & _ & Ht & Hc & Hb & Hs).
    exists m'. pose proof (strlen_nonneg address) as HL0.
    pose proof (pad_amount (strlen address + 1) ltac:(lia)) as Hpad.
    pose proof (Z.mod_pos_bound (- (strlen address + 1)) 4 ltac:(lia)) as Hpb.
    unfold MAX_ADDRESS_SIZE in *.
    assert ((strlen address + 1 + 3) / 4 <= 64)
      by (apply Z.lt_succ_r, Z.div_lt_upper_bound; lia).
    repeat split; try assumption; try lia.
    rewrite Hn, Z.mul_comm. apply Z.mod_mul. lia.
Qed.

Lemma setAddress_capacity_witness :
  exists m',
    OSCMessage.setAddress (bytes_of "/synth/freq") OSCMessage.clear = Ret (true, m')
    /\ OSCMessage.mAddressSize m' = 12.
Proof.
  destruct (setAddress_capacity (bytes_of "/synth/freq") OSCMessage.clear eq_refl)
    as [_ H].
  destruct (H ltac:(vm_compute; reflexivity)) as (m' & Hrun & _).
  exists m'. split; [exact Hrun|].
  vm_compute in Hrun. injection Hrun as <-. reflexivity.
Defined.

(** C8, as the spec words it, fails: a string of 255 characters has a
    length of 256 with its terminator, which reaches the capacity, and is
    accepted. *)
Lemma setAddress_reaching_capacity_accepted :
  let address := repeat (chr "a") 255 in
  strlen address + 1 = MAX_ADDRESS_SIZE
  /\ exists m',
       OSCMessage.setAddress address OSCMessage.clear = Ret (true, m')
       /\ OSCMessage.mAddressSize m' = 256.
Proof.
  cbv zeta. split; [vm_compute; reflexivity|].
  eexists. split; vm_compute; reflexivity.
Qed.

(** ** The round trip *)

Lemma len_map {A B : Type} (f : A -> B) (l : list A) : len (map f l) = len l.
Proof. unfold len. rewrite length_map. reflexivity. Qed.

Lemma build_total (m : OSCMessage.t) :
  wf m ->
  OSCMessage.mAddressSize m + 4 * ((OSCMessage.mTypeTagCount m + 2 + 3) / 4)
  + OSCMessage.mArgBufferSize m
  = len (address_of m ++ padded (chr "," :: tags_of m) ++ payload_of m).
Proof.
  intros (Ha & Htg & Hbuf & Han & Hcn & Hsz & Hal).
  unfold MAX_ADDRESS_SIZE, MAX_TYPE_TAG_SIZE, MAX_ARG_BUFFER_SIZE in *.
  rewrite !len_app, len_padded, len_cons.
  unfold address_of, tags_of, payload_of. rewrite !len_firstn by lia.
  replace (1 + OSCMessage.mTypeTagCount m + 1 + 3)
    with (OSCMessage.mTypeTagCount m + 2 + 3) by lia.
  lia.
Qed.

(** C1. For every message assembled with the builder whose address starts
    with a slash and whose arguments fit within capacity, serializing it
    with [build] and then parsing the produced bytes with [parse] succeeds
    and reproduces the original address string, the original type-tag
    sequence and every argument value exactly. *)
Theorem build_parse_round_trip
        (address : list byte) (args : list argument)
        (outBuffer : list byte) (maxSize : Z) (v0 : OSCMessageView.t) :
  hd NUL address = chr "/" ->
  Forall (fun c => c <> NUL) address ->
  len address < MAX_ADDRESS_SIZE ->
  Forall proper args ->
  len args <= MAX_TYPE_TAG_SIZE - 1 ->
  len (List.concat (map wire args)) <= MAX_ARG_BUFFER_SIZE ->
  len (message address args) <= maxSize -> maxSize <= len outBuffer ->
  len (OSCMessageView.mArgs v0) = OSCMessageView.MAX_ARGS ->
  exists m n out v,
    assemble address args = Ret (true, m)
    /\ OSCMessage.build m outBuffer maxSize = Ret (n, out)
    /\ n = len (message address args)
    /\ firstn (Z.to_nat n) out = message address args
    /\ OSCMessageView.parse out n v0 = Ret (true, v)
    /\ string_at out (OSCMessageView.address v) = Some address
    /\ string_at out (OSCMessageView.typeTags v) = Some (map tag args)
    /\ OSCMessageView.argCount v = len args
    /\ observed out v = map Some args.
Proof.
  intros Hslash Hadr Hlen Hprop Hcount Hfit Hmax Hout Hv0.
  destruct (assemble_accepts address args Hadr Hlen Hprop Hcount Hfit)
    as (m & Hasm & Hwf & Hn0 & Hal & Hc & Hmsg).
  pose proof (build_total m Hwf) as Htot. rewrite Hmsg in Htot.
  destruct (build_writes m outBuffer maxSize Hwf Hn0 Hal) as [Hbuild _].
  { rewrite Htot. exact Hmax. }
  { exact Hout. }
  rewrite Hmsg, Htot in Hbuild.
  assert (Hsmall : len (message address args) <= PTRDIFF_MAX).
  { unfold message. rewrite !len_app.
    destruct (len_padded_bounds address) as [[HA _] _].
    destruct (len_padded_bounds (chr "," :: map tag args)) as [[HT _] _].
    rewrite len_cons, len_map in HT.
    unfold PTRDIFF_MAX, MAX_ADDRESS_SIZE, MAX_TYPE_TAG_SIZE, MAX_ARG_BUFFER_SIZE in *.
    lia. }
  destruct (parse_message address args
              (skipn (Z.to_nat (len (message address args))) outBuffer) v0
              Hslash Hadr Hprop) as (v & Hparse & Ha & Ht & Hn & Hobs);
    try assumption.
  { unfold OSCMessageView.MAX_ARGS, MAX_TYPE_TAG_SIZE in *. lia. }
  exists m, (len (message address args)),
         (message address args ++ skipn (Z.to_nat (len (message address args))) outBuffer), v.
  repeat split; try assumption.
  apply firstn_len_app. reflexivity.
Qed.

Ltac concrete_string :=
  vm_compute; repeat (apply Forall_cons; [discriminate|]); apply Forall_nil.

Lemma build_parse_round_trip_witness :
  let address := bytes_of "/synth/freq" in
  let args := [Float 1138491392; Blob [Byte.x01; Byte.x02; Byte.x03] 3;
               Str (bytes_of "hey"); Int (-5); True_] in
  exists m n out v,
    assemble address args = Ret (true, m)
    /\ OSCMessage.build m (repeat NUL 64) 64 = Ret (n, out)
    /\ n = 40
    /\ OSCMessageView.parse out n OSCMessageView.fresh = Ret (true, v)
    /\ string_at out (OSCMessageView.address v) = Some address
    /\ string_at out (OSCMessageView.typeTags v) = Some (map tag args)
    /\ observed out v = map Some args.
Proof.
  cbv zeta.
  destruct (build_parse_round_trip
              (bytes_of "/synth/freq")
              [Float 1138491392; Blob [Byte.x01; Byte.x02; Byte.x03] 3;
               Str (bytes_of "hey"); Int (-5); True_]
              (repeat NUL 64) 64 OSCMessageView.fresh)
    as (m & n & out & v & H1 & H2 & H3 & H4 & H5 & H6 & H7 & H8 & H9).
  - reflexivity.
  - concrete_string.
  - vm_compute. reflexivity.
  - repeat (apply Forall_cons;
            [split; [cbn [typed]; first [exact I | lia | (vm_compute; reflexivity)]
                    | first [exact I | reflexivity | concrete_string]] |]).
    apply Forall_nil.
  - vm_compute. discriminate.
  - vm_compute. discriminate.
  - vm_compute. discriminate.
  - vm_compute. discriminate.
  - reflexivity.
  - exists m, n, out, v. repeat split; assumption.
Defined.
(** ** Bundles *)

Section Bundle.
Import OSCBundle.

Lemma sendable_size (spec : list byte * list argument) :
  sendable spec -> 8 <= len (message (fst spec) (snd spec)) <= MAX_MESSAGE_SIZE.
Proof.
  intros (_ & _ & _ & Hp & _ & _ & Hsz). split; [|exact Hsz].
  unfold message. rewrite !len_app.
  destruct (len_padded_bounds (fst spec)) as [[_ HA] _].
  destruct (len_padded_bounds (chr "," :: map tag (snd spec))) as [[_ HT] _].
  destruct (len_concat_wire (snd spec) Hp) as [HP _]. lia.
Qed.

Lemma built_message (spec : list byte * list argument) (m : OSCMessage.t)
      (outBuffer : list byte) (maxSize : Z) :
  sendable spec ->
  assemble (fst spec) (snd spec) = Ret (true, m) ->
  len (message (fst spec) (snd spec)) <= maxSize -> maxSize <= len outBuffer ->
  OSCMessage.build m outBuffer maxSize
  = Ret (len (message (fst spec) (snd spec)),
         message (fst spec) (snd spec)
         ++ skipn (Z.to_nat (len (message (fst spec) (snd spec)))) outBuffer).
Proof.
  intros (_ & Hadr & Hlen & Hp & Hc & Hfit & _) Hasm Hsz Hmax.
  destruct (assemble_accepts _ _ Hadr Hlen Hp Hc Hfit)
    as (m' & Hasm' & Hwf & Hn0 & Hal & _ & Hmsg).
  rewrite Hasm in Hasm'. injection Hasm' as <-.
  pose proof (build_total m Hwf) as Htot. rewrite Hmsg in Htot.
  destruct (build_writes m outBuffer maxSize Hwf Hn0 Hal) as [Hb _];
    [rewrite Htot; exact Hsz | exact Hmax |].
  rewrite Hb, Htot, Hmsg. reflexivity.
Qed.

Lemma addMessage_accepts (spec : list byte * list argument) (m : OSCMessage.t)
      (b : t) (used free : list byte) :
  sendable spec ->
  assemble (fst spec) (snd spec) = Ret (true, m) ->
  mBuffer b = used ++ free -> mBufferSize b = len used ->
  len (mBuffer b) = MAX_BUNDLE_SIZE ->
  len used + len (element spec) <= MAX_BUNDLE_SIZE ->
  exists free',
    addMessage m b
    = Ret (true, mk ((used ++ element spec) ++ free') (len (used ++ element spec)))
    /\ len ((used ++ element spec) ++ free') = MAX_BUNDLE_SIZE.
Proof.
  intros Hs Hasm Hbuf Hsize Hlen Hfit.
  pose proof (sendable_size spec Hs) as Hmsz.
  set (msg := message (fst spec) (snd spec)) in *.
  assert (Hel : len (element spec) = 4 + len msg).
  { unfold element. fold msg. rewrite len_app, len_big_endian. reflexivity. }
  unfold MAX_MESSAGE_SIZE, MAX_BUNDLE_SIZE in *.
  pose proof (len_nonneg used) as Hu.
  unfold addMessage.
  assert (Hscratch : len (repeat NUL (Z.to_nat MAX_MESSAGE_SIZE)) = 1024)
    by (rewrite len_repeat; reflexivity).
  rewrite (built_message spec m _ _ Hs Hasm);
    [| rewrite Hscratch; fold msg; lia | lia].
  fold msg. cbn [bind].
  replace (len msg =? 0) with false by (symmetry; apply Z.eqb_neq; lia).
  rewrite Hsize.
  rewrite (size_t_small (len used + 4)) by lia.
  rewrite (size_t_small (len used + 4 + len msg)) by lia.
  replace (len used + 4 + len msg >? MAX_BUNDLE_SIZE) with false
    by (symmetry; rewrite Z.gtb_ltb; apply Z.ltb_ge; unfold MAX_BUNDLE_SIZE; lia).
  rewrite built_int32, (int32_t_small (len msg)) by lia.
  rewrite Hbuf in Hlen |- *. rewrite len_app in Hlen.
  destruct (cut_front free 4 ltac:(lia)) as (f1 & free1 & -> & Hf1 & _ & _).
  rewrite len_app in Hlen.
  destruct (cut_front free1 (len msg) ltac:(lia)) as (f2 & free2 & -> & Hf2 & _ & _).
  rewrite (memcpy_app used f1 (f2 ++ free2) _ (len used) 4);
    [| reflexivity | lia | rewrite len_big_endian; lia].
  rewrite (firstn_len_exact (big_endian 4 (len msg)) 4)
    by (rewrite len_big_endian; reflexivity).
  cbn [bind].
  replace (used ++ big_endian 4 (len msg) ++ f2 ++ free2)
    with ((used ++ big_endian 4 (len msg)) ++ f2 ++ free2)
    by (rewrite <- app_assoc; reflexivity).
  rewrite (memcpy_app (used ++ big_endian 4 (len msg)) f2 free2 _ _ (len msg));
    [| rewrite len_app, len_big_endian; reflexivity | lia
     | rewrite len_app;
       match goal with |- _ <= _ + len ?x => pose proof (len_nonneg x) end; lia].
  rewrite (firstn_len_app msg _ (len msg)) by reflexivity.
  cbn [bind]. exists free2.
  assert (He : (used ++ big_endian 4 (len msg)) ++ msg ++ free2
               = (used ++ element spec) ++ free2).
  { unfold element. fold msg. rewrite <- !app_assoc. reflexivity. }
  rewrite He. split.
  - do 3 f_equal. rewrite len_app, Hel. lia.
  - rewrite !len_app in *. rewrite Hel. lia.
Qed.

Lemma add_messages_accepts (specs : list (list byte * list argument)) :
  forall (msgs : list OSCMessage.t) (b : t) (used free : list byte),
    Forall sendable specs ->
    Forall2 (fun spec m => assemble (fst spec) (snd spec) = Ret (true, m)) specs msgs ->
    mBuffer b = used ++ free -> mBufferSize b = len used ->
    len (mBuffer b) = MAX_BUNDLE_SIZE ->
    len used + len (List.concat (map element specs)) <= MAX_BUNDLE_SIZE ->
    exists b' free',
      add_messages msgs b = Ret (true, b')
      /\ mBuffer b' = (used ++ List.concat (map element specs)) ++ free'
      /\ mBufferSize b' = len (used ++ List.concat (map element specs)).
Proof.
  induction specs as [|spec specs IH]; intros msgs b used free Hs Hasm Hbuf Hsize Hlen Hfit.
  - inversion Hasm; subst. exists b, free. cbn [add_messages map List.concat].
    rewrite app_nil_r. auto.
  - inversion Hasm as [|? m ? msgs' Hm Hms]; subst. inversion Hs as [|? ? Hs1 Hs2]; subst.
    cbn [map List.concat] in *. rewrite len_app in Hfit.
    pose proof (len_nonneg (List.concat (map element specs))) as Hc.
    destruct (addMessage_accepts spec m b used free Hs1 Hm Hbuf Hsize Hlen ltac:(lia))
      as (free1 & Hadd & Hlen1).
    cbn [add_messages]. rewrite Hadd. cbn [bind].
    destruct (IH msgs' (mk ((used ++ element spec) ++ free1) (len (used ++ element spec)))
                 (used ++ element spec) free1 Hs2 Hms eq_refl eq_refl Hlen1)
      as (b' & free' & Hrun & Hb' & Hsz').
    { rewrite len_app. lia. }
    exists b', free'. rewrite Hrun, Hb', Hsz', <- !app_assoc. auto.
Qed.

Lemma clear_header :
  exists b free,
    clear = Ret b /\ mBuffer b = (header ++ repeat NUL 8) ++ free
    /\ mBufferSize b = 16 /\ len (mBuffer b) = MAX_BUNDLE_SIZE.
Proof.
  eexists. exists (repeat NUL 4080). split; [vm_compute; reflexivity|].
  repeat split.
Qed.

Lemma setTimetag_header (tt : OSCTimetag) (b : t) (stamp free : list byte) :
  mBuffer b = (header ++ stamp) ++ free -> len stamp = 8 ->
  exists stamp',
    setTimetag tt b = Ret (mk ((header ++ stamp') ++ free) (mBufferSize b))
    /\ len stamp' = 8.
Proof.
  intros Hbuf Hst. unfold setTimetag. rewrite Hbuf, !built_uint32.
  destruct (cut_front stamp 4 ltac:(lia)) as (s1 & s2 & -> & Hs1 & _ & _).
  rewrite len_app in Hst.
  rewrite <- !app_assoc.
  rewrite (memcpy_app header s1 (s2 ++ free) _ 8 4);
    [| reflexivity | lia | rewrite len_big_endian; lia].
  rewrite firstn_len_exact by (rewrite len_big_endian; reflexivity).
  cbn [bind].
  replace (header ++ big_endian 4 (seconds tt) ++ s2 ++ free)
    with ((header ++ big_endian 4 (seconds tt)) ++ s2 ++ free)
    by (rewrite <- app_assoc; reflexivity).
  rewrite (memcpy_app _ s2 free _ 12 4);
    [| rewrite len_app, len_big_endian; reflexivity | lia | rewrite len_big_endian; lia].
  rewrite firstn_len_exact by (rewrite len_big_endian; reflexivity).
  cbn [bind].
  exists (big_endian 4 (seconds tt) ++ big_endian 4 (fractions tt)).
  rewrite <- !app_assoc. split; [reflexivity|].
  rewrite len_app, !len_big_endian. reflexivity.
Qed.

End Bundle.
Section Dispatch.
Import OSCServer.

Lemma load_bytes_front (p : list byte) (n : Z) :
  0 <= n <= len p -> load_bytes p 0 n = Ret (firstn (Z.to_nat n) p).
Proof.
  intros H. unfold load_bytes.
  replace ((0 <=? 0) && (0 <=? n) && (0 + n <=? len p)) with true; [reflexivity|].
  symmetry. repeat (apply andb_true_iff; split); apply Z.leb_le; lia.
Qed.

Lemma memcmp_bundle_message (spec : list byte * list argument) (rest : list byte) :
  sendable spec -> memcmp_bundle (message (fst spec) (snd spec) ++ rest) = Ret false.
Proof.
  intros Hs. pose proof (sendable_size spec Hs) as Hsz.
  destruct Hs as (Hhd & _). unfold memcmp_bundle.
  rewrite load_bytes_front
    by (rewrite len_app; pose proof (len_nonneg rest); lia).
  cbn [bind]. f_equal.
  destruct (fst spec) as [|c address]; [discriminate Hhd|].
  cbn [hd] in Hhd. subst c. unfold message, padded.
  rewrite <- !app_comm_cons. change (Z.to_nat 7) with 7%nat. cbn [firstn].
  unfold bytes_eqb. cbn [bytes_of String.list_byte_of_string combine forallb fst snd].
  change (Byte.eqb (chr "/") _) with false. cbn [andb]. apply andb_false_r.
Qed.

Lemma len_element (spec : list byte * list argument) :
  len (element spec) = 4 + len (message (fst spec) (snd spec)).
Proof. unfold element. rewrite len_app, len_big_endian. reflexivity. Qed.

Lemma elements_count (specs : list (list byte * list argument)) :
  Forall sendable specs ->
  12 * len specs <= len (List.concat (map element specs)).
Proof.
  induction 1 as [|spec specs Hs _ IH].
  - reflexivity.
  - cbn [map List.concat]. rewrite len_cons, len_app, len_element.
    pose proof (sendable_size spec Hs). lia.
Qed.

Lemma parseBundle_elements (specs : list (list byte * list argument)) :
  forall (fuel : nat) (pre rest : list byte),
    Forall sendable specs ->
    len pre + len (List.concat (map element specs)) <= PTRDIFF_MAX ->
    (List.length specs <= fuel)%nat ->
    exists calls,
      parseBundle_from fuel ((pre ++ List.concat (map element specs)) ++ rest)
                       (len (pre ++ List.concat (map element specs))) (len pre)
      = Ret calls
      /\ map seen calls = map sent specs.
Proof.
  induction specs as [|spec specs IH]; intros fuel pre rest Hs Hsize Hfuel.
  - exists []. split; [|reflexivity].
    cbn [map List.concat] in *. rewrite app_nil_r.
    change (len (@nil byte)) with 0 in Hsize.
    pose proof (len_nonneg pre) as Hp. unfold PTRDIFF_MAX in Hsize.
    destruct fuel; cbn [parseBundle_from]; rewrite size_t_small by lia;
      replace (len pre + 4 <=? len pre) with false
        by (symmetry; apply Z.leb_gt; lia); reflexivity.
  - inversion Hs as [|? ? Hs1 Hs2]; subst.
    pose proof (sendable_size spec Hs1) as Hmsz.
    pose proof (len_nonneg pre) as Hp.
    pose proof (len_nonneg (List.concat (map element specs))) as Hc.
    unfold PTRDIFF_MAX, OSCBundle.MAX_MESSAGE_SIZE in *.
    cbn [map List.concat] in *. rewrite len_app in Hsize.
    set (msg := message (fst spec) (snd spec)) in *.
    assert (Hel : len (element spec) = 4 + len msg).
    { unfold element. fold msg. rewrite len_app, len_big_endian. reflexivity. }
    destruct fuel as [|fuel]; [cbn [List.length] in Hfuel; lia|].
    cbn [List.length] in Hfuel.
    set (tail := List.concat (map element specs)) in *.
    assert (Hshape : (pre ++ element spec ++ tail) ++ rest
                     = pre ++ big_endian 4 (len msg) ++ (msg ++ tail ++ rest)).
    { unfold element. fold msg. rewrite <- !app_assoc. reflexivity. }
    cbn [parseBundle_from]. rewrite Hshape.
    rewrite !len_app, Hel.
    rewrite (size_t_small (len pre + 4)) by lia.
    replace (len pre + 4 <=? len pre + (4 + len msg + len tail)) with true
      by (symmetry; apply Z.leb_le; lia).
    rewrite (load_bytes_at pre (big_endian 4 (len msg)) _ (len pre) 4)
      by (try reflexivity; rewrite len_big_endian; reflexivity).
    cbn [bind]. cbv zeta.
    rewrite parsed_int32 by lia.
    rewrite (size_t_small (len msg)) by lia.
    rewrite (size_t_small (len pre + 4 + len msg)) by lia.
    replace (len msg <=? 0) with false by (symmetry; apply Z.leb_gt; lia).
    replace (len pre + 4 + len msg >? len pre + (4 + len msg + len tail)) with false
      by (symmetry; rewrite Z.gtb_ltb; apply Z.ltb_ge; lia).
    cbn [orb].
    replace (len msg >=? 8) with true
      by (symmetry; rewrite Z.geb_leb; apply Z.leb_le; lia).
    assert (Hskip : skipn (Z.to_nat (len pre + 4))
                          (pre ++ big_endian 4 (len msg) ++ msg ++ tail ++ rest)
                    = msg ++ tail ++ rest).
    { rewrite app_assoc. apply skipn_len_app.
      rewrite len_app, len_big_endian. reflexivity. }
    rewrite Hskip.
    unfold msg at 1. rewrite (memcmp_bundle_message spec _ Hs1). fold msg.
    cbn [bind].
    destruct Hs1 as (Hhd & Hadr & Hlen & Hprop & Hcount & Hfit & Hmsg).
    destruct (parse_message (fst spec) (snd spec) (tail ++ rest) OSCMessageView.fresh
                Hhd Hadr Hprop)
      as (v & Hparse & Hv1 & Hv2 & Hv3 & Hv4);
      [ unfold OSCMessageView.MAX_ARGS, MAX_TYPE_TAG_SIZE in *; lia
      | reflexivity
      | fold msg; unfold PTRDIFF_MAX; lia |].
    fold msg in Hparse, Hv1, Hv2, Hv4. rewrite Hparse. cbn [bind].
    destruct (IH fuel (pre ++ element spec) rest Hs2) as (calls & Hrun & Hcalls);
      [rewrite len_app; fold tail; lia | lia |].
    fold tail in Hrun. rewrite !len_app, Hel in Hrun.
    rewrite <- !app_assoc in Hrun. unfold element in Hrun. fold msg in Hrun.
    rewrite <- !app_assoc in Hrun.
    replace (len pre + (4 + len msg)) with (len pre + 4 + len msg) in Hrun by lia.
    replace (len pre + 4 + len msg + len tail) with (len pre + (4 + len msg + len tail))
      in Hrun by lia.
    rewrite Hrun. cbn [bind]. eexists. split; [reflexivity|].
    cbn [app map]. rewrite Hcalls. f_equal.
    unfold seen, sent. cbn [call_buffer call_msg].
    unfold OSCMessageView.address, OSCMessageView.typeTags.
    rewrite Hv1, Hv2, Hv4. reflexivity.
Qed.

Lemma sendable_assembled (specs : list (list byte * list argument)) :
  Forall sendable specs ->
  exists msgs,
    Forall2 (fun spec m => assemble (fst spec) (snd spec) = Ret (true, m)) specs msgs.
Proof.
  induction 1 as [|spec specs Hs _ (msgs & IH)].
  - exists []. constructor.
  - destruct Hs as (_ & Hadr & Hlen & Hp & Hc & Hfit & _).
    destruct (assemble_accepts _ _ Hadr Hlen Hp Hc Hfit) as (m & Hasm & _).
    exists (m :: msgs). constructor; assumption.
Qed.

End Dispatch.
(** C5 (as amended). For every N >= 0, a bundle that is cleared, given any
    timetag and filled by [addMessage] with N messages assembled by the
    builder, each with an address that starts with a slash, with well-formed
    arguments and of a size [addMessage] can take, all of them fitting in
    the bundle buffer: every [addMessage] returns true, and [parseBundle]
    on the bundle's data makes exactly N calls of the callback, in the order
    the messages were added, each with a view that shows the address, the
    type tags and the arguments of the corresponding message. *)
Theorem bundle_dispatch_in_order
        (tt : OSCTimetag) (specs : list (list byte * list argument)) :
  Forall sendable specs ->
  16 + len (List.concat (map element specs)) <= OSCBundle.MAX_BUNDLE_SIZE ->
  exists msgs b0 b1 b calls,
    Forall2 (fun spec m => assemble (fst spec) (snd spec) = Ret (true, m)) specs msgs
    /\ OSCBundle.clear = Ret b0
    /\ OSCBundle.setTimetag tt b0 = Ret b1
    /\ add_messages msgs b1 = Ret (true, b)
    /\ OSCServer.parseBundle (OSCBundle.data b) (OSCBundle.size b) = Ret calls
    /\ len calls = len specs
    /\ map seen calls = map sent specs.
Proof.
  intros Hs Hfit.
  destruct (sendable_assembled specs Hs) as (msgs & Hmsgs).
  destruct clear_header as (b0 & free & Hclear & Hb0 & Hsz0 & Hlen0).
  destruct (setTimetag_header tt b0 (repeat NUL 8) free Hb0 eq_refl)
    as (stamp & Hset & Hstamp).
  set (used := OSCBundle.header ++ stamp) in *.
  assert (Hused : len used = 16)
    by (unfold used; rewrite len_app, Hstamp; reflexivity).
  set (b1 := OSCBundle.mk (used ++ free) (OSCBundle.mBufferSize b0)) in *.
  destruct (add_messages_accepts specs msgs b1 used free Hs Hmsgs eq_refl)
    as (b & free' & Hadd & Hb & Hsz).
  { cbn [b1 OSCBundle.mBufferSize]. rewrite Hsz0, Hused. reflexivity. }
  { cbn [b1 OSCBundle.mBuffer]. rewrite Hb0, !len_app in Hlen0.
    rewrite len_app, Hused.
    change (len OSCBundle.header) with 8 in Hlen0.
    change (len (repeat NUL 8)) with 8 in Hlen0. lia. }
  { rewrite Hused. exact Hfit. }
  pose proof (elements_count specs Hs) as Hcount.
  unfold OSCBundle.MAX_BUNDLE_SIZE in Hfit.
  destruct (parseBundle_elements specs (Z.to_nat (OSCBundle.mBufferSize b)) used free' Hs)
    as (calls & Hrun & Hcalls).
  { rewrite Hused. unfold PTRDIFF_MAX. lia. }
  { rewrite Hsz, len_app, Hused. unfold len in *. lia. }
  exists msgs, b0, b1, b, calls.
  repeat (split; [assumption|]).
  split; [|split; [|exact Hcalls]].
  - unfold OSCServer.parseBundle, OSCBundle.data, OSCBundle.size.
    rewrite Hb. rewrite Hsz in Hrun |- *. rewrite Hused in Hrun. exact Hrun.
  - unfold len. f_equal.
    rewrite <- (length_map seen calls), <- (length_map sent specs), Hcalls.
    reflexivity.
Qed.

Ltac concrete_sendable :=
  repeat (apply Forall_cons;
          [ split; [reflexivity|];
            split; [concrete_string|];
            split; [vm_compute; reflexivity|];
            split; [repeat (apply Forall_cons;
                            [split; [cbn [typed];
                                     first [exact I | lia | (vm_compute; reflexivity)]
                                    | first [exact I | reflexivity | concrete_string]] |]);
                    apply Forall_nil|];
            split; [vm_compute; discriminate|];
            split; vm_compute; discriminate |]);
  apply Forall_nil.

Lemma bundle_dispatch_in_order_witness :
  let specs := [(bytes_of "/a", [Int 1]);
                (bytes_of "/b/c", [Str (bytes_of "x"); True_])] in
  exists msgs b calls,
    Forall2 (fun spec m => assemble (fst spec) (snd spec) = Ret (true, m)) specs msgs
    /\ (b0 <- OSCBundle.clear ;; b1 <- OSCBundle.setTimetag immediate b0 ;;
        add_messages msgs b1) = Ret (true, b)
    /\ OSCServer.parseBundle (OSCBundle.data b) (OSCBundle.size b) = Ret calls
    /\ map seen calls = map sent specs.
Proof.
  cbv zeta.
  destruct (bundle_dispatch_in_order
              immediate
              [(bytes_of "/a", [Int 1]);
               (bytes_of "/b/c", [Str (bytes_of "x"); True_])])
    as (msgs & b0 & b1 & b & calls & H1 & H2 & H3 & H4 & H5 & H6 & H7).
  - concrete_sendable.
  - vm_compute. discriminate.
  - exists msgs, b, calls. rewrite H2. cbn [bind]. rewrite H3. cbn [bind].
    repeat split; assumption.
Defined.

(** C5 as stated does not hold: a message with the address [foo] is built
    and added with success, and [parseBundle] makes no call for it. *)
Lemma bundle_message_without_slash_not_dispatched :
  exists m n out b0 b,
    assemble (bytes_of "foo") [] = Ret (true, m)
    /\ OSCMessage.build m (repeat NUL 16) 16 = Ret (n, out) /\ n = 8
    /\ OSCBundle.clear = Ret b0
    /\ add_messages [m] b0 = Ret (true, b)
    /\ OSCServer.parseBundle (OSCBundle.data b) (OSCBundle.size b) = Ret [].
Proof.
  do 5 eexists. repeat split; vm_compute; reflexivity.
Qed.

(** ** Reads of the parser stay within [size] *)

Lemma agree_ret {A : Type} (a : A) (P : A -> Prop) : P a -> agree (Ret a) (Ret a) P.
Proof. intros H. exists a. auto. Qed.

Lemma agree_bind {A B : Type} (x y : outcome A) (P : A -> Prop)
      (k1 k2 : A -> outcome B) (Q : B -> Prop) :
  agree x y P -> (forall r, P r -> agree (k1 r) (k2 r) Q) ->
  agree (bind x k1) (bind y k2) Q.
Proof. intros (r & -> & -> & Hr) Hk. cbn [bind]. apply Hk. exact Hr. Qed.

Lemma agree_weaken {A : Type} (x y : outcome A) (P Q : A -> Prop) :
  agree x y P -> (forall r, P r -> Q r) -> agree x y Q.
Proof. intros (r & Hx & Hy & Hr) HPQ. exists r. auto. Qed.

Lemma same_upto_refl (size : Z) (b : list byte) : size <= len b -> same_upto size b b.
Proof. intros H. repeat split; assumption. Qed.

Lemma same_upto_firstn (size : Z) (b : list byte) :
  size <= len b -> same_upto size b (firstn (Z.to_nat size) b).
Proof.
  intros H. split; [exact H|]. split.
  - unfold len in *. rewrite length_firstn. lia.
  - rewrite firstn_firstn, Nat.min_id. reflexivity.
Qed.

Section Within.
Import OSCMessageView.
Variables (size : Z) (b1 b2 : list byte).
Hypothesis Hsame : same_upto size b1 b2.
Hypothesis Hsize : size <= PTRDIFF_MAX.

Lemma nth_error_same (i : nat) :
  (Z.of_nat i < size) -> nth_error b1 i = nth_error b2 i.
Proof.
  intros Hi. destruct Hsame as (_ & _ & E).
  assert (H : forall b : list byte,
             nth_error b i = nth_error (firstn (Z.to_nat size) b) i).
  { intros b. rewrite nth_error_firstn.
    replace (i <? Z.to_nat size)%nat with true; [reflexivity|].
    symmetry. apply Nat.ltb_lt. lia. }
  rewrite (H b1), (H b2), E. reflexivity.
Qed.

Lemma load_same (i : Z) :
  0 <= i < size -> agree (load b1 i) (load b2 i) (fun _ => True).
Proof.
  intros Hi. unfold load.
  replace (i <? 0) with false by (symmetry; apply Z.ltb_ge; lia).
  rewrite <- (nth_error_same (Z.to_nat i)) by lia.
  destruct (nth_error b1 (Z.to_nat i)) as [a|] eqn:E.
  - apply agree_ret. exact I.
  - exfalso. apply nth_error_None in E. destruct Hsame as (H1 & _).
    unfold len in H1. lia.
Qed.

Lemma load_bytes_same (pos n : Z) :
  0 <= pos -> 0 <= n -> pos + n <= size ->
  agree (load_bytes b1 pos n) (load_bytes b2 pos n) (fun _ => True).
Proof.
  intros Hp Hn Hle. destruct Hsame as (H1 & H2 & E). unfold load_bytes.
  replace ((0 <=? pos) && (0 <=? n) && (pos + n <=? len b1)) with true
    by (symmetry; repeat (apply andb_true_iff; split); apply Z.leb_le; lia).
  replace ((0 <=? pos) && (0 <=? n) && (pos + n <=? len b2)) with true
    by (symmetry; repeat (apply andb_true_iff; split); apply Z.leb_le; lia).
  assert (H : forall b : list byte,
             firstn (Z.to_nat n) (skipn (Z.to_nat pos) b)
             = firstn (Z.to_nat n) (skipn (Z.to_nat pos) (firstn (Z.to_nat size) b))).
  { intros b. rewrite !firstn_skipn_comm, firstn_firstn.
    replace (Init.Nat.min (Z.to_nat pos + Z.to_nat n) (Z.to_nat size))
      with (Z.to_nat pos + Z.to_nat n)%nat by lia.
    reflexivity. }
  rewrite (H b1), (H b2), E. apply agree_ret. exact I.
Qed.

Lemma scan_same (fuel : nat) :
  forall pos : Z,
    0 <= pos -> (Z.to_nat (size - pos) <= fuel)%nat ->
    agree (scan fuel b1 size pos) (scan fuel b2 size pos)
          (fun p => pos <= p /\ (p <= size \/ p = pos)
                    /\ (p < size -> load b1 p = Ret NUL)).
Proof.
  unfold PTRDIFF_MAX in Hsize.
  induction fuel as [|fuel IH]; intros pos Hpos Hfuel.
  - cbn [scan]. destruct (pos <? size) eqn:E.
    + apply Z.ltb_lt in E. lia.
    + apply Z.ltb_ge in E. apply agree_ret. lia.
  - cbn [scan]. destruct (pos <? size) eqn:E.
    + apply Z.ltb_lt in E.
      destruct (load_same pos ltac:(lia)) as (c & Hc1 & Hc2 & _).
      rewrite Hc1, Hc2. cbn [bind].
      destruct (is_nul c) eqn:Ec; cbn [negb].
      * apply is_nul_true in Ec. subst c. apply agree_ret.
        split; [lia|]. split; [lia|]. intros _. exact Hc1.
      * rewrite size_t_small by lia.
        eapply agree_weaken; [apply IH; lia|].
        cbv beta. intros p (Hp1 & Hp2 & Hp3).
        split; [lia|]. split; [lia|]. exact Hp3.
    + apply Z.ltb_ge in E. apply agree_ret. lia.
Qed.

Lemma blob_check (p n : Z) :
  - 2 ^ 31 <= n < 2 ^ 31 -> 0 <= p <= size ->
  (size_t (p + size_t n) >? size) = false ->
  size_t (p + size_t n) = p + n /\ 0 <= p + n <= size.
Proof.
  intros Hn Hp Hc. unfold PTRDIFF_MAX in Hsize.
  rewrite Z.gtb_ltb in Hc. apply Z.ltb_ge in Hc.
  unfold size_t in *.
  destruct (Z_lt_le_dec n 0) as [Hneg|Hnn].
  - assert (E : n mod 2 ^ 32 = n + 2 ^ 32).
    { symmetry. apply (Z.mod_unique n (2 ^ 32) (-1)); lia. }
    rewrite E in *.
    destruct (Z_lt_le_dec (p + n) 0) as [Hlow|Hok].
    + rewrite Z.mod_small in Hc by lia. lia.
    + assert (E2 : (p + (n + 2 ^ 32)) mod 2 ^ 32 = p + n).
      { symmetry. apply (Z.mod_unique _ (2 ^ 32) 1); lia. }
      rewrite E2 in *. lia.
  - rewrite (Z.mod_small n) in * by lia.
    rewrite Z.mod_small in * by lia. lia.
Qed.

Lemma decode_same (c : byte) (pos : Z) (arg : OSCArg) :
  0 <= pos <= size + 3 -> blobData arg = nullptr ->
  agree (decode c b1 size pos arg) (decode c b2 size pos arg)
        (fun r => (fst (fst r) = true -> 0 <= snd (fst r) <= size + 3)
                  /\ blob_within size (snd r)).
Proof.
  intros Hpos Hnull. unfold PTRDIFF_MAX in Hsize.
  assert (Hblob : forall x y z, blob_within size (mkArg x y z nullptr (blobSize arg)))
    by (intros x y z off H; discriminate H).
  assert (Hblob' : forall x, blob_within size (set_u arg x))
    by (intros x off H; cbn in H; rewrite Hnull in H; discriminate H).
  assert (Harg : blob_within size arg)
    by (intros off H; rewrite Hnull in H; discriminate H).
  unfold decode.
  rewrite ?(size_t_small (pos + 1)), ?(size_t_small (pos + 2)),
    ?(size_t_small (pos + 3)), ?(size_t_small (pos + 4)),
    ?(size_t_small (pos + 8)) by lia.
  repeat match goal with
         | |- agree (if ?b then _ else _) (if ?b then _ else _) _ =>
             let E := fresh "E" in destruct b eqn:E
         end;
    try (apply agree_ret; cbn [fst snd]; split; [intros; try discriminate; lia | auto]);
    repeat match goal with
           | H : (_ >? _) = false |- _ => rewrite Z.gtb_ltb in H; apply Z.ltb_ge in H
           end.
  all: try (eapply agree_bind; [apply (load_bytes_same pos 4); lia|];
            intros bs _; cbv zeta;
            try (apply agree_ret; cbn [fst snd]; split; [intros; lia | auto])).
  all: try (eapply agree_bind; [apply (load_bytes_same pos 8); lia|];
            intros bs _; cbv zeta;
            try (apply agree_ret; cbn [fst snd]; split; [intros; lia | auto])).
  all: try (eapply agree_bind; [apply (load_bytes_same (pos + 4) 4); lia|];
            intros bs' _; cbv zeta;
            apply agree_ret; cbn [fst snd]; split; [intros; lia | auto]).
  all: repeat (eapply agree_bind; [apply load_same; lia|]; intros ? _);
    try (apply agree_ret; cbn [fst snd]; split; [intros; lia | auto]).
  - (* strings *)
    cbv zeta. eapply agree_bind.
    + apply scan_same; lia.
    + cbv beta. intros p (Hp1 & Hp2 & _).
      destruct (p >=? size) eqn:Ep.
      * apply agree_ret. cbn [fst snd]. split; [discriminate|].
        intros off H. cbn in H. rewrite Hnull in H. discriminate H.
      * rewrite Z.geb_leb in Ep. apply Z.leb_gt in Ep.
        rewrite (size_t_small (p + 1)) by lia.
        destruct (align4_bounds (p + 1) ltac:(lia) ltac:(lia)) as [Ha _].
        apply agree_ret. cbn [fst snd]. split; [intros; lia|].
        intros off H. cbn in H. rewrite Hnull in H. discriminate H.
  - (* blobs *)
    set (n := swap_endian_int32 (int32_t (le_combine bs))).
    assert (Hn : - 2 ^ 31 <= n < 2 ^ 31) by apply int32_t_range.
    destruct (size_t (pos + 4 + size_t n) >? size) eqn:Ec.
    + apply agree_ret. cbn [fst snd]. split; [discriminate|].
      intros off H. cbn in H. rewrite Hnull in H. discriminate H.
    + destruct (blob_check (pos + 4) n Hn ltac:(lia) Ec) as [Es Hb].
      rewrite Es.
      destruct (align4_bounds (pos + 4 + n) ltac:(lia) ltac:(lia)) as [Ha _].
      apply agree_ret. cbn [fst snd]. split; [intros; lia|].
      intros off H. cbn in H |- *. injection H as <-. lia.
Qed.

End Within.

Section WithinLoop.
Import OSCMessageView.
Variables (size : Z) (b1 b2 : list byte).
Hypothesis Hsame : same_upto size b1 b2.
Hypothesis Hsize : size <= PTRDIFF_MAX.

Lemma firstn_snoc {A : Type} (pre post : list A) (a : A) (n : Z) :
  n = len pre -> firstn (Z.to_nat (n + 1)) (pre ++ a :: post) = pre ++ [a].
Proof.
  intros ->. pose proof (len_nonneg pre).
  replace (Z.to_nat (len pre + 1)) with (List.length pre + 1)%nat
    by (unfold len; lia).
  rewrite firstn_app_2. reflexivity.
Qed.

Lemma parse_args_same (fuel : nat) :
  forall (types pos tend : Z) (v : t),
    0 <= types <= tend -> tend < size -> load b1 tend = Ret NUL ->
    0 <= pos <= size + 3 ->
    0 <= mArgCount v <= MAX_ARGS -> len (mArgs v) = MAX_ARGS ->
    (Z.to_nat (MAX_ARGS - mArgCount v) <= fuel)%nat ->
    Forall (blob_within size) (firstn (Z.to_nat (mArgCount v)) (mArgs v)) ->
    agree (parse_args fuel b1 size types pos v) (parse_args fuel b2 size types pos v)
          (fun r => slots_within size (snd r)).
Proof.
  unfold slots_within, MAX_ARGS.
  induction fuel as [|fuel IH];
    intros types pos tend v Htypes Htend Hnul Hpos Hcount Hlen Hfuel Hblobs.
  - cbn [parse_args]. unfold MAX_ARGS.
    eapply agree_bind; [apply (load_same size b1 b2 Hsame types); lia|].
    intros c _. destruct (negb (is_nul c) && (mArgCount v <? 64)) eqn:E.
    + apply andb_true_iff in E. destruct E as [_ E]. apply Z.ltb_lt in E. lia.
    + apply agree_ret. cbn [snd]. auto.
  - cbn [parse_args]. unfold MAX_ARGS.
    destruct (load_same size b1 b2 Hsame types ltac:(lia)) as (c & Hc1 & Hc2 & _).
    rewrite Hc1, Hc2. cbn [bind].
    destruct (negb (is_nul c) && (mArgCount v <? 64)) eqn:E;
      [|apply agree_ret; cbn [snd]; auto].
    apply andb_true_iff in E. destruct E as [Ec E]. apply Z.ltb_lt in E.
    apply negb_true_iff, is_nul_false in Ec.
    assert (Hnext : types + 1 <= tend).
    { destruct (Z.eq_dec types tend) as [->|]; [|lia].
      rewrite Hnul in Hc1. injection Hc1 as <-. contradiction. }
    destruct (cut3 (mArgs v) (mArgCount v) 1 ltac:(lia) ltac:(lia) ltac:(lia))
      as (pre & mid & post & Harr & Hpre & Hmid & Hfirst).
    destruct mid as [|old [|? ?]];
      [ change (len (@nil OSCArg)) with 0 in Hmid; lia
      | | rewrite !len_cons in Hmid; pose proof (len_nonneg l); lia ].
    cbn [app] in Harr. rewrite Harr.
    rewrite (load_at pre post old (mArgCount v)) by (symmetry; exact Hpre).
    cbn [bind].
    eapply agree_bind.
    { apply (decode_same size b1 b2 Hsame Hsize); [exact Hpos | reflexivity]. }
    cbv beta. intros [[ok pos'] arg'] [Hpos' Harg']. cbn [fst snd] in Hpos', Harg'.
    rewrite (store_app pre post old arg' (mArgCount v)) by (symmetry; exact Hpre).
    cbn [bind]. cbv zeta. cbn [mAddress mTypeTags mArgs mArgCount].
    assert (Hpre' : Forall (blob_within size) pre) by (rewrite Hfirst; exact Hblobs).
    assert (Hlen' : len (pre ++ arg' :: post) = 64).
    { rewrite <- Hlen, Harr, !len_app, !len_cons. reflexivity. }
    destruct ok; cbn [negb].
    + rewrite (size_t_small (mArgCount v + 1)) by lia.
      apply (IH (types + 1) pos' tend); cbn [mArgs mArgCount];
        try assumption; try lia; try (apply Hpos'; reflexivity).
      rewrite firstn_snoc by (symmetry; exact Hpre).
      apply Forall_app. split; [exact Hpre'|]. constructor; [exact Harg'|constructor].
    + apply agree_ret. cbn [snd mArgs mArgCount].
      split; [|split; [exact Hlen'|lia]].
      rewrite firstn_len_app by (symmetry; exact Hpre). exact Hpre'.
Qed.

Lemma parse_same (v0 : t) :
  len (mArgs v0) = MAX_ARGS ->
  agree (parse b1 size v0) (parse b2 size v0)
        (fun r => slots_within size (snd r)).
Proof.
  intros Hlen. unfold parse. cbv zeta. unfold clear.
  cbn [mAddress mTypeTags mArgs mArgCount].
  assert (Hdone : forall ok a b,
             agree (Ret (ok, mk a b (mArgs v0) 0)) (Ret (ok, mk a b (mArgs v0) 0))
                   (fun r : bool * t => slots_within size (snd r))).
  { intros ok a b. apply agree_ret. unfold slots_within. cbn [snd mArgs mArgCount].
    split; [constructor|]. split; [exact Hlen|]. unfold MAX_ARGS. lia. }
  unfold PTRDIFF_MAX in Hsize.
  destruct (size <? 4) eqn:E4; cbn [bind]; [apply Hdone|].
  apply Z.ltb_ge in E4.
  destruct (load_same size b1 b2 Hsame 0 ltac:(lia)) as (c & Hc1 & Hc2 & _).
  rewrite Hc1, Hc2. cbn [bind].
  destruct (negb (Byte.eqb c (chr "/"))); [apply Hdone|].
  eapply agree_bind; [apply (scan_same size b1 b2 Hsame Hsize); lia|].
  cbv beta. intros p (Hp1 & Hp2 & _).
  destruct (p >=? size) eqn:Ep; [apply Hdone|].
  rewrite Z.geb_leb in Ep. apply Z.leb_gt in Ep.
  rewrite (size_t_small (p + 1)) by lia.
  destruct (align4_bounds (p + 1) ltac:(lia) ltac:(lia)) as [Ha _].
  set (q := align4 (p + 1)) in *.
  destruct (q >=? size) eqn:Eq; cbn [bind]; [apply Hdone|].
  rewrite Z.geb_leb in Eq. apply Z.leb_gt in Eq.
  destruct (load_same size b1 b2 Hsame q ltac:(lia)) as (c' & Hq1 & Hq2 & _).
  rewrite Hq1, Hq2. cbn [bind].
  destruct (negb (Byte.eqb c' (chr ","))) eqn:Ecomma; [apply Hdone|].
  apply negb_false_iff, eqb_true_iff in Ecomma. subst c'.
  eapply agree_bind; [apply (scan_same size b1 b2 Hsame Hsize); lia|].
  cbv beta. intros tend (Ht1 & Ht2 & Ht3).
  destruct (tend >=? size) eqn:Et; [apply Hdone|].
  rewrite Z.geb_leb in Et. apply Z.leb_gt in Et.
  rewrite (size_t_small (tend + 1)) by lia.
  destruct (align4_bounds (tend + 1) ltac:(lia) ltac:(lia)) as [Hb _].
  assert (Hne : tend <> q).
  { intros ->. rewrite (Ht3 Et) in Hq1. discriminate Hq1. }
  apply (parse_args_same _ (q + 1) (align4 (tend + 1)) tend);
    cbn [mArgs mArgCount]; try assumption; try lia;
    try (unfold MAX_ARGS; lia).
  - apply Ht3. exact Et.
  - constructor.
Qed.

End WithinLoop.

Lemma decode_short (c : byte) (w : Z) (buffer : list byte) (size pos : Z)
      (arg : OSCMessageView.OSCArg) :
  width c = Some w -> size_t (pos + w) > size ->
  OSCMessageView.decode c buffer size pos arg = Ret (false, pos, arg).
Proof.
  unfold width, OSCMessageView.decode. intros Hw Hshort.
  repeat match type of Hw with
         | (if ?b then _ else _) = _ => destruct b
         end;
    try discriminate Hw; injection Hw as <-;
    rewrite gtb_true by lia; reflexivity.
Qed.

Lemma parse_args_short (fuel : nat) (buffer : list byte) (size types pos : Z)
      (v : OSCMessageView.t) (c : byte) (w : Z) :
  load buffer types = Ret c -> c <> NUL ->
  0 <= OSCMessageView.mArgCount v < OSCMessageView.MAX_ARGS ->
  len (OSCMessageView.mArgs v) = OSCMessageView.MAX_ARGS ->
  width c = Some w -> size_t (pos + w) > size ->
  exists v',
    OSCMessageView.parse_args (S fuel) buffer size types pos v = Ret (false, v')
    /\ OSCMessageView.mArgCount v' = OSCMessageView.mArgCount v.
Proof.
  intros Hc Hnn Hcount Hlen Hw Hshort.
  cbn [OSCMessageView.parse_args]. rewrite Hc. cbn [bind].
  apply is_nul_false in Hnn. rewrite Hnn. cbn [negb andb].
  replace (OSCMessageView.mArgCount v <? OSCMessageView.MAX_ARGS) with true
    by (symmetry; apply Z.ltb_lt; lia).
  destruct (cut3 (OSCMessageView.mArgs v) (OSCMessageView.mArgCount v) 1
              ltac:(lia) ltac:(lia) ltac:(lia))
    as (pre & mid & post & Harr & Hpre & Hmid & _).
  destruct mid as [|old [|? ?]];
    [ change (len (@nil OSCMessageView.OSCArg)) with 0 in Hmid; lia
    | | rewrite !len_cons in Hmid; pose proof (len_nonneg l); lia ].
  cbn [app] in Harr. rewrite Harr.
  rewrite (load_at pre post old _) by (symmetry; exact Hpre).
  cbn [bind]. cbv zeta.
  rewrite (decode_short c w) by assumption.
  cbn [bind].
  rewrite (store_app pre post old _ _) by (symmetry; exact Hpre).
  cbn [bind negb]. eexists. split; reflexivity.
Qed.

(** C2. For every buffer of at least [size] bytes (and a size an object
    can have), [parse] returns, and it returns the same on the buffer cut
    to its first [size] bytes, where a read at an offset outside [0, size)
    is a fault: no such read is made.  For every declared length, a blob
    slot the view has in use starts and ends within the first [size] bytes.
    In the argument loop, a tag whose bounds check asks for [w] bytes with
    [pos + w > size] makes the loop return false at once. *)
Theorem parse_reads_within_size
        (buffer : list byte) (size : Z) (v0 : OSCMessageView.t) :
  size <= len buffer -> size <= PTRDIFF_MAX ->
  len (OSCMessageView.mArgs v0) = OSCMessageView.MAX_ARGS ->
  (exists ok v,
      OSCMessageView.parse buffer size v0 = Ret (ok, v)
      /\ OSCMessageView.parse (firstn (Z.to_nat size) buffer) size v0 = Ret (ok, v)
      /\ slots_within size v)
  /\ (forall fuel types pos v c w,
         load buffer types = Ret c -> c <> NUL ->
         0 <= OSCMessageView.mArgCount v < OSCMessageView.MAX_ARGS ->
         len (OSCMessageView.mArgs v) = OSCMessageView.MAX_ARGS ->
         width c = Some w -> size_t (pos + w) > size ->
         exists v',
           OSCMessageView.parse_args (S fuel) buffer size types pos v = Ret (false, v')
           /\ OSCMessageView.mArgCount v' = OSCMessageView.mArgCount v).
Proof.
  intros Hlen Hsize Hargs. split.
  - destruct (parse_same size buffer (firstn (Z.to_nat size) buffer)
                (same_upto_firstn size buffer Hlen) Hsize v0 Hargs)
      as ([ok v] & H1 & H2 & H3).
    exists ok, v. auto.
  - intros fuel types pos v c w. apply parse_args_short.
Qed.

Lemma parse_reads_within_size_witness :
  let buffer := bytes_of "/a" ++ [NUL; NUL] ++ bytes_of ",b" ++ [NUL; NUL]
                ++ [Byte.x7f; Byte.xff; Byte.xff; Byte.xff]
                ++ [Byte.x01; Byte.x02; Byte.x03; Byte.x04] in
  exists ok v,
    OSCMessageView.parse buffer 12 OSCMessageView.fresh = Ret (ok, v)
    /\ OSCMessageView.parse (firstn 12 buffer) 12 OSCMessageView.fresh = Ret (ok, v)
    /\ slots_within 12 v.
Proof.
  cbv zeta.
  destruct (parse_reads_within_size
              (bytes_of "/a" ++ [NUL; NUL] ++ bytes_of ",b" ++ [NUL; NUL]
               ++ [Byte.x7f; Byte.xff; Byte.xff; Byte.xff]
               ++ [Byte.x01; Byte.x02; Byte.x03; Byte.x04])
              12 OSCMessageView.fresh)
    as [(ok & v & H1 & H2 & H3) _].
  - vm_compute. discriminate.
  - vm_compute. discriminate.
  - reflexivity.
  - exists ok, v. split; [exact H1 | split; [exact H2 | exact H3]].
Defined.

(** ** Claims about the argument loop of the parser *)

Lemma decode_unknown (c : byte) (buffer : list byte) (size pos : Z)
      (arg : OSCMessageView.OSCArg) :
  ~ In c known -> OSCMessageView.decode c buffer size pos arg = Ret (true, pos, arg).
Proof.
  intros Hc. unfold OSCMessageView.decode.
  assert (H : forall k, In k known -> Byte.eqb c k = false).
  { intros k Hk. apply eqb_false_iff. intros ->. contradiction. }
  rewrite !H by (vm_compute; tauto). reflexivity.
Qed.

(** C9. In the argument loop, a tag that is not the terminator and not one
    of [ifsSbhdtmcrTFNI], met while fewer than 64 arguments are recorded:
    the switch returns true with the position unchanged; the slot at the
    argument count records the tag with null string and blob pointers, the
    union and the blob size keeping what the slot held; and the loop goes
    on with the next tag, the same position and one more argument. *)
Theorem unknown_tag_recorded
        (fuel : nat) (buffer : list byte) (size types pos : Z)
        (v : OSCMessageView.t) (c : byte) :
  load buffer types = Ret c -> c <> NUL -> ~ In c known ->
  0 <= OSCMessageView.mArgCount v < OSCMessageView.MAX_ARGS ->
  len (OSCMessageView.mArgs v) = OSCMessageView.MAX_ARGS ->
  exists pre old post,
    OSCMessageView.mArgs v = pre ++ old :: post
    /\ len pre = OSCMessageView.mArgCount v
    /\ let slot := OSCMessageView.mkArg c (OSCMessageView.u old)
                     OSCMessageView.nullptr OSCMessageView.nullptr
                     (OSCMessageView.blobSize old) in
       OSCMessageView.decode c buffer size pos slot = Ret (true, pos, slot)
       /\ OSCMessageView.parse_args (S fuel) buffer size types pos v
          = OSCMessageView.parse_args fuel buffer size (types + 1) pos
              (OSCMessageView.mk (OSCMessageView.mAddress v) (OSCMessageView.mTypeTags v)
                                 (pre ++ slot :: post)
                                 (OSCMessageView.mArgCount v + 1)).
Proof.
  intros Hc Hnn Hunk Hcount Hlen.
  destruct (cut3 (OSCMessageView.mArgs v) (OSCMessageView.mArgCount v) 1
              ltac:(lia) ltac:(lia) ltac:(lia))
    as (pre & mid & post & Harr & Hpre & Hmid & _).
  destruct mid as [|old [|? ?]];
    [ change (len (@nil OSCMessageView.OSCArg)) with 0 in Hmid; lia
    | | rewrite !len_cons in Hmid; pose proof (len_nonneg l); lia ].
  cbn [app] in Harr. exists pre, old, post.
  split; [exact Harr|]. split; [exact Hpre|]. cbv zeta.
  split; [apply decode_unknown; exact Hunk|].
  cbn [OSCMessageView.parse_args]. rewrite Hc. cbn [bind].
  apply is_nul_false in Hnn. rewrite Hnn. cbn [negb andb].
  replace (OSCMessageView.mArgCount v <? OSCMessageView.MAX_ARGS) with true
    by (symmetry; apply Z.ltb_lt; lia).
  rewrite Harr.
  rewrite (load_at pre post old _) by (symmetry; exact Hpre).
  cbn [bind]. cbv zeta.
  rewrite decode_unknown by exact Hunk.
  cbn [bind].
  rewrite (store_app pre post old _ _) by (symmetry; exact Hpre).
  cbn [bind negb OSCMessageView.mAddress OSCMessageView.mTypeTags
         OSCMessageView.mArgs OSCMessageView.mArgCount].
  unfold OSCMessageView.MAX_ARGS in Hcount.
  rewrite size_t_small by lia. reflexivity.
Qed.

Lemma unknown_tag_recorded_witness :
  let buffer := bytes_of "/a" ++ [NUL; NUL] ++ bytes_of ",xi" ++ [NUL]
                ++ [NUL; NUL; NUL; Byte.x07] in
  let v := OSCMessageView.mk (OSCMessageView.at_offset 0) (OSCMessageView.at_offset 5)
             (repeat OSCMessageView.indeterminate 64) 0 in
  exists v',
    OSCMessageView.parse_args 64 buffer 12 5 8 v = Ret (true, v')
    /\ OSCMessageView.argCount v' = 2
    /\ OSCMessageView.getInt 1 0 v' = 7.
Proof.
  cbv zeta.
  destruct (unknown_tag_recorded 63
              (bytes_of "/a" ++ [NUL; NUL] ++ bytes_of ",xi" ++ [NUL]
               ++ [NUL; NUL; NUL; Byte.x07])
              12 5 8
              (OSCMessageView.mk (OSCMessageView.at_offset 0) (OSCMessageView.at_offset 5)
                 (repeat OSCMessageView.indeterminate 64) 0)
              (chr "x"))
    as (pre & old & post & Harr & Hpre & _ & Hrun).
  - reflexivity.
  - discriminate.
  - vm_compute. intros H. repeat (destruct H as [H|H]; [discriminate H|]). exact H.
  - cbn [OSCMessageView.mArgCount]. unfold OSCMessageView.MAX_ARGS. lia.
  - reflexivity.
  - cbn [OSCMessageView.mArgCount OSCMessageView.mArgs] in Harr, Hpre.
    destruct pre as [|? ?];
      [|rewrite len_cons in Hpre; pose proof (len_nonneg pre); lia].
    vm_compute in Harr. injection Harr as Hold Hpost. subst old post.
    eexists. split; [etransitivity; [exact Hrun | vm_compute; reflexivity]|].
    split; reflexivity.
Defined.

Section ParseCases.
Import OSCMessageView.

Lemma bind_ret {A B : Type} (x : outcome A) (k : A -> outcome B) (r : B) :
  bind x k = Ret r -> exists a, x = Ret a /\ k a = Ret r.
Proof. destruct x as [a| |]; cbn [bind]; intros H; try discriminate H. eauto. Qed.

Lemma align4_nonneg (x : Z) : 0 <= align4 x.
Proof. unfold align4. apply Z.land_nonneg. left. apply size_t_range. Qed.

(** How [parse] ends: at one of its five [return] statements before the
    argument loop, or with what the argument loop returns. *)
Lemma parse_cases (buffer : list byte) (size : Z) (v0 v : t) (ok : bool) :
  parse buffer size v0 = Ret (ok, v) ->
  ((size < 4 \/ exists c, load buffer 0 = Ret c /\ c <> chr "/")
   /\ ok = false /\ v = clear v0)
  \/ (4 <= size /\ load buffer 0 = Ret (chr "/")
      /\ ((ok = false /\ v = mk (at_offset 0) nullptr (mArgs v0) 0)
          \/ (ok = true /\ v = mk (at_offset 0) empty_literal (mArgs v0) 0)
          \/ (exists q, 0 <= q /\ load buffer q = Ret (chr ",")
                        /\ ((ok = false
                             /\ v = mk (at_offset 0) (at_offset (q + 1)) (mArgs v0) 0)
                            \/ exists pos,
                                parse_args (Z.to_nat MAX_ARGS) buffer size (q + 1) pos
                                  (mk (at_offset 0) (at_offset (q + 1)) (mArgs v0) 0)
                                = Ret (ok, v))))).
Proof.
  unfold parse. cbv zeta. unfold clear. cbn [mAddress mTypeTags mArgs mArgCount].
  intros H.
  destruct (size <? 4) eqn:E4; cbn [bind] in H.
  { injection H as <- <-. left. apply Z.ltb_lt in E4. auto. }
  apply Z.ltb_ge in E4.
  destruct (load buffer 0) as [c| |] eqn:Ec; cbn [bind] in H; try discriminate H.
  destruct (Byte.eqb c (chr "/")) eqn:Eslash; cbn [negb] in H.
  2:{ injection H as <- <-. left. apply eqb_false_iff in Eslash.
      split; [right; exists c; split; [reflexivity | exact Eslash] | split; reflexivity]. }
  apply eqb_true_iff in Eslash. subst c. right. split; [exact E4|]. split; [reflexivity|].
  apply bind_ret in H. destruct H as (p & _ & H).
  destruct (p >=? size). { injection H as <- <-. auto. }
  set (q := align4 (size_t (p + 1))) in *.
  apply bind_ret in H. destruct H as (noTags & HnoTags & H).
  destruct noTags. { injection H as <- <-. auto. }
  destruct (q >=? size); [discriminate HnoTags|].
  apply bind_ret in HnoTags. destruct HnoTags as (c & Hq & Hc).
  injection Hc as Hc. apply negb_false_iff, eqb_true_iff in Hc. subst c.
  right. right. exists q. split; [apply align4_nonneg|]. split; [exact Hq|].
  apply bind_ret in H. destruct H as (tend & _ & H).
  destruct (tend >=? size). { injection H as <- <-. auto. }
  right. eexists. exact H.
Qed.

Lemma parse_args_keeps (fuel : nat) (buffer : list byte) (size : Z) :
  forall (types pos : Z) (v v' : t) (ok : bool),
    parse_args fuel buffer size types pos v = Ret (ok, v') ->
    mAddress v' = mAddress v /\ mTypeTags v' = mTypeTags v.
Proof.
  induction fuel as [|fuel IH]; intros types pos v v' ok H; cbn [parse_args] in H;
    apply bind_ret in H; destruct H as (c & _ & H);
    destruct (negb (is_nul c) && (mArgCount v <? MAX_ARGS));
    try discriminate H; try (injection H as <- <-; auto).
  apply bind_ret in H. destruct H as (old & _ & H). cbv zeta in H.
  apply bind_ret in H. destruct H as ([[ok' pos'] arg'] & _ & H).
  apply bind_ret in H. destruct H as (args & _ & H).
  destruct ok'; cbn [negb] in H.
  - apply IH in H. cbn [mAddress mTypeTags] in H. exact H.
  - injection H as <- <-. auto.
Qed.

(** With a tag that is not the terminator at each of the positions the
    loop can reach, the loop returns true only with all 64 slots in use. *)
Lemma parse_args_count (fuel : nat) (buffer : list byte) (size : Z) :
  forall (types pos : Z) (v v' : t) (ok : bool),
    parse_args fuel buffer size types pos v = Ret (ok, v') ->
    0 <= mArgCount v <= MAX_ARGS ->
    (forall k, 0 <= k < MAX_ARGS - mArgCount v ->
               exists c, load buffer (types + k) = Ret c /\ c <> NUL) ->
    if ok then mArgCount v' = MAX_ARGS else mArgCount v' < MAX_ARGS.
Proof.
  unfold MAX_ARGS.
  induction fuel as [|fuel IH]; intros types pos v v' ok H Hcount Htags;
    cbn [parse_args] in H; unfold MAX_ARGS in H;
    apply bind_ret in H; destruct H as (c & Hc & H);
    destruct (negb (is_nul c) && (mArgCount v <? 64)) eqn:E;
    try discriminate H.
  1,3: injection H as <- <-; apply andb_false_iff in E; destruct E as [E|E];
    [ apply negb_false_iff, is_nul_true in E; subst c;
      destruct (Z.eq_dec (mArgCount v) 64) as [E64|]; [exact E64|];
      destruct (Htags 0 ltac:(lia)) as (c & Hc' & Hnn);
      rewrite Z.add_0_r, Hc in Hc'; injection Hc' as <-; contradiction
    | apply Z.ltb_ge in E; lia ].
  apply andb_true_iff in E. destruct E as [_ E]. apply Z.ltb_lt in E.
  apply bind_ret in H. destruct H as (old & _ & H). cbv zeta in H.
  apply bind_ret in H. destruct H as ([[ok' pos'] arg'] & _ & H).
  apply bind_ret in H. destruct H as (args & _ & H).
  destruct ok'; cbn [negb] in H.
  - apply IH in H; [exact H | |]; cbn [mArgCount];
      rewrite (size_t_small (mArgCount v + 1)) by lia; [lia|].
    intros k Hk. replace (types + 1 + k) with (types + (k + 1)) by lia.
    apply Htags. lia.
  - injection H as <- <-. exact E.
Qed.

Lemma chars_prefix (s : list byte) (k : nat) :
  (k < List.length (chars s))%nat -> nth_error s k = nth_error (chars s) k.
Proof.
  revert k. induction s as [|c s IH]; intros k Hk; cbn [chars] in *.
  - cbn [List.length] in Hk. lia.
  - destruct (is_nul c); cbn [List.length] in Hk; [lia|].
    destruct k as [|k]; [reflexivity|]. cbn [nth_error]. apply IH. lia.
Qed.

Lemma chars_load (buffer : list byte) (types k : Z) :
  0 <= types -> 0 <= k < len (chars (skipn (Z.to_nat types) buffer)) ->
  exists c, load buffer (types + k) = Ret c /\ c <> NUL.
Proof.
  intros Ht Hk. unfold len in Hk.
  pose proof (chars_prefix (skipn (Z.to_nat types) buffer) (Z.to_nat k) ltac:(lia)) as Hp.
  destruct (nth_error (chars (skipn (Z.to_nat types) buffer)) (Z.to_nat k)) as [c|] eqn:E.
  - exists c. split.
    + unfold load. replace (types + k <? 0) with false
        by (symmetry; apply Z.ltb_ge; lia).
      rewrite nth_error_skipn in Hp.
      replace (Z.to_nat (types + k)) with (Z.to_nat types + Z.to_nat k)%nat by lia.
      rewrite Hp. reflexivity.
    + pose proof (chars_nul_free (skipn (Z.to_nat types) buffer)) as Hf.
      rewrite Forall_forall in Hf. apply Hf. eapply nth_error_In. exact E.
  - apply nth_error_None in E. lia.
Qed.

End ParseCases.

(** C4 (as amended). When [parse] returns false because the size is below
    4 or the first byte is not a slash, the view is left cleared: address
    and type tags null, argument count zero.  When it returns false later,
    the view is not cleared: its address points to the start of the buffer,
    and its type tags are null or point after the comma. *)
Theorem parse_false_view
        (buffer : list byte) (size : Z) (v0 v : OSCMessageView.t) :
  OSCMessageView.parse buffer size v0 = Ret (false, v) ->
  ((size < 4 \/ exists c, load buffer 0 = Ret c /\ c <> chr "/")
   /\ v = OSCMessageView.clear v0)
  \/ (4 <= size /\ load buffer 0 = Ret (chr "/")
      /\ OSCMessageView.address v = OSCMessageView.at_offset 0
      /\ (OSCMessageView.typeTags v = OSCMessageView.nullptr
          \/ exists q, load buffer q = Ret (chr ",")
                       /\ OSCMessageView.typeTags v = OSCMessageView.at_offset (q + 1))).
Proof.
  intros H. apply parse_cases in H.
  destruct H as [(Hhead & _ & ->) | (H4 & Hslash & H)]; [left; auto|].
  right. split; [exact H4|]. split; [exact Hslash|].
  destruct H as [(_ & ->) | [(Hok & _) | (q & _ & Hq & [(_ & ->) | (pos & H)])]].
  - split; [reflexivity|]. left. reflexivity.
  - discriminate Hok.
  - split; [reflexivity|]. right. exists q. split; [exact Hq | reflexivity].
  - apply parse_args_keeps in H. destruct H as [Ha Ht].
    unfold OSCMessageView.address, OSCMessageView.typeTags. rewrite Ha, Ht.
    split; [reflexivity|]. right. exists q. split; [exact Hq | reflexivity].
Qed.

Lemma parse_false_view_witness :
  let buffer := bytes_of "abcd" in
  ((4 < 4 \/ exists c, load buffer 0 = Ret c /\ c <> chr "/")
   /\ OSCMessageView.fresh = OSCMessageView.clear OSCMessageView.fresh)
  \/ (4 <= 4 /\ load buffer 0 = Ret (chr "/")
      /\ OSCMessageView.address OSCMessageView.fresh = OSCMessageView.at_offset 0
      /\ (OSCMessageView.typeTags OSCMessageView.fresh = OSCMessageView.nullptr
          \/ exists q, load buffer q = Ret (chr ",")
                       /\ OSCMessageView.typeTags OSCMessageView.fresh
                          = OSCMessageView.at_offset (q + 1))).
Proof.
  cbv zeta.
  apply (parse_false_view (bytes_of "abcd") 4 OSCMessageView.fresh OSCMessageView.fresh).
  reflexivity.
Defined.

(** C4 as stated does not hold: on a buffer that fails at the second
    argument, [parse] returns false and leaves a view whose address and
    type tags point into the buffer and whose argument count is 1. *)
Lemma parse_false_midway_view_not_cleared :
  let buffer := bytes_of "/a" ++ [NUL; NUL] ++ bytes_of ",Ti" ++ [NUL] in
  exists v,
    OSCMessageView.parse buffer 8 OSCMessageView.fresh = Ret (false, v)
    /\ OSCMessageView.address v = OSCMessageView.at_offset 0
    /\ string_at buffer (OSCMessageView.address v) = Some (bytes_of "/a")
    /\ OSCMessageView.typeTags v = OSCMessageView.at_offset 5
    /\ OSCMessageView.argCount v = 1.
Proof.
  cbv zeta. eexists. split; [vm_compute; reflexivity|].
  repeat split.
Qed.


(** ** The walk of a bundle *)

Section Walk.
Import OSCServer.

Lemma len_skipn {A : Type} (l : list A) (n : Z) :
  0 <= n <= len l -> len (skipn (Z.to_nat n) l) = len l - n.
Proof. intros H. unfold len in *. rewrite length_skipn. lia. Qed.

Lemma parseBundle_from_dispatched (fuel : nat) :
  forall (buffer : list byte) (size pos : Z),
    size <= len buffer -> size <= PTRDIFF_MAX -> 0 <= pos <= PTRDIFF_MAX ->
    (Z.to_nat (size - pos) <= fuel)%nat ->
    exists calls,
      parseBundle_from fuel buffer size pos = Ret calls
      /\ dispatched buffer size pos calls.
Proof.
  unfold PTRDIFF_MAX.
  induction fuel as [|fuel IH]; intros buffer size pos Hlen Hsize Hpos Hfuel.
  - cbn [parseBundle_from]. rewrite (size_t_small (pos + 4)) by lia.
    replace (pos + 4 <=? size) with false by (symmetry; apply Z.leb_gt; lia).
    exists []. split; [reflexivity|]. apply dispatched_end. lia.
  - cbn [parseBundle_from]. rewrite (size_t_small (pos + 4)) by lia.
    destruct (pos + 4 <=? size) eqn:E4.
    2:{ apply Z.leb_gt in E4. exists []. split; [reflexivity|].
        apply dispatched_end. lia. }
    apply Z.leb_le in E4.
    assert (Hload : load_bytes buffer pos 4
                    = Ret (firstn 4 (skipn (Z.to_nat pos) buffer))).
    { unfold load_bytes.
      replace ((0 <=? pos) && (0 <=? 4) && (pos + 4 <=? len buffer)) with true;
        [reflexivity|].
      symmetry. repeat (apply andb_true_iff; split); apply Z.leb_le; lia. }
    rewrite Hload. cbn [bind]. cbv zeta.
    fold (element_size buffer pos).
    set (n := element_size buffer pos) in *.
    assert (Hn : - 2 ^ 31 <= n < 2 ^ 31) by apply int32_t_range.
    destruct (n <=? 0) eqn:En; cbn [orb].
    { apply Z.leb_le in En. exists []. split; [reflexivity|].
      apply dispatched_stop; [lia|]. left. exact En. }
    apply Z.leb_gt in En.
    rewrite (size_t_small n) by lia.
    rewrite (size_t_small (pos + 4 + n)) by lia.
    destruct (pos + 4 + n >? size) eqn:Eend.
    { rewrite Z.gtb_ltb in Eend. apply Z.ltb_lt in Eend.
      exists []. split; [reflexivity|].
      apply dispatched_stop; [lia|]. right. exact Eend. }
    rewrite Z.gtb_ltb in Eend. apply Z.ltb_ge in Eend.
    set (elemData := skipn (Z.to_nat (pos + 4)) buffer) in *.
    assert (Hel : len elemData = len buffer - (pos + 4))
      by (apply len_skipn; lia).
    assert (Hnested : (if n >=? 8 then memcmp_bundle elemData else Ret false)
                      = Ret (taken_as_bundle elemData n)).
    { unfold taken_as_bundle. rewrite Z.geb_leb.
      destruct (8 <=? n) eqn:E8; [|reflexivity].
      apply Z.leb_le in E8. unfold memcmp_bundle.
      rewrite load_bytes_front by lia. reflexivity. }
    rewrite Hnested. cbn [bind].
    destruct (IH buffer size (pos + 4 + n) Hlen Hsize ltac:(lia) ltac:(lia))
      as (rest & Hrest & Drest).
    destruct (taken_as_bundle elemData n) eqn:Etaken.
    + destruct (IH elemData n 16 ltac:(lia) ltac:(lia) ltac:(lia) ltac:(lia))
        as (calls & Hcalls & Dcalls).
      rewrite Hcalls. cbn [bind]. rewrite Hrest. cbn [bind].
      exists (calls ++ rest). split; [reflexivity|].
      apply dispatched_nested; try assumption; lia.
    + destruct (parse_same n elemData elemData
                  (same_upto_refl n elemData ltac:(lia)) ltac:(unfold PTRDIFF_MAX; lia)
                  OSCMessageView.fresh eq_refl) as ([ok msg] & Hp & _ & _).
      rewrite Hp. cbn [bind]. rewrite Hrest. cbn [bind].
      eexists. split; [reflexivity|].
      apply dispatched_message; try assumption; lia.
Qed.

End Walk.

(** C3 (as amended). On a buffer of at least [size] bytes, [parseBundle]
    returns, and the calls it makes are those of the walk in which an
    element is gone into as a nested bundle exactly when it has at least 8
    bytes and its first 7 bytes are those of [#bundle], whatever the eighth
    byte is; every other element is parsed as a message and the callback is
    called with the view if parsing succeeds. *)
Theorem parseBundle_dispatch (buffer : list byte) (size : Z) :
  size <= len buffer -> size <= PTRDIFF_MAX ->
  exists calls,
    OSCServer.parseBundle buffer size = Ret calls
    /\ dispatched buffer size 16 calls.
Proof.
  intros Hlen Hsize. unfold OSCServer.parseBundle. cbv zeta.
  apply parseBundle_from_dispatched; try assumption.
  - unfold PTRDIFF_MAX. lia.
  - lia.
Qed.

Lemma parseBundle_dispatch_witness :
  let buffer := OSCBundle.header ++ repeat NUL 8
                ++ [NUL; NUL; NUL; Byte.x08]
                ++ bytes_of "/a" ++ [NUL; NUL] ++ bytes_of "," ++ [NUL; NUL; NUL] in
  exists calls,
    OSCServer.parseBundle buffer 28 = Ret calls
    /\ dispatched buffer 28 16 calls.
Proof.
  cbv zeta.
  apply (parseBundle_dispatch
           (OSCBundle.header ++ repeat NUL 8
            ++ [NUL; NUL; NUL; Byte.x08]
            ++ bytes_of "/a" ++ [NUL; NUL] ++ bytes_of "," ++ [NUL; NUL; NUL])
           28).
  - vm_compute. discriminate.
  - vm_compute. discriminate.
Defined.

(** C3 as stated does not hold: an element whose first 8 bytes are
    [#bundleX], not the bundle magic, and which does not parse as a
    message, is gone into as a nested bundle, and the callback is called
    for the message inside it. *)
Lemma parseBundle_nested_without_terminator :
  let inner := bytes_of "/a" ++ [NUL; NUL] ++ bytes_of "," ++ [NUL; NUL; NUL] in
  let elem := bytes_of "#bundleX" ++ repeat NUL 8
              ++ [NUL; NUL; NUL; Byte.x08] ++ inner in
  let buffer := OSCBundle.header ++ repeat NUL 8
                ++ [NUL; NUL; NUL; Byte.x1c] ++ elem in
  skipn 20 buffer = elem
  /\ starts_with_magic elem = false
  /\ (exists v, OSCMessageView.parse elem 28 OSCMessageView.fresh = Ret (false, v))
  /\ exists v,
      OSCServer.parseBundle buffer 48 = Ret [OSCServer.mkCall inner v]
      /\ string_at inner (OSCMessageView.address v) = Some (bytes_of "/a").
Proof.
  cbv zeta. split; [reflexivity|]. split; [reflexivity|].
  split; eexists; [vm_compute; reflexivity|].
  split; vm_compute; reflexivity.
Qed.

(** * Further properties of the builder, the parser, the bundle and the transport *)

(** * Further properties *)

(** ** Wire primitives *)

Lemma swap_endian16_involutive (v : Z) :
  swap_endian16 (swap_endian16 v) = v mod 2 ^ 16.
Proof.
  unfold swap_endian16.
  change 0x00FF with (Z.ones 8). change 0xFF00 with (Z.shiftl (Z.ones 8) 8).
  rewrite <- Z.land_ones by lia. prove_Zeq_bitwise.
Qed.

Lemma swap_endian16_mod (v : Z) : swap_endian16 (v mod 2 ^ 16) = swap_endian16 v.
Proof.
  unfold swap_endian16.
  change 0x00FF with (Z.ones 8). change 0xFF00 with (Z.shiftl (Z.ones 8) 8).
  rewrite <- Z.land_ones by lia. prove_Zeq_bitwise.
Qed.

Lemma le_split_swap16 (v : Z) : le_split 2 (swap_endian16 v) = big_endian 2 v.
Proof.
  cbv [big_endian le_split rev app].
  repeat (apply f_equal2; [apply of_Z_mod8 |]); try reflexivity;
    unfold swap_endian16;
    change 0x00FF with (Z.ones 8); change 0xFF00 with (Z.shiftl (Z.ones 8) 8);
    rewrite <- !Z.land_ones by lia; prove_Zeq_bitwise.
Qed.

Lemma le_split2_mod (v : Z) : le_split 2 (v mod 2 ^ 16) = le_split 2 v.
Proof. symmetry. apply (le_split_mod v 2). Qed.

(** X1. Swapping the byte order twice gives the value back, for the
    unsigned 16-bit and the signed and unsigned 32- and 64-bit instances of
    [swap_endian], and for the bit patterns of [float] and [double]. *)
Theorem swap_endian_twice (v : Z) :
  swap_endian_uint16 (swap_endian_uint16 v) = uint16_t v
  /\ swap_endian_uint32 (swap_endian_uint32 v) = uint32_t v
  /\ swap_endian_int32 (swap_endian_int32 v) = int32_t v
  /\ swap_endian_uint64 (swap_endian_uint64 v) = uint64_t v
  /\ swap_endian_int64 (swap_endian_int64 v) = int64_t v
  /\ swap_endian_float (swap_endian_float v) = uint32_t v
  /\ swap_endian_double (swap_endian_double v) = uint64_t v.
Proof.
  rewrite !swap_endian_float_eq, !swap_endian_double_eq.
  unfold swap_endian_uint16, swap_endian_uint32, swap_endian_int32,
    swap_endian_uint64, swap_endian_int64, uint16_t, uint32_t, uint64_t.
  repeat split.
  - rewrite swap_endian16_mod, swap_endian16_involutive. apply Z.mod_mod. lia.
  - rewrite swap_endian32_mod, swap_endian32_involutive. apply Z.mod_mod. lia.
  - rewrite <- (swap_endian32_mod (int32_t _)), int32_t_mod, swap_endian32_mod,
      swap_endian32_involutive. apply int32_t_of_mod.
  - rewrite swap_endian64_mod, swap_endian64_involutive. apply Z.mod_mod. lia.
  - rewrite <- (swap_endian64_mod (int64_t _)), int64_t_mod, swap_endian64_mod,
      swap_endian64_involutive. apply int64_t_of_mod.
  - apply swap_endian32_involutive.
  - apply swap_endian64_involutive.
Qed.

(** X2. The object representation of a byte-swapped value, as [memcpy]
    copies it on the little-endian target, is the value in network byte
    order, most significant byte first, for every instance the library
    uses. *)
Theorem swap_endian_network_order (v : Z) :
  le_split 2 (swap_endian_uint16 v) = big_endian 2 v
  /\ le_split 4 (swap_endian_uint32 v) = big_endian 4 v
  /\ le_split 4 (swap_endian_int32 v) = big_endian 4 v
  /\ le_split 8 (swap_endian_uint64 v) = big_endian 8 v
  /\ le_split 8 (swap_endian_int64 v) = big_endian 8 v
  /\ le_split 4 (swap_endian_float v) = big_endian 4 v
  /\ le_split 8 (swap_endian_double v) = big_endian 8 v.
Proof.
  repeat split.
  - unfold swap_endian_uint16, uint16_t. rewrite le_split2_mod. apply le_split_swap16.
  - apply built_uint32.
  - apply built_int32.
  - unfold swap_endian_uint64, uint64_t. rewrite le_split8_mod. apply le_split_swap64.
  - apply built_int64.
  - apply built_float.
  - apply built_double.
Qed.

(** ** The builder: states reached through its interface *)

Section Reachable.
Import OSCMessage.

Lemma add_total (a : argument) (m : t) :
  wf m -> typed a -> source_ok a -> mTypeTagCount m <= MAX_TYPE_TAG_SIZE - 1 ->
  exists ok m',
    add a m = Ret (ok, m') /\ wf m'
    /\ mAddressSize m' = mAddressSize m
    /\ mTypeTagCount m' <= MAX_TYPE_TAG_SIZE - 1
    /\ (ok = false -> m' = m).
Proof.
  intros Hwf Ht Hs Hc.
  destruct (Z_lt_le_dec (mTypeTagCount m) (MAX_TYPE_TAG_SIZE - 1)) as [Hroom|Hfull].
  - destruct (Z_lt_le_dec MAX_ARG_BUFFER_SIZE (mArgBufferSize m + payload_size a))
      as [Hbig|Hfit].
    + exists false, m. rewrite (add_rejects a m Hwf Ht) by (right; exact Hbig). auto.
    + destruct (add_accepts a m Hwf Ht Hs Hroom Hfit)
        as (m' & Hadd & Hwf' & _ & Han & Hcn & _).
      exists true, m'. split; [exact Hadd|]. split; [exact Hwf'|].
      split; [exact Han|]. split; [lia | discriminate].
  - exists false, m. rewrite (add_rejects a m Hwf Ht) by (left; exact Hfull). auto.
Qed.

Lemma setAddress_total (address : list byte) (m : t) :
  wf m -> mAddressSize m mod 4 = 0 ->
  exists ok m',
    setAddress address m = Ret (ok, m') /\ wf m'
    /\ mAddressSize m' mod 4 = 0
    /\ mTypeTagCount m' = mTypeTagCount m
    /\ (ok = false -> m' = m).
Proof.
  intros Hwf Hal. pose proof Hwf as (Ha & Htg & Hbuf & Han & Hcn & Hsz & Hal4).
  destruct (Z_lt_le_dec (strlen address) MAX_ADDRESS_SIZE) as [Hfit|Hlong].
  - destruct (setAddress_accepts address m Ha Hfit)
      as (m' & Hset & Hn & _ & Ha' & Ht1 & Ht2 & Hb1 & Hb2).
    exists true, m'. split; [exact Hset|].
    pose proof (strlen_nonneg address) as HL.
    unfold MAX_ADDRESS_SIZE in *.
    pose proof (Z.mul_div_le (strlen address + 1 + 3) 4 ltac:(lia)).
    pose proof (Z.div_pos (strlen address + 1 + 3) 4 ltac:(lia) ltac:(lia)).
    assert (Hcap : 4 * ((strlen address + 1 + 3) / 4) <= 256).
    { assert ((strlen address + 1 + 3) / 4 < 65); [|lia].
      apply Z.div_lt_upper_bound; lia. }
    split; [|split; [|split; [exact Ht2 | discriminate]]].
    + unfold wf. rewrite Ht1, Ht2, Hb1, Hb2, Hn. unfold MAX_ADDRESS_SIZE.
      repeat split; try assumption; lia.
    + rewrite Hn, Z.mul_comm. apply Z.mod_mul. lia.
  - exists false, m. rewrite (setAddress_rejects address m Hlong). auto.
Qed.

Lemma built_inv (m : t) :
  built m ->
  wf m /\ mAddressSize m mod 4 = 0 /\ mTypeTagCount m <= MAX_TYPE_TAG_SIZE - 1.
Proof.
  induction 1 as [|address m ok m' _ (Hwf & Hal & Hc) Hset
                  |a m ok m' _ (Hwf & Hal & Hc) Ht Hs Hadd].
  - split; [apply wf_clear|]. split; [reflexivity|]. vm_compute. discriminate.
  - destruct (setAddress_total address m Hwf Hal) as (ok' & m2 & Hset' & H1 & H2 & H3 & _).
    rewrite Hset in Hset'. injection Hset' as -> ->.
    rewrite H3. auto.
  - destruct (add_total a m Hwf Ht Hs Hc) as (ok' & m2 & Hadd' & H1 & H2 & H3 & _).
    rewrite Hadd in Hadd'. injection Hadd' as -> ->.
    rewrite H2. auto.
Qed.

Lemma total_size_serialized (m : t) : wf m -> total_size m = len (serialized m).
Proof. apply build_total. Qed.

Lemma total_size_aligned (m : t) :
  wf m -> mAddressSize m mod 4 = 0 ->
  total_size m mod 4 = 0 /\ (mAddressSize m <> 0 -> 8 <= total_size m).
Proof.
  intros (Ha & Htg & Hbuf & Han & Hcn & Hsz & Hal4) Hal. unfold total_size.
  pose proof (Z.div_pos (mTypeTagCount m + 2 + 3) 4 ltac:(lia) ltac:(lia)).
  assert (1 <= (mTypeTagCount m + 2 + 3) / 4) by (apply Z.div_le_lower_bound; lia).
  split.
  - rewrite Z.add_mod, (Z.add_mod (mAddressSize m)), Hal, Hal4 by lia.
    rewrite (Z.mul_comm 4), Z.mod_mul by lia. reflexivity.
  - intros Hn0.
    apply Z.mod_divide in Hal; [|lia]. destruct Hal as [k Hk]. lia.
Qed.

Lemma add_all_built (args : list argument) :
  forall (m : t) (ok : bool) (m' : t),
    built m -> Forall typed args -> Forall source_ok args ->
    add_all args m = Ret (ok, m') -> built m'.
Proof.
  induction args as [|a args IH]; intros m ok m' Hb Ht Hs Hrun; cbn [add_all] in Hrun.
  - injection Hrun as _ <-. exact Hb.
  - apply bind_ret in Hrun. destruct Hrun as ([ok1 m1] & Hadd & Hk).
    pose proof (built_add a m ok1 m1 Hb (Forall_inv Ht) (Forall_inv Hs) Hadd) as Hb1.
    destruct ok1.
    + exact (IH m1 ok m' Hb1 (Forall_inv_tail Ht) (Forall_inv_tail Hs) Hk).
    + injection Hk as _ <-. exact Hb1.
Qed.

Lemma assemble_built (address : list byte) (args : list argument) (ok : bool) (m : t) :
  Forall typed args -> Forall source_ok args ->
  assemble address args = Ret (ok, m) -> built m.
Proof.
  intros Ht Hs Hrun. unfold assemble in Hrun.
  apply bind_ret in Hrun. destruct Hrun as ([ok1 m1] & Hset & Hk).
  pose proof (built_setAddress address clear ok1 m1 built_clear Hset) as Hb1.
  destruct ok1.
  - exact (add_all_built args m1 ok m Hb1 Ht Hs Hk).
  - injection Hk as _ <-. exact Hb1.
Qed.

End Reachable.

(** X3. An append operation for which there is room (fewer than 63 tags,
    and the payload fits in what is left of the 768 argument bytes) returns
    true, appends its tag to the type tags and its payload on the wire to
    the argument bytes, adds the payload size to the argument size, and
    leaves the address alone; the state stays within its bounds. *)
Theorem append_accepted_appends (a : argument) (m : OSCMessage.t) :
  wf m -> typed a -> source_ok a ->
  OSCMessage.mTypeTagCount m < MAX_TYPE_TAG_SIZE - 1 ->
  OSCMessage.mArgBufferSize m + payload_size a <= MAX_ARG_BUFFER_SIZE ->
  exists m',
    add a m = Ret (true, m') /\ wf m'
    /\ OSCMessage.mAddress m' = OSCMessage.mAddress m
    /\ OSCMessage.mAddressSize m' = OSCMessage.mAddressSize m
    /\ OSCMessage.mTypeTagCount m' = OSCMessage.mTypeTagCount m + 1
    /\ OSCMessage.mArgBufferSize m' = OSCMessage.mArgBufferSize m + payload_size a
    /\ tags_of m' = tags_of m ++ [tag a]
    /\ payload_of m' = payload_of m ++ wire a.
Proof. apply add_accepts. Qed.

Lemma append_accepted_appends_witness :
  exists m',
    OSCMessage.addBlob [Byte.x01; Byte.x02; Byte.x03] 3 OSCMessage.clear = Ret (true, m')
    /\ tags_of m' = [chr "b"]
    /\ payload_of m'
       = [Byte.x00; Byte.x00; Byte.x00; Byte.x03; Byte.x01; Byte.x02; Byte.x03; Byte.x00].
Proof.
  destruct (append_accepted_appends (Blob [Byte.x01; Byte.x02; Byte.x03] 3) OSCMessage.clear)
    as (m' & Hadd & _ & _ & _ & _ & _ & Ht & Hp).
  - apply wf_clear.
  - cbn [typed]. lia.
  - cbn [source_ok]. vm_compute. split; discriminate.
  - vm_compute. reflexivity.
  - vm_compute. discriminate.
  - exists m'. split; [exact Hadd|]. split; [exact Ht | exact Hp].
Defined.

(** X4. Every builder state reached from a cleared builder through
    [setAddress] and the append operations keeps its arrays and counters
    within bounds, an address length that is a multiple of 4, and at most
    63 tags.  On such a state [build] never writes past [maxSize]: it
    either returns 0 and leaves the output as it is (no address set, or the
    message does not fit in [maxSize]), or returns the size of the message,
    a multiple of 4 that is at least 8 and at most [maxSize], having written
    exactly the address, the comma and padded tags and the argument bytes;
    the output bytes after the message are left as they were. *)
Theorem built_state_builds (m : OSCMessage.t) (outBuffer : list byte) (maxSize : Z) :
  built m -> maxSize <= len outBuffer ->
  (wf m /\ OSCMessage.mAddressSize m mod 4 = 0
   /\ OSCMessage.mTypeTagCount m <= MAX_TYPE_TAG_SIZE - 1)
  /\ exists n out,
      OSCMessage.build m outBuffer maxSize = Ret (n, out)
      /\ len out = len outBuffer
      /\ skipn (Z.to_nat n) out = skipn (Z.to_nat n) outBuffer
      /\ if (maxSize <? total_size m) || (OSCMessage.mAddressSize m =? 0)
         then n = 0 /\ out = outBuffer
         else n = total_size m /\ 8 <= n <= maxSize /\ n mod 4 = 0
              /\ firstn (Z.to_nat n) out = serialized m.
Proof.
  intros Hb Hmax. destruct (built_inv m Hb) as (Hwf & Hal & Hc).
  split; [auto|].
  destruct ((maxSize <? total_size m) || (OSCMessage.mAddressSize m =? 0)) eqn:E.
  - exists 0, outBuffer.
    rewrite (build_refuses m outBuffer maxSize Hwf).
    + repeat split; reflexivity.
    + apply orb_true_iff in E. destruct E as [E|E];
        [left; apply Z.ltb_lt in E; exact E | right; apply Z.eqb_eq in E; exact E].
  - apply orb_false_iff in E. destruct E as [E1 E2].
    apply Z.ltb_ge in E1. apply Z.eqb_neq in E2.
    destruct (build_writes m outBuffer maxSize Hwf E2 Hal E1 Hmax) as [Hbuild Htot].
    fold (total_size m) in Hbuild, Htot. fold (serialized m) in Hbuild, Htot.
    destruct (total_size_aligned m Hwf Hal) as [H4 H8].
    exists (total_size m), (serialized m ++ skipn (Z.to_nat (total_size m)) outBuffer).
    split; [exact Hbuild|].
    pose proof (len_nonneg (serialized m)) as Hs0.
    split; [|split].
    + rewrite len_app. unfold len in *. rewrite length_skipn. lia.
    + rewrite skipn_len_app by exact Htot. reflexivity.
    + split; [reflexivity|]. split; [specialize (H8 E2); lia|]. split; [exact H4|].
      apply firstn_len_app. exact Htot.
Qed.

Lemma built_state_builds_witness :
  exists m n out,
    assemble (bytes_of "/led") [Int 1] = Ret (true, m)
    /\ OSCMessage.build m (repeat NUL 16) 16 = Ret (n, out)
    /\ n = 16 /\ firstn 16 out = serialized m.
Proof.
  pose (m1 := match OSCMessage.setAddress (bytes_of "/led") OSCMessage.clear with
              | Ret (_, x) => x
              | _ => OSCMessage.clear
              end).
  pose (m := match add (Int 1) m1 with Ret (_, x) => x | _ => OSCMessage.clear end).
  assert (H1 : OSCMessage.setAddress (bytes_of "/led") OSCMessage.clear = Ret (true, m1))
    by (vm_compute; reflexivity).
  assert (H2 : add (Int 1) m1 = Ret (true, m)) by (vm_compute; reflexivity).
  assert (Hb : built m).
  { eapply built_add; [| | |exact H2].
    - eapply built_setAddress; [apply built_clear | exact H1].
    - cbn [typed]. lia.
    - exact I. }
  destruct (built_state_builds m (repeat NUL 16) 16 Hb) as (_ & n & out & Hbuild & _ & _ & Hn).
  - vm_compute. discriminate.
  - assert (E : (16 <? total_size m) || (OSCMessage.mAddressSize m =? 0) = false)
      by (vm_compute; reflexivity).
    rewrite E in Hn. destruct Hn as (Hn & _ & _ & Hf).
    assert (Ht : total_size m = 16) by (vm_compute; reflexivity).
    rewrite Ht in Hn. subst n.
    exists m, 16, out. split.
    + unfold assemble. rewrite H1. cbn [bind add_all]. rewrite H2. reflexivity.
    + split; [exact Hbuild|]. split; [reflexivity | exact Hf].
Defined.

(** ** The builder: a negative blob size *)

Section NegativeBlob.
Import OSCMessage.

Lemma store_cases {A : Type} (arr : list A) (i : Z) (a : A) :
  (exists arr', store arr i a = Ret arr' /\ len arr' = len arr)
  \/ store arr i a = Fault.
Proof.
  unfold store. destruct ((0 <=? i) && (i <? len arr)) eqn:E; [left|right; reflexivity].
  apply andb_true_iff in E. destruct E as [E1 E2].
  apply Z.leb_le in E1. apply Z.ltb_lt in E2.
  eexists. split; [reflexivity|].
  unfold len in *. rewrite length_app, length_firstn. cbn [List.length].
  rewrite length_skipn. lia.
Qed.

Lemma memcpy_cases (dst : list byte) (off : Z) (src : list byte) (n : Z) :
  (exists dst', memcpy dst off src n = Ret dst' /\ len dst' = len dst
                /\ 0 <= off /\ 0 <= n /\ off + n <= len dst)
  \/ memcpy dst off src n = Fault.
Proof.
  unfold memcpy.
  destruct ((0 <=? off) && (0 <=? n) && (n <=? len src) && (off + n <=? len dst)) eqn:E;
    [left|right; reflexivity].
  repeat (apply andb_true_iff in E; destruct E as [E ?]).
  repeat match goal with H : (_ <=? _) = true |- _ => apply Z.leb_le in H end.
  eexists. split; [reflexivity|].
  split; [|lia].
  unfold len in *. rewrite !length_app, !length_firstn, length_skipn. lia.
Qed.

Lemma addBlob_negative (data : list byte) (size : Z) (m : t) :
  wf m -> - 2 ^ 31 <= size < 0 ->
  addBlob data size m
  = if canAddArg (size_t (4 + Z.land (size_t (size_t size + 3)) (Z.lnot 3))) m
    then Fault else Ret (false, m).
Proof.
  intros (Ha & Htg & Hbuf & Han & Hcn & Hsz & Hal) Hsize.
  unfold MAX_ADDRESS_SIZE, MAX_TYPE_TAG_SIZE, MAX_ARG_BUFFER_SIZE in *.
  unfold addBlob. cbv zeta.
  destruct (canAddArg _ m); cbn [negb]; [|reflexivity].
  unfold push_tag.
  destruct (store_cases (mTypeTags m) (mTypeTagCount m) (chr "b")) as [(tags & -> & _)| ->];
    [|reflexivity].
  cbn [bind]. unfold copy_arg at 1.
  cbn [mAddress mAddressSize mTypeTags mTypeTagCount mArgBuffer mArgBufferSize].
  match goal with
  | |- context [memcpy ?d ?o ?s ?n] =>
      destruct (memcpy_cases d o s n) as [(buf & -> & Hlen & _)| ->]; [|reflexivity]
  end.
  cbn [bind]. unfold copy_arg, advance_arg.
  cbn [mAddress mAddressSize mTypeTags mTypeTagCount mArgBuffer mArgBufferSize].
  match goal with
  | |- context [memcpy ?d ?o ?s ?n] =>
      destruct (memcpy_cases d o s n) as [(buf' & _ & _ & Ho & _ & Hfit)| ->];
      [|reflexivity]
  end.
  exfalso.
  assert (Hs : size_t size = size + 2 ^ 32).
  { unfold size_t. symmetry. apply (Z.mod_unique size (2 ^ 32) (-1)); lia. }
  rewrite Hs in Hfit. lia.
Qed.

End NegativeBlob.

(** X5. [addBlob] with a negative size never appends a blob: when the
    capacity check refuses it the call returns false and leaves the builder
    as it is, and when the check passes the call copies [size_t(size)]
    bytes, at least 2 GiB, which is past the end of the argument buffer.
    The check does pass on a builder with fewer than 63 tags for the sizes
    -7 to -4, where the padded length plus 4 wraps around to 0, and for the
    sizes -3 to -1 when 4 more argument bytes fit. *)
Theorem addBlob_negative_size (data : list byte) (size : Z) (m : OSCMessage.t) :
  wf m -> - 2 ^ 31 <= size < 0 ->
  (OSCMessage.addBlob data size m = Ret (false, m)
   \/ OSCMessage.addBlob data size m = Fault)
  /\ (OSCMessage.mTypeTagCount m < MAX_TYPE_TAG_SIZE - 1 ->
      - 7 <= size <= - 4
      \/ (- 3 <= size /\ OSCMessage.mArgBufferSize m + 4 <= MAX_ARG_BUFFER_SIZE) ->
      OSCMessage.addBlob data size m = Fault).
Proof.
  intros Hwf Hsize. rewrite (addBlob_negative data size m Hwf Hsize).
  split; [destruct (OSCMessage.canAddArg _ m); auto|].
  intros Hcount Hcase.
  destruct Hwf as (Ha & Htg & Hbuf & Han & Hcn & Hsz & Hal).
  unfold MAX_ADDRESS_SIZE, MAX_TYPE_TAG_SIZE, MAX_ARG_BUFFER_SIZE in *.
  assert (Hs : size_t size = size + 2 ^ 32).
  { unfold size_t. symmetry. apply (Z.mod_unique size (2 ^ 32) (-1)); lia. }
  rewrite Hs, land_lnot3.
  assert (Hb : size_t (4 + 4 * (size_t (size + 2 ^ 32 + 3) / 4)) = 0
               \/ (size_t (4 + 4 * (size_t (size + 2 ^ 32 + 3) / 4)) = 4
                   /\ OSCMessage.mArgBufferSize m + 4 <= 768)).
  { destruct Hcase as [H74|[H31 Hroom]].
    - left. rewrite (size_t_small (size + 2 ^ 32 + 3)) by lia.
      replace ((size + 2 ^ 32 + 3) / 4) with (2 ^ 30 - 1)
        by (apply (Z.div_unique _ 4 _ (size + 7)); lia).
      reflexivity.
    - right. split; [|exact Hroom].
      replace (size_t (size + 2 ^ 32 + 3)) with (size + 3)
        by (unfold size_t; apply (Z.mod_unique _ (2 ^ 32) 1); lia).
      replace ((size + 3) / 4) with 0 by (symmetry; apply Z.div_small; lia).
      reflexivity. }
  rewrite canAddArg_true; [reflexivity | unfold MAX_TYPE_TAG_SIZE; lia | lia | |];
    unfold MAX_ARG_BUFFER_SIZE; destruct Hb as [-> | [-> Hroom]]; lia.
Qed.

Lemma addBlob_negative_size_witness :
  OSCMessage.addBlob [Byte.x01] (-1) OSCMessage.clear = Fault
  /\ OSCMessage.addBlob [Byte.x01] (-4) OSCMessage.clear = Fault.
Proof.
  split.
  - apply (addBlob_negative_size [Byte.x01] (-1) OSCMessage.clear).
    + apply wf_clear.
    + lia.
    + vm_compute. reflexivity.
    + right. split; [lia|]. vm_compute. discriminate.
  - apply (addBlob_negative_size [Byte.x01] (-4) OSCMessage.clear).
    + apply wf_clear.
    + lia.
    + vm_compute. reflexivity.
    + left. lia.
Defined.

(** ** The view: accessors and [matchAddress] *)

Section Accessors.
Import OSCMessageView.

Lemma observe_slot (buffer : list byte) (slot : OSCArg) (a : argument) :
  observe buffer slot = Some a ->
  type slot = tag a
  /\ match a with
     | Int x => u slot = u_i x
     | Float x => u slot = u_f x
     | Str v => string_at buffer (s slot) = Some v
     | _ => True
     end.
Proof.
  unfold observe. cbv zeta. intros H.
  repeat match type of H with
         | (if Byte.eqb ?x ?y then _ else _) = _ =>
             let E := fresh "E" in
             destruct (Byte.eqb x y) eqn:E;
             [apply eqb_true_iff in E; rewrite E; clear E | clear E]
         end;
    try discriminate H;
    repeat match type of H with
           | match ?x with _ => _ end = _ => destruct x eqn:?; try discriminate H
           end;
    injection H as <-; cbn [tag]; auto.
Qed.

Lemma observed_slot (buffer : list byte) (v : t) (args : list argument)
      (index : Z) (a : argument) :
  observed buffer v = map Some args -> mArgCount v = len args ->
  0 <= index -> nth_error args (Z.to_nat index) = Some a ->
  exists slot, arg index v = Some slot /\ observe buffer slot = Some a.
Proof.
  intros Hobs Hcount Hi Ha. unfold observed in Hobs.
  assert (Hlt : (Z.to_nat index < List.length args)%nat)
    by (apply nth_error_Some; rewrite Ha; discriminate).
  assert (Hn : nth_error (map (observe buffer)
                              (firstn (Z.to_nat (mArgCount v)) (mArgs v)))
                         (Z.to_nat index) = Some (Some a)).
  { rewrite Hobs, nth_error_map, Ha. reflexivity. }
  rewrite nth_error_map in Hn.
  destruct (nth_error (firstn (Z.to_nat (mArgCount v)) (mArgs v)) (Z.to_nat index))
    as [slot|] eqn:E; [|discriminate Hn].
  injection Hn as Hn. exists slot. split; [|exact Hn].
  rewrite nth_error_firstn in E.
  destruct (Z.to_nat index <? Z.to_nat (mArgCount v))%nat eqn:El; [|discriminate E].
  unfold arg. unfold len in Hcount.
  replace ((0 <=? index) && (index <? mArgCount v)) with true; [exact E|].
  symmetry. apply andb_true_iff. split; [apply Z.leb_le | apply Z.ltb_lt]; lia.
Qed.

Lemma arg_beyond (v : t) (index : Z) : mArgCount v <= index -> arg index v = None.
Proof.
  intros H. unfold arg.
  replace (index <? mArgCount v) with false by (symmetry; apply Z.ltb_ge; exact H).
  rewrite andb_false_r. reflexivity.
Qed.

Lemma glob_refl (str : list byte) : glob str str.
Proof.
  induction str as [|c str IH]; [constructor|].
  destruct (Byte.eqb c (chr "*")) eqn:E.
  - apply eqb_true_iff in E. subst c.
    apply glob_star_some, glob_star_none. exact IH.
  - apply eqb_false_iff in E. apply glob_same; assumption.
Qed.

End Accessors.

(** X6. After a message built from an address and arguments has been
    parsed, the accessors read the arguments back: at the index of an
    argument, [getInt] returns the value of an int and the default for any
    other kind, [getFloat] the bits of a float and the default otherwise,
    [getString] a pointer to the characters of a string and the default
    otherwise, [getBool] true for T, false for F and the default otherwise;
    at an index that is not below the argument count all four return the
    default. *)
Theorem accessors_read_back
        (address : list byte) (args : list argument) (rest : list byte)
        (v0 : OSCMessageView.t) :
  hd NUL address = chr "/" ->
  Forall (fun c => c <> NUL) address ->
  Forall proper args ->
  len args < OSCMessageView.MAX_ARGS ->
  len (OSCMessageView.mArgs v0) = OSCMessageView.MAX_ARGS ->
  len (message address args) <= PTRDIFF_MAX ->
  let buffer := message address args ++ rest in
  exists v,
    OSCMessageView.parse buffer (len (message address args)) v0 = Ret (true, v)
    /\ (forall index a,
           0 <= index -> nth_error args (Z.to_nat index) = Some a ->
           (forall d, OSCMessageView.getInt index d v
                      = match a with Int x => x | _ => d end)
           /\ (forall d, OSCMessageView.getFloat index d v
                         = match a with Float x => x | _ => d end)
           /\ (forall d, match a with
                         | Str str =>
                             string_at buffer (OSCMessageView.getString index d v)
                             = Some str
                         | _ => OSCMessageView.getString index d v = d
                         end)
           /\ (forall d, OSCMessageView.getBool index d v
                         = match a with True_ => true | False_ => false | _ => d end))
    /\ (forall index,
           len args <= index ->
           (forall d, OSCMessageView.getInt index d v = d)
           /\ (forall d, OSCMessageView.getFloat index d v = d)
           /\ (forall d, OSCMessageView.getString index d v = d)
           /\ (forall d, OSCMessageView.getBool index d v = d)).
Proof.
  intros Hslash Hadr Hprop Hn Hv0 Hsize buffer.
  destruct (parse_message address args rest v0 Hslash Hadr Hprop Hn Hv0 Hsize)
    as (v & Hparse & _ & _ & Hcount & Hobs).
  fold buffer in Hparse, Hobs. exists v. split; [exact Hparse|]. split.
  - intros index a Hi Ha.
    destruct (observed_slot buffer v args index a Hobs Hcount Hi Ha)
      as (slot & Hslot & Hslot').
    destruct (observe_slot buffer slot a Hslot') as [Htype Hdata].
    unfold OSCMessageView.getInt, OSCMessageView.getFloat, OSCMessageView.getString,
      OSCMessageView.getBool.
    rewrite Hslot, Htype.
    destruct a; cbn [tag]; repeat split; intros d;
      try reflexivity; try (rewrite Hdata; reflexivity).
    change (Byte.eqb (chr "s") (chr "s") || Byte.eqb (chr "s") (chr "S")) with true.
    cbn [andb].
    destruct (OSCMessageView.s slot); [discriminate Hdata | | ]; exact Hdata.
  - intros index Hi. rewrite <- Hcount in Hi.
    pose proof (arg_beyond v index Hi) as Hnone.
    unfold OSCMessageView.getInt, OSCMessageView.getFloat, OSCMessageView.getString,
      OSCMessageView.getBool.
    rewrite Hnone. auto.
Qed.

Lemma accessors_read_back_witness :
  let buffer := message (bytes_of "/led") [Int 7; Str (bytes_of "on"); True_] in
  exists v,
    OSCMessageView.parse buffer (len buffer) OSCMessageView.fresh = Ret (true, v)
    /\ OSCMessageView.getInt 0 0 v = 7
    /\ OSCMessageView.getInt 1 (-1) v = -1
    /\ string_at buffer (OSCMessageView.getString 1 OSCMessageView.empty_literal v)
       = Some (bytes_of "on")
    /\ OSCMessageView.getBool 2 false v = true
    /\ OSCMessageView.getInt 3 5 v = 5.
Proof.
  cbv zeta.
  destruct (accessors_read_back (bytes_of "/led") [Int 7; Str (bytes_of "on"); True_] []
              OSCMessageView.fresh)
    as (v & Hparse & Hget & Hout).
  - reflexivity.
  - concrete_string.
  - repeat (apply Forall_cons;
            [split; [cbn [typed]; first [exact I | lia | (vm_compute; reflexivity)]
                    | first [exact I | reflexivity | concrete_string]] |]).
    apply Forall_nil.
  - vm_compute. reflexivity.
  - reflexivity.
  - vm_compute. discriminate.
  - rewrite app_nil_r in *. exists v. split; [exact Hparse|].
    destruct (Hget 0 (Int 7) ltac:(lia) eq_refl) as (G0 & _).
    destruct (Hget 1 (Str (bytes_of "on")) ltac:(lia) eq_refl) as (G1 & _ & G1s & _).
    destruct (Hget 2 True_ ltac:(lia) eq_refl) as (_ & _ & _ & G2).
    destruct (Hout 3 ltac:(vm_compute; discriminate)) as (G3 & _).
    split; [apply G0|]. split; [apply G1|]. split; [apply G1s|].
    split; [apply G2 | apply G3].
Defined.

(** X7. On a view that [parse] has returned true for, [matchAddress] with a
    pattern is true exactly when the pattern matches the whole address at
    the start of the buffer as a glob; the address itself, taken as a
    pattern, always matches; and a null pattern never matches. *)
Theorem matchAddress_parsed
        (buffer : list byte) (size : Z) (v0 v : OSCMessageView.t) :
  OSCMessageView.parse buffer size v0 = Ret (true, v) ->
  string_at buffer (OSCMessageView.address v) = Some (chars buffer)
  /\ (forall pattern,
         OSCMessageView.matchAddress buffer (Some pattern) v = true
         <-> glob (chars pattern) (chars buffer))
  /\ OSCMessageView.matchAddress buffer (Some (chars buffer)) v = true
  /\ OSCMessageView.matchAddress buffer None v = false.
Proof.
  intros H. apply parse_cases in H.
  assert (Ha : OSCMessageView.mAddress v = OSCMessageView.at_offset 0).
  { destruct H as [(_ & Hok & _) | (_ & _ & H)]; [discriminate Hok|].
    destruct H as [(Hok & _) | [(_ & ->) | (q & _ & _ & [(Hok & _) | (pos & H)])]];
      try discriminate Hok; try reflexivity.
    apply parse_args_keeps in H. apply H. }
  unfold OSCMessageView.address, OSCMessageView.matchAddress. rewrite Ha.
  change (skipn (Z.to_nat 0) buffer) with buffer.
  split; [reflexivity|]. split; [intros pattern; apply matchPattern_glob|].
  split; [|reflexivity].
  apply matchPattern_glob. rewrite (chars_id (chars buffer)) by apply chars_nul_free.
  apply glob_refl.
Qed.

Lemma matchAddress_parsed_witness :
  let buffer := message (bytes_of "/synth/freq") [Int 7] in
  exists v,
    OSCMessageView.parse buffer (len buffer) OSCMessageView.fresh = Ret (true, v)
    /\ OSCMessageView.matchAddress buffer (Some (bytes_of "/synth/*")) v = true
    /\ OSCMessageView.matchAddress buffer (Some (bytes_of "/synth")) v = false.
Proof.
  cbv zeta.
  assert (H : exists v, OSCMessageView.parse (message (bytes_of "/synth/freq") [Int 7])
                          (len (message (bytes_of "/synth/freq") [Int 7]))
                          OSCMessageView.fresh = Ret (true, v))
    by (eexists; vm_compute; reflexivity).
  destruct H as (v & Hp). exists v. split; [exact Hp|].
  destruct (matchAddress_parsed _ _ _ _ Hp) as (_ & Hm & _ & _).
  split.
  - apply Hm. apply matchPattern_glob. vm_compute. reflexivity.
  - destruct (OSCMessageView.matchAddress _ (Some (bytes_of "/synth")) v) eqn:E;
      [|reflexivity].
    apply Hm, matchPattern_glob in E. vm_compute in E. discriminate E.
Defined.

(** ** The view: what a parse leaves of an earlier one *)

Section Reuse.
Import OSCMessageView.
Variables (buffer : list byte) (size : Z).

Lemma decode_reuse (c : byte) (pos : Z) (u1 u2 : payload) (n1 n2 : Z)
      (ok : bool) (pos' : Z) (a1' : OSCArg) :
  decode c buffer size pos (mkArg c u1 nullptr nullptr n1) = Ret (ok, pos', a1') ->
  exists a2',
    decode c buffer size pos (mkArg c u2 nullptr nullptr n2) = Ret (ok, pos', a2')
    /\ (ok = true -> same_slot a1' a2').
Proof.
  unfold decode. cbv zeta. unfold set_u.
  cbn [type u s blobData blobSize].
  intros H.
  repeat match type of H with
         | (if ?b then _ else _) = _ =>
             let E := fresh "E" in destruct b eqn:E
         end;
    repeat match type of H with
           | bind ?x _ = _ =>
               let E := fresh "E" in
               destruct x eqn:E; cbn [bind] in H |- *; try discriminate H
           end;
    repeat match type of H with
           | (if ?b then _ else _) = _ =>
               let E := fresh "E" in destruct b eqn:E
           end;
    injection H as <- <- <-; eexists; (split; [reflexivity|]);
    intros Hok; try discriminate Hok;
    unfold same_slot; cbn [type u s blobData blobSize];
    repeat match goal with
           | E : Byte.eqb c _ = true |- _ => apply eqb_true_iff in E; subst c
           | E : _ || _ = true |- _ => apply orb_true_iff in E; destruct E as [E|E]
           end;
    repeat split; try reflexivity; intros Hx;
    first
      [ vm_compute in Hx; discriminate Hx
      | subst;
        repeat match goal with
               | E : _ || _ = false |- _ => apply orb_false_iff in E; destruct E
               end;
        repeat match goal with
               | E : Byte.eqb _ _ = false |- _ =>
                   vm_compute in E; first [discriminate E | clear E]
               end; fail
      | unfold writes_union in Hx;
        let l := eval vm_compute in (bytes_of "ifhdtmcr") in
        change (bytes_of "ifhdtmcr") with l in Hx;
        cbn [existsb] in Hx;
        repeat match goal with
               | E : _ || _ = false |- _ => apply orb_false_iff in E; destruct E
               end;
        repeat match goal with
               | E : Byte.eqb ?x ?k = false |- _ =>
                   let k' := eval vm_compute in k in
                   change (Byte.eqb x k' = false) in E; rewrite E in Hx; clear E
               end;
        discriminate Hx ].
Qed.

Lemma load_ret {A : Type} (arr : list A) (i : Z) (a : A) :
  load arr i = Ret a -> 0 <= i < len arr.
Proof.
  unfold load. destruct (i <? 0) eqn:E; [discriminate|].
  apply Z.ltb_ge in E.
  destruct (nth_error arr (Z.to_nat i)) eqn:En; [|discriminate].
  intros _. assert (Z.to_nat i < List.length arr)%nat
    by (apply nth_error_Some; rewrite En; discriminate).
  unfold len. lia.
Qed.

Lemma store_ret {A : Type} (arr arr' : list A) (i : Z) (a : A) :
  store arr i a = Ret arr' ->
  arr' = firstn (Z.to_nat i) arr ++ a :: skipn (S (Z.to_nat i)) arr.
Proof.
  unfold store. destruct ((0 <=? i) && (i <? len arr)); [|discriminate].
  intros H. injection H as <-. reflexivity.
Qed.

Lemma store_in_range {A : Type} (arr : list A) (i : Z) (a : A) :
  0 <= i < len arr ->
  store arr i a = Ret (firstn (Z.to_nat i) arr ++ a :: skipn (S (Z.to_nat i)) arr).
Proof.
  intros H. unfold store.
  replace ((0 <=? i) && (i <? len arr)) with true; [reflexivity|].
  symmetry. apply andb_true_iff. split; [apply Z.leb_le | apply Z.ltb_lt]; lia.
Qed.

Lemma load_in_range {A : Type} (arr : list A) (i : Z) :
  0 <= i < len arr -> exists a, load arr i = Ret a.
Proof.
  intros H. unfold load.
  replace (i <? 0) with false by (symmetry; apply Z.ltb_ge; lia).
  destruct (nth_error arr (Z.to_nat i)) eqn:E; [eauto|].
  apply nth_error_None in E. unfold len in H. lia.
Qed.

Lemma len_stored {A : Type} (arr : list A) (i : Z) (a : A) :
  0 <= i < len arr ->
  len (firstn (Z.to_nat i) arr ++ a :: skipn (S (Z.to_nat i)) arr) = len arr.
Proof.
  intros H. unfold len in *. rewrite length_app, length_firstn. cbn [List.length].
  rewrite length_skipn. lia.
Qed.

Lemma parse_args_reuse (fuel : nat) :
  forall (types pos : Z) (v1 v2 v1' : t) (ok : bool),
    parse_args fuel buffer size types pos v1 = Ret (ok, v1') ->
    mAddress v1 = mAddress v2 -> mTypeTags v1 = mTypeTags v2 ->
    mArgCount v1 = mArgCount v2 ->
    len (mArgs v1) = MAX_ARGS -> len (mArgs v2) = MAX_ARGS ->
    Forall2 same_slot (used_slots v1) (used_slots v2) ->
    exists v2',
      parse_args fuel buffer size types pos v2 = Ret (ok, v2')
      /\ mAddress v1' = mAddress v2' /\ mTypeTags v1' = mTypeTags v2'
      /\ mArgCount v1' = mArgCount v2'
      /\ Forall2 same_slot (used_slots v1') (used_slots v2').
Proof.
  unfold used_slots, MAX_ARGS.
  induction fuel as [|fuel IH];
    intros types pos v1 v2 v1' ok H Ha Ht Hc Hl1 Hl2 Hs;
    cbn [parse_args] in H |- *; unfold MAX_ARGS in *;
    apply bind_ret in H; destruct H as (c & Hload & H); rewrite Hload; cbn [bind];
    rewrite <- Hc;
    destruct (negb (is_nul c) && (mArgCount v1 <? 64)) eqn:E;
    try discriminate H;
    try (injection H as <- <-; exists v2; repeat split; assumption).
  apply andb_true_iff in E. destruct E as [_ E]. apply Z.ltb_lt in E.
  apply bind_ret in H. destruct H as (old1 & Hold1 & H). cbv zeta in H.
  pose proof (load_ret _ _ _ Hold1) as Hrange.
  destruct (load_in_range (mArgs v2) (mArgCount v1) ltac:(lia)) as (old2 & Hold2).
  rewrite Hold2. cbn [bind]. cbv zeta.
  apply bind_ret in H. destruct H as ([[ok' pos'] a1'] & Hdec & H).
  destruct (decode_reuse c pos (u old1) (u old2) (blobSize old1) (blobSize old2)
              ok' pos' a1' Hdec) as (a2' & Hdec2 & Hsame).
  rewrite Hdec2. cbn [bind].
  apply bind_ret in H. destruct H as (args1 & Hst1 & H).
  apply store_ret in Hst1. subst args1.
  rewrite (store_in_range (mArgs v2) (mArgCount v1) a2') by lia.
  cbn [bind]. cbn [mAddress mTypeTags mArgs mArgCount] in H |- *.
  assert (Hf1 : len (firstn (Z.to_nat (mArgCount v1)) (mArgs v1)) = mArgCount v1)
    by (apply len_firstn; lia).
  assert (Hf2 : len (firstn (Z.to_nat (mArgCount v1)) (mArgs v2)) = mArgCount v1)
    by (apply len_firstn; lia).
  rewrite <- Hc in Hs.
  destruct ok'; cbn [negb] in H |- *.
  - rewrite (size_t_small (mArgCount v1 + 1)) in H |- * by lia.
    apply (IH _ _ _ _ _ _ H); cbn [mAddress mTypeTags mArgs mArgCount];
      try assumption; try reflexivity; try (rewrite len_stored; lia).
    rewrite !firstn_snoc by (symmetry; assumption).
    apply Forall2_app; [exact Hs|]. constructor; [apply Hsame; reflexivity|constructor].
  - injection H as <- <-. eexists. split; [reflexivity|].
    cbn [mAddress mTypeTags mArgs mArgCount].
    rewrite !firstn_len_app by (symmetry; assumption). auto.
Qed.

End Reuse.

(** X8. [parse] does not depend on what the view held before: run on the
    same buffer with two views, it returns the same result, the same
    address and type-tag pointers and the same argument count, and, whether
    it returns true or false, the slots in use agree on what the argument
    loop writes for their tag (the type, the string and blob pointers, the
    blob size for [b], the union for the tags with a value). *)
Theorem parse_ignores_previous_view
        (buffer : list byte) (size : Z) (v1 v2 v1' : OSCMessageView.t) (ok : bool) :
  len (OSCMessageView.mArgs v1) = OSCMessageView.MAX_ARGS ->
  len (OSCMessageView.mArgs v2) = OSCMessageView.MAX_ARGS ->
  OSCMessageView.parse buffer size v1 = Ret (ok, v1') ->
  exists v2',
    OSCMessageView.parse buffer size v2 = Ret (ok, v2')
    /\ OSCMessageView.address v1' = OSCMessageView.address v2'
    /\ OSCMessageView.typeTags v1' = OSCMessageView.typeTags v2'
    /\ OSCMessageView.argCount v1' = OSCMessageView.argCount v2'
    /\ Forall2 same_slot (used_slots v1') (used_slots v2').
Proof.
  intros Hl1 Hl2 H.
  unfold OSCMessageView.parse in *. cbv zeta in *. unfold OSCMessageView.clear in *.
  cbn [OSCMessageView.mAddress OSCMessageView.mTypeTags OSCMessageView.mArgs
       OSCMessageView.mArgCount] in *.
  unfold OSCMessageView.address, OSCMessageView.typeTags, OSCMessageView.argCount.
  assert (Hdone : forall a b,
             used_slots (OSCMessageView.mk a b (OSCMessageView.mArgs v1) 0) = []
             /\ used_slots (OSCMessageView.mk a b (OSCMessageView.mArgs v2) 0) = [])
    by (intros; split; reflexivity).
  apply bind_ret in H. destruct H as (bad & Hbad & H). rewrite Hbad. cbn [bind].
  destruct bad.
  { injection H as <- <-. eexists. split; [reflexivity|].
    repeat split. constructor. }
  apply bind_ret in H. destruct H as (p & Hp & H). rewrite Hp. cbn [bind].
  destruct (p >=? size).
  { injection H as <- <-. eexists. split; [reflexivity|].
    repeat split. constructor. }
  apply bind_ret in H. destruct H as (noTags & HnoTags & H). rewrite HnoTags. cbn [bind].
  destruct noTags.
  { injection H as <- <-. eexists. split; [reflexivity|].
    repeat split. constructor. }
  apply bind_ret in H. destruct H as (tend & Htend & H). rewrite Htend. cbn [bind].
  destruct (tend >=? size).
  { injection H as <- <-. eexists. split; [reflexivity|].
    repeat split. constructor. }
  destruct (parse_args_reuse buffer size _ _ _ _
              (OSCMessageView.mk (OSCMessageView.at_offset 0)
                 (OSCMessageView.at_offset
                    (align4 (size_t (p + 1)) + 1))
                 (OSCMessageView.mArgs v2) 0) _ _ H)
    as (v2' & Hrun & Ha & Ht & Hc & Hs);
    try reflexivity; try assumption; [constructor|].
  exists v2'. split; [exact Hrun|]. auto.
Qed.

Lemma parse_ignores_previous_view_witness :
  let buffer := bytes_of "/a" ++ [NUL; NUL] ++ bytes_of ",si" ++ [NUL]
                ++ bytes_of "hey" ++ [NUL] ++ [NUL; NUL; NUL; Byte.x07] in
  let stale := OSCMessageView.mk OSCMessageView.nullptr OSCMessageView.nullptr
                 (repeat (OSCMessageView.mkArg (chr "b") (OSCMessageView.u_i 99)
                            OSCMessageView.nullptr (OSCMessageView.at_offset 4) 12) 64)
                 9 in
  exists v',
    OSCMessageView.parse buffer 16 stale = Ret (true, v')
    /\ OSCMessageView.argCount v' = 2
    /\ observed buffer v' = [Some (Str (bytes_of "hey")); Some (Int 7)].
Proof.
  cbv zeta.
  assert (H : exists v1',
             OSCMessageView.parse
               (bytes_of "/a" ++ [NUL; NUL] ++ bytes_of ",si" ++ [NUL]
                ++ bytes_of "hey" ++ [NUL] ++ [NUL; NUL; NUL; Byte.x07])
               16 OSCMessageView.fresh = Ret (true, v1')
             /\ OSCMessageView.argCount v1' = 2)
    by (eexists; split; vm_compute; reflexivity).
  destruct H as (v1' & Hp & Hc).
  destruct (parse_ignores_previous_view _ 16 OSCMessageView.fresh
              (OSCMessageView.mk OSCMessageView.nullptr OSCMessageView.nullptr
                 (repeat (OSCMessageView.mkArg (chr "b") (OSCMessageView.u_i 99)
                            OSCMessageView.nullptr (OSCMessageView.at_offset 4) 12) 64)
                 9)
              v1' true eq_refl eq_refl Hp)
    as (v2' & Hp2 & _ & _ & Hc2 & _).
  exists v2'. split; [exact Hp2|]. split; [rewrite <- Hc2; exact Hc|].
  vm_compute in Hp2. injection Hp2 as <-. vm_compute. reflexivity.
Defined.



(** ** The bundle builder: states reached through its interface *)

Section BundleStates.
Import OSCBundle.

Lemma setTimetag_shape (tt : OSCTimetag) (h s rest : list byte) (n : Z) :
  len h = 8 -> len s = 8 ->
  setTimetag tt (mk (h ++ s ++ rest) n)
  = Ret (mk (h ++ (big_endian 4 (seconds tt) ++ big_endian 4 (fractions tt)) ++ rest) n).
Proof.
  intros Hh Hs. unfold setTimetag. cbn [mBuffer mBufferSize]. rewrite !built_uint32.
  destruct (cut_front s 4 ltac:(lia)) as (s1 & s2 & -> & Hs1 & _ & _).
  rewrite len_app in Hs. rewrite <- !app_assoc.
  rewrite (memcpy_app h s1 (s2 ++ rest) _ 8 4);
    [| symmetry; exact Hh | lia | rewrite len_big_endian; lia].
  rewrite firstn_len_exact by (rewrite len_big_endian; reflexivity).
  cbn [bind].
  replace (h ++ big_endian 4 (seconds tt) ++ s2 ++ rest)
    with ((h ++ big_endian 4 (seconds tt)) ++ s2 ++ rest)
    by (rewrite <- app_assoc; reflexivity).
  rewrite (memcpy_app _ s2 rest _ 12 4);
    [| rewrite len_app, len_big_endian, Hh; reflexivity | lia
     | rewrite len_big_endian; lia].
  rewrite firstn_len_exact by (rewrite len_big_endian; reflexivity).
  cbn [bind]. rewrite <- !app_assoc. reflexivity.
Qed.

Lemma addMessage_refused (m : OSCMessage.t) (b : t) :
  wf m -> OSCMessage.mAddressSize m mod 4 = 0 ->
  0 <= mBufferSize b <= MAX_BUNDLE_SIZE ->
  refused m b = true -> addMessage m b = Ret (false, b).
Proof.
  intros Hwf Hal Hsize Href. unfold refused in Href.
  unfold MAX_MESSAGE_SIZE, MAX_BUNDLE_SIZE in *.
  assert (Hscratch : len (repeat NUL (Z.to_nat 1024)) = 1024)
    by (rewrite len_repeat; reflexivity).
  unfold addMessage. unfold MAX_MESSAGE_SIZE. rewrite Hscratch.
  destruct ((OSCMessage.mAddressSize m =? 0) || (1024 <? total_size m)) eqn:E.
  - rewrite (build_refuses m _ 1024 Hwf); [reflexivity|].
    apply orb_true_iff in E. destruct E as [E|E];
      [right; apply Z.eqb_eq in E; exact E | left; apply Z.ltb_lt in E; exact E].
  - cbn [orb] in Href. apply Z.ltb_lt in Href.
    apply orb_false_iff in E. destruct E as [E1 E2].
    apply Z.eqb_neq in E1. apply Z.ltb_ge in E2.
    destruct (build_writes m (repeat NUL (Z.to_nat 1024)) 1024 Hwf E1 Hal E2 ltac:(lia))
      as [Hbuild _].
    fold (total_size m) in Hbuild. rewrite Hbuild. cbn [bind].
    destruct (total_size_aligned m Hwf Hal) as [_ H8]. specialize (H8 E1).
    replace (total_size m =? 0) with false by (symmetry; apply Z.eqb_neq; lia).
    rewrite (size_t_small (mBufferSize b + 4)) by lia.
    rewrite size_t_small by lia.
    rewrite gtb_true by (unfold MAX_BUNDLE_SIZE; lia). reflexivity.
Qed.

Lemma addMessage_shape (m : OSCMessage.t) (used gap free : list byte) :
  wf m -> OSCMessage.mAddressSize m mod 4 = 0 ->
  OSCMessage.mAddressSize m <> 0 -> total_size m <= MAX_MESSAGE_SIZE ->
  len gap = 4 + total_size m ->
  len used + 4 + total_size m <= MAX_BUNDLE_SIZE ->
  addMessage m (mk (used ++ gap ++ free) (len used))
  = Ret (true, mk (used ++ (big_endian 4 (total_size m) ++ serialized m) ++ free)
                  (len used + 4 + total_size m)).
Proof.
  intros Hwf Hal Hn0 Hfit Hgap Hroom.
  unfold MAX_MESSAGE_SIZE, MAX_BUNDLE_SIZE in *.
  pose proof (len_nonneg used) as Hu.
  destruct (total_size_aligned m Hwf Hal) as [_ H8]. specialize (H8 Hn0).
  assert (Hscratch : len (repeat NUL (Z.to_nat 1024)) = 1024)
    by (rewrite len_repeat; reflexivity).
  unfold addMessage. unfold MAX_MESSAGE_SIZE. rewrite Hscratch.
  destruct (build_writes m (repeat NUL (Z.to_nat 1024)) 1024 Hwf Hn0 Hal Hfit ltac:(lia))
    as [Hbuild Htot].
  fold (total_size m) in Hbuild, Htot. fold (serialized m) in Hbuild, Htot.
  rewrite Hbuild. cbn [bind mBuffer mBufferSize].
  replace (total_size m =? 0) with false by (symmetry; apply Z.eqb_neq; lia).
  rewrite (size_t_small (len used + 4)) by lia.
  rewrite (size_t_small (len used + 4 + total_size m)) by lia.
  rewrite gtb_false by (unfold MAX_BUNDLE_SIZE; lia).
  rewrite built_int32, (int32_t_small (total_size m)) by lia.
  destruct (cut_front gap 4 ltac:(lia)) as (f1 & f2 & -> & Hf1 & _ & _).
  rewrite len_app in Hgap. rewrite <- !app_assoc.
  rewrite (memcpy_app used f1 (f2 ++ free) _ (len used) 4);
    [| reflexivity | lia | rewrite len_big_endian; lia].
  rewrite (firstn_len_exact (big_endian 4 (total_size m)) 4)
    by (rewrite len_big_endian; reflexivity).
  cbn [bind].
  replace (used ++ big_endian 4 (total_size m) ++ f2 ++ free)
    with ((used ++ big_endian 4 (total_size m)) ++ f2 ++ free)
    by (rewrite <- app_assoc; reflexivity).
  rewrite (memcpy_app (used ++ big_endian 4 (total_size m)) f2 free _ _ (total_size m));
    [| rewrite len_app, len_big_endian; reflexivity | lia
     | rewrite len_app;
       match goal with |- _ <= _ + len ?x => pose proof (len_nonneg x) end; lia].
  rewrite (firstn_len_app (serialized m) _ (total_size m)) by exact Htot.
  cbn [bind]. rewrite <- !app_assoc. reflexivity.
Qed.

Lemma refused_false (m : OSCMessage.t) (b : t) :
  refused m b = false ->
  OSCMessage.mAddressSize m <> 0 /\ total_size m <= MAX_MESSAGE_SIZE
  /\ mBufferSize b + 4 + total_size m <= MAX_BUNDLE_SIZE.
Proof.
  unfold refused. intros H.
  apply orb_false_iff in H. destruct H as [H H3].
  apply orb_false_iff in H. destruct H as [H1 H2].
  apply Z.eqb_neq in H1. apply Z.ltb_ge in H2. apply Z.ltb_ge in H3. auto.
Qed.

(** What [addMessage] does to a bundle state, for a builder state within
    its bounds. *)
Lemma addMessage_effect (m : OSCMessage.t) (b : t) :
  wf m -> OSCMessage.mAddressSize m mod 4 = 0 -> bundle_ok b ->
  exists b',
    addMessage m b = Ret (negb (refused m b), b')
    /\ bundle_ok b'
    /\ firstn (Z.to_nat (mBufferSize b)) (mBuffer b')
       = firstn (Z.to_nat (mBufferSize b)) (mBuffer b)
    /\ if refused m b then b' = b
       else mBufferSize b' = mBufferSize b + 4 + total_size m
            /\ firstn (Z.to_nat (4 + total_size m))
                      (skipn (Z.to_nat (mBufferSize b)) (mBuffer b'))
               = big_endian 4 (total_size m) ++ serialized m.
Proof.
  intros Hwf Hal (Hlen & Hsize & H4 & Hhdr).
  destruct (refused m b) eqn:E; cbn [negb].
  - exists b. rewrite (addMessage_refused m b Hwf Hal ltac:(lia) E).
    split; [reflexivity|]. split; [unfold bundle_ok; auto|]. split; reflexivity.
  - destruct (refused_false m b E) as (Hn0 & Hfit & Hroom).
    unfold MAX_MESSAGE_SIZE, MAX_BUNDLE_SIZE in *.
    destruct (total_size_aligned m Hwf Hal) as [Ht4 H8]. specialize (H8 Hn0).
    pose proof (total_size_serialized m Hwf) as Hser.
    destruct b as [buf n]. cbn [mBuffer mBufferSize] in *.
    destruct (cut3 buf n (4 + total_size m) ltac:(lia) ltac:(lia) ltac:(lia))
      as (used & gap & free & -> & Hused & Hgap & _).
    subst n.
    rewrite (addMessage_shape m used gap free Hwf Hal Hn0) by
      (unfold MAX_MESSAGE_SIZE, MAX_BUNDLE_SIZE; lia).
    eexists. split; [reflexivity|]. cbn [mBuffer mBufferSize].
    split; [|split; [|split; [reflexivity|]]].
    + unfold bundle_ok, MAX_BUNDLE_SIZE. cbn [mBuffer mBufferSize].
      split; [|split; [lia|split]].
      * rewrite <- Hlen, !len_app, len_big_endian, Hgap, <- Hser. lia.
      * rewrite Z.add_mod, (Z.add_mod (len used)), H4, Ht4 by lia. reflexivity.
      * rewrite <- Hhdr.
        destruct (cut_front used 8 ltac:(lia)) as (h & body & -> & Hh & _ & _).
        rewrite <- !app_assoc.
        change 8%nat with (Z.to_nat 8).
        rewrite !firstn_len_app by (symmetry; exact Hh). reflexivity.
    + rewrite !firstn_len_app by reflexivity. reflexivity.
    + rewrite skipn_len_app by reflexivity.
      rewrite firstn_len_app; [reflexivity|].
      rewrite len_app, len_big_endian, <- Hser. reflexivity.
Qed.

Lemma setTimetag_effect (tt : OSCTimetag) (b : t) :
  bundle_ok b ->
  exists b',
    setTimetag tt b = Ret b' /\ bundle_ok b'
    /\ mBufferSize b' = mBufferSize b
    /\ firstn 8 (skipn 8 (mBuffer b'))
       = big_endian 4 (seconds tt) ++ big_endian 4 (fractions tt)
    /\ skipn 16 (mBuffer b') = skipn 16 (mBuffer b).
Proof.
  intros (Hlen & Hsize & H4 & Hhdr). unfold MAX_BUNDLE_SIZE in *.
  destruct b as [buf n]. cbn [mBuffer mBufferSize] in *.
  destruct (cut3 buf 8 8 ltac:(lia) ltac:(lia) ltac:(lia))
    as (h & s & rest & -> & Hh & Hs & _).
  rewrite (setTimetag_shape tt h s rest n Hh Hs).
  eexists. split; [reflexivity|]. cbn [mBuffer mBufferSize].
  assert (Hst : len (big_endian 4 (seconds tt) ++ big_endian 4 (fractions tt)) = 8)
    by (rewrite len_app, !len_big_endian; reflexivity).
  split; [|split; [reflexivity|split]].
  - unfold bundle_ok, MAX_BUNDLE_SIZE. cbn [mBuffer mBufferSize].
    split; [|split; [lia|split; [exact H4|]]].
    + rewrite <- Hlen, !len_app, !len_big_endian. lia.
    + rewrite <- Hhdr. change 8%nat with (Z.to_nat 8).
      rewrite !firstn_len_app by (symmetry; exact Hh). reflexivity.
  - change 8%nat with (Z.to_nat 8).
    rewrite skipn_len_app by (symmetry; exact Hh).
    apply firstn_len_app. symmetry. exact Hst.
  - change 16%nat with (Z.to_nat 16).
    rewrite !app_assoc.
    rewrite !skipn_len_app; [reflexivity | |]; rewrite ?len_app, ?len_big_endian; lia.
Qed.

Lemma bundled_inv (b : t) : bundled b -> bundle_ok b.
Proof.
  induction 1 as [b Hclear | tt b b' _ IH Hset | m b ok b' _ IH Hm Hadd].
  - vm_compute in Hclear. injection Hclear as <-.
    unfold bundle_ok. repeat split; vm_compute; congruence.
  - destruct (setTimetag_effect tt b IH) as (b2 & Hset' & Hok & _).
    rewrite Hset in Hset'. injection Hset' as ->. exact Hok.
  - destruct (built_inv m Hm) as (Hwf & Hal & _).
    destruct (addMessage_effect m b Hwf Hal IH) as (b2 & Hadd' & Hok & _).
    rewrite Hadd in Hadd'. injection Hadd' as _ ->. exact Hok.
Qed.

End BundleStates.

(** X10. Every bundle state reached from a cleared bundle through
    [setTimetag] and [addMessage] keeps its size between 16 and 4096 and a
    multiple of 4, and the bundle magic in its first 8 bytes.  On such a
    state [addMessage] with a builder state reached through the builder's
    interface returns false and leaves the bundle as it is when the message
    has no address, is larger than 1024 bytes or does not fit with its size
    prefix in what is left of the 4096 bytes; otherwise it returns true and
    appends the 4-byte big-endian size and the serialized message.  The
    bytes already in the bundle are never changed. *)
Theorem bundled_state_appends (m : OSCMessage.t) (b : OSCBundle.t) :
  bundled b -> built m ->
  bundle_ok b
  /\ exists b',
      OSCBundle.addMessage m b = Ret (negb (refused m b), b')
      /\ bundle_ok b'
      /\ firstn (Z.to_nat (OSCBundle.mBufferSize b)) (OSCBundle.mBuffer b')
         = firstn (Z.to_nat (OSCBundle.mBufferSize b)) (OSCBundle.mBuffer b)
      /\ if refused m b then b' = b
         else OSCBundle.mBufferSize b' = OSCBundle.mBufferSize b + 4 + total_size m
              /\ firstn (Z.to_nat (4 + total_size m))
                        (skipn (Z.to_nat (OSCBundle.mBufferSize b)) (OSCBundle.mBuffer b'))
                 = big_endian 4 (total_size m) ++ serialized m.
Proof.
  intros Hb Hm. pose proof (bundled_inv b Hb) as Hok.
  destruct (built_inv m Hm) as (Hwf & Hal & _).
  split; [exact Hok|]. apply addMessage_effect; assumption.
Qed.

Lemma bundled_state_appends_witness :
  exists b0 m b',
    OSCBundle.clear = Ret b0
    /\ assemble (bytes_of "/led") [Int 1] = Ret (true, m)
    /\ OSCBundle.addMessage m b0 = Ret (true, b')
    /\ OSCBundle.mBufferSize b' = 36
    /\ firstn 20 (skipn 16 (OSCBundle.mBuffer b')) = big_endian 4 16 ++ serialized m.
Proof.
  pose (m := match assemble (bytes_of "/led") [Int 1] with
             | Ret (_, x) => x
             | _ => OSCMessage.clear
             end).
  pose (b0 := match OSCBundle.clear with Ret x => x | _ => OSCBundle.mk [] 0 end).
  assert (Hm : assemble (bytes_of "/led") [Int 1] = Ret (true, m))
    by (vm_compute; reflexivity).
  assert (Hb : built m).
  { apply (assemble_built (bytes_of "/led") [Int 1] true m); [| |exact Hm].
    - apply Forall_cons; [cbn [typed]; lia | apply Forall_nil].
    - apply Forall_cons; [exact I | apply Forall_nil]. }
  assert (H0 : OSCBundle.clear = Ret b0) by reflexivity.
  destruct (bundled_state_appends m b0 (bundled_clear b0 H0) Hb)
    as (_ & b' & Hadd & _ & _ & Href).
  assert (E : refused m b0 = false) by (vm_compute; reflexivity).
  assert (Ht : total_size m = 16) by (vm_compute; reflexivity).
  assert (Hn : OSCBundle.mBufferSize b0 = 16) by reflexivity.
  rewrite E in Hadd, Href. rewrite Ht, Hn in Href. destruct Href as [Hsz Hel].
  exists b0, m, b'. split; [exact H0|]. split; [exact Hm|]. split; [exact Hadd|].
  split; [exact Hsz | exact Hel].
Defined.

(** X11. On a bundle state reached through the interface, [setTimetag]
    writes the seconds and the fractions in network byte order into the
    bytes 8 to 15 and changes nothing else, and it can be called before or
    after [addMessage]: both orders return the same result and the same
    bundle. *)
Theorem setTimetag_any_time (tt : OSCTimetag) (m : OSCMessage.t) (b : OSCBundle.t) :
  bundled b -> built m ->
  (exists b1,
      OSCBundle.setTimetag tt b = Ret b1
      /\ OSCBundle.mBufferSize b1 = OSCBundle.mBufferSize b
      /\ firstn 8 (OSCBundle.mBuffer b1) = firstn 8 (OSCBundle.mBuffer b)
      /\ firstn 8 (skipn 8 (OSCBundle.mBuffer b1))
         = big_endian 4 (seconds tt) ++ big_endian 4 (fractions tt)
      /\ skipn 16 (OSCBundle.mBuffer b1) = skipn 16 (OSCBundle.mBuffer b))
  /\ exists ok b',
      (b1 <- OSCBundle.setTimetag tt b ;; OSCBundle.addMessage m b1) = Ret (ok, b')
      /\ (' (ok, b2) <- OSCBundle.addMessage m b ;;
          b3 <- OSCBundle.setTimetag tt b2 ;; Ret (ok, b3)) = Ret (ok, b').
Proof.
  intros Hb Hm. pose proof (bundled_inv b Hb) as Hok.
  destruct (built_inv m Hm) as (Hwf & Hal & _).
  split.
  - destruct (setTimetag_effect tt b Hok) as (b1 & Hset & Hok1 & Hn & Hst & Hrest).
    exists b1. repeat (split; [assumption|]).
    split; [|split; assumption].
    destruct Hok as (_ & _ & _ & Hh). destruct Hok1 as (_ & _ & _ & Hh1). congruence.
  - destruct Hok as (Hlen & Hsize & H4 & Hhdr).
    unfold OSCBundle.MAX_BUNDLE_SIZE in *.
    destruct b as [buf n]. cbn [OSCBundle.mBuffer OSCBundle.mBufferSize] in *.
    destruct (cut3 buf 8 8 ltac:(lia) ltac:(lia) ltac:(lia))
      as (h & s & rest & -> & Hh & Hs & _).
    rewrite !len_app in Hlen.
    set (stamp := big_endian 4 (seconds tt) ++ big_endian 4 (fractions tt)).
    assert (Hst : len stamp = 8)
      by (unfold stamp; rewrite len_app, !len_big_endian; reflexivity).
    rewrite (setTimetag_shape tt h s rest n Hh Hs). fold stamp. cbn [bind].
    destruct (refused m (OSCBundle.mk (h ++ s ++ rest) n)) eqn:E.
    + assert (E' : refused m (OSCBundle.mk (h ++ stamp ++ rest) n) = true) by exact E.
      rewrite (addMessage_refused m _ Hwf Hal) by
        (try exact E'; cbn [OSCBundle.mBufferSize]; unfold OSCBundle.MAX_BUNDLE_SIZE; lia).
      rewrite (addMessage_refused m _ Hwf Hal) by
        (try exact E; cbn [OSCBundle.mBufferSize]; unfold OSCBundle.MAX_BUNDLE_SIZE; lia).
      cbn [bind]. rewrite (setTimetag_shape tt h s rest n Hh Hs). fold stamp.
      cbn [bind]. eauto.
    + destruct (refused_false _ _ E) as (Hn0 & Hfit & Hroom).
      cbn [OSCBundle.mBufferSize] in Hroom.
      unfold OSCBundle.MAX_MESSAGE_SIZE, OSCBundle.MAX_BUNDLE_SIZE in *.
      destruct (total_size_aligned m Hwf Hal) as [_ H8]. specialize (H8 Hn0).
      destruct (cut3 rest (n - 16) (4 + total_size m) ltac:(lia) ltac:(lia) ltac:(lia))
        as (body & gap & free & -> & Hbody & Hgap & _).
      assert (Hu1 : n = len (h ++ stamp ++ body)) by (rewrite !len_app; lia).
      assert (Hu2 : n = len (h ++ s ++ body)) by (rewrite !len_app; lia).
      replace (h ++ stamp ++ body ++ gap ++ free)
        with ((h ++ stamp ++ body) ++ gap ++ free)
        by (rewrite <- !app_assoc; reflexivity).
      replace (h ++ s ++ body ++ gap ++ free)
        with ((h ++ s ++ body) ++ gap ++ free)
        by (rewrite <- !app_assoc; reflexivity).
      replace (OSCBundle.mk ((h ++ stamp ++ body) ++ gap ++ free) n)
        with (OSCBundle.mk ((h ++ stamp ++ body) ++ gap ++ free) (len (h ++ stamp ++ body)))
        by (rewrite <- Hu1; reflexivity).
      rewrite (addMessage_shape m (h ++ stamp ++ body) gap free Hwf Hal Hn0) by
        (unfold OSCBundle.MAX_MESSAGE_SIZE, OSCBundle.MAX_BUNDLE_SIZE; lia).
      replace (OSCBundle.mk ((h ++ s ++ body) ++ gap ++ free) n)
        with (OSCBundle.mk ((h ++ s ++ body) ++ gap ++ free) (len (h ++ s ++ body)))
        by (rewrite <- Hu2; reflexivity).
      rewrite (addMessage_shape m (h ++ s ++ body) gap free Hwf Hal Hn0) by
        (unfold OSCBundle.MAX_MESSAGE_SIZE, OSCBundle.MAX_BUNDLE_SIZE; lia).
      cbn [bind]. rewrite <- !app_assoc.
      rewrite (setTimetag_shape tt h s _ _ Hh Hs). fold stamp. cbn [bind].
      rewrite <- Hu1, <- Hu2. eauto.
Qed.

Lemma setTimetag_any_time_witness :
  exists b0 m b',
    OSCBundle.clear = Ret b0
    /\ assemble (bytes_of "/led") [Int 1] = Ret (true, m)
    /\ (b1 <- OSCBundle.setTimetag immediate b0 ;; OSCBundle.addMessage m b1)
       = Ret (true, b')
    /\ (' (ok, b2) <- OSCBundle.addMessage m b0 ;;
        b3 <- OSCBundle.setTimetag immediate b2 ;; Ret (ok, b3)) = Ret (true, b').
Proof.
  pose (m := match assemble (bytes_of "/led") [Int 1] with
             | Ret (_, x) => x
             | _ => OSCMessage.clear
             end).
  pose (b0 := match OSCBundle.clear with Ret x => x | _ => OSCBundle.mk [] 0 end).
  assert (Hm : assemble (bytes_of "/led") [Int 1] = Ret (true, m))
    by (vm_compute; reflexivity).
  assert (Hb : built m).
  { apply (assemble_built (bytes_of "/led") [Int 1] true m); [| |exact Hm].
    - apply Forall_cons; [cbn [typed]; lia | apply Forall_nil].
    - apply Forall_cons; [exact I | apply Forall_nil]. }
  assert (H0 : OSCBundle.clear = Ret b0) by reflexivity.
  destruct (setTimetag_any_time immediate m b0 (bundled_clear b0 H0) Hb)
    as (_ & ok & b' & H1 & H2).
  assert (Hok : ok = true).
  { assert (E : exists b2, (b1 <- OSCBundle.setTimetag immediate b0 ;;
                            OSCBundle.addMessage m b1) = Ret (true, b2))
      by (eexists; vm_compute; reflexivity).
    destruct E as (b2 & E). rewrite E in H1. injection H1 as <- _. reflexivity. }
  subst ok. exists b0, m, b'. split; [exact H0|]. split; [exact Hm|].
  split; [exact H1 | exact H2].
Defined.

(** ** The walk of a bundle: nested bundles and cut buffers *)

Section WalkItems.
Import OSCServer.

Lemma walk_step (fuel : nat) (pre elem tail : list byte) (size : Z) :
  0 < len elem -> len pre + 4 + len elem <= size -> size <= PTRDIFF_MAX ->
  parseBundle_from (S fuel) (pre ++ big_endian 4 (len elem) ++ elem ++ tail) size (len pre)
  = (nested <- (if len elem >=? 8 then memcmp_bundle (elem ++ tail) else Ret false) ;;
     calls <- (if nested then parseBundle_from fuel (elem ++ tail) (len elem) 16
               else
                 ' (ok, msg) <- OSCMessageView.parse (elem ++ tail) (len elem)
                                  OSCMessageView.fresh ;;
                 Ret (if ok then [mkCall (elem ++ tail) msg] else [])) ;;
     rest <- parseBundle_from fuel (pre ++ big_endian 4 (len elem) ++ elem ++ tail) size
               (len pre + 4 + len elem) ;;
     Ret (calls ++ rest)).
Proof.
  intros Hn Hsize Hmax. unfold PTRDIFF_MAX in Hmax.
  pose proof (len_nonneg pre) as Hp.
  cbn [parseBundle_from].
  rewrite (size_t_small (len pre + 4)) by lia.
  replace (len pre + 4 <=? size) with true by (symmetry; apply Z.leb_le; lia).
  rewrite (load_bytes_at pre (big_endian 4 (len elem)) _ (len pre) 4)
    by (try reflexivity; rewrite len_big_endian; reflexivity).
  cbn [bind]. cbv zeta.
  rewrite parsed_int32 by lia.
  rewrite (size_t_small (len elem)) by lia.
  rewrite (size_t_small (len pre + 4 + len elem)) by lia.
  replace (len elem <=? 0) with false by (symmetry; apply Z.leb_gt; lia).
  rewrite gtb_false by lia. cbn [orb].
  assert (Hskip : skipn (Z.to_nat (len pre + 4))
                        (pre ++ big_endian 4 (len elem) ++ elem ++ tail)
                  = elem ++ tail).
  { rewrite app_assoc. apply skipn_len_app.
    rewrite len_app, len_big_endian. reflexivity. }
  rewrite Hskip. reflexivity.
Qed.

Lemma walk_stop (fuel : nat) (pre rest : list byte) (size : Z) :
  len pre <= size -> size <= PTRDIFF_MAX ->
  cut_short (size - len pre) rest -> (1 <= fuel)%nat ->
  parseBundle_from fuel (pre ++ rest) size (len pre) = Ret [].
Proof.
  intros Hle Hmax Hcut Hfuel. unfold PTRDIFF_MAX in Hmax.
  pose proof (len_nonneg pre) as Hp.
  destruct fuel as [|fuel]; [lia|]. cbn [parseBundle_from].
  rewrite (size_t_small (len pre + 4)) by lia.
  destruct (len pre + 4 <=? size) eqn:E; [|reflexivity].
  apply Z.leb_le in E.
  destruct Hcut as [Hk | (n & rest' & -> & Hn & Hstop)]; [lia|].
  rewrite (load_bytes_at pre (big_endian 4 n) _ (len pre) 4)
    by (try reflexivity; rewrite len_big_endian; reflexivity).
  cbn [bind]. cbv zeta. rewrite parsed_int32 by exact Hn.
  destruct (n <=? 0) eqn:En; [reflexivity|]. apply Z.leb_gt in En.
  rewrite (size_t_small n) by lia.
  rewrite (size_t_small (len pre + 4 + n)) by lia.
  rewrite gtb_true by lia. reflexivity.
Qed.

Lemma item_wire_nested (stamp : list byte) (items : list item) :
  item_wire (Nested stamp items)
  = (OSCBundle.header ++ stamp) ++ List.concat (map item_element items).
Proof. rewrite <- app_assoc. reflexivity. Qed.

Lemma item_ok_size (i : item) : item_ok i -> 8 <= len (item_wire i).
Proof.
  destruct i as [spec|stamp items]; cbn [item_ok].
  - intros Hs. apply (sendable_size spec Hs).
  - intros [Hst _]. rewrite item_wire_nested, !len_app, Hst.
    change (len OSCBundle.header) with 8.
    pose proof (len_nonneg (List.concat (map item_element items))). lia.
Qed.

Lemma memcmp_bundle_header (stamp rest : list byte) :
  memcmp_bundle ((OSCBundle.header ++ stamp) ++ rest) = Ret true.
Proof.
  unfold memcmp_bundle. rewrite load_bytes_front.
  - reflexivity.
  - rewrite !len_app. change (len OSCBundle.header) with 8.
    pose proof (len_nonneg stamp). pose proof (len_nonneg rest). lia.
Qed.

Lemma walk_items (fuel : nat) :
  forall (items : list item) (pre rest : list byte) (size : Z),
    fold_right (fun j P => item_ok j /\ P) True items ->
    len pre + len (List.concat (map item_element items)) <= size ->
    size <= PTRDIFF_MAX ->
    cut_short (size - len pre - len (List.concat (map item_element items))) rest ->
    (Z.to_nat (size - len pre) <= fuel)%nat ->
    exists calls,
      parseBundle_from fuel (pre ++ List.concat (map item_element items) ++ rest)
                       size (len pre)
      = Ret calls
      /\ map seen calls = map sent (flat_map leaves items).
Proof.
  induction fuel as [|fuel IH]; intros items pre rest size Hok Hle Hmax Hcut Hfuel;
    pose proof (len_nonneg pre) as Hp;
    pose proof (len_nonneg (List.concat (map item_element items))) as Hc.
  - exists []. unfold PTRDIFF_MAX in Hmax.
    assert (Hnil : items = []).
    { destruct items as [|i items]; [reflexivity|]. exfalso.
      destruct Hok as [Hi _]. pose proof (item_ok_size i Hi).
      cbn [map List.concat] in Hle. rewrite len_app in Hle.
      assert (Hel : len (item_element i) = 4 + len (item_wire i))
        by (unfold item_element; rewrite len_app, len_big_endian; reflexivity).
      pose proof (len_nonneg (List.concat (map item_element items))). lia. }
    subst items. cbn [map List.concat flat_map app parseBundle_from].
    rewrite (size_t_small (len pre + 4)) by lia.
    replace (len pre + 4 <=? size) with false by (symmetry; apply Z.leb_gt; lia).
    auto.
  - destruct items as [|i items].
    + exists []. cbn [map List.concat flat_map app] in *.
      change (len (@nil byte)) with 0 in *.
      destruct (Z_lt_le_dec size (len pre + 4)) as [Hshort|Hlong].
      * unfold PTRDIFF_MAX in Hmax. cbn [parseBundle_from].
        rewrite (size_t_small (len pre + 4)) by lia.
        replace (len pre + 4 <=? size) with false by (symmetry; apply Z.leb_gt; lia).
        auto.
      * split; [|reflexivity]. apply walk_stop; try assumption; try lia.
        replace (size - len pre) with (size - len pre - 0) by lia. exact Hcut.
    + destruct Hok as [Hi Hok].
      pose proof (item_ok_size i Hi) as Hi8.
      cbn [map List.concat flat_map] in *.
      set (tail := List.concat (map item_element items)) in *.
      pose proof (len_nonneg tail) as Ht.
      assert (Hel : len (item_element i) = 4 + len (item_wire i))
        by (unfold item_element; rewrite len_app, len_big_endian; reflexivity).
      rewrite len_app, Hel in Hle, Hcut.
      assert (Hshape : pre ++ (item_element i ++ tail) ++ rest
                       = pre ++ big_endian 4 (len (item_wire i))
                             ++ item_wire i ++ (tail ++ rest)).
      { unfold item_element. rewrite <- !app_assoc. reflexivity. }
      rewrite Hshape.
      rewrite (walk_step fuel pre (item_wire i) (tail ++ rest) size) by (try lia; assumption).
      replace (len (item_wire i) >=? 8) with true by (symmetry; apply geb_true; lia).
      destruct (IH items (pre ++ item_element i) rest size Hok) as (more & Hmore & Hseen).
      { rewrite len_app, Hel. fold tail. lia. }
      { exact Hmax. }
      { rewrite len_app, Hel. fold tail.
        replace (size - (len pre + (4 + len (item_wire i))) - len tail)
          with (size - len pre - (4 + len (item_wire i) + len tail)) by lia.
        exact Hcut. }
      { rewrite len_app, Hel. lia. }
      fold tail in Hmore. rewrite len_app, Hel in Hmore.
      replace ((pre ++ item_element i) ++ tail ++ rest)
        with (pre ++ big_endian 4 (len (item_wire i)) ++ item_wire i ++ tail ++ rest)
        in Hmore by (unfold item_element; rewrite <- !app_assoc; reflexivity).
      replace (len pre + (4 + len (item_wire i))) with (len pre + 4 + len (item_wire i))
        in Hmore by lia.
      destruct i as [spec|stamp sub].
      * cbn [item_wire item_ok leaves] in *.
        rewrite (memcmp_bundle_message spec _ Hi). cbn [bind].
        destruct Hi as (Hhd & Hadr & Hlen & Hprop & Hcount & Hfit & Hmsg).
        destruct (parse_message (fst spec) (snd spec) (tail ++ rest) OSCMessageView.fresh
                    Hhd Hadr Hprop)
          as (v & Hparse & Hv1 & Hv2 & Hv3 & Hv4);
          [ unfold OSCMessageView.MAX_ARGS, MAX_TYPE_TAG_SIZE in *; lia
          | reflexivity
          | unfold PTRDIFF_MAX in *; lia |].
        rewrite Hparse. cbn [bind]. rewrite Hmore. cbn [bind].
        eexists. split; [reflexivity|].
        cbn [app map]. rewrite Hseen. f_equal.
        unfold seen, sent. cbn [call_buffer call_msg].
        unfold OSCMessageView.address, OSCMessageView.typeTags.
        rewrite Hv1, Hv2, Hv4. reflexivity.
      * cbn [item_ok leaves] in Hi |- *. destruct Hi as [Hst Hsub].
        rewrite item_wire_nested in *.
        rewrite <- (app_assoc (OSCBundle.header ++ stamp)).
        rewrite memcmp_bundle_header. cbn [bind].
        assert (H16 : len (OSCBundle.header ++ stamp) = 16)
          by (rewrite len_app, Hst; reflexivity).
        pose proof (len_nonneg (List.concat (map item_element sub))) as Hs0.
        rewrite len_app, H16 in Hle, Hcut, Hel, Hmore |- *.
        destruct (IH sub (OSCBundle.header ++ stamp) (tail ++ rest)
                     (16 + len (List.concat (map item_element sub))) Hsub)
          as (inner & Hinner & Hseen').
        { rewrite H16. lia. }
        { lia. }
        { left. rewrite H16. lia. }
        { rewrite H16. lia. }
        rewrite H16 in Hinner. rewrite Hinner. cbn [bind].
        rewrite <- (app_assoc (OSCBundle.header ++ stamp)) in Hmore.
        rewrite Hmore. cbn [bind].
        eexists. split; [reflexivity|].
        rewrite !map_app, Hseen, Hseen'. reflexivity.
Qed.

End WalkItems.

(** X12. A bundle whose elements are messages and nested bundles, nested to
    any depth, each message with an address that starts with a slash and
    well-formed arguments: [parseBundle] goes into every nested bundle and
    calls the callback once for every message, depth first and in wire
    order, each time with a view that shows the address, the type tags and
    the arguments of that message. *)
Theorem nested_bundles_depth_first
        (stamp : list byte) (items : list item) (rest : list byte) :
  item_ok (Nested stamp items) ->
  len (item_wire (Nested stamp items)) <= PTRDIFF_MAX ->
  exists calls,
    OSCServer.parseBundle (item_wire (Nested stamp items) ++ rest)
                          (len (item_wire (Nested stamp items)))
    = Ret calls
    /\ map seen calls = map sent (leaves (Nested stamp items)).
Proof.
  intros [Hst Hok] Hmax. rewrite item_wire_nested in *.
  assert (H16 : len (OSCBundle.header ++ stamp) = 16)
    by (rewrite len_app, Hst; reflexivity).
  unfold OSCServer.parseBundle. cbv zeta.
  pose proof (len_nonneg (List.concat (map item_element items))) as Hc.
  assert (HL : len ((OSCBundle.header ++ stamp) ++ List.concat (map item_element items))
               = 16 + len (List.concat (map item_element items)))
    by (rewrite (len_app (OSCBundle.header ++ stamp)), H16; reflexivity).
  destruct (walk_items (Z.to_nat (len ((OSCBundle.header ++ stamp)
                                        ++ List.concat (map item_element items))))
              items (OSCBundle.header ++ stamp) rest
              (len ((OSCBundle.header ++ stamp) ++ List.concat (map item_element items)))
              Hok)
    as (calls & Hrun & Hseen).
  - rewrite HL, H16. lia.
  - exact Hmax.
  - left. rewrite HL, H16. lia.
  - lia.
  - rewrite H16 in Hrun. rewrite <- (app_assoc (OSCBundle.header ++ stamp)).
    exists calls. split; [exact Hrun | exact Hseen].
Qed.

Lemma nested_bundles_depth_first_witness :
  let a := (bytes_of "/a", [Int 1]) in
  let b := (bytes_of "/b", [True_]) in
  let c := (bytes_of "/c", [Str (bytes_of "x")]) in
  let tree := Nested (repeat NUL 8) [Leaf a; Nested (repeat NUL 8) [Leaf b]; Leaf c] in
  exists calls,
    OSCServer.parseBundle (item_wire tree ++ []) (len (item_wire tree)) = Ret calls
    /\ map seen calls = [sent a; sent b; sent c].
Proof.
  cbv zeta.
  assert (Hs : Forall sendable [(bytes_of "/a", [Int 1]); (bytes_of "/b", [True_]);
                                (bytes_of "/c", [Str (bytes_of "x")])])
    by concrete_sendable.
  pose proof (Forall_inv Hs) as Ha.
  pose proof (Forall_inv (Forall_inv_tail Hs)) as Hb.
  pose proof (Forall_inv (Forall_inv_tail (Forall_inv_tail Hs))) as Hc.
  apply (nested_bundles_depth_first
           (repeat NUL 8)
           [Leaf (bytes_of "/a", [Int 1]);
            Nested (repeat NUL 8) [Leaf (bytes_of "/b", [True_])];
            Leaf (bytes_of "/c", [Str (bytes_of "x")])] []).
  - cbn [item_ok fold_right].
    split; [reflexivity|]. split; [exact Ha|].
    split; [split; [reflexivity | split; [exact Hb | exact I]]|].
    split; [exact Hc | exact I].
  - vm_compute. discriminate.
Defined.

(** ** The receive path: copying the pbuf chain *)

Section Chain.
Import OSCServer.

Lemma skipn_past {A : Type} (pre rest : list A) (n : Z) :
  len pre <= n -> skipn (Z.to_nat n) (pre ++ rest) = skipn (Z.to_nat (n - len pre)) rest.
Proof.
  intros H. pose proof (len_nonneg pre). unfold len in *.
  rewrite skipn_app, skipn_all2 by lia. cbn [app]. f_equal. lia.
Qed.

Lemma firstn_past {A : Type} (pre rest : list A) (n : Z) :
  len pre <= n ->
  firstn (Z.to_nat n) (pre ++ rest) = pre ++ firstn (Z.to_nat (n - len pre)) rest.
Proof.
  intros H. pose proof (len_nonneg pre). unfold len in *.
  rewrite firstn_app, firstn_all2 by lia. f_equal. f_equal. lia.
Qed.

Lemma firstn_within {A : Type} (pre rest : list A) (n : Z) :
  n <= len pre -> firstn (Z.to_nat n) (pre ++ rest) = firstn (Z.to_nat n) pre.
Proof.
  intros H. unfold len in *. rewrite firstn_app.
  replace (Z.to_nat n - List.length pre)%nat with 0%nat by lia.
  cbn [firstn]. apply app_nil_r.
Qed.

Lemma chain_data_cons (q : pbuf) (p : list pbuf) :
  chain_data (q :: p) = firstn (Z.to_nat (pbuf_len q)) (payload q) ++ chain_data p.
Proof. reflexivity. Qed.

Lemma copy_chain_spec (p : list pbuf) :
  forall (buffer : list byte) (totalLen : Z),
    chain_ok p -> len buffer = MAX_MESSAGE_SIZE -> 0 <= totalLen <= MAX_MESSAGE_SIZE ->
    copy_chain p buffer totalLen
    = Ret (firstn (Z.to_nat totalLen) buffer
           ++ firstn (Z.to_nat (Z.min MAX_MESSAGE_SIZE (totalLen + len (chain_data p))
                                - totalLen)) (chain_data p)
           ++ skipn (Z.to_nat (Z.min MAX_MESSAGE_SIZE (totalLen + len (chain_data p))))
                    buffer,
           Z.min MAX_MESSAGE_SIZE (totalLen + len (chain_data p))).
Proof.
  unfold MAX_MESSAGE_SIZE.
  induction p as [|q p IH]; intros buffer totalLen Hok Hlen Ht;
    set (n := Z.min 1024 (totalLen + len (chain_data _))).
  - cbn [copy_chain]. unfold n. change (len (chain_data [])) with 0.
    rewrite Z.add_0_r, Z.min_r by lia.
    change (chain_data []) with (@nil byte). rewrite firstn_nil. cbn [app].
    rewrite firstn_skipn. reflexivity.
  - inversion Hok as [|? ? (HL & H16) Hp]; subst.
    pose proof (len_nonneg (chain_data p)) as Hd.
    pose proof (len_nonneg (chain_data (q :: p))) as Hd'.
    cbn [copy_chain]. unfold MAX_MESSAGE_SIZE.
    destruct (totalLen <? 1024) eqn:E.
    2:{ apply Z.ltb_ge in E. assert (totalLen = 1024) by lia. subst totalLen.
        unfold n. rewrite Z.min_l by lia.
        replace (1024 - 1024) with 0 by lia. cbn [Z.to_nat firstn app].
        rewrite firstn_skipn. reflexivity. }
    apply Z.ltb_lt in E. cbv zeta.
    rewrite (size_t_small (pbuf_len q)) by lia.
    rewrite (size_t_small (totalLen + pbuf_len q)) by lia.
    rewrite (size_t_small (1024 - totalLen)) by lia.
    set (c := if totalLen + pbuf_len q >? 1024 then 1024 - totalLen else pbuf_len q).
    assert (Hc : c = Z.min (pbuf_len q) (1024 - totalLen)).
    { unfold c. destruct (totalLen + pbuf_len q >? 1024) eqn:Ec.
      - rewrite Z.gtb_ltb in Ec. apply Z.ltb_lt in Ec. lia.
      - rewrite Z.gtb_ltb in Ec. apply Z.ltb_ge in Ec. lia. }
    clearbody c.
    destruct (cut3 buffer totalLen c ltac:(lia) ltac:(lia) ltac:(lia))
      as (A & M & S & -> & HA & HM & _).
    rewrite (memcpy_app A M S (payload q) totalLen c) by (try (symmetry; assumption); lia).
    cbn [bind]. rewrite (size_t_small (totalLen + c)) by lia.
    assert (Hpc : len (firstn (Z.to_nat c) (payload q)) = c) by (apply len_firstn; lia).
    assert (HAc : len (A ++ firstn (Z.to_nat c) (payload q)) = totalLen + c)
      by (rewrite len_app; lia).
    rewrite !len_app in Hlen.
    rewrite IH; [| exact Hp | rewrite !len_app; lia | lia].
    assert (HLq : len (firstn (Z.to_nat (pbuf_len q)) (payload q)) = pbuf_len q)
      by (apply len_firstn; lia).
    assert (Hn : Z.min 1024 (totalLen + c + len (chain_data p)) = n).
    { unfold n. rewrite chain_data_cons, len_app, HLq. lia. }
    rewrite Hn. f_equal. f_equal.
    rewrite (app_assoc A (firstn _ (payload q)) S).
    rewrite (firstn_len_app (A ++ firstn (Z.to_nat c) (payload q)) S (totalLen + c))
      by (symmetry; exact HAc).
    rewrite (skipn_past (A ++ firstn (Z.to_nat c) (payload q)) S n)
      by (rewrite HAc; unfold n; rewrite chain_data_cons, len_app, HLq; lia).
    rewrite (firstn_len_app A (M ++ S) totalLen) by (symmetry; exact HA).
    rewrite (app_assoc A M S).
    rewrite (skipn_past (A ++ M) S n)
      by (rewrite len_app; unfold n; rewrite chain_data_cons, len_app, HLq; lia).
    rewrite HAc, len_app, HA, HM.
    rewrite <- !app_assoc. f_equal. rewrite !app_assoc. f_equal.
    rewrite chain_data_cons.
    destruct (Z_le_gt_dec (totalLen + pbuf_len q) 1024) as [Hfit|Hcut].
    + assert (Hcq : c = pbuf_len q) by lia. rewrite Hcq.
      rewrite (firstn_past (firstn (Z.to_nat (pbuf_len q)) (payload q)) (chain_data p)
                 (n - totalLen))
        by (rewrite HLq; unfold n; rewrite chain_data_cons, len_app, HLq; lia).
      rewrite HLq.
      replace (n - totalLen - pbuf_len q) with (n - (totalLen + pbuf_len q)) by lia.
      reflexivity.
    + assert (Hcq : c = 1024 - totalLen) by lia.
      assert (n = 1024) by (unfold n; rewrite chain_data_cons, len_app, HLq; lia).
      replace (n - (totalLen + c)) with 0 by lia. cbn [Z.to_nat firstn].
      rewrite app_nil_r.
      rewrite (firstn_within (firstn (Z.to_nat (pbuf_len q)) (payload q)) (chain_data p)
                 (n - totalLen))
        by (rewrite HLq; lia).
      rewrite firstn_firstn. f_equal. lia.
Qed.

End Chain.

(** X13. The loop of [udpRecvCallback] that gathers a datagram from a chain
    of pbufs never writes outside its 1024-byte buffer: for every chain, it
    copies the bytes of the pbufs in order, stops at 1024 bytes and drops
    what is beyond, and leaves the rest of the buffer as it was. *)
Theorem copy_chain_bounded (p : list OSCServer.pbuf) (buffer : list byte) :
  chain_ok p -> len buffer = MAX_MESSAGE_SIZE ->
  exists out n,
    OSCServer.copy_chain p buffer 0 = Ret (out, n)
    /\ n = Z.min MAX_MESSAGE_SIZE (len (chain_data p))
    /\ len out = MAX_MESSAGE_SIZE
    /\ firstn (Z.to_nat n) out = firstn (Z.to_nat n) (chain_data p)
    /\ skipn (Z.to_nat n) out = skipn (Z.to_nat n) buffer.
Proof.
  intros Hok Hlen.
  pose proof (copy_chain_spec p buffer 0 Hok Hlen ltac:(unfold MAX_MESSAGE_SIZE; lia))
    as H.
  rewrite Z.add_0_l, Z.sub_0_r in H.
  change (Z.to_nat 0) with 0%nat in H. cbn [firstn app] in H.
  set (n := Z.min MAX_MESSAGE_SIZE (len (chain_data p))) in *.
  pose proof (len_nonneg (chain_data p)) as Hd.
  assert (Hn : 0 <= n <= len (chain_data p) /\ n <= MAX_MESSAGE_SIZE)
    by (unfold n, MAX_MESSAGE_SIZE; lia).
  assert (Hf : len (firstn (Z.to_nat n) (chain_data p)) = n)
    by (apply len_firstn; lia).
  eexists. exists n. split; [exact H|]. split; [reflexivity|].
  split; [|split].
  - rewrite len_app, Hf. unfold len in *. rewrite length_skipn. lia.
  - rewrite firstn_len_app by (symmetry; exact Hf). reflexivity.
  - rewrite skipn_len_app by (symmetry; exact Hf). reflexivity.
Qed.

Lemma copy_chain_bounded_witness :
  let p := [OSCServer.mkPbuf (repeat (chr "a") 600) 600;
            OSCServer.mkPbuf (repeat (chr "b") 600) 600] in
  exists out,
    OSCServer.copy_chain p (repeat NUL 1024) 0 = Ret (out, 1024)
    /\ firstn 1024 out = repeat (chr "a") 600 ++ repeat (chr "b") 424.
Proof.
  cbv zeta.
  destruct (copy_chain_bounded
              [OSCServer.mkPbuf (repeat (chr "a") 600) 600;
               OSCServer.mkPbuf (repeat (chr "b") 600) 600]
              (repeat NUL 1024))
    as (out & n & H1 & H2 & _ & H3 & _).
  - repeat (apply Forall_cons; [vm_compute; repeat split; discriminate|]).
    apply Forall_nil.
  - reflexivity.
  - assert (Hn : n = 1024) by (rewrite H2; vm_compute; reflexivity).
    clear H2. subst n. exists out. split; [exact H1|].
    change 1024%nat with (Z.to_nat 1024). rewrite H3. vm_compute. reflexivity.
Defined.

(** ** From [send] to the callback *)

Section Transport.

Lemma client_send_ok (net : OSCClient.lwip) (buffer : list byte) (size : Z)
      (c : OSCClient.t) :
  OSCClient.mPcb c = true -> OSCClient.pbuf_alloc net size = true ->
  0 <= size <= len buffer ->
  OSCClient.send net buffer size c
  = Ret (OSCClient.udp_sendto net
           (OSCClient.mkDatagram (firstn (Z.to_nat size) buffer)
                                 (OSCClient.mAddr c) (OSCClient.mPort c))
         =? OSCClient.ERR_OK,
         [OSCClient.mkDatagram (firstn (Z.to_nat size) buffer)
                               (OSCClient.mAddr c) (OSCClient.mPort c)]).
Proof.
  intros Hpcb Halloc Hsize. unfold OSCClient.send.
  rewrite Hpcb, Halloc. cbn [negb].
  rewrite load_bytes_front by exact Hsize. reflexivity.
Qed.

Lemma client_send_refused (net : OSCClient.lwip) (buffer : list byte) (size : Z)
      (c : OSCClient.t) :
  OSCClient.mPcb c = false \/ OSCClient.pbuf_alloc net size = false ->
  OSCClient.send net buffer size c = Ret (false, []).
Proof.
  intros [H|H]; unfold OSCClient.send.
  - rewrite H. reflexivity.
  - rewrite H. destruct (OSCClient.mPcb c); reflexivity.
Qed.

Lemma uint16_t_small (x : Z) : 0 <= x < 2 ^ 16 -> uint16_t x = x.
Proof. intros H. unfold uint16_t. apply Z.mod_small. exact H. Qed.

Lemma receive_message (spec : list byte * list argument) (rest : list byte) :
  sendable spec ->
  exists v,
    OSCServer.receive (message (fst spec) (snd spec) ++ rest)
                      (len (message (fst spec) (snd spec)))
    = Ret [OSCServer.mkCall (message (fst spec) (snd spec) ++ rest) v]
    /\ seen (OSCServer.mkCall (message (fst spec) (snd spec) ++ rest) v) = sent spec.
Proof.
  intros Hs. pose proof (sendable_size spec Hs) as Hmsz.
  unfold OSCServer.receive.
  rewrite (memcmp_bundle_message spec rest Hs).
  destruct (len (message (fst spec) (snd spec)) >=? 8); cbn [bind];
    destruct Hs as (Hhd & Hadr & Hlen & Hprop & Hcount & Hfit & Hmsg);
    (destruct (parse_message (fst spec) (snd spec) rest OSCMessageView.fresh
                 Hhd Hadr Hprop)
      as (v & Hparse & Hv1 & Hv2 & Hv3 & Hv4);
     [ unfold OSCMessageView.MAX_ARGS, MAX_TYPE_TAG_SIZE in *; lia
     | reflexivity
     | unfold PTRDIFF_MAX, OSCBundle.MAX_MESSAGE_SIZE in *; lia |]);
    rewrite Hparse; cbn [bind]; exists v; (split; [reflexivity|]);
    unfold seen, sent; cbn [OSCServer.call_buffer OSCServer.call_msg];
    unfold OSCMessageView.address, OSCMessageView.typeTags;
    rewrite Hv1, Hv2, Hv4; reflexivity.
Qed.

Lemma chain_nonempty (p : list OSCServer.pbuf) : 0 < len (chain_data p) -> p <> [].
Proof. intros H ->. cbn in H. lia. Qed.

Lemma callback_copied (p : list OSCServer.pbuf) (buffer : list byte) :
  chain_ok p -> 0 < len (chain_data p) -> len buffer = MAX_MESSAGE_SIZE ->
  OSCServer.udpRecvCallback (Some (OSCServer.mk true)) p buffer
  = OSCServer.receive
      (firstn (Z.to_nat (Z.min MAX_MESSAGE_SIZE (len (chain_data p)))) (chain_data p)
       ++ skipn (Z.to_nat (Z.min MAX_MESSAGE_SIZE (len (chain_data p)))) buffer)
      (Z.min MAX_MESSAGE_SIZE (len (chain_data p))).
Proof.
  intros Hok Hpos Hlen. unfold OSCServer.udpRecvCallback.
  destruct p as [|q p]; [exfalso; apply (chain_nonempty [] Hpos); reflexivity|].
  cbn [OSCServer.mCallback negb]. cbv zeta.
  rewrite (copy_chain_spec (q :: p) buffer 0 Hok Hlen)
    by (unfold MAX_MESSAGE_SIZE; lia).
  cbn [bind]. rewrite Z.add_0_l, Z.sub_0_r. reflexivity.
Qed.

End Transport.

(** X14. A message assembled from an address that starts with a slash and
    well-formed arguments, of at most 1024 bytes, and sent by
    [OSCMessage::send] through a client with a socket, goes out as one
    datagram that holds exactly the bytes of the message.  When that
    datagram arrives at a server with a callback, in whatever chain of pbufs
    and whatever the receive buffer held before, the callback is called
    once, with a view that shows the address, the type tags and the
    arguments that were sent. *)
Theorem message_sent_is_received
        (net : OSCClient.lwip) (client : OSCClient.t)
        (spec : list byte * list argument) :
  sendable spec ->
  OSCClient.mPcb client = true ->
  OSCClient.pbuf_alloc net (len (message (fst spec) (snd spec))) = true ->
  exists m d,
    assemble (fst spec) (snd spec) = Ret (true, m)
    /\ OSCMessage.send net client m
       = Ret (OSCClient.udp_sendto net d =? OSCClient.ERR_OK, [d])
    /\ d = OSCClient.mkDatagram (message (fst spec) (snd spec))
                                (OSCClient.mAddr client) (OSCClient.mPort client)
    /\ forall (p : list OSCServer.pbuf) (buffer : list byte),
        chain_ok p -> chain_data p = OSCClient.dg_payload d ->
        len buffer = MAX_MESSAGE_SIZE ->
        exists c,
          OSCServer.udpRecvCallback (Some (OSCServer.mk true)) p buffer = Ret [c]
          /\ seen c = sent spec.
Proof.
  intros Hs Hpcb Halloc. pose proof (sendable_size spec Hs) as Hsz.
  unfold OSCBundle.MAX_MESSAGE_SIZE in Hsz.
  set (msg := message (fst spec) (snd spec)) in *.
  assert (Hasm : exists m, assemble (fst spec) (snd spec) = Ret (true, m)).
  { destruct Hs as (_ & Hadr & Hlen & Hp & Hc & Hfit & _).
    destruct (assemble_accepts _ _ Hadr Hlen Hp Hc Hfit) as (m & Hasm & _).
    exists m. exact Hasm. }
  destruct Hasm as (m & Hasm).
  exists m. eexists. split; [exact Hasm|].
  split; [|split; [reflexivity|]].
  - unfold OSCMessage.send. cbv zeta.
    rewrite (built_message spec m _ MAX_MESSAGE_SIZE Hs Hasm)
      by (try rewrite len_repeat; unfold MAX_MESSAGE_SIZE; fold msg; lia).
    fold msg. cbn [bind].
    replace (len msg =? 0) with false by (symmetry; apply Z.eqb_neq; lia).
    rewrite uint16_t_small by lia.
    rewrite client_send_ok; [| exact Hpcb | exact Halloc |].
    + rewrite firstn_len_app by reflexivity. reflexivity.
    + rewrite len_app. pose proof (len_nonneg (skipn (Z.to_nat (len msg))
                                                (repeat NUL (Z.to_nat MAX_MESSAGE_SIZE)))).
      lia.
  - cbn [OSCClient.dg_payload]. intros p buffer Hok Hdata Hlen.
    rewrite (callback_copied p buffer Hok) by (try exact Hlen; rewrite Hdata; lia).
    rewrite Hdata. unfold MAX_MESSAGE_SIZE. rewrite Z.min_r by lia.
    rewrite firstn_len_exact by reflexivity.
    destruct (receive_message spec (skipn (Z.to_nat (len msg)) buffer) Hs) as (v & Hr & Hv).
    fold msg in Hr, Hv. eexists. split; [exact Hr | exact Hv].
Qed.

Lemma message_sent_is_received_witness :
  let net := OSCClient.mkLwip (fun _ => true) (fun _ => 0) in
  let client := OSCClient.mk true 1 9000 in
  let spec := (bytes_of "/led", [Int 1; Str (bytes_of "on")]) in
  let msg := message (fst spec) (snd spec) in
  exists m d c,
    assemble (fst spec) (snd spec) = Ret (true, m)
    /\ OSCMessage.send net client m = Ret (true, [d])
    /\ OSCClient.dg_payload d = msg
    /\ OSCServer.udpRecvCallback
         (Some (OSCServer.mk true))
         [OSCServer.mkPbuf (firstn 5 msg) 5; OSCServer.mkPbuf (skipn 5 msg) (len msg - 5)]
         (repeat NUL 1024)
       = Ret [c]
    /\ seen c = sent spec.
Proof.
  cbv zeta.
  destruct (message_sent_is_received
              (OSCClient.mkLwip (fun _ => true) (fun _ => 0))
              (OSCClient.mk true 1 9000)
              (bytes_of "/led", [Int 1; Str (bytes_of "on")]))
    as (m & d & Hasm & Hsend & Hd & Hrecv).
  - assert (H : Forall sendable [(bytes_of "/led", [Int 1; Str (bytes_of "on")])])
      by concrete_sendable.
    exact (Forall_inv H).
  - reflexivity.
  - reflexivity.
  - set (msg := message (fst (bytes_of "/led", [Int 1; Str (bytes_of "on")]))
                        (snd (bytes_of "/led", [Int 1; Str (bytes_of "on")]))) in *.
    destruct (Hrecv [OSCServer.mkPbuf (firstn 5 msg) 5;
                     OSCServer.mkPbuf (skipn 5 msg) (len msg - 5)]
                    (repeat NUL 1024))
      as (c & Hcall & Hseen).
    + repeat (apply Forall_cons; [vm_compute; repeat split; discriminate|]).
      apply Forall_nil.
    + rewrite Hd. vm_compute. reflexivity.
    + reflexivity.
    + exists m, d, c. split; [exact Hasm|]. split; [exact Hsend|].
      split; [rewrite Hd; reflexivity|]. split; [exact Hcall | exact Hseen].
Defined.

Section Truncated.








End Truncated.



(** X16. On every builder state reached through the builder's interface,
    [OSCMessage::send] sends nothing and returns false when no address is
    set, when the message is larger than 1024 bytes, when the client has no
    socket or when no pbuf can be allocated; otherwise it hands exactly one
    datagram to [udp_sendto], which holds the serialized message and nothing
    else and goes to the address and port of the client, and it returns
    whether [udp_sendto] reported no error. *)
Theorem send_of_built_state
        (net : OSCClient.lwip) (client : OSCClient.t) (m : OSCMessage.t) :
  built m ->
  OSCMessage.send net client m
  = Ret (if (MAX_MESSAGE_SIZE <? total_size m) || (OSCMessage.mAddressSize m =? 0)
            || negb (OSCClient.mPcb client)
            || negb (OSCClient.pbuf_alloc net (total_size m))
         then (false, [])
         else (OSCClient.udp_sendto net
                 (OSCClient.mkDatagram (serialized m)
                                       (OSCClient.mAddr client) (OSCClient.mPort client))
               =? OSCClient.ERR_OK,
               [OSCClient.mkDatagram (serialized m)
                                     (OSCClient.mAddr client) (OSCClient.mPort client)])).
Proof.
  intros Hb. destruct (built_inv m Hb) as (Hwf & Hal & _).
  unfold OSCMessage.send. cbv zeta.
  destruct ((MAX_MESSAGE_SIZE <? total_size m) || (OSCMessage.mAddressSize m =? 0)) eqn:E.
  - rewrite (build_refuses m _ MAX_MESSAGE_SIZE Hwf).
    + reflexivity.
    + apply orb_true_iff in E. destruct E as [E|E];
        [left; apply Z.ltb_lt in E; exact E | right; apply Z.eqb_eq in E; exact E].
  - apply orb_false_iff in E. destruct E as [E1 E2].
    apply Z.ltb_ge in E1. apply Z.eqb_neq in E2.
    destruct (build_writes m (repeat NUL (Z.to_nat MAX_MESSAGE_SIZE)) MAX_MESSAGE_SIZE
                Hwf E2 Hal E1)
      as [Hbuild Htot]; [rewrite len_repeat; reflexivity|].
    fold (total_size m) in Hbuild, Htot. fold (serialized m) in Hbuild, Htot.
    destruct (total_size_aligned m Hwf Hal) as [_ H8]. specialize (H8 E2).
    unfold MAX_MESSAGE_SIZE in E1.
    rewrite Hbuild. cbn [bind orb].
    replace (total_size m =? 0) with false by (symmetry; apply Z.eqb_neq; lia).
    rewrite uint16_t_small by lia.
    destruct (OSCClient.mPcb client) eqn:Hpcb; cbn [negb orb];
      [|apply client_send_refused; left; exact Hpcb].
    destruct (OSCClient.pbuf_alloc net (total_size m)) eqn:Halloc; cbn [negb];
      [|apply client_send_refused; right; exact Halloc].
    rewrite client_send_ok; [| exact Hpcb | exact Halloc |].
    + rewrite firstn_len_app by exact Htot. reflexivity.
    + rewrite len_app, <- Htot.
      pose proof (len_nonneg (skipn (Z.to_nat (total_size m))
                                    (repeat NUL (Z.to_nat MAX_MESSAGE_SIZE)))).
      lia.
Qed.

Lemma send_of_built_state_witness :
  let net := OSCClient.mkLwip (fun size => size <? 16) (fun _ => 0) in
  let client := OSCClient.mk true 1 9000 in
  exists m m',
    assemble (bytes_of "/led") [] = Ret (true, m)
    /\ OSCMessage.send net client m
       = Ret (true, [OSCClient.mkDatagram (serialized m) 1 9000])
    /\ OSCMessage.addInt 1 m = Ret (true, m')
    /\ OSCMessage.send net client m' = Ret (false, []).
Proof.
  cbv zeta.
  pose (m := match assemble (bytes_of "/led") [] with
             | Ret (_, x) => x
             | _ => OSCMessage.clear
             end).
  pose (m' := match OSCMessage.addInt 1 m with
              | Ret (_, x) => x
              | _ => OSCMessage.clear
              end).
  assert (Hm : assemble (bytes_of "/led") [] = Ret (true, m)) by (vm_compute; reflexivity).
  assert (Hm' : OSCMessage.addInt 1 m = Ret (true, m')) by (vm_compute; reflexivity).
  assert (Hb : built m)
    by (apply (assemble_built (bytes_of "/led") [] true m);
        [apply Forall_nil | apply Forall_nil | exact Hm]).
  assert (Hb' : built m').
  { apply (built_add (Int 1) m true m' Hb); [cbn [typed]; lia | exact I | exact Hm']. }
  exists m, m'. split; [exact Hm|]. split; [|split; [exact Hm'|]].
  - rewrite (send_of_built_state _ _ m Hb). reflexivity.
  - exact (eq_trans (send_of_built_state _ _ m' Hb') eq_refl).
Defined.

(** X17. On every bundle state reached through the bundle's interface,
    [OSCBundle::send] sends nothing and returns false when the client has no
    socket or no pbuf can be allocated; otherwise it hands exactly one
    datagram to [udp_sendto], which holds the first [size()] bytes of the
    bundle, header and timetag included, and it returns whether [udp_sendto]
    reported no error. *)
Theorem send_of_bundled_state
        (net : OSCClient.lwip) (client : OSCClient.t) (b : OSCBundle.t) :
  bundled b ->
  OSCBundle.send net client b
  = Ret (if negb (OSCClient.mPcb client)
            || negb (OSCClient.pbuf_alloc net (OSCBundle.size b))
         then (false, [])
         else (OSCClient.udp_sendto net
                 (OSCClient.mkDatagram
                    (firstn (Z.to_nat (OSCBundle.size b)) (OSCBundle.data b))
                    (OSCClient.mAddr client) (OSCClient.mPort client))
               =? OSCClient.ERR_OK,
               [OSCClient.mkDatagram
                  (firstn (Z.to_nat (OSCBundle.size b)) (OSCBundle.data b))
                  (OSCClient.mAddr client) (OSCClient.mPort client)])).
Proof.
  intros Hb. destruct (bundled_inv b Hb) as (Hlen & Hsize & _ & _).
  unfold OSCBundle.MAX_BUNDLE_SIZE in *.
  unfold OSCBundle.send, OSCBundle.size, OSCBundle.data.
  rewrite uint16_t_small by lia.
  destruct (OSCClient.mPcb client) eqn:Hpcb; cbn [negb orb];
    [|apply client_send_refused; left; exact Hpcb].
  destruct (OSCClient.pbuf_alloc net (OSCBundle.mBufferSize b)) eqn:Halloc; cbn [negb];
    [|apply client_send_refused; right; exact Halloc].
  apply client_send_ok; [exact Hpcb | exact Halloc | lia].
Qed.

Lemma send_of_bundled_state_witness :
  let net := OSCClient.mkLwip (fun _ => true) (fun _ => 0) in
  let client := OSCClient.mk true 1 9000 in
  exists b0 b,
    OSCBundle.clear = Ret b0
    /\ OSCBundle.setTimetag (mkTimetag 1 2) b0 = Ret b
    /\ OSCBundle.send net client b
       = Ret (true, [OSCClient.mkDatagram
                       (OSCBundle.header ++ big_endian 4 1 ++ big_endian 4 2) 1 9000]).
Proof.
  cbv zeta.
  pose (b0 := match OSCBundle.clear with Ret x => x | _ => OSCBundle.mk [] 0 end).
  pose (b := match OSCBundle.setTimetag (mkTimetag 1 2) b0 with
             | Ret x => x
             | _ => OSCBundle.mk [] 0
             end).
  assert (H0 : OSCBundle.clear = Ret b0) by reflexivity.
  assert (H1 : OSCBundle.setTimetag (mkTimetag 1 2) b0 = Ret b)
    by (vm_compute; reflexivity).
  assert (Hb : bundled b)
    by (exact (bundled_setTimetag _ b0 b (bundled_clear b0 H0) H1)).
  exists b0, b. split; [exact H0|]. split; [exact H1|].
  rewrite (send_of_bundled_state _ _ b Hb). vm_compute. reflexivity.
Defined.

(** ** The receive path on any datagram *)

Section AnyDatagram.
Import OSCServer.

Lemma same_upto_skipn (size n k : Z) (b1 b2 : list byte) :
  same_upto size b1 b2 -> 0 <= k -> 0 <= n -> k + n <= size ->
  same_upto n (skipn (Z.to_nat k) b1) (skipn (Z.to_nat k) b2).
Proof.
  intros (H1 & H2 & E) Hk Hn Hle.
  split; [rewrite len_skipn by lia; lia|].
  split; [rewrite len_skipn by lia; lia|].
  assert (H : forall b : list byte,
             firstn (Z.to_nat n) (skipn (Z.to_nat k) b)
             = firstn (Z.to_nat n) (skipn (Z.to_nat k) (firstn (Z.to_nat size) b))).
  { intros b. rewrite !firstn_skipn_comm, firstn_firstn.
    replace (Init.Nat.min (Z.to_nat k + Z.to_nat n) (Z.to_nat size))
      with (Z.to_nat k + Z.to_nat n)%nat by lia.
    reflexivity. }
  rewrite (H b1), (H b2), E. reflexivity.
Qed.

Lemma memcmp_bundle_same (size : Z) (b1 b2 : list byte) :
  same_upto size b1 b2 -> size <= PTRDIFF_MAX -> 8 <= size ->
  exists r, memcmp_bundle b1 = Ret r /\ memcmp_bundle b2 = Ret r.
Proof.
  intros Hsame Hmax H8. unfold memcmp_bundle.
  destruct (load_bytes_same size b1 b2 Hsame 0 7 ltac:(lia) ltac:(lia) ltac:(lia))
    as (bs & -> & -> & _).
  cbn [bind]. eauto.
Qed.

Lemma parseBundle_from_same (fuel : nat) :
  forall (b1 b2 : list byte) (size pos : Z),
    same_upto size b1 b2 -> size <= PTRDIFF_MAX -> 0 <= pos <= PTRDIFF_MAX ->
    (Z.to_nat (size - pos) <= fuel)%nat ->
    exists calls1 calls2,
      parseBundle_from fuel b1 size pos = Ret calls1
      /\ parseBundle_from fuel b2 size pos = Ret calls2
      /\ map call_msg calls1 = map call_msg calls2.
Proof.
  induction fuel as [|fuel IH]; intros b1 b2 size pos Hsame Hsize Hpos Hfuel;
    pose proof Hsize as Hsize'; unfold PTRDIFF_MAX in Hsize', Hpos.
  - cbn [parseBundle_from]. rewrite (size_t_small (pos + 4)) by lia.
    replace (pos + 4 <=? size) with false by (symmetry; apply Z.leb_gt; lia).
    exists [], []. auto.
  - cbn [parseBundle_from]. rewrite (size_t_small (pos + 4)) by lia.
    destruct (pos + 4 <=? size) eqn:E4; [|exists [], []; auto].
    apply Z.leb_le in E4.
    destruct (load_bytes_same size b1 b2 Hsame pos 4 ltac:(lia) ltac:(lia) E4)
      as (bs & -> & -> & _).
    cbn [bind]. cbv zeta.
    set (n := swap_endian_int32 (int32_t (le_combine bs))).
    assert (Hn : - 2 ^ 31 <= n < 2 ^ 31) by apply int32_t_range.
    destruct (n <=? 0) eqn:En; cbn [orb]; [exists [], []; auto|].
    apply Z.leb_gt in En.
    rewrite (size_t_small n) by lia.
    rewrite (size_t_small (pos + 4 + n)) by lia.
    destruct (pos + 4 + n >? size) eqn:Eend; [exists [], []; auto|].
    rewrite Z.gtb_ltb in Eend. apply Z.ltb_ge in Eend.
    pose proof (same_upto_skipn size n (pos + 4) b1 b2 Hsame ltac:(lia) ltac:(lia)
                  ltac:(lia)) as Hel.
    set (e1 := skipn (Z.to_nat (pos + 4)) b1) in *.
    set (e2 := skipn (Z.to_nat (pos + 4)) b2) in *.
    destruct (IH b1 b2 size (pos + 4 + n) Hsame Hsize ltac:(lia) ltac:(lia))
      as (r1 & r2 & Hr1 & Hr2 & Hr).
    assert (Hnested : exists nested,
               (if n >=? 8 then memcmp_bundle e1 else Ret false) = Ret nested
               /\ (if n >=? 8 then memcmp_bundle e2 else Ret false) = Ret nested).
    { rewrite Z.geb_leb. destruct (8 <=? n) eqn:E8; [|eauto].
      apply Z.leb_le in E8.
      apply (memcmp_bundle_same n e1 e2 Hel); unfold PTRDIFF_MAX; lia. }
    destruct Hnested as (nested & -> & ->). cbn [bind].
    destruct nested.
    + destruct (IH e1 e2 n 16 Hel ltac:(unfold PTRDIFF_MAX; lia)
                  ltac:(unfold PTRDIFF_MAX; lia) ltac:(lia))
        as (c1 & c2 & Hc1 & Hc2 & Hc).
      rewrite Hc1, Hc2. cbn [bind]. rewrite Hr1, Hr2. cbn [bind].
      do 2 eexists. split; [reflexivity|]. split; [reflexivity|].
      rewrite !map_app, Hc, Hr. reflexivity.
    + destruct (parse_same n e1 e2 Hel ltac:(unfold PTRDIFF_MAX; lia)
                  OSCMessageView.fresh eq_refl) as ([ok msg] & -> & -> & _).
      cbn [bind]. rewrite Hr1, Hr2. cbn [bind].
      do 2 eexists. split; [reflexivity|]. split; [reflexivity|].
      rewrite !map_app, Hr. destruct ok; reflexivity.
Qed.

Lemma receive_same (size : Z) (b1 b2 : list byte) :
  same_upto size b1 b2 -> 0 <= size <= PTRDIFF_MAX ->
  exists calls1 calls2,
    receive b1 size = Ret calls1 /\ receive b2 size = Ret calls2
    /\ map call_msg calls1 = map call_msg calls2.
Proof.
  intros Hsame Hsize. unfold receive.
  assert (Hb : exists isBundle,
             (if size >=? 8 then memcmp_bundle b1 else Ret false) = Ret isBundle
             /\ (if size >=? 8 then memcmp_bundle b2 else Ret false) = Ret isBundle).
  { rewrite Z.geb_leb. destruct (8 <=? size) eqn:E8; [|eauto].
    apply Z.leb_le in E8. apply (memcmp_bundle_same size b1 b2 Hsame); lia. }
  destruct Hb as (isBundle & -> & ->). cbn [bind].
  destruct isBundle.
  - unfold parseBundle. cbv zeta.
    apply parseBundle_from_same; try assumption; unfold PTRDIFF_MAX in *; lia.
  - destruct (parse_same size b1 b2 Hsame (proj2 Hsize) OSCMessageView.fresh eq_refl)
      as ([ok msg] & -> & -> & _).
    cbn [bind]. do 2 eexists. split; [reflexivity|]. split; [reflexivity|].
    destruct ok; reflexivity.
Qed.

End AnyDatagram.

(** X18. Whatever bytes a datagram holds and however it is split over a
    chain of pbufs, [udpRecvCallback] returns: the copy loop, the bundle
    walk and the parser make no read or write outside the 1024-byte buffer
    and the payloads.  The views handed to the callback do not depend on
    what the buffer, an uninitialised local array, held before: two runs on
    the same chain make the same calls with equal views. *)
Theorem receive_path_any_datagram
        (arg : option OSCServer.t) (p : list OSCServer.pbuf)
        (buffer1 buffer2 : list byte) :
  chain_ok p -> len buffer1 = MAX_MESSAGE_SIZE -> len buffer2 = MAX_MESSAGE_SIZE ->
  exists calls1 calls2,
    OSCServer.udpRecvCallback arg p buffer1 = Ret calls1
    /\ OSCServer.udpRecvCallback arg p buffer2 = Ret calls2
    /\ map OSCServer.call_msg calls1 = map OSCServer.call_msg calls2.
Proof.
  intros Hok Hlen1 Hlen2. unfold OSCServer.udpRecvCallback.
  destruct arg as [server|]; [|exists [], []; destruct p; auto].
  destruct p as [|q p]; [exists [], []; auto|].
  destruct (OSCServer.mCallback server); cbn [negb]; [|exists [], []; auto].
  cbv zeta.
  rewrite (copy_chain_spec (q :: p) buffer1 0 Hok Hlen1) by (unfold MAX_MESSAGE_SIZE; lia).
  rewrite (copy_chain_spec (q :: p) buffer2 0 Hok Hlen2) by (unfold MAX_MESSAGE_SIZE; lia).
  cbn [bind]. rewrite Z.add_0_l, Z.sub_0_r.
  change (Z.to_nat 0) with 0%nat. cbn [firstn app].
  set (data := chain_data (q :: p)).
  set (n := Z.min MAX_MESSAGE_SIZE (len data)).
  pose proof (len_nonneg data) as Hd.
  assert (Hn : 0 <= n <= len data /\ n <= 1024) by (unfold n, MAX_MESSAGE_SIZE; lia).
  assert (Hf : len (firstn (Z.to_nat n) data) = n) by (apply len_firstn; lia).
  apply receive_same; [|unfold PTRDIFF_MAX; lia].
  unfold MAX_MESSAGE_SIZE in *.
  split; [|split].
  - rewrite len_app, Hf, len_skipn by lia. lia.
  - rewrite len_app, Hf, len_skipn by lia. lia.
  - rewrite !firstn_len_app by (symmetry; exact Hf). reflexivity.
Qed.

Lemma receive_path_any_datagram_witness :
  let p := [OSCServer.mkPbuf (bytes_of "#bundle" ++ repeat (chr "y") 9
                              ++ [NUL; NUL; NUL; Byte.x7f]) 20;
            OSCServer.mkPbuf (repeat (chr "z") 2000) 2000] in
  exists calls1 calls2,
    OSCServer.udpRecvCallback (Some (OSCServer.mk true)) p (repeat NUL 1024) = Ret calls1
    /\ OSCServer.udpRecvCallback (Some (OSCServer.mk true)) p (repeat (chr "q") 1024)
       = Ret calls2
    /\ map OSCServer.call_msg calls1 = map OSCServer.call_msg calls2.
Proof.
  cbv zeta.
  apply (receive_path_any_datagram
           (Some (OSCServer.mk true))
           [OSCServer.mkPbuf (bytes_of "#bundle" ++ repeat (chr "y") 9
                              ++ [NUL; NUL; NUL; Byte.x7f]) 20;
            OSCServer.mkPbuf (repeat (chr "z") 2000) 2000]
           (repeat NUL 1024) (repeat (chr "q") 1024)).
  - repeat (apply Forall_cons; [vm_compute; repeat split; discriminate|]).
    apply Forall_nil.
  - reflexivity.
  - reflexivity.
Defined.

(** ** The address and the arguments of a builder are independent *)

Section Frame.
Import OSCMessage.

Variables (A : list byte) (AN : Z).

Lemma push_tag_frame (c : byte) (m : t) :
  push_tag c (with_address A AN m) = (x <- push_tag c m ;; Ret (with_address A AN x)).
Proof.
  unfold push_tag, with_address. cbn [mAddress mAddressSize mTypeTags mTypeTagCount
                                      mArgBuffer mArgBufferSize].
  destruct (store (mTypeTags m) (mTypeTagCount m) c); reflexivity.
Qed.

Lemma push_arg_frame (c : byte) (m : t) :
  push_arg c (with_address A AN m) = (x <- push_arg c m ;; Ret (with_address A AN x)).
Proof.
  unfold push_arg, with_address. cbn [mAddress mAddressSize mTypeTags mTypeTagCount
                                      mArgBuffer mArgBufferSize].
  destruct (store (mArgBuffer m) (mArgBufferSize m) c); reflexivity.
Qed.

Lemma copy_arg_frame (off : Z) (src : list byte) (n : Z) (m : t) :
  copy_arg off src n (with_address A AN m)
  = (x <- copy_arg off src n m ;; Ret (with_address A AN x)).
Proof.
  unfold copy_arg, with_address. cbn [mAddress mAddressSize mTypeTags mTypeTagCount
                                      mArgBuffer mArgBufferSize].
  destruct (memcpy (mArgBuffer m) _ src n); reflexivity.
Qed.

Lemma pad_arg_frame (m : t) :
  pad_arg (with_address A AN m) = (x <- pad_arg m ;; Ret (with_address A AN x)).
Proof.
  unfold pad_arg, with_address. cbn [mAddress mAddressSize mTypeTags mTypeTagCount
                                     mArgBuffer mArgBufferSize].
  destruct (pad_zero 3 (mArgBuffer m) (mArgBufferSize m)) as [[buf n]| |]; reflexivity.
Qed.

Lemma advance_arg_frame (n : Z) (m : t) :
  advance_arg n (with_address A AN m) = with_address A AN (advance_arg n m).
Proof. reflexivity. Qed.

Lemma canAddArg_frame (bytes : Z) (m : t) :
  canAddArg bytes (with_address A AN m) = canAddArg bytes m.
Proof. reflexivity. Qed.

Ltac frame_step :=
  match goal with
  | |- context [advance_arg ?n (with_address A AN ?m)] =>
      rewrite (advance_arg_frame n m)
  | |- context [push_tag ?c (with_address A AN ?m)] =>
      rewrite (push_tag_frame c m); destruct (push_tag c m); cbn [bind]; try reflexivity
  | |- context [push_arg ?c (with_address A AN ?m)] =>
      rewrite (push_arg_frame c m); destruct (push_arg c m); cbn [bind]; try reflexivity
  | |- context [copy_arg ?off ?src ?n (with_address A AN ?m)] =>
      rewrite (copy_arg_frame off src n m); destruct (copy_arg off src n m);
      cbn [bind]; try reflexivity
  | |- context [pad_arg (with_address A AN ?m)] =>
      rewrite (pad_arg_frame m); destruct (pad_arg m); cbn [bind]; try reflexivity
  end.

Lemma add_frame (a : argument) (m : t) :
  add a (with_address A AN m)
  = (' (ok, x) <- add a m ;; Ret (ok, with_address A AN x)).
Proof.
  destruct a; cbn [add];
    unfold addInt, addFloat, addString, addBlob, addInt64, addDouble, addTimetag,
      addTrue, addFalse, addNil, addInfinitum, addTagOnly, addMidi, addChar, addColor;
    cbv zeta; rewrite ?canAddArg_frame;
    try match goal with
        | |- context [negb (canAddArg ?n m)] =>
            destruct (negb (canAddArg n m)); cbn [bind]; [reflexivity|]
        end;
    try (change (mTypeTagCount (with_address A AN m)) with (mTypeTagCount m);
         destruct (mTypeTagCount m >=? MAX_TYPE_TAG_SIZE - 1); cbn [bind]; [reflexivity|]);
    repeat frame_step.
Qed.

End Frame.

Section Independent.
Import OSCMessage.

Lemma with_address_same (m : t) : with_address (mAddress m) (mAddressSize m) m = m.
Proof. destruct m. reflexivity. Qed.

Lemma setAddress_frame (address : list byte) (m m' : t) :
  mAddress m' = mAddress m -> mAddressSize m' = mAddressSize m ->
  setAddress address m'
  = (' (ok, x) <- setAddress address m ;;
     Ret (ok, with_address (mAddress x) (mAddressSize x) m')).
Proof.
  intros Ha Hn. unfold setAddress. cbv zeta. rewrite Ha.
  destruct (strlen address >=? MAX_ADDRESS_SIZE).
  - cbn [bind]. rewrite <- Ha, <- Hn, with_address_same. reflexivity.
  - destruct (memcpy (mAddress m) 0 (c_str address) (size_t (strlen address + 1)))
      as [buf| |]; cbn [bind]; try reflexivity.
    destruct (pad_zero 3 buf (size_t (strlen address + 1))) as [[buf' n]| |];
      reflexivity.
Qed.

Lemma add_keeps_address (a : argument) (m : t) (ok : bool) (m' : t) :
  add a m = Ret (ok, m') -> mAddress m' = mAddress m /\ mAddressSize m' = mAddressSize m.
Proof.
  intros H.
  pose proof (add_frame (mAddress m) (mAddressSize m) a m) as Hf.
  rewrite with_address_same, H in Hf. cbn [bind] in Hf.
  injection Hf as Hm. rewrite Hm. split; reflexivity.
Qed.

End Independent.

(** X19. The address and the arguments of a builder do not depend on each
    other: on every state reached through the builder's interface,
    [setAddress] followed by an append operation and the same two calls in
    the other order return the same two results and leave the builder in
    the same state. *)
Theorem address_and_arguments_commute
        (address : list byte) (a : argument) (m : OSCMessage.t) :
  built m -> typed a -> source_ok a ->
  exists ok1 ok2 m1 m2 m',
    OSCMessage.setAddress address m = Ret (ok1, m1)
    /\ add a m1 = Ret (ok2, m')
    /\ add a m = Ret (ok2, m2)
    /\ OSCMessage.setAddress address m2 = Ret (ok1, m').
Proof.
  intros Hb Ht Hs. destruct (built_inv m Hb) as (Hwf & Hal & Hc).
  destruct (setAddress_total address m Hwf Hal) as (ok1 & m1 & Hset & _).
  destruct (add_total a m Hwf Ht Hs Hc) as (ok2 & m2 & Hadd & _).
  exists ok1, ok2, m1, m2.
  exists (with_address (OSCMessage.mAddress m1) (OSCMessage.mAddressSize m1) m2).
  split; [exact Hset|]. split; [|split; [exact Hadd|]].
  - pose proof (setAddress_frame address m m eq_refl eq_refl) as Hf.
    rewrite Hset in Hf. cbn [bind] in Hf. injection Hf as Hm1.
    rewrite Hm1 at 1. rewrite add_frame, Hadd. reflexivity.
  - destruct (add_keeps_address a m ok2 m2 Hadd) as [Ha Hn].
    rewrite (setAddress_frame address m m2 Ha Hn), Hset. reflexivity.
Qed.

Lemma address_and_arguments_commute_witness :
  exists m',
    (' (ok1, m1) <- OSCMessage.setAddress (bytes_of "/led") OSCMessage.clear ;;
     ' (ok2, m2) <- OSCMessage.addString (bytes_of "on") m1 ;; Ret (ok1, ok2, m2))
    = Ret (true, true, m')
    /\ (' (ok2, m1) <- OSCMessage.addString (bytes_of "on") OSCMessage.clear ;;
        ' (ok1, m2) <- OSCMessage.setAddress (bytes_of "/led") m1 ;; Ret (ok1, ok2, m2))
       = Ret (true, true, m').
Proof.
  destruct (address_and_arguments_commute (bytes_of "/led") (Str (bytes_of "on"))
              OSCMessage.clear built_clear)
    as (ok1 & ok2 & m1 & m2 & m' & H1 & H2 & H3 & H4).
  - cbn [typed]. vm_compute. reflexivity.
  - exact I.
  - assert (E1 : ok1 = true).
    { assert (E : exists x, OSCMessage.setAddress (bytes_of "/led") OSCMessage.clear
                            = Ret (true, x)) by (eexists; vm_compute; reflexivity).
      destruct E as (x & E). rewrite E in H1. injection H1 as <- _. reflexivity. }
    assert (E2 : ok2 = true).
    { assert (E : exists x, add (Str (bytes_of "on")) OSCMessage.clear = Ret (true, x))
        by (eexists; vm_compute; reflexivity).
      destruct E as (x & E). rewrite E in H3. injection H3 as <- _. reflexivity. }
    subst ok1 ok2. exists m'. cbn [add] in H2, H3.
    rewrite H1. cbn [bind]. rewrite H2. cbn [bind].
    rewrite H3. cbn [bind]. rewrite H4. cbn [bind]. split; reflexivity.
Defined.

(** ** The strings of a parsed view end within the datagram *)

Section Terminated.
Import OSCMessageView.
Variables (buffer : list byte) (size : Z).
Hypothesis Hsize : size <= PTRDIFF_MAX.

Lemma scan_stops (fuel : nat) :
  forall (pos p : Z),
    0 <= pos -> scan fuel buffer size pos = Ret p ->
    pos <= p /\ (p < size -> load buffer p = Ret NUL).
Proof.
  unfold PTRDIFF_MAX in Hsize.
  induction fuel as [|fuel IH]; intros pos p Hpos H; cbn [scan] in H;
    (destruct (pos <? size) eqn:E;
     [apply Z.ltb_lt in E | apply Z.ltb_ge in E; injection H as <-; split; lia]);
    apply bind_ret in H; destruct H as (c & Hc & H);
    (destruct (is_nul c) eqn:En; cbn [negb] in H;
     [injection H as <-; apply is_nul_true in En; subst c; split; [lia | auto]|]).
  - discriminate H.
  - rewrite size_t_small in H by lia. apply IH in H; [|lia]. split; [lia | apply H].
Qed.

Lemma decode_terminated (c : byte) (pos : Z) (arg : OSCArg)
      (ok : bool) (pos' : Z) (arg' : OSCArg) :
  0 <= pos -> s arg = nullptr ->
  decode c buffer size pos arg = Ret (ok, pos', arg') ->
  0 <= pos' /\ (ok = true -> slot_within buffer size arg').
Proof.
  intros Hpos Hs. unfold decode. cbv zeta. unfold set_u, slot_within.
  intros H.
  repeat match type of H with
         | (if ?b then _ else _) = _ =>
             let E := fresh "E" in destruct b eqn:E
         end;
    repeat match type of H with
           | bind ?x _ = _ =>
               let E := fresh "E" in
               destruct x eqn:E; cbn [bind] in H |- *; try discriminate H
           end;
    repeat match type of H with
           | (if ?b then _ else _) = _ =>
               let E := fresh "E" in destruct b eqn:E
           end;
    injection H as <- <- <-; cbn [s];
    repeat match goal with
           | E : scan _ _ _ _ = Ret _ |- _ => apply scan_stops in E; [|exact Hpos]
           end;
    (split;
     [ first [ exact Hpos | apply align4_nonneg
             | match goal with |- 0 <= size_t ?x => apply (size_t_range x) end
             | lia ]
     | intros Hok; try discriminate Hok; first [left; exact Hs | right] ]).
  all: match goal with
       | E : _ <= ?z /\ _, E' : (?z >=? size) = false |- _ =>
           rewrite Z.geb_leb in E'; apply Z.leb_gt in E';
           exists z; split; [lia|]; split; [exact E' | apply E; exact E']
       end.
Qed.

Lemma parse_args_terminated (fuel : nat) :
  forall (types pos : Z) (v v' : t) (ok : bool),
    0 <= pos ->
    parse_args fuel buffer size types pos v = Ret (ok, v') ->
    Forall (slot_within buffer size) (used_slots v) -> Forall (slot_within buffer size) (used_slots v').
Proof.
  unfold used_slots.
  induction fuel as [|fuel IH]; intros types pos v v' ok Hpos H Hs;
    cbn [parse_args] in H; unfold MAX_ARGS in *;
    apply bind_ret in H; destruct H as (c & _ & H);
    destruct (negb (is_nul c) && (mArgCount v <? 64)) eqn:E;
    try discriminate H;
    try (injection H as <- <-; exact Hs).
  apply andb_true_iff in E. destruct E as [_ E]. apply Z.ltb_lt in E.
  apply bind_ret in H. destruct H as (old & Hold & H). cbv zeta in H.
  pose proof (load_ret _ _ _ Hold) as Hrange.
  apply bind_ret in H. destruct H as ([[ok' pos'] a'] & Hdec & H).
  apply decode_terminated in Hdec; [|exact Hpos|reflexivity].
  destruct Hdec as [Hpos' Hok].
  apply bind_ret in H. destruct H as (args & Hst & H).
  apply store_ret in Hst. subst args.
  cbn [mAddress mTypeTags mArgs mArgCount] in H.
  assert (Hf : len (firstn (Z.to_nat (mArgCount v)) (mArgs v)) = mArgCount v)
    by (apply len_firstn; lia).
  destruct ok'; cbn [negb] in H.
  - rewrite (size_t_small (mArgCount v + 1)) in H by lia.
    apply (IH _ _ _ _ _ Hpos' H). cbn [mArgs mArgCount].
    rewrite firstn_snoc by (symmetry; exact Hf).
    apply Forall_app. split; [exact Hs|]. constructor; [apply Hok; reflexivity|constructor].
  - injection H as <- <-. cbn [mArgs mArgCount].
    rewrite firstn_len_app by (symmetry; exact Hf). exact Hs.
Qed.

Lemma getString_within (v : t) (index : Z) (d : ptr) :
  Forall (slot_within buffer size) (used_slots v) ->
  string_within buffer size d ->
  string_within buffer size (getString index d v).
Proof.
  intros Hs Hd. unfold getString, arg.
  destruct ((0 <=? index) && (index <? mArgCount v)) eqn:E; [|exact Hd].
  apply andb_true_iff in E. destruct E as [E1 E2].
  apply Z.leb_le in E1. apply Z.ltb_lt in E2.
  destruct (nth_error (mArgs v) (Z.to_nat index)) as [a|] eqn:Ea; [|exact Hd].
  destruct ((Byte.eqb (type a) (chr "s") || Byte.eqb (type a) (chr "S"))
            && negb (is_null (s a))) eqn:Et; [|exact Hd].
  apply andb_true_iff in Et. destruct Et as [_ Hnn].
  assert (Hin : In a (used_slots v)).
  { unfold used_slots. apply (nth_error_In _ (Z.to_nat index)).
    rewrite nth_error_firstn.
    replace (Z.to_nat index <? Z.to_nat (mArgCount v))%nat with true
      by (symmetry; apply Nat.ltb_lt; lia).
    exact Ea. }
  rewrite Forall_forall in Hs. destruct (Hs a Hin) as [Hnull|Hok]; [|exact Hok].
  rewrite Hnull in Hnn. discriminate Hnn.
Qed.

End Terminated.

(** X20. On a view that [parse] has returned true for, every C string the
    view hands out ends within the datagram: the address starts at the
    buffer and has its terminator within [size], the type tags are the empty
    literal or a string terminated within [size], and so is the string of
    every argument slot in use that has one; [getString] with a default
    that is a proper string returns a proper string.  A callback can read
    them as C strings without going past the bytes received. *)
Theorem parsed_strings_terminated
        (buffer : list byte) (size : Z) (v0 v : OSCMessageView.t) :
  size <= PTRDIFF_MAX ->
  OSCMessageView.parse buffer size v0 = Ret (true, v) ->
  OSCMessageView.address v = OSCMessageView.at_offset 0
  /\ terminated buffer size 0
  /\ string_within buffer size (OSCMessageView.typeTags v)
  /\ Forall (slot_within buffer size) (used_slots v)
  /\ forall index d,
      string_within buffer size d ->
      string_within buffer size (OSCMessageView.getString index d v).
Proof.
  intros Hsize H.
  assert (Hall : OSCMessageView.address v = OSCMessageView.at_offset 0
                 /\ terminated buffer size 0
                 /\ string_within buffer size (OSCMessageView.typeTags v)
                 /\ Forall (slot_within buffer size) (used_slots v)).
  { unfold OSCMessageView.parse in H. cbv zeta in H. unfold OSCMessageView.clear in H.
    cbn [OSCMessageView.mAddress OSCMessageView.mTypeTags OSCMessageView.mArgs
         OSCMessageView.mArgCount] in H.
    unfold OSCMessageView.address, OSCMessageView.typeTags.
    apply bind_ret in H. destruct H as (bad & _ & H).
    destruct bad; [discriminate H|].
    apply bind_ret in H. destruct H as (p & Hp & H).
    apply (scan_stops buffer size Hsize) in Hp; [|lia]. destruct Hp as [Hp0 Hp].
    destruct (p >=? size) eqn:Ep; [discriminate H|].
    rewrite Z.geb_leb in Ep. apply Z.leb_gt in Ep.
    assert (Haddr : terminated buffer size 0)
      by (exists p; split; [lia|]; split; [exact Ep | apply Hp; exact Ep]).
    apply bind_ret in H. destruct H as (noTags & HnoTags & H).
    destruct noTags.
    { injection H as <-. cbn [OSCMessageView.mAddress OSCMessageView.mTypeTags].
      split; [reflexivity|]. split; [exact Haddr|]. split; [exact I | apply Forall_nil]. }
    destruct (align4 (size_t (p + 1)) >=? size); [discriminate HnoTags|].
    apply bind_ret in HnoTags. destruct HnoTags as (c & Hcomma & Hc).
    injection Hc as Hc. apply negb_false_iff, eqb_true_iff in Hc. subst c.
    apply bind_ret in H. destruct H as (tend & Htend & H).
    pose proof (align4_nonneg (size_t (p + 1))) as Hq.
    apply (scan_stops buffer size Hsize) in Htend; [|exact Hq].
    destruct Htend as [Ht0 Htend].
    destruct (tend >=? size) eqn:Et; [discriminate H|].
    rewrite Z.geb_leb in Et. apply Z.leb_gt in Et.
    pose proof (parse_args_keeps _ _ _ _ _ _ _ _ H) as [Ha Hty].
    cbn [OSCMessageView.mAddress OSCMessageView.mTypeTags] in Ha, Hty.
    apply (parse_args_terminated buffer size Hsize) in H;
      [| apply align4_nonneg | constructor].
    rewrite Ha, Hty. split; [reflexivity|]. split; [exact Haddr|]. split; [|exact H].
    cbn [string_within].
    destruct (Z.eq_dec tend (align4 (size_t (p + 1)))) as [Heq|Hne].
    - exfalso. rewrite Heq in Htend, Et. rewrite (Htend Et) in Hcomma.
      discriminate Hcomma.
    - exists tend. split; [lia|]. split; [exact Et | apply Htend; exact Et]. }
  destruct Hall as (H1 & H2 & H3 & H4).
  repeat (split; [assumption|]).
  intros index d. apply getString_within. exact H4.
Qed.

Lemma parsed_strings_terminated_witness :
  let buffer := message (bytes_of "/led") [Str (bytes_of "on"); Int 1] in
  exists v,
    OSCMessageView.parse buffer (len buffer) OSCMessageView.fresh = Ret (true, v)
    /\ terminated buffer (len buffer) 0
    /\ string_within buffer (len buffer)
         (OSCMessageView.getString 0 OSCMessageView.empty_literal v)
    /\ OSCMessageView.getString 0 OSCMessageView.empty_literal v
       = OSCMessageView.at_offset 12.
Proof.
  cbv zeta.
  set (buffer := message (bytes_of "/led") [Str (bytes_of "on"); Int 1]).
  pose (v := match OSCMessageView.parse buffer (len buffer) OSCMessageView.fresh with
             | Ret (_, x) => x
             | _ => OSCMessageView.fresh
             end).
  assert (Hp : OSCMessageView.parse buffer (len buffer) OSCMessageView.fresh
               = Ret (true, v)) by (vm_compute; reflexivity).
  destruct (parsed_strings_terminated buffer (len buffer) OSCMessageView.fresh v)
    as (_ & Ha & _ & _ & Hg).
  - vm_compute. discriminate.
  - exact Hp.
  - exists v. split; [exact Hp|]. split; [exact Ha|].
    split; [apply Hg; exact I | vm_compute; reflexivity].
Defined.

(** ** A blob with a negative size on the wire *)

Section NegativeWireBlob.
Import OSCMessageView.

Lemma parse_header (address ts rest : list byte) (size : Z) (v0 : t) :
  hd NUL address = chr "/" ->
  Forall (fun c => c <> NUL) address -> Forall (fun c => c <> NUL) ts ->
  len (padded address) + len (padded (chr "," :: ts)) <= size ->
  size <= PTRDIFF_MAX ->
  parse (padded address ++ padded (chr "," :: ts) ++ rest) size v0
  = parse_args (Z.to_nat MAX_ARGS) (padded address ++ padded (chr "," :: ts) ++ rest) size
      (len (padded address) + 1)
      (len (padded address) + len (padded (chr "," :: ts)))
      (mk (at_offset 0) (at_offset (len (padded address) + 1)) (mArgs v0) 0).
Proof.
  intros Hslash Hadr Hts Hfit Hsize.
  set (tags := chr "," :: ts) in *.
  set (B := padded address ++ padded tags ++ rest).
  assert (Htags : Forall (fun c => c <> NUL) tags)
    by (constructor; [discriminate | exact Hts]).
  destruct (len_padded_bounds address) as [[HA HAge] HA4].
  destruct (len_padded_bounds tags) as [[HT HTge] HT4].
  pose proof (len_nonneg address) as Ha0. pose proof (len_nonneg tags) as Ht0.
  unfold PTRDIFF_MAX in *.
  destruct address as [|c0 adr]; [discriminate Hslash|].
  cbn [hd] in Hslash. subst c0.
  unfold parse.
  replace (size <? 4) with false by (symmetry; apply Z.ltb_ge; lia).
  assert (Hl0 : load B 0 = Ret (chr "/")).
  { unfold B. rewrite padded_unfold. cbn [app]. reflexivity. }
  rewrite Hl0. cbn [bind]. change (Byte.eqb (chr "/") (chr "/")) with true.
  cbn [negb clear mAddress mTypeTags mArgs mArgCount].
  assert (Hs1 : scan (Z.to_nat size) B size 0 = Ret (len (chr "/" :: adr))).
  { unfold B. rewrite padded_unfold, <- app_assoc, <- (app_comm_cons _ _ NUL).
    rewrite (scan_string0 (Z.to_nat size) (chr "/" :: adr)); try assumption.
    - reflexivity.
    - lia.
    - lia.
    - unfold len in *. lia. }
  rewrite Hs1. cbn [bind]. rewrite geb_false by lia.
  rewrite (size_t_small (len (chr "/" :: adr) + 1)) by lia.
  assert (Hal1 : align4 (len (chr "/" :: adr) + 1) = len (padded (chr "/" :: adr))).
  { rewrite align4_small by lia. rewrite len_padded. reflexivity. }
  rewrite Hal1. rewrite geb_false by lia.
  assert (Hl1 : load B (len (padded (chr "/" :: adr))) = Ret (chr ",")).
  { unfold B. rewrite (padded_unfold tags). unfold tags at 1.
    rewrite <- app_assoc. cbn [app]. apply load_at. reflexivity. }
  rewrite Hl1. cbn [bind]. change (Byte.eqb (chr ",") (chr ",")) with true.
  cbn [negb].
  assert (Hs2 : scan (Z.to_nat size) B size (len (padded (chr "/" :: adr)))
                = Ret (len (padded (chr "/" :: adr)) + len tags)).
  { unfold B at 1.
    rewrite (padded_unfold tags), <- (app_assoc tags), <- (app_comm_cons _ _ NUL).
    rewrite scan_string; try assumption.
    - reflexivity.
    - lia.
    - lia.
    - unfold len in *. lia. }
  rewrite Hs2. cbn [bind]. rewrite geb_false by lia.
  rewrite (size_t_small (len (padded (chr "/" :: adr)) + len tags + 1)) by lia.
  assert (Hal2 : align4 (len (padded (chr "/" :: adr)) + len tags + 1)
                 = len (padded (chr "/" :: adr)) + len (padded tags)).
  { replace (len (padded (chr "/" :: adr)) + len tags + 1)
      with (len (padded (chr "/" :: adr)) + (len tags + 1)) by lia.
    rewrite align4_step by lia. rewrite (len_padded tags). reflexivity. }
  rewrite Hal2. reflexivity.
Qed.

Lemma size_t_negative (n : Z) : - 2 ^ 32 <= n < 0 -> size_t n = n + 2 ^ 32.
Proof.
  intros H. unfold size_t. symmetry. apply (Z.mod_unique n (2 ^ 32) (-1)); lia.
Qed.

Lemma size_t_wrapped (x : Z) : 0 <= x < 2 ^ 32 -> size_t (x + 2 ^ 32) = x.
Proof.
  intros H. unfold size_t. symmetry. apply (Z.mod_unique _ (2 ^ 32) 1); lia.
Qed.

End NegativeWireBlob.

(** X21. [parse] accepts a blob whose size field is negative, as long as
    the size does not reach back before the start of the buffer: the bounds
    check adds the size converted to [size_t] to the position, which wraps
    around on the 32-bit target and lands at or before [size].  For a
    message with one blob argument whose size field is [n < 0], [parse]
    returns true with one argument of type [b] that points at the end of the
    size field and has [blobSize = n]. *)
Theorem parse_accepts_negative_blob_size
        (address rest : list byte) (n : Z) (v0 : OSCMessageView.t) :
  hd NUL address = chr "/" ->
  Forall (fun c => c <> NUL) address ->
  len (padded address) + 8 <= PTRDIFF_MAX ->
  len (OSCMessageView.mArgs v0) = OSCMessageView.MAX_ARGS ->
  - (len (padded address) + 8) <= n < 0 ->
  let size := len (padded address) + 8 in
  let buffer := padded address ++ padded [chr ","; chr "b"] ++ big_endian 4 n ++ rest in
  exists v a,
    OSCMessageView.parse buffer size v0 = Ret (true, v)
    /\ OSCMessageView.argCount v = 1
    /\ OSCMessageView.arg 0 v = Some a
    /\ OSCMessageView.type a = chr "b"
    /\ OSCMessageView.blobData a = OSCMessageView.at_offset size
    /\ OSCMessageView.blobSize a = n.
Proof.
  intros Hslash Hadr Hmax Hargs Hn size buffer.
  destruct (len_padded_bounds address) as [[HA HAge] HA4].
  set (P := len (padded address)) in *.
  assert (HT : len (padded [chr ","; chr "b"]) = 4) by reflexivity.
  unfold PTRDIFF_MAX in Hmax.
  unfold buffer.
  rewrite (parse_header address [chr "b"] (big_endian 4 n ++ rest) size v0 Hslash Hadr);
    [| repeat constructor; discriminate | fold P; rewrite HT; unfold size; lia
     | unfold PTRDIFF_MAX, size; lia ].
  fold P. rewrite HT.
  set (B := padded address ++ padded [chr ","; chr "b"] ++ big_endian 4 n ++ rest).
  assert (Hb : load B (P + 1) = Ret (chr "b")).
  { unfold B. change (padded [chr ","; chr "b"]) with ([chr ","] ++ chr "b" :: [NUL; NUL]).
    rewrite <- app_assoc, app_assoc. rewrite <- app_comm_cons.
    apply load_at. rewrite len_app. reflexivity. }
  assert (Hz : load B (P + 2) = Ret NUL).
  { unfold B. change (padded [chr ","; chr "b"]) with ([chr ","; chr "b"] ++ NUL :: [NUL]).
    rewrite <- app_assoc, app_assoc. rewrite <- app_comm_cons.
    apply load_at. rewrite len_app. reflexivity. }
  assert (Hsz : load_bytes B (P + 4) 4 = Ret (big_endian 4 n)).
  { unfold B. rewrite (app_assoc (padded address)).
    apply load_bytes_at; [rewrite len_app; reflexivity | rewrite len_big_endian; reflexivity]. }
  destruct (OSCMessageView.mArgs v0) as [|x td] eqn:Eargs;
    [change (len (@nil OSCMessageView.OSCArg)) with 0 in Hargs;
     unfold OSCMessageView.MAX_ARGS in Hargs; lia|].
  change (Z.to_nat OSCMessageView.MAX_ARGS) with (S 63).
  generalize 63%nat. intros fuel.
  cbn [OSCMessageView.parse_args]. rewrite Hb. cbn [bind].
  change (is_nul (chr "b")) with false.
  cbn [negb andb OSCMessageView.mArgCount OSCMessageView.mArgs].
  change (0 <? OSCMessageView.MAX_ARGS) with true. cbv iota.
  change (load (x :: td) 0) with (Ret x). cbn [bind]. cbv zeta.
  rewrite decode_b.
  cbn [OSCMessageView.type OSCMessageView.u OSCMessageView.s
       OSCMessageView.blobData OSCMessageView.blobSize].
  rewrite (size_t_small (P + 4 + 4)) by lia.
  rewrite gtb_false by (unfold size; lia).
  rewrite Hsz. cbn [bind]. cbv zeta.
  rewrite parsed_int32 by lia.
  cbn [OSCMessageView.type OSCMessageView.u OSCMessageView.s
       OSCMessageView.blobData OSCMessageView.blobSize].
  rewrite (size_t_negative n) by lia.
  replace (P + 4 + 4 + (n + 2 ^ 32)) with (P + 8 + n + 2 ^ 32) by lia.
  rewrite (size_t_wrapped (P + 8 + n)) by lia.
  rewrite gtb_false by (unfold size; lia).
  cbn [bind].
  assert (Hst : forall a : OSCMessageView.OSCArg, store (x :: td) 0 a = Ret (a :: td))
    by (intros a; apply (store_app [] td x a 0); reflexivity).
  rewrite Hst.
  cbn [bind negb OSCMessageView.mAddress OSCMessageView.mTypeTags OSCMessageView.mArgs
       OSCMessageView.mArgCount].
  change (size_t (0 + 1)) with 1.
  replace (P + 1 + 1) with (P + 2) by lia.
  assert (Hend : forall v1,
             OSCMessageView.parse_args fuel B size (P + 2) (align4 (P + 8 + n)) v1
             = Ret (true, v1)).
  { intros v1. destruct fuel; cbn [OSCMessageView.parse_args]; rewrite Hz; cbn [bind];
      change (is_nul NUL) with true; reflexivity. }
  rewrite Hend.
  do 2 eexists. split; [reflexivity|].
  split; [reflexivity|]. split; [reflexivity|].
  cbn [OSCMessageView.type OSCMessageView.blobData OSCMessageView.blobSize].
  split; [reflexivity|]. split; [|reflexivity].
  unfold size. f_equal. lia.
Qed.

Lemma parse_accepts_negative_blob_size_witness :
  let buffer := bytes_of "/a" ++ [NUL; NUL] ++ bytes_of ",b" ++ [NUL; NUL]
                ++ [Byte.xff; Byte.xff; Byte.xff; Byte.xfc] in
  exists v a,
    OSCMessageView.parse buffer 12 OSCMessageView.fresh = Ret (true, v)
    /\ OSCMessageView.arg 0 v = Some a
    /\ OSCMessageView.blobData a = OSCMessageView.at_offset 12
    /\ OSCMessageView.blobSize a = -4.
Proof.
  cbv zeta.
  destruct (parse_accepts_negative_blob_size (bytes_of "/a") [] (-4) OSCMessageView.fresh)
    as (v & a & Hp & _ & Ha & _ & Hd & Hs).
  - reflexivity.
  - concrete_string.
  - vm_compute. discriminate.
  - reflexivity.
  - vm_compute. split; [discriminate | reflexivity].
  - exists v, a. split; [exact Hp|]. split; [exact Ha|]. split; [exact Hd | exact Hs].
Defined.

(** ** The argument loop stops at [MAX_ARGS] *)

Section StopsAtMaxArgs.
Import OSCMessageView.
Variables (buffer : list byte) (size : Z).

Lemma skipn_load (pos : Z) (c : byte) :
  load buffer pos = Ret c ->
  skipn (Z.to_nat pos) buffer = c :: skipn (Z.to_nat (pos + 1)) buffer.
Proof.
  unfold load. destruct (pos <? 0) eqn:E; [discriminate|]. apply Z.ltb_ge in E.
  destruct (nth_error buffer (Z.to_nat pos)) as [a|] eqn:En; [|discriminate].
  intros H. injection H as ->.
  replace (Z.to_nat (pos + 1)) with (S (Z.to_nat pos)) by lia.
  clear E. revert En. generalize (Z.to_nat pos). intros n. revert buffer.
  induction n as [|n IH]; intros l En; destruct l as [|x l]; try discriminate En.
  - cbn in En. injection En as ->. reflexivity.
  - cbn [nth_error] in En. cbn [skipn]. apply IH. exact En.
Qed.

(** Where the scan of a string stops: at its terminator, or at [size]. *)
Lemma scan_chars (fuel : nat) :
  forall (pos p : Z),
    0 <= pos <= size -> size <= len buffer -> size <= PTRDIFF_MAX ->
    scan fuel buffer size pos = Ret p ->
    p = Z.min (pos + len (chars (skipn (Z.to_nat pos) buffer))) size.
Proof.
  unfold PTRDIFF_MAX.
  induction fuel as [|fuel IH]; intros pos p Hpos Hlen Hsize H; cbn [scan] in H;
    pose proof (len_nonneg (chars (skipn (Z.to_nat pos) buffer))) as HL;
    (destruct (pos <? size) eqn:E;
     [apply Z.ltb_lt in E | apply Z.ltb_ge in E; injection H as <-; lia]);
    apply bind_ret in H; destruct H as (c & Hc & H);
    rewrite (skipn_load pos c Hc) in HL |- *; cbn [chars] in HL |- *;
    (destruct (is_nul c) eqn:En; cbn [negb] in H;
     [injection H as <-; change (len (@nil byte)) with 0; lia|]).
  - discriminate H.
  - rewrite size_t_small in H by lia.
    apply IH in H; [|lia|exact Hlen|unfold PTRDIFF_MAX; exact Hsize].
    rewrite len_cons. lia.
Qed.

Lemma parse_args_decoded (fuel : nat) :
  forall (types pos : Z) (v v' : t) (ok : bool),
    parse_args fuel buffer size types pos v = Ret (ok, v') ->
    0 <= mArgCount v <= MAX_ARGS ->
    (forall k, 0 <= k < MAX_ARGS - mArgCount v ->
               exists c, load buffer (types + k) = Ret c /\ c <> NUL) ->
    exists slots last,
      decoded buffer size types pos slots last
      /\ used_slots v' = used_slots v ++ slots
      /\ mArgCount v' = mArgCount v + len slots
      /\ if ok then mArgCount v' = MAX_ARGS
         else mArgCount v' < MAX_ARGS
              /\ exists c old pos' slot,
                  load buffer (types + len slots) = Ret c
                  /\ decode c buffer size last
                       (mkArg c (u old) nullptr nullptr (blobSize old))
                     = Ret (false, pos', slot)
                  /\ nth_error (mArgs v') (Z.to_nat (mArgCount v')) = Some slot.
Proof.
  unfold MAX_ARGS, used_slots.
  induction fuel as [|fuel IH]; intros types pos v v' ok H Hcount Htags;
    cbn [parse_args] in H; unfold MAX_ARGS in H;
    apply bind_ret in H; destruct H as (c & Hc & H);
    destruct (negb (is_nul c) && (mArgCount v <? 64)) eqn:E;
    try discriminate H.
  1,3: injection H as <- <-; exists [], pos;
    (split; [constructor|]); (split; [rewrite app_nil_r; reflexivity|]);
    (split; [change (len (@nil OSCArg)) with 0; lia|]);
    apply andb_false_iff in E; destruct E as [E|E];
    [ apply negb_false_iff, is_nul_true in E; subst c;
      destruct (Z.eq_dec (mArgCount v) 64) as [E64|]; [exact E64|];
      destruct (Htags 0 ltac:(lia)) as (c & Hc' & Hnn);
      rewrite Z.add_0_r, Hc in Hc'; injection Hc' as <-; contradiction
    | apply Z.ltb_ge in E; lia ].
  apply andb_true_iff in E. destruct E as [Hnn E].
  apply negb_true_iff, is_nul_false in Hnn. apply Z.ltb_lt in E.
  apply bind_ret in H. destruct H as (old & Hold & H). cbv zeta in H.
  pose proof (load_ret _ _ _ Hold) as Hrange.
  apply bind_ret in H. destruct H as ([[ok' pos'] a'] & Hdec & H).
  apply bind_ret in H. destruct H as (args & Hst & H).
  apply store_ret in Hst. subst args.
  cbn [mAddress mTypeTags mArgs mArgCount] in H.
  assert (Hf : len (firstn (Z.to_nat (mArgCount v)) (mArgs v)) = mArgCount v)
    by (apply len_firstn; lia).
  destruct ok'; cbn [negb] in H.
  - rewrite (size_t_small (mArgCount v + 1)) in H by lia.
    apply IH in H; cbn [mArgCount]; [|lia|].
    2:{ intros k Hk. replace (types + 1 + k) with (types + (k + 1)) by lia.
        apply Htags. lia. }
    destruct H as (slots & last & Hd & Hu & Hn & Hok).
    cbn [mArgs mArgCount] in Hu, Hn.
    rewrite firstn_snoc in Hu by (symmetry; exact Hf).
    exists (a' :: slots), last.
    split; [exact (decoded_next buffer size types pos c old pos' a' slots last
                     Hc Hnn Hdec Hd)|].
    split; [rewrite Hu, <- app_assoc; reflexivity|].
    rewrite len_cons.
    split; [lia|].
    destruct ok; [exact Hok|].
    destruct Hok as (Hlt & c1 & old1 & pos1 & slot1 & Hc1 & Hd1 & Hs1).
    split; [exact Hlt|]. exists c1, old1, pos1, slot1.
    replace (types + (1 + len slots)) with (types + 1 + len slots) by lia.
    auto.
  - injection H as <- <-. cbn [mArgs mArgCount].
    exists [], pos. split; [constructor|].
    split; [rewrite app_nil_r, firstn_len_app by (symmetry; exact Hf); reflexivity|].
    change (len (@nil OSCArg)) with 0.
    split; [lia|]. split; [exact E|].
    exists c, old, pos', a'. rewrite Z.add_0_r.
    split; [exact Hc|]. split; [exact Hdec|].
    rewrite nth_error_app2 by (unfold len in Hf; lia).
    replace (Z.to_nat (mArgCount v)
             - List.length (firstn (Z.to_nat (mArgCount v)) (mArgs v)))%nat
      with 0%nat by (unfold len in Hf; lia).
    reflexivity.
Qed.

End StopsAtMaxArgs.

(** C10 (as amended). On a buffer of at least [size] bytes that holds an
    address starting with a slash and terminated within [size], then, at the
    next offset that is a multiple of 4, a comma and more than 64 tags:
    [parse] returns, with the type tags of the view set to the tags.  If the
    tag string is terminated within [size], the argument loop decodes the
    tags in order from the position after the padded tag string, each case
    of the switch passing its bounds check and giving the slot recorded, and
    either all of the first 64 pass, and [parse] returns true with an
    argument count of exactly 64, or the case of one of them returns false,
    and [parse] returns false with the index of that tag, below 64, as
    argument count.  If the tag string is not terminated within [size],
    [parse] returns false with no argument.  With 64 arguments recorded the
    loop returns true at once, whatever the next tag is: the tags that are
    left are not decoded and no payload is read for them. *)
Theorem parse_stops_at_MAX_ARGS
        (buffer : list byte) (size : Z) (v0 : OSCMessageView.t) :
  size <= len buffer -> size <= PTRDIFF_MAX ->
  len (OSCMessageView.mArgs v0) = OSCMessageView.MAX_ARGS ->
  (forall q tags,
      4 <= size -> load buffer 0 = Ret (chr "/") ->
      len (chars buffer) < size ->
      q = align4 (len (chars buffer) + 1) ->
      q < size -> load buffer q = Ret (chr ",") ->
      tags = chars (skipn (Z.to_nat (q + 1)) buffer) ->
      OSCMessageView.MAX_ARGS < len tags ->
      exists ok v,
        OSCMessageView.parse buffer size v0 = Ret (ok, v)
        /\ OSCMessageView.typeTags v = OSCMessageView.at_offset (q + 1)
        /\ if q + 1 + len tags <? size
           then exists last,
               decoded buffer size (q + 1) (align4 (q + 1 + len tags + 1))
                       (used_slots v) last
               /\ len (used_slots v) = OSCMessageView.argCount v
               /\ if ok then OSCMessageView.argCount v = OSCMessageView.MAX_ARGS
                  else OSCMessageView.argCount v < OSCMessageView.MAX_ARGS
                       /\ exists c old pos' slot,
                           load buffer (q + 1 + OSCMessageView.argCount v) = Ret c
                           /\ OSCMessageView.decode c buffer size last
                                (OSCMessageView.mkArg c (OSCMessageView.u old)
                                   OSCMessageView.nullptr OSCMessageView.nullptr
                                   (OSCMessageView.blobSize old))
                              = Ret (false, pos', slot)
                           /\ nth_error (OSCMessageView.mArgs v)
                                        (Z.to_nat (OSCMessageView.argCount v))
                              = Some slot
           else ok = false /\ OSCMessageView.argCount v = 0)
  /\ (forall fuel types pos v c,
         OSCMessageView.mArgCount v = OSCMessageView.MAX_ARGS ->
         load buffer types = Ret c ->
         OSCMessageView.parse_args fuel buffer size types pos v = Ret (true, v)).
Proof.
  intros Hlen Hsize Hargs. split.
  - intros q tags H4 Hslash Haddr Hq Hqs Hcomma Htags Hmany.
    destruct (parse_same size buffer buffer (same_upto_refl size buffer Hlen) Hsize
                v0 Hargs) as ([ok v] & Hp & _ & _).
    exists ok, v. split; [exact Hp|].
    unfold OSCMessageView.typeTags, OSCMessageView.argCount.
    unfold OSCMessageView.parse in Hp. cbv zeta in Hp. unfold OSCMessageView.clear in Hp.
    cbn [OSCMessageView.mAddress OSCMessageView.mTypeTags OSCMessageView.mArgs
         OSCMessageView.mArgCount] in Hp.
    replace (size <? 4) with false in Hp by (symmetry; apply Z.ltb_ge; lia).
    rewrite Hslash in Hp. cbn [bind] in Hp.
    change (negb (Byte.eqb (chr "/") (chr "/"))) with false in Hp. cbv iota in Hp.
    pose proof (len_nonneg (chars buffer)) as Ha0.
    pose proof Hsize as Hsize'. unfold PTRDIFF_MAX in Hsize'.
    apply bind_ret in Hp. destruct Hp as (p & Hscan & Hp).
    apply (scan_chars buffer size) in Hscan; [|lia|exact Hlen|exact Hsize].
    change (skipn (Z.to_nat 0) buffer) with buffer in Hscan.
    rewrite Z.add_0_l, Z.min_l in Hscan by lia. subst p.
    rewrite geb_false in Hp by lia.
    rewrite (size_t_small (len (chars buffer) + 1)) in Hp by lia.
    rewrite <- Hq in Hp.
    pose proof (align4_nonneg (len (chars buffer) + 1)) as Hq0. rewrite <- Hq in Hq0.
    rewrite geb_false in Hp by lia.
    rewrite Hcomma in Hp. cbn [bind] in Hp.
    change (negb (Byte.eqb (chr ",") (chr ","))) with false in Hp. cbv iota in Hp.
    apply bind_ret in Hp. destruct Hp as (tend & Htend & Hp).
    apply (scan_chars buffer size) in Htend; [|lia|exact Hlen|exact Hsize].
    rewrite (skipn_load buffer q _ Hcomma) in Htend.
    assert (Hchars : forall l, chars (chr "," :: l) = chr "," :: chars l)
      by reflexivity.
    rewrite Hchars, len_cons, <- Htags in Htend.
    pose proof (len_nonneg tags) as Ht0.
    destruct (tend >=? size) eqn:Et.
    + injection Hp as <- <-.
      cbn [OSCMessageView.mTypeTags OSCMessageView.mArgCount].
      split; [reflexivity|].
      rewrite Z.geb_leb in Et. apply Z.leb_le in Et.
      replace (q + 1 + len tags <? size) with false by (symmetry; apply Z.ltb_ge; lia).
      split; reflexivity.
    + rewrite Z.geb_leb in Et. apply Z.leb_gt in Et.
      pose proof (parse_args_keeps _ _ _ _ _ _ _ _ Hp) as [_ Hty].
      cbn [OSCMessageView.mTypeTags] in Hty.
      split; [exact Hty|].
      replace (q + 1 + len tags <? size) with true by (symmetry; apply Z.ltb_lt; lia).
      assert (Hend : tend = q + 1 + len tags) by lia.
      rewrite (size_t_small (tend + 1)) in Hp by lia. rewrite Hend in Hp.
      apply (parse_args_decoded buffer size) in Hp;
        cbn [OSCMessageView.mArgCount];
        [| unfold OSCMessageView.MAX_ARGS; lia
         | intros k Hk; apply chars_load; [lia|]; rewrite <- Htags;
           unfold OSCMessageView.MAX_ARGS in *; lia ].
      destruct Hp as (slots & last & Hd & Hu & Hn & Hok).
      change (used_slots (OSCMessageView.mk _ _ (OSCMessageView.mArgs v0) 0))
        with (@nil OSCMessageView.OSCArg) in Hu.
      cbn [app OSCMessageView.mArgCount] in Hu, Hn. rewrite Z.add_0_l in Hn.
      exists last. rewrite Hu. split; [exact Hd|]. split; [symmetry; exact Hn|].
      destruct ok; [exact Hok|].
      destruct Hok as (Hlt & c1 & old1 & pos1 & slot1 & Hc1 & Hd1 & Hs1).
      split; [exact Hlt|]. exists c1, old1, pos1, slot1.
      rewrite <- Hn in Hc1. auto.
  - intros fuel types pos v c Hfull Hc.
    destruct fuel; cbn [OSCMessageView.parse_args]; rewrite Hc; cbn [bind];
      rewrite Hfull, Z.ltb_irrefl, andb_false_r; reflexivity.
Qed.

Lemma parse_stops_at_MAX_ARGS_witness :
  let buffer := bytes_of "/a" ++ [NUL; NUL] ++ chr "," :: repeat (chr "T") 65
                ++ [NUL; NUL] in
  exists v,
    OSCMessageView.parse buffer 72 OSCMessageView.fresh = Ret (true, v)
    /\ OSCMessageView.typeTags v = OSCMessageView.at_offset 5
    /\ string_at buffer (OSCMessageView.typeTags v) = Some (repeat (chr "T") 65)
    /\ OSCMessageView.argCount v = OSCMessageView.MAX_ARGS.
Proof.
  cbv zeta.
  set (buffer := bytes_of "/a" ++ [NUL; NUL] ++ chr "," :: repeat (chr "T") 65
                 ++ [NUL; NUL]).
  destruct (parse_stops_at_MAX_ARGS buffer 72 OSCMessageView.fresh) as [H _].
  - vm_compute. discriminate.
  - vm_compute. discriminate.
  - reflexivity.
  - destruct (H 4 (repeat (chr "T") 65)) as (ok & v & Hp & Hty & Hrest).
    + lia.
    + reflexivity.
    + vm_compute. reflexivity.
    + vm_compute. reflexivity.
    + lia.
    + reflexivity.
    + vm_compute. reflexivity.
    + vm_compute. reflexivity.
    + assert (E : (4 + 1 + len (repeat (chr "T") 65) <? 72) = true) by reflexivity.
      rewrite E in Hrest. destruct Hrest as (last & _ & _ & Hok).
      assert (Hc : exists v', OSCMessageView.parse buffer 72 OSCMessageView.fresh
                              = Ret (true, v'))
        by (eexists; vm_compute; reflexivity).
      destruct Hc as (v' & Hc). rewrite Hc in Hp. injection Hp as <- <-.
      exists v'. split; [exact Hc|]. split; [exact Hty|].
      split; [rewrite Hty; vm_compute; reflexivity | exact Hok].
Defined.

(** C10 as stated does not hold: with 65 tags [i] and no payload, [parse]
    returns false, with no argument recorded. *)
Lemma parse_many_tags_short_payload_fails :
  let buffer := bytes_of "/a" ++ [NUL; NUL] ++ chr "," :: repeat (chr "i") 65
                ++ [NUL; NUL] in
  exists v,
    OSCMessageView.parse buffer 72 OSCMessageView.fresh = Ret (false, v)
    /\ string_at buffer (OSCMessageView.typeTags v) = Some (repeat (chr "i") 65)
    /\ OSCMessageView.argCount v = 0.
Proof.
  cbv zeta. eexists. split; [vm_compute; reflexivity|].
  split; vm_compute; reflexivity.
Qed.
